(** * dynarmic backend core: constant propagation and the x64 register allocator

    A shallow embedding of
    - [src/ir_opt/constant_propagation_pass.cpp] (module [ConstProp]) and
    - [src/backend_x64/reg_alloc.cpp] (module [X64]),
    over a common model of the IR data types (module [IR]).

    Assertion failures are results of the model: a folder returns [None],
    an allocator operation returns [Fail e st] with the state at the point of
    the failed assertion. *)

From Stdlib Require Import ZArith List Bool Lia Permutation.
From stdpp Require Import base numbers option list.

Local Open Scope Z_scope.

(* ================================================================== *)
(** * The IR data model *)
(* ================================================================== *)

Module IR.

(** An [IR::Inst*] is the index of the instruction in its block. *)
Abbreviation InstId := nat (only parsing).

(** The widths an immediate can have.  The folders build 1-, 8-, 16-, 32-
    and 64-bit immediates ([IR::Value{bool}], [IR::Value{u8}], ...). *)
Inductive ImmType := U1 | U8 | U16 | U32 | U64.

Definition bit_width (t : ImmType) : Z :=
  match t with U1 => 1 | U8 => 8 | U16 => 16 | U32 => 32 | U64 => 64 end.

(** Modelled from the spec: [IR::Value] (frontend/ir/value.h is not among the
    sources): a tagged union of an immediate of one of the primitive widths,
    a reference to an instruction, or the empty value. *)
Inductive Value :=
| VEmpty
| VImm (t : ImmType) (v : Z)
| VInst (i : InstId).

(** C++ integer conversions [static_cast<uN>]. *)
Definition cast_u8 (x : Z) : Z := x mod 2 ^ 8.
Definition cast_u16 (x : Z) : Z := x mod 2 ^ 16.
Definition cast_u32 (x : Z) : Z := x mod 2 ^ 32.
Definition cast_u64 (x : Z) : Z := x mod 2 ^ 64.

(** Modelled from the spec: the predicates and accessors of [IR::Value]
    ([is_immediate], [is_empty], [is_zero], [has_all_bits_set],
    [is_unsigned_immediate(n)], and the immediate widened to 64 bits). *)
Definition IsImmediate (v : Value) : bool :=
  match v with VImm _ _ => true | _ => false end.

Definition IsEmpty (v : Value) : bool :=
  match v with VEmpty => true | _ => false end.

(** Modelled from the spec: the immediate widened to 64 bits, unsigned; an
    assertion fails on a value that is not an immediate. *)
Definition GetImmediateAsU64 (v : Value) : option Z :=
  match v with
  | VImm t x => Some (x mod 2 ^ bit_width t)
  | _ => None
  end.

(** Modelled from the spec: the immediate widened to 64 bits, signed (a
    [bool] has no sign). *)
Definition GetImmediateAsS64 (v : Value) : option Z :=
  match v with
  | VImm U1 x => Some (x mod 2)
  | VImm t x =>
      let u := x mod 2 ^ bit_width t in
      Some (if 2 ^ (bit_width t - 1) <=? u then u - 2 ^ bit_width t else u)
  | _ => None
  end.

Definition IsUnsignedImmediate (v : Value) (n : Z) : bool :=
  match GetImmediateAsU64 v with
  | Some x => x =? n
  | None => false
  end.

Definition IsZero (v : Value) : bool := IsUnsignedImmediate v 0.

Definition HasAllBitsSet (v : Value) : bool :=
  match v with
  | VImm t x => x mod 2 ^ bit_width t =? 2 ^ bit_width t - 1
  | _ => false
  end.

#[global] Instance ImmType_eq_dec : EqDecision ImmType.
Proof. solve_decision. Defined.

#[global] Instance Value_eq_dec : EqDecision Value.
Proof. solve_decision. Defined.

(** The opcodes the constant propagation pass dispatches on, the carry
    pseudo-operation, and every other opcode of the closed enum. *)
Inductive Opcode :=
| GetCarryFromOp
| LeastSignificantWord | MostSignificantWord | LeastSignificantHalf
| LeastSignificantByte | MostSignificantBit
| LogicalShiftLeft32 | LogicalShiftLeft64
| LogicalShiftRight32 | LogicalShiftRight64
| ArithmeticShiftRight32 | ArithmeticShiftRight64
| RotateRight32 | RotateRight64
| Mul32 | Mul64
| SignedDiv32 | SignedDiv64 | UnsignedDiv32 | UnsignedDiv64
| And32 | And64 | Eor32 | Eor64 | Or32 | Or64 | Not32 | Not64
| SignExtendByteToWord | SignExtendHalfToWord
| SignExtendByteToLong | SignExtendHalfToLong | SignExtendWordToLong
| ZeroExtendByteToWord | ZeroExtendHalfToWord
| ZeroExtendByteToLong | ZeroExtendHalfToLong | ZeroExtendWordToLong
| ByteReverseWord | ByteReverseHalf | ByteReverseDual
| OtherOpcode (tag : nat).

#[global] Instance Opcode_eq_dec : EqDecision Opcode.
Proof. solve_decision. Defined.

Definition Opcode_eqb (a b : Opcode) : bool := bool_decide (a = b).

(** Modelled from the spec: [IR::Inst] (frontend/ir/microinstruction.h is not
    among the sources): an opcode, the ordered operands, and the associated
    pseudo-operations, discoverable by opcode tag.  The consumers of an
    instruction are the operands of the block that refer to it (see
    [use_count]). *)
Record Inst := mkInst {
  opcode : Opcode;
  args : list Value;
  pseudo_ops : list (Opcode * InstId)
}.

(** An [IR::Block] is the ordered sequence of its instructions (its terminal
    is not read by the code modelled here). *)
Abbreviation Block := (list Inst) (only parsing).

Definition NumArgs (inst : Inst) : nat := length (args inst).

(** Modelled from the spec: [inst.GetArg(i)]; an assertion fails unless
    [i] is an operand index. *)
Definition GetArg (inst : Inst) (i : nat) : option Value := args inst !! i.

(** Modelled from the spec: [are_all_args_immediates] and
    [get_associated_pseudo_operation(opcode)]. *)
Definition AreAllArgsImmediates (inst : Inst) : bool :=
  forallb IsImmediate (args inst).

Definition GetAssociatedPseudoOperation (inst : Inst) (op : Opcode)
  : option InstId :=
  snd <$> find (fun p => Opcode_eqb (fst p) op) (pseudo_ops inst).

(** Modelled from the spec: [inst.SetArg(i, v)] on instruction [k]; an
    assertion fails unless [i] is an operand index. *)
Definition SetArg (b : Block) (k : InstId) (i : nat) (v : Value)
  : option Block :=
  inst ← b !! k;
  if decide (i < NumArgs inst)%nat
  then Some (<[k := mkInst (opcode inst) (<[i := v]> (args inst))
                           (pseudo_ops inst)]> b)
  else None.

Definition subst_value (k : InstId) (v a : Value) : Value :=
  match a with
  | VInst i => if Nat.eqb i k then v else a
  | _ => a
  end.

Definition subst_inst (k : InstId) (v : Value) (inst : Inst) : Inst :=
  mkInst (opcode inst) (subst_value k v <$> args inst) (pseudo_ops inst).

(** Modelled from the spec: [Inst::ReplaceUsesWith]: rewrites every use of
    instruction [k] in the block to refer to [v]. *)
Definition ReplaceUsesWith (b : Block) (k : InstId) (v : Value) : Block :=
  subst_inst k v <$> b.

(** The number of operands of the block that refer to instruction [k]. *)
Definition use_count (b : Block) (k : InstId) : nat :=
  sum_list ((fun inst => length (filter (fun a => a = VInst k) (args inst)))
            <$> b).

(** The operand [p] of instruction [j]. *)
Definition arg_at (b : Block) (j : InstId) (p : nat) : option Value :=
  inst ← b !! j; args inst !! p.

(** The block lists definitions before uses (SSA order): the operands of
    instruction [j] refer to instructions before [j], and the pseudo-operations
    associated with [j] come after [j]. *)
Definition refs_below (j : nat) (a : Value) : bool :=
  match a with VInst i => Nat.ltb i j | _ => true end.

Definition inst_ordered (j : nat) (inst : Inst) : bool :=
  forallb (refs_below j) (args inst)
  && forallb (fun p => Nat.ltb j (snd p)) (pseudo_ops inst).

Fixpoint ordered_from (j : nat) (b : Block) : bool :=
  match b with
  | [] => true
  | inst :: b' => inst_ordered j inst && ordered_from (S j) b'
  end.

Definition ssa_ordered (b : Block) : bool := ordered_from 0 b.

End IR.

(* ================================================================== *)
(** * The constant propagation pass
      (src/ir_opt/constant_propagation_pass.cpp) *)
(* ================================================================== *)

Module ConstProp.
Import IR.

(** Modelled from the spec: [Common::Swap16/32/64] and [Common::Bit<N>]
    (common/bit_util.h is not among the sources): byte reversal of a 16-,
    32- or 64-bit integer, and bit [N] of an integer. *)
Definition byte_of (x : Z) (i : Z) : Z := Z.land (Z.shiftr x (8 * i)) 255.

Definition Swap16 (x : Z) : Z :=
  Z.lor (Z.shiftl (byte_of x 0) 8) (byte_of x 1).

Definition Swap32 (x : Z) : Z :=
  Z.lor (Z.shiftl (Swap16 x) 16) (Swap16 (Z.shiftr x 16)).

Definition Swap64 (x : Z) : Z :=
  Z.lor (Z.shiftl (Swap32 x) 32) (Swap32 (Z.shiftr x 32)).

Definition Bit (n : Z) (x : Z) : bool := Z.testbit x n.

Definition of_bool (c : bool) : Value := VImm U1 (if c then 1 else 0).

(** [ReplaceUsesWith(inst, is_32_bit, value)], lines 25-31. *)
Definition ReplaceUsesWith (b : Block) (k : InstId) (is_32_bit : bool)
    (value : Z) : Block :=
  if is_32_bit
  then IR.ReplaceUsesWith b k (VImm U32 (cast_u32 value))
  else IR.ReplaceUsesWith b k (VImm U64 value).

(** [Value(is_32_bit, value)], lines 33-35. *)
Definition Value_ (is_32_bit : bool) (value : Z) : Value :=
  if is_32_bit then VImm U32 (cast_u32 value) else VImm U64 value.

(** [rhs.GetInstRecursive()]: the instruction an operand refers to.  Every
    use of a replaced instruction has been rewritten, so there is no chain
    to follow. *)
Definition GetInstRecursive (b : Block) (v : Value) : option Inst :=
  match v with
  | VInst i => b !! i
  | _ => None
  end.

(** [FoldCommutative], lines 37-74.  Returns the block and the [bool] the
    C++ function returns. *)
Definition FoldCommutative (b : Block) (k : InstId) (is_32_bit : bool)
    (imm_fn : Z -> Z -> Z) : option (Block * bool) :=
  inst ← b !! k;
  lhs ← GetArg inst 0;
  rhs ← GetArg inst 1;
  let is_lhs_immediate := IsImmediate lhs in
  let is_rhs_immediate := IsImmediate rhs in
  if is_lhs_immediate && is_rhs_immediate then
    x ← GetImmediateAsU64 lhs;
    y ← GetImmediateAsU64 rhs;
    Some (ReplaceUsesWith b k is_32_bit (imm_fn x y), false)
  else
    b1 ← (if is_lhs_immediate && negb is_rhs_immediate then
            rhs_inst ← GetInstRecursive b rhs;
            let normalize := b' ← SetArg b k 0 rhs; SetArg b' k 1 lhs in
            if Opcode_eqb (opcode rhs_inst) (opcode inst) then
              rhs_arg1 ← GetArg rhs_inst 1;
              if IsImmediate rhs_arg1 then
                x ← GetImmediateAsU64 lhs;
                y ← GetImmediateAsU64 rhs_arg1;
                let combined := imm_fn x y in
                rhs_arg0 ← GetArg rhs_inst 0;
                b' ← SetArg b k 0 rhs_arg0;
                SetArg b' k 1 (Value_ is_32_bit combined)
              else normalize
            else normalize
          else Some b);
    b2 ← (if negb is_lhs_immediate && is_rhs_immediate then
            lhs_inst ← GetInstRecursive b1 lhs;
            if Opcode_eqb (opcode lhs_inst) (opcode inst) then
              lhs_arg1 ← GetArg lhs_inst 1;
              if IsImmediate lhs_arg1 then
                x ← GetImmediateAsU64 rhs;
                y ← GetImmediateAsU64 lhs_arg1;
                let combined := imm_fn x y in
                lhs_arg0 ← GetArg lhs_inst 0;
                b' ← SetArg b1 k 0 lhs_arg0;
                SetArg b' k 1 (Value_ is_32_bit combined)
              else Some b1
            else Some b1
          else Some b1);
    Some (b2, true).

(** The four [imm_fn] lambdas, on [u64]. *)
Definition imm_and (a b : Z) : Z := Z.land a b.
Definition imm_eor (a b : Z) : Z := Z.lxor a b.
Definition imm_or (a b : Z) : Z := Z.lor a b.
Definition imm_mul (a b : Z) : Z := cast_u64 (a * b).

(** [FoldAND], lines 84-93. *)
Definition FoldAND (b : Block) (k : InstId) (is_32_bit : bool)
  : option Block :=
  '(b1, continue) ← FoldCommutative b k is_32_bit imm_and;
  if continue : bool then
    inst ← b1 !! k;
    rhs ← GetArg inst 1;
    if IsZero rhs then Some (ReplaceUsesWith b1 k is_32_bit 0)
    else if HasAllBitsSet rhs then
      a0 ← GetArg inst 0; Some (IR.ReplaceUsesWith b1 k a0)
    else Some b1
  else Some b1.

(** [FoldByteReverse], lines 99-116. *)
Definition FoldByteReverse (b : Block) (k : InstId) (op : Opcode)
  : option Block :=
  inst ← b !! k;
  operand ← GetArg inst 0;
  if negb (IsImmediate operand) then Some b
  else
    x ← GetImmediateAsU64 operand;
    if Opcode_eqb op ByteReverseWord then
      Some (IR.ReplaceUsesWith b k (VImm U32 (Swap32 (cast_u32 x))))
    else if Opcode_eqb op ByteReverseHalf then
      Some (IR.ReplaceUsesWith b k (VImm U16 (Swap16 (cast_u16 x))))
    else
      Some (IR.ReplaceUsesWith b k (VImm U64 (Swap64 x))).

(** [FoldDivide], lines 124-144.  The signed quotient of line 135 is an
    [s64] division: on the least [s64] and -1 it overflows, the behaviour of
    the source is undefined, and no block is returned. *)
Definition FoldDivide (b : Block) (k : InstId) (is_32_bit is_signed : bool)
  : option Block :=
  inst ← b !! k;
  rhs ← GetArg inst 1;
  if IsZero rhs then Some (ReplaceUsesWith b k is_32_bit 0)
  else
    lhs ← GetArg inst 0;
    if IsImmediate lhs && IsImmediate rhs then
      if is_signed then
        x ← GetImmediateAsS64 lhs;
        y ← GetImmediateAsS64 rhs;
        if (x =? - 2 ^ 63) && (y =? -1) then None
        else Some (ReplaceUsesWith b k is_32_bit (cast_u64 (Z.quot x y)))
      else
        x ← GetImmediateAsU64 lhs;
        y ← GetImmediateAsU64 rhs;
        Some (ReplaceUsesWith b k is_32_bit (Z.quot x y))
    else if IsUnsignedImmediate rhs 1 then
      Some (IR.ReplaceUsesWith b k lhs)
    else Some b.

(** [FoldEOR], lines 152-159. *)
Definition FoldEOR (b : Block) (k : InstId) (is_32_bit : bool)
  : option Block :=
  '(b1, continue) ← FoldCommutative b k is_32_bit imm_eor;
  if continue : bool then
    inst ← b1 !! k;
    rhs ← GetArg inst 1;
    if IsZero rhs then a0 ← GetArg inst 0; Some (IR.ReplaceUsesWith b1 k a0)
    else Some b1
  else Some b1.

(** [FoldLeastSignificantByte/Half/Word], lines 161-186. *)
Definition FoldLeastSignificant (cast : Z -> Z) (t : ImmType) (b : Block)
    (k : InstId) : option Block :=
  inst ← b !! k;
  if negb (AreAllArgsImmediates inst) then Some b
  else
    operand ← GetArg inst 0;
    x ← GetImmediateAsU64 operand;
    Some (IR.ReplaceUsesWith b k (VImm t (cast x))).

Definition FoldLeastSignificantByte := FoldLeastSignificant cast_u8 U8.
Definition FoldLeastSignificantHalf := FoldLeastSignificant cast_u16 U16.
Definition FoldLeastSignificantWord := FoldLeastSignificant cast_u32 U32.

(** [FoldMostSignificantBit], lines 188-195. *)
Definition FoldMostSignificantBit (b : Block) (k : InstId) : option Block :=
  inst ← b !! k;
  if negb (AreAllArgsImmediates inst) then Some b
  else
    operand ← GetArg inst 0;
    x ← GetImmediateAsU64 operand;
    Some (IR.ReplaceUsesWith b k (of_bool (negb (Z.shiftr x 31 =? 0)))).

(** [FoldMostSignificantWord], lines 197-209. *)
Definition FoldMostSignificantWord (b : Block) (k : InstId) : option Block :=
  inst ← b !! k;
  let carry_inst := GetAssociatedPseudoOperation inst GetCarryFromOp in
  if negb (AreAllArgsImmediates inst) then Some b
  else
    operand ← GetArg inst 0;
    x ← GetImmediateAsU64 operand;
    let b1 := match carry_inst with
              | Some c => IR.ReplaceUsesWith b c (of_bool (Bit 31 x))
              | None => b
              end in
    Some (IR.ReplaceUsesWith b1 k (VImm U32 (cast_u32 (Z.shiftr x 32)))).

(** [FoldMultiply], lines 219-228. *)
Definition FoldMultiply (b : Block) (k : InstId) (is_32_bit : bool)
  : option Block :=
  '(b1, continue) ← FoldCommutative b k is_32_bit imm_mul;
  if continue : bool then
    inst ← b1 !! k;
    rhs ← GetArg inst 1;
    if IsZero rhs then Some (ReplaceUsesWith b1 k is_32_bit 0)
    else if IsUnsignedImmediate rhs 1 then
      a0 ← GetArg inst 0; Some (IR.ReplaceUsesWith b1 k a0)
    else Some b1
  else Some b1.

(** [FoldNOT], lines 231-240; [~x] on [u64]. *)
Definition FoldNOT (b : Block) (k : InstId) (is_32_bit : bool)
  : option Block :=
  inst ← b !! k;
  operand ← GetArg inst 0;
  if negb (IsImmediate operand) then Some b
  else
    x ← GetImmediateAsU64 operand;
    Some (ReplaceUsesWith b k is_32_bit (2 ^ 64 - 1 - x)).

(** [FoldOR], lines 248-255. *)
Definition FoldOR (b : Block) (k : InstId) (is_32_bit : bool)
  : option Block :=
  '(b1, continue) ← FoldCommutative b k is_32_bit imm_or;
  if continue : bool then
    inst ← b1 !! k;
    rhs ← GetArg inst 1;
    if IsZero rhs then a0 ← GetArg inst 0; Some (IR.ReplaceUsesWith b1 k a0)
    else Some b1
  else Some b1.

(** [FoldShifts], lines 257-275. *)
Definition FoldShifts (b : Block) (k : InstId) : option Block :=
  inst ← b !! k;
  let carry_inst := GetAssociatedPseudoOperation inst GetCarryFromOp in
  b1 ← (if Nat.eqb (NumArgs inst) 3 && negb (bool_decide (is_Some carry_inst))
        then SetArg b k 2 (of_bool false)
        else Some b);
  inst1 ← b1 !! k;
  shift_amount ← GetArg inst1 1;
  if negb (IsZero shift_amount) then Some b1
  else
    b2 ← match carry_inst with
         | Some c => a2 ← GetArg inst1 2; Some (IR.ReplaceUsesWith b1 c a2)
         | None => Some b1
         end;
    inst2 ← b2 !! k;
    a0 ← GetArg inst2 0;
    Some (IR.ReplaceUsesWith b2 k a0).

(** [FoldSignExtendXToWord/Long], [FoldZeroExtendXToWord/Long],
    lines 277-311. *)
Definition FoldExtend (get : Value -> option Z) (t : ImmType)
    (cast : Z -> Z) (b : Block) (k : InstId) : option Block :=
  inst ← b !! k;
  if negb (AreAllArgsImmediates inst) then Some b
  else
    a0 ← GetArg inst 0;
    value ← get a0;
    Some (IR.ReplaceUsesWith b k (VImm t (cast value))).

Definition FoldSignExtendXToWord := FoldExtend GetImmediateAsS64 U32 cast_u32.
Definition FoldSignExtendXToLong := FoldExtend GetImmediateAsS64 U64 cast_u64.
Definition FoldZeroExtendXToWord := FoldExtend GetImmediateAsU64 U32 cast_u32.
Definition FoldZeroExtendXToLong := FoldExtend GetImmediateAsU64 U64 id.

(** The body of the loop of [ConstantPropagation], lines 316-397, for the
    instruction at index [k]. *)
Definition ConstantPropagation_inst (b : Block) (k : InstId)
  : option Block :=
  inst ← b !! k;
  let opcode := opcode inst in
  match opcode with
  | LeastSignificantWord => FoldLeastSignificantWord b k
  | MostSignificantWord => FoldMostSignificantWord b k
  | LeastSignificantHalf => FoldLeastSignificantHalf b k
  | LeastSignificantByte => FoldLeastSignificantByte b k
  | MostSignificantBit => FoldMostSignificantBit b k
  | LogicalShiftLeft32 | LogicalShiftLeft64
  | LogicalShiftRight32 | LogicalShiftRight64
  | ArithmeticShiftRight32 | ArithmeticShiftRight64
  | RotateRight32 | RotateRight64 => FoldShifts b k
  | Mul32 | Mul64 => FoldMultiply b k (Opcode_eqb opcode Mul32)
  | SignedDiv32 | SignedDiv64 =>
      FoldDivide b k (Opcode_eqb opcode SignedDiv32) true
  | UnsignedDiv32 | UnsignedDiv64 =>
      FoldDivide b k (Opcode_eqb opcode UnsignedDiv32) false
  | And32 | And64 => FoldAND b k (Opcode_eqb opcode And32)
  | Eor32 | Eor64 => FoldEOR b k (Opcode_eqb opcode Eor32)
  | Or32 | Or64 => FoldOR b k (Opcode_eqb opcode Or32)
  | Not32 | Not64 => FoldNOT b k (Opcode_eqb opcode Not32)
  | SignExtendByteToWord | SignExtendHalfToWord => FoldSignExtendXToWord b k
  | SignExtendByteToLong | SignExtendHalfToLong | SignExtendWordToLong =>
      FoldSignExtendXToLong b k
  | ZeroExtendByteToWord | ZeroExtendHalfToWord => FoldZeroExtendXToWord b k
  | ZeroExtendByteToLong | ZeroExtendHalfToLong | ZeroExtendWordToLong =>
      FoldZeroExtendXToLong b k
  | ByteReverseWord | ByteReverseHalf | ByteReverseDual =>
      FoldByteReverse b k opcode
  | _ => Some b
  end.

(** The sweep over the instructions [ks], in order. *)
Fixpoint sweep (ks : list InstId) (b : Block) : option Block :=
  match ks with
  | [] => Some b
  | k :: ks' => b' ← ConstantPropagation_inst b k; sweep ks' b'
  end.

(** [ConstantPropagation(block)], lines 314-399: one forward sweep. *)
Definition ConstantPropagation (b : Block) : option Block :=
  sweep (seq 0 (length b)) b.

End ConstProp.

(* ================================================================== *)
(** * Stating the properties of the pass *)
(* ================================================================== *)

Module ConstPropSpec.
Import IR ConstProp.


(** [b'] is [b] with every use of instruction [k] rewritten to [v], and
    nothing else changed. *)
Definition uses_replaced (b b' : Block) (k : InstId) (v : Value) : Prop :=
  length b' = length b /\
  (forall j, opcode <$> b' !! j = opcode <$> b !! j) /\
  (forall j p, arg_at b j p = Some (VInst k) -> arg_at b' j p = Some v) /\
  (forall j p a, arg_at b j p = Some a -> a <> VInst k ->
                 arg_at b' j p = Some a) /\
  (v <> VInst k -> use_count b' k = 0%nat).

Definition is_division (o : Opcode) : bool :=
  match o with
  | SignedDiv32 | SignedDiv64 | UnsignedDiv32 | UnsignedDiv64 => true
  | _ => false
  end.

Definition is_shift (o : Opcode) : bool :=
  match o with
  | LogicalShiftLeft32 | LogicalShiftLeft64
  | LogicalShiftRight32 | LogicalShiftRight64
  | ArithmeticShiftRight32 | ArithmeticShiftRight64
  | RotateRight32 | RotateRight64 => true
  | _ => false
  end.

(** The commutative foldable operations, mathematically (on unbounded
    integers). *)
Inductive BinOp := OpAnd | OpOr | OpEor | OpMul.

Definition exact (op : BinOp) (x y : Z) : Z :=
  match op with
  | OpAnd => Z.land x y
  | OpOr => Z.lor x y
  | OpEor => Z.lxor x y
  | OpMul => x * y
  end.

Definition commutative_op (o : Opcode) : option (BinOp * ImmType) :=
  match o with
  | And32 => Some (OpAnd, U32) | And64 => Some (OpAnd, U64)
  | Or32 => Some (OpOr, U32) | Or64 => Some (OpOr, U64)
  | Eor32 => Some (OpEor, U32) | Eor64 => Some (OpEor, U64)
  | Mul32 => Some (OpMul, U32) | Mul64 => Some (OpMul, U64)
  | _ => None
  end.

(** The least number of operands the folder of an opcode reads. *)
Definition min_args (o : Opcode) : nat :=
  match o with
  | GetCarryFromOp | OtherOpcode _ => 0
  | LeastSignificantWord | MostSignificantWord | LeastSignificantHalf
  | LeastSignificantByte | MostSignificantBit | Not32 | Not64
  | SignExtendByteToWord | SignExtendHalfToWord
  | SignExtendByteToLong | SignExtendHalfToLong | SignExtendWordToLong
  | ZeroExtendByteToWord | ZeroExtendHalfToWord
  | ZeroExtendByteToLong | ZeroExtendHalfToLong | ZeroExtendWordToLong
  | ByteReverseWord | ByteReverseHalf | ByteReverseDual => 1
  | _ => 2
  end.

(** An instruction the pass dispatches on has the operands its folder reads,
    none of them empty; a shift with an associated carry pseudo-operation
    has its third operand. *)
Definition operands_ok (inst : Inst) : bool :=
  match opcode inst with
  | GetCarryFromOp | OtherOpcode _ => true
  | _ =>
      Nat.leb (min_args (opcode inst)) (NumArgs inst)
      && forallb (fun a => negb (IR.IsEmpty a)) (args inst)
      && (if is_shift (opcode inst)
          then match GetAssociatedPseudoOperation inst GetCarryFromOp with
               | Some _ => Nat.leb 3 (NumArgs inst)
               | None => true
               end
          else true)
  end.

(** A well-formed block: in SSA order, with well-formed operands. *)
Definition well_formed (b : Block) : bool :=
  ssa_ordered b && forallb operands_ok b.

(** The property L2 asks of an instruction: if it is a commutative
    operation with an immediate in position 0, then position 1 holds an
    immediate too. *)
Definition normalized (inst : Inst) : Prop :=
  is_Some (commutative_op (opcode inst)) ->
  forall a0 a1, GetArg inst 0 = Some a0 -> GetArg inst 1 = Some a1 ->
                IsImmediate a0 = true -> IsImmediate a1 = true.

(** A value that may replace a reference to instruction [k], or become an
    operand of [k]. *)
Definition value_ok (k : nat) (v : Value) : bool :=
  negb (IR.IsEmpty v) && refs_below k v.

Definition WF (b : Block) : Prop :=
  forall j inst, b !! j = Some inst ->
                 inst_ordered j inst = true /\ operands_ok inst = true.

(** [b'] results from [b] by a step on instruction [k]: still well-formed,
    the instructions before [k] untouched, the opcode of [k] kept. *)
Definition extends (k : nat) (b b' : Block) : Prop :=
  WF b' /\ length b' = length b /\
  (forall j, (j < k)%nat -> b' !! j = b !! j) /\
  opcode <$> b' !! k = opcode <$> b !! k.

(** The outcome of a step on instruction [k]: it returns a block that
    extends [b], in which instruction [k] is normalized. *)
Definition step_ok (k : nat) (b : Block) (r : option Block) : Prop :=
  exists b', r = Some b' /\ extends k b b' /\
             forall inst', b' !! k = Some inst' -> normalized inst'.

(** A block with a division by zero (1), a foldable AND (2), and a shift by
    zero (3) whose carry is read by the pseudo-operation (4). *)
Definition example_block : Block :=
  [ mkInst (OtherOpcode 0) [] [];
    mkInst UnsignedDiv32 [VInst 0; VImm U32 0] [];
    mkInst And32 [VImm U32 65295; VImm U32 4080] [];
    mkInst LogicalShiftLeft32 [VInst 0; VImm U8 0; VImm U1 1]
           [(GetCarryFromOp, 4%nat)];
    mkInst GetCarryFromOp [VInst 3] [];
    mkInst (OtherOpcode 1) [VInst 1; VInst 2; VInst 3; VInst 4] [] ].

(** A block whose commutative operations have their immediate on the
    left: a plain one (1), one fused with (1) (2), and one whose left operand
    is folded before it is reached (4). *)
Definition unnormalized_block : Block :=
  [ mkInst (OtherOpcode 0) [] [];
    mkInst And32 [VImm U32 255; VInst 0] [];
    mkInst And32 [VImm U32 61680; VInst 1] [];
    mkInst Not32 [VImm U32 0] [];
    mkInst Mul32 [VInst 3; VInst 2] [];
    mkInst (OtherOpcode 1) [VInst 2; VInst 4] [] ].

(** The output width of a width-suffixed opcode. *)
Definition output_type (o : Opcode) : ImmType :=
  match o with
  | SignedDiv32 | UnsignedDiv32 => U32
  | _ => U64
  end.

(** [b'] is [b] with every use of [k] rewritten to [a0] and every use of the
    carry pseudo-operation [c] rewritten to [a2]. *)
Definition result_and_carry_replaced (b b' : Block) (k c : InstId)
    (a0 a2 : Value) : Prop :=
  length b' = length b /\
  (forall j, opcode <$> b' !! j = opcode <$> b !! j) /\
  (forall j p, arg_at b j p = Some (VInst k) -> arg_at b' j p = Some a0) /\
  (forall j p, arg_at b j p = Some (VInst c) -> arg_at b' j p = Some a2) /\
  (forall j p a, arg_at b j p = Some a -> a <> VInst k -> a <> VInst c ->
                 arg_at b' j p = Some a) /\
  use_count b' k = 0%nat /\ use_count b' c = 0%nat.

(** Instruction [inst] with operand [i] set to [v]. *)
Definition with_arg (inst : Inst) (i : nat) (v : Value) : Inst :=
  mkInst (opcode inst) (<[i:=v]> (args inst)) (pseudo_ops inst).

(** What the pass keeps of an instruction: its opcode, the number of its
    operands and its pseudo-operations. *)
Definition shape (inst : Inst) : Opcode * nat * list (Opcode * InstId) :=
  (opcode inst, NumArgs inst, pseudo_ops inst).

(** No operand of the instruction is an immediate. *)
Definition no_immediate (inst : Inst) : bool :=
  forallb (fun a => negb (IsImmediate a)) (args inst).

(** The shift takes a carry-in that the pass leaves alone: it has no third
    operand, or its carry is read by a pseudo-operation. *)
Definition carry_in_kept (inst : Inst) : bool :=
  negb (is_shift (opcode inst))
  || negb (Nat.eqb (NumArgs inst) 3)
  || bool_decide (is_Some (GetAssociatedPseudoOperation inst GetCarryFromOp)).

(** A block without constants: a multiplication, a division, and a shift
    whose carry is read by the pseudo-operation (5). *)
Definition constant_free_block : Block :=
  [ mkInst (OtherOpcode 0) [] [];
    mkInst (OtherOpcode 0) [] [];
    mkInst Mul32 [VInst 0; VInst 1] [];
    mkInst UnsignedDiv32 [VInst 2; VInst 1] [];
    mkInst LogicalShiftLeft32 [VInst 3; VInst 0; VInst 1]
           [(GetCarryFromOp, 5%nat)];
    mkInst GetCarryFromOp [VInst 4] [] ].

Definition is_signed_division (o : Opcode) : bool :=
  match o with SignedDiv32 | SignedDiv64 => true | _ => false end.

(** The signed division of line 135 on the least [s64] and -1, whose
    quotient is not an [s64]. *)
Definition division_overflows (inst : Inst) : bool :=
  is_signed_division (opcode inst) &&
  match GetArg inst 0, GetArg inst 1 with
  | Some lhs, Some rhs =>
      IsImmediate lhs && IsImmediate rhs &&
      match GetImmediateAsS64 lhs, GetImmediateAsS64 rhs with
      | Some x, Some y => (x =? - 2 ^ 63) && (y =? -1)
      | _, _ => false
      end
  | _, _ => false
  end.

(** The pass reaches such a division: instruction [k] is one when the sweep
    has gone through the instructions before it. *)
Definition reaches_overflow (b : Block) : Prop :=
  exists k b1 inst,
    (k < length b)%nat /\ sweep (seq 0 k) b = Some b1 /\
    b1 !! k = Some inst /\ division_overflows inst = true.

(** [inst'] is [inst] up to its operands that refer to instructions: the
    shape and the immediate operands are those of [inst]. *)
Definition immediates_kept (inst inst' : Inst) : Prop :=
  shape inst' = shape inst /\
  forall p t x, GetArg inst p = Some (VImm t x) ->
                GetArg inst' p = Some (VImm t x).

(** The instructions other than [k] keep their shape and their immediate
    operands from [b] to [b']. *)
Definition others_kept (k : InstId) (b b' : Block) : Prop :=
  forall i inst, i <> k -> b !! i = Some inst ->
                 exists inst', b' !! i = Some inst' /\
                               immediates_kept inst inst'.

(** No instruction without a use in [b] has one in [b']. *)
Definition no_new_refs (b b' : Block) : Prop :=
  forall i, use_count b i = 0%nat -> use_count b' i = 0%nat.

(** [v] refers to no instruction that is without a use in [b]. *)
Definition referred_in (b : Block) (v : Value) : Prop :=
  forall i, use_count b i = 0%nat -> v <> VInst i.

(** What a step on instruction [k] keeps. *)
Definition step_keeps (k : InstId) (b b' : Block) : Prop :=
  others_kept k b b' /\ no_new_refs b b'.

(** The operand of a division as the opcode reads it. *)
Definition division_operand (o : Opcode) (v : Value) : option Z :=
  if is_signed_division o then GetImmediateAsS64 v else GetImmediateAsU64 v.

(** The output width of the opcodes with one operand. *)
Definition not_type (o : Opcode) : option ImmType :=
  match o with Not32 => Some U32 | Not64 => Some U64 | _ => None end.

(** The extension opcodes: whether the operand is read signed, and the
    output width. *)
Definition extension (o : Opcode) : option (bool * ImmType) :=
  match o with
  | SignExtendByteToWord | SignExtendHalfToWord => Some (true, U32)
  | SignExtendByteToLong | SignExtendHalfToLong | SignExtendWordToLong =>
      Some (true, U64)
  | ZeroExtendByteToWord | ZeroExtendHalfToWord => Some (false, U32)
  | ZeroExtendByteToLong | ZeroExtendHalfToLong | ZeroExtendWordToLong =>
      Some (false, U64)
  | _ => None
  end.

Definition byte_reverse_type (o : Opcode) : option ImmType :=
  match o with
  | ByteReverseHalf => Some U16
  | ByteReverseWord => Some U32
  | ByteReverseDual => Some U64
  | _ => None
  end.

(** [b'] is [b] with every use of instruction [k] by another instruction
    rewritten to [v] and the other operands of the other instructions
    unchanged; instruction [k] itself may have got other operands. *)
Definition folded_to (b b' : Block) (k : InstId) (v : Value) : Prop :=
  length b' = length b /\
  (forall j p, j <> k -> arg_at b j p = Some (VInst k) ->
               arg_at b' j p = Some v) /\
  (forall j p a, j <> k -> arg_at b j p = Some a -> a <> VInst k ->
                 arg_at b' j p = Some a) /\
  use_count b' k = 0%nat.

(** The operations with an absorbing zero. *)
Definition absorbs_zero (o : Opcode) : option ImmType :=
  match o with
  | And32 | Mul32 => Some U32
  | And64 | Mul64 => Some U64
  | _ => None
  end.

(** A block of folds on constants: a division (0), a complement (1), the
    two halves of a 64-bit constant (2, 3) with the carry of the high half
    (4), a sign extension (5), a byte reversal (6), a division by one (8), a
    product with zero (9), a 32-bit shift whose carry nobody reads (10), an
    AND of an AND with two constants (11, 12), and a sign test (14). *)
Definition constants_block : Block :=
  [ mkInst SignedDiv32 [VImm U32 4294967289; VImm U32 2] [];
    mkInst Not32 [VImm U32 255] [];
    mkInst LeastSignificantWord [VImm U64 81985529216486895] [];
    mkInst MostSignificantWord [VImm U64 81985529216486895]
           [(GetCarryFromOp, 4%nat)];
    mkInst GetCarryFromOp [VInst 3] [];
    mkInst SignExtendByteToWord [VImm U8 128] [];
    mkInst ByteReverseWord [VImm U32 305419896] [];
    mkInst (OtherOpcode 0) [] [];
    mkInst UnsignedDiv64 [VInst 7; VImm U64 1] [];
    mkInst Mul32 [VImm U32 0; VInst 7] [];
    mkInst LogicalShiftLeft32 [VInst 7; VImm U8 3; VInst 7] [];
    mkInst And32 [VInst 7; VImm U32 65295] [];
    mkInst And32 [VInst 11; VImm U32 4080] [];
    mkInst (OtherOpcode 1)
           [VInst 0; VInst 1; VInst 2; VInst 3; VInst 4; VInst 5; VInst 6;
            VInst 8; VInst 9; VInst 10; VInst 12] [];
    mkInst MostSignificantBit [VImm U32 2147483648] [] ].

End ConstPropSpec.

(* ================================================================== *)
(** * The x64 register allocator (src/backend_x64/reg_alloc.cpp) *)
(* ================================================================== *)

Module X64.
Import IR.
Local Open Scope nat_scope.

(** ** The HostLoc catalog *)

(** A [HostLoc] is the index of the location in the allocator's table. *)
Abbreviation HostLoc := nat (only parsing).
Abbreviation HostLocList := (list nat) (only parsing).

(** Modelled from the spec: the [HostLoc] enumeration and its classification
    helpers (backend_x64/hostloc.h is not among the sources): the sixteen
    general-purpose registers, the sixteen vector registers, then the spill
    slots [0..SpillCount-1]. *)
Definition RAX : HostLoc := 0.
Definition RCX : HostLoc := 1.
Definition RDX : HostLoc := 2.
Definition RBX : HostLoc := 3.
Definition RSP : HostLoc := 4.
Definition RBP : HostLoc := 5.
Definition RSI : HostLoc := 6.
Definition RDI : HostLoc := 7.
Definition R8 : HostLoc := 8.
Definition R9 : HostLoc := 9.
Definition R10 : HostLoc := 10.
Definition R11 : HostLoc := 11.
Definition R12 : HostLoc := 12.
Definition R13 : HostLoc := 13.
Definition R14 : HostLoc := 14.
Definition R15 : HostLoc := 15.
Definition XMM0 : HostLoc := 16.
Definition XMM1 : HostLoc := 17.
Definition XMM2 : HostLoc := 18.
Definition XMM3 : HostLoc := 19.
Definition XMM4 : HostLoc := 20.
Definition XMM5 : HostLoc := 21.
Definition XMM6 : HostLoc := 22.
Definition XMM7 : HostLoc := 23.
Definition XMM8 : HostLoc := 24.
Definition XMM9 : HostLoc := 25.
Definition XMM10 : HostLoc := 26.
Definition XMM11 : HostLoc := 27.
Definition XMM12 : HostLoc := 28.
Definition XMM13 : HostLoc := 29.
Definition XMM14 : HostLoc := 30.
Definition XMM15 : HostLoc := 31.
Definition FirstSpill : HostLoc := 32.

Definition HostLocIsGPR (reg : HostLoc) : bool := reg <=? R15.
Definition HostLocIsXMM (reg : HostLoc) : bool :=
  (XMM0 <=? reg) && (reg <=? XMM15).
Definition HostLocIsRegister (reg : HostLoc) : bool :=
  HostLocIsGPR reg || HostLocIsXMM reg.

(** ** The LocInfo table *)

(** Modelled from the spec: [HostLocInfo] (backend_x64/reg_alloc.h is not
    among the sources): the values held and whether the location is locked
    by the in-flight instruction.  The four lock states are Empty (not
    locked, no value), Idle (not locked, a value resident), Use (locked, a
    value resident) and Scratch (locked, no value): [lock] takes Idle to Use
    and a fresh location to Scratch.  [IsIdle] is what the allocator tests
    for "not allocated" (line 307): the selection discards exactly the
    locked entries, so [IsIdle] is the negation of [IsLocked]. *)
Record HostLocInfo := mkInfo {
  values : list InstId;
  is_being_used : bool
}.

(** A default-constructed [HostLocInfo], written [{}] in the source. *)
Definition empty_info : HostLocInfo := mkInfo [] false.

Definition IsIdle (i : HostLocInfo) : bool := negb (is_being_used i).
Definition IsLocked (i : HostLocInfo) : bool := is_being_used i.
Definition IsEmpty (i : HostLocInfo) : bool :=
  negb (is_being_used i) && bool_decide (values i = []).
Definition IsScratch (i : HostLocInfo) : bool :=
  is_being_used i && bool_decide (values i = []).
Definition IsUse (i : HostLocInfo) : bool :=
  is_being_used i && negb (bool_decide (values i = [])).
Definition ContainsValue (i : HostLocInfo) (inst : InstId) : bool :=
  bool_decide (inst ∈ values i).

Definition Lock (i : HostLocInfo) : HostLocInfo := mkInfo (values i) true.
Definition AddValue (i : HostLocInfo) (inst : InstId) : HostLocInfo :=
  mkInfo (values i ++ [inst]) (is_being_used i).

(** Modelled from the spec: [HostLocInfo::EndOfAllocScope], at every
    instruction boundary: a Use reverts to Idle, a Scratch becomes Empty,
    and every resident value whose use count is zero is evicted. *)
Definition HostLocInfo_EndOfAllocScope (has_uses : InstId -> bool)
    (i : HostLocInfo) : HostLocInfo :=
  mkInfo (filter (fun v => has_uses v = true) (values i)) false.

(** ** Emitted code, allocator state, failures *)

(** The instructions the allocator emits.  An operand is a [HostLoc]: a
    register, or the memory operand [SpillToOpArg] of a spill slot. *)
Inductive X64Inst :=
| movaps (to from : HostLoc)
| mov (to from : HostLoc)
| movsd (to from : HostLoc)
| xchg (a b : HostLoc)
| xor32 (a b : HostLoc)
| mov_imm (to : HostLoc) (imm : Z).

(** The operand descriptor [OpArg]. *)
Inductive OpArg :=
| OpArg_None
| OpArg_Reg (reg : HostLoc)
| OpArg_Spill (loc : HostLoc).

(** The allocator state: the table [hostloc_info], the remaining-use count
    of every instruction of the block ([IR::Inst::use_count]), and the code
    emitted so far. *)
Record State := mkState {
  hostloc_info : HostLoc -> HostLocInfo;
  remaining_uses : InstId -> nat;
  code : list X64Inst
}.

(** The assertions of reg_alloc.cpp, and the two places where the source
    dereferences an optional or reads a value of the wrong kind. *)
Inductive Error :=
| E_ImmediateType          (* line 30: "This should never happen." *)
| E_HostLocToX64           (* lines 36, 42 *)
| E_EmitMove_TODO          (* lines 57, 59: "TODO" *)
| E_InvalidEmitMove        (* line 69 *)
| E_ExchangeXMM            (* line 77: "Exchanging XMM registers is unnecessary" *)
| E_InvalidEmitExchange    (* line 79 *)
| E_AlreadyDefined         (* lines 84, 101, 318: "def_inst has already been defined" *)
| E_UseNotDefined          (* lines 94, 102, 186, 361 *)
| E_DesiredNotRegisters    (* lines 100, 185, 222, 360 *)
| E_UseOpArgImmediate      (* line 168 *)
| E_RanOutOfUses           (* line 187: "use_inst ran out of uses" *)
| E_Assert                 (* plain ASSERT / DEBUG_ASSERT on a LocInfo state *)
| E_InvalidCurrentLocation (* lines 218, 391 *)
| E_AllAllocated           (* line 280 *)
| E_SpillNotRegister       (* line 323 *)
| E_SpillUnoccupied        (* line 324 *)
| E_SpillAllocated         (* line 325 *)
| E_SpillsFull             (* line 340 *)
| E_Bad                    (* line 351 *)
| E_NotImmediate           (* line 396 *)
| E_NoValueLocation        (* [*ValueLocation(...)] of an undefined value *)
| E_NotAnInst              (* [GetInst()] of a value that is no instruction *)
| E_NoRemainingUses.       (* [DecrementRemainingUses] at zero *)

(** The result of an allocator operation: a value and the new state, or a
    failed assertion and the state in which it failed. *)
Inductive Res (A : Type) : Type :=
| Ok (a : A) (st : State)
| Fail (e : Error) (st : State).
Arguments Ok {A} a st.
Arguments Fail {A} e st.

Definition M (A : Type) : Type := State -> Res A.

Definition ret {A : Type} (a : A) : M A := fun st => Ok a st.

Definition bind {A B : Type} (m : M A) (k : A -> M B) : M B :=
  fun st => match m st with
            | Ok a st' => k a st'
            | Fail e st' => Fail e st'
            end.

Definition fail {A : Type} (e : Error) : M A := fun st => Fail e st.

Notation "x <- m ;; k" := (bind m (fun x => k))
  (at level 100, m at next level, right associativity).
Notation "m ;; k" := (bind m (fun _ => k))
  (at level 100, right associativity).

Definition gets {A : Type} (f : State -> A) : M A := fun st => Ok (f st) st.

(** [if (c) a else b] on a condition read from the state. *)
Definition ifM {A : Type} (c : State -> bool) (a b : M A) : M A :=
  fun st => if c st then a st else b st.

Definition when (c : State -> bool) (a : M unit) : M unit :=
  ifM c a (ret tt).

(** [ASSERT(c)] and [ASSERT_MSG(c, ...)]. *)
Definition ASSERT (c : State -> bool) (e : Error) : M unit :=
  ifM c (ret tt) (fail e).

Fixpoint for_each {A : Type} (l : list A) (f : A -> M unit) : M unit :=
  match l with
  | [] => ret tt
  | x :: l' => f x;; for_each l' f
  end.

(** The state at which a run stopped, and its failure if any. *)
Definition final_state {A : Type} (r : Res A) : State :=
  match r with Ok _ st => st | Fail _ st => st end.

Definition failure {A : Type} (r : Res A) : option Error :=
  match r with Ok _ _ => None | Fail e _ => Some e end.

(** ** State accessors *)

Definition LocInfo (st : State) (loc : HostLoc) : HostLocInfo :=
  hostloc_info st loc.

Definition fn_update (f : HostLoc -> HostLocInfo) (loc : HostLoc)
    (i : HostLocInfo) : HostLoc -> HostLocInfo :=
  fun l => if Nat.eqb l loc then i else f l.

(** [LocInfo(loc) = i]. *)
Definition set_LocInfo (loc : HostLoc) (i : HostLocInfo) : M unit :=
  fun st => Ok tt (mkState (fn_update (hostloc_info st) loc i)
                           (remaining_uses st) (code st)).

(** [LocInfo(loc).Lock()]. *)
Definition LockLoc (loc : HostLoc) : M unit :=
  fun st => set_LocInfo loc (Lock (LocInfo st loc)) st.

(** [code->...]: appends one instruction to the code stream. *)
Definition emit (x : X64Inst) : M unit :=
  fun st => Ok tt (mkState (hostloc_info st) (remaining_uses st)
                           (code st ++ [x])).

(** Modelled from the spec: [Inst::HasUses] and
    [Inst::DecrementRemainingUses] (frontend/ir/microinstruction.h is not
    among the sources): the use count is a non-negative integer, decremented
    each time a consumer binds the value. *)
Definition HasUses (st : State) (inst : InstId) : bool :=
  negb (Nat.eqb (remaining_uses st inst) 0).

Definition DecrementRemainingUses (inst : InstId) : M unit :=
  ASSERT (fun st => HasUses st inst) E_NoRemainingUses;;
  fun st => Ok tt (mkState (hostloc_info st)
                     (fun i => if Nat.eqb i inst
                               then remaining_uses st i - 1
                               else remaining_uses st i)
                     (code st)).

(** [use_value.GetInst()]. *)
Definition GetInst (v : Value) : M InstId :=
  match v with
  | VInst i => ret i
  | _ => fail E_NotAnInst
  end.

(** [*opt] of a [boost::optional]. *)
Definition deref {A : Type} (o : option A) : M A :=
  match o with
  | Some a => ret a
  | None => fail E_NoValueLocation
  end.

(** ** Static helpers, lines 19-81 *)

(** [ImmediateToU64], lines 19-32. *)
Definition ImmediateToU64 (imm : Value) : M Z :=
  match imm with
  | VImm U1 v => ret (v mod 2 ^ 1)%Z
  | VImm U8 v => ret (v mod 2 ^ 8)%Z
  | VImm U32 v => ret (v mod 2 ^ 32)%Z
  | VImm U64 v => ret (v mod 2 ^ 64)%Z
  | _ => fail E_ImmediateType
  end.

Section Allocator.

(** Missing from the sources and taken as parameters: the number of spill
    slots, whether [DEBUG_ASSERT] is compiled in (common/assert.h), the list
    [any_gpr] (backend_x64/reg_alloc.h), the ABI description
    (backend_x64/abi.h), and the reordering [std::partition] performs, of
    which the standard only fixes the contract [partition_contract]. *)
Variable SpillCount : nat.
Variable DEBUG : bool.
Variable any_gpr : HostLocList.
Variables ABI_RETURN ABI_PARAM1 ABI_PARAM2 ABI_PARAM3 ABI_PARAM4 : HostLoc.
Variable ABI_ALL_CALLER_SAVE : HostLocList.
Variable std_partition : (HostLoc -> bool) -> HostLocList
                         -> HostLocList * HostLocList.

Definition HostLocCount : nat := FirstSpill + SpillCount.

Definition HostLocIsSpill (reg : HostLoc) : bool :=
  (FirstSpill <=? reg) && (reg <? FirstSpill + SpillCount).

Definition HostLocSpill (i : nat) : HostLoc := FirstSpill + i.

(** [DEBUG_ASSERT(c)] and [DEBUG_ASSERT_MSG(c, ...)]. *)
Definition DEBUG_ASSERT (c : State -> bool) (e : Error) : M unit :=
  if DEBUG then ASSERT c e else ret tt.

(** [HostLocToX64], lines 34-43. *)
Definition HostLocToX64 (hostloc : HostLoc) : M OpArg :=
  if HostLocIsGPR hostloc then
    DEBUG_ASSERT (fun _ => negb (Nat.eqb hostloc RSP)
                           && negb (Nat.eqb hostloc R15)) E_HostLocToX64;;
    ret (OpArg_Reg hostloc)
  else if HostLocIsXMM hostloc then ret (OpArg_Reg hostloc)
  else fail E_HostLocToX64.

(** [IsSameHostLocClass], lines 45-49. *)
Definition IsSameHostLocClass (a b : HostLoc) : bool :=
  (HostLocIsGPR a && HostLocIsGPR b)
  || (HostLocIsXMM a && HostLocIsXMM b)
  || (HostLocIsSpill a && HostLocIsSpill b).

(** [EmitMove], lines 51-71. *)
Definition EmitMove (to from : HostLoc) : M unit :=
  if HostLocIsXMM to && HostLocIsXMM from then emit (movaps to from)
  else if HostLocIsGPR to && HostLocIsGPR from then emit (mov to from)
  else if HostLocIsXMM to && HostLocIsGPR from then fail E_EmitMove_TODO
  else if HostLocIsGPR to && HostLocIsXMM from then fail E_EmitMove_TODO
  else if HostLocIsXMM to && HostLocIsSpill from then emit (movsd to from)
  else if HostLocIsSpill to && HostLocIsXMM from then emit (movsd to from)
  else if HostLocIsGPR to && HostLocIsSpill from then emit (mov to from)
  else if HostLocIsSpill to && HostLocIsGPR from then emit (mov to from)
  else fail E_InvalidEmitMove.

(** [EmitExchange], lines 73-81. *)
Definition EmitExchange (a b : HostLoc) : M unit :=
  if HostLocIsGPR a && HostLocIsGPR b then emit (xchg a b)
  else if HostLocIsXMM a && HostLocIsXMM b then fail E_ExchangeXMM
  else fail E_InvalidEmitExchange.

(** ** Queries, lines 292-315 *)

(** [ValueLocation], lines 292-298: the first location, in table order, that
    contains the value. *)
Definition ValueLocation (st : State) (value : InstId) : option HostLoc :=
  find (fun i => ContainsValue (hostloc_info st i) value)
       (seq 0 HostLocCount).

(** [IsRegisterOccupied], lines 300-304. *)
Definition IsRegisterOccupied (st : State) (loc : HostLoc) : bool :=
  negb (IsEmpty (LocInfo st loc)).

(** [IsRegisterAllocated], lines 306-308. *)
Definition IsRegisterAllocated (st : State) (loc : HostLoc) : bool :=
  negb (IsIdle (LocInfo st loc)).

(** [IsLastUse], lines 310-315. *)
Definition IsLastUse (st : State) (inst : InstId) : bool := false.

(** [SelectARegister], lines 272-290.  [std::partition] followed by [erase]
    keeps the first group; the second [std::partition] only reorders. *)
Definition SelectARegister (desired_locations : HostLocList) : M HostLoc :=
  fun st =>
    let candidates := desired_locations in
    let candidates :=
      fst (std_partition (fun loc => negb (IsRegisterAllocated st loc))
                         candidates) in
    if bool_decide (candidates = []) then Fail E_AllAllocated st
    else
      let '(unoccupied, occupied) :=
        std_partition (fun loc => negb (IsRegisterOccupied st loc))
                      candidates in
      match unoccupied ++ occupied with
      | front :: _ => Ok front st
      | [] => Fail E_AllAllocated st
      end.

(** [FindFreeSpill], lines 335-341. *)
Definition FindFreeSpill : M HostLoc :=
  fun st =>
    match find (fun i => negb (IsRegisterOccupied st (HostLocSpill i)))
               (seq 0 SpillCount) with
    | Some i => Ok (HostLocSpill i) st
    | None => Fail E_SpillsFull st
    end.

(** ** Movement primitives *)

(** [DefineValue], lines 317-320. *)
Definition DefineValue (def_inst : InstId) (host_loc : HostLoc) : M unit :=
  DEBUG_ASSERT (fun st => negb (bool_decide (is_Some (ValueLocation st def_inst))))
               E_AlreadyDefined;;
  fun st => set_LocInfo host_loc (AddValue (LocInfo st host_loc) def_inst) st.

(** [SpillRegister], lines 322-333. *)
Definition SpillRegister (loc : HostLoc) : M unit :=
  ASSERT (fun _ => HostLocIsRegister loc) E_SpillNotRegister;;
  ASSERT (fun st => IsRegisterOccupied st loc) E_SpillUnoccupied;;
  ASSERT (fun st => negb (IsRegisterAllocated st loc)) E_SpillAllocated;;
  new_loc <- FindFreeSpill;;
  EmitMove new_loc loc;;
  (fun st => set_LocInfo new_loc (LocInfo st loc) st);;
  set_LocInfo loc empty_info.

(** [Move], lines 408-419. *)
Definition Move (to from : HostLoc) : M unit :=
  ASSERT (fun st => IsEmpty (LocInfo st to)
                    && negb (IsLocked (LocInfo st from))) E_Assert;;
  ifM (fun st => IsEmpty (LocInfo st from)) (ret tt)
    ((fun st => set_LocInfo to (LocInfo st from) st);;
     set_LocInfo from empty_info;;
     EmitMove to from).

(** [Exchange], lines 421-437. *)
Definition Exchange (a b : HostLoc) : M unit :=
  ASSERT (fun st => negb (IsLocked (LocInfo st a))
                    && negb (IsLocked (LocInfo st b))) E_Assert;;
  ifM (fun st => IsEmpty (LocInfo st a)) (Move a b)
    (ifM (fun st => IsEmpty (LocInfo st b)) (Move b a)
       ((fun st =>
           (set_LocInfo a (LocInfo st b);;
            set_LocInfo b (LocInfo st a)) st);;
        EmitExchange a b)).

(** [MoveOutOfTheWay], lines 439-444. *)
Definition MoveOutOfTheWay (reg : HostLoc) : M unit :=
  ASSERT (fun st => negb (IsLocked (LocInfo st reg))) E_Assert;;
  when (fun st => IsRegisterOccupied st reg) (SpillRegister reg).

(** [LoadImmediateIntoHostLocReg], lines 395-406. *)
Definition LoadImmediateIntoHostLocReg (imm : Value) (host_loc : HostLoc)
  : M HostLoc :=
  ASSERT (fun _ => IsImmediate imm) E_NotImmediate;;
  imm_value <- ImmediateToU64 imm;;
  (if Z.eqb imm_value 0 then emit (xor32 host_loc host_loc)
   else emit (mov_imm host_loc imm_value));;
  ret host_loc.

(** ** The public operations *)

(** [ScratchHostLocReg], lines 221-235. *)
Definition ScratchHostLocReg (desired_locations : HostLocList) : M HostLoc :=
  DEBUG_ASSERT (fun _ => forallb HostLocIsRegister desired_locations)
               E_DesiredNotRegisters;;
  location <- SelectARegister desired_locations;;
  when (fun st => IsRegisterOccupied st location) (SpillRegister location);;
  LockLoc location;;
  DEBUG_ASSERT (fun st => IsScratch (LocInfo st location)) E_Assert;;
  ret location.

(** [UseScratchHostLocReg(IR::Inst*, ...)], lines 184-219. *)
Definition UseScratchHostLocReg_inst (use_inst : InstId)
    (desired_locations : HostLocList) : M HostLoc :=
  DEBUG_ASSERT (fun _ => forallb HostLocIsRegister desired_locations)
               E_DesiredNotRegisters;;
  DEBUG_ASSERT (fun st => bool_decide (is_Some (ValueLocation st use_inst)))
               E_UseNotDefined;;
  ASSERT (fun st => HasUses st use_inst) E_RanOutOfUses;;
  current_location <- (fun st => deref (ValueLocation st use_inst) st);;
  new_location <- SelectARegister desired_locations;;
  when (fun st => IsRegisterOccupied st new_location)
       (SpillRegister new_location);;
  if HostLocIsSpill current_location then
    EmitMove new_location current_location;;
    LockLoc new_location;;
    DecrementRemainingUses use_inst;;
    DEBUG_ASSERT (fun st => IsScratch (LocInfo st new_location)) E_Assert;;
    ret new_location
  else if HostLocIsRegister current_location then
    ASSERT (fun st => IsIdle (LocInfo st current_location)
                      || IsUse (LocInfo st current_location)) E_Assert;;
    (if negb (Nat.eqb current_location new_location)
     then EmitMove new_location current_location
     else ASSERT (fun st => IsIdle (LocInfo st current_location)) E_Assert);;
    set_LocInfo new_location empty_info;;
    LockLoc new_location;;
    DecrementRemainingUses use_inst;;
    DEBUG_ASSERT (fun st => IsScratch (LocInfo st new_location)) E_Assert;;
    ret new_location
  else fail E_InvalidCurrentLocation.

(** [UseScratchHostLocReg(IR::Value, ...)], lines 176-182. *)
Definition UseScratchHostLocReg (use_value : Value)
    (desired_locations : HostLocList) : M HostLoc :=
  if negb (IsImmediate use_value) then
    use_inst <- GetInst use_value;;
    UseScratchHostLocReg_inst use_inst desired_locations
  else
    location <- ScratchHostLocReg desired_locations;;
    LoadImmediateIntoHostLocReg use_value location.

(** [UseHostLocReg(IR::Inst*, ...)], lines 140-164. *)
Definition UseHostLocReg_inst (use_inst : InstId)
    (desired_locations : HostLocList) : M HostLoc :=
  DecrementRemainingUses use_inst;;
  current_location <- (fun st => deref (ValueLocation st use_inst) st);;
  let can_use_current_location :=
    bool_decide (current_location ∈ desired_locations) in
  if can_use_current_location then
    LockLoc current_location;;
    ret current_location
  else
    ifM (fun st => IsLocked (LocInfo st current_location))
      (UseScratchHostLocReg_inst use_inst desired_locations)
      (destination_location <- SelectARegister desired_locations;;
       (if IsSameHostLocClass destination_location current_location then
          Exchange destination_location current_location
        else
          MoveOutOfTheWay destination_location;;
          Move destination_location current_location);;
       LockLoc destination_location;;
       ret destination_location).

(** [UseHostLocReg(IR::Value, ...)], lines 132-138. *)
Definition UseHostLocReg (use_value : Value)
    (desired_locations : HostLocList) : M HostLoc :=
  if negb (IsImmediate use_value) then
    use_inst <- GetInst use_value;;
    UseHostLocReg_inst use_inst desired_locations
  else
    location <- ScratchHostLocReg desired_locations;;
    LoadImmediateIntoHostLocReg use_value location.

(** [UseOpArg], lines 166-174. *)
Definition UseOpArg (use_value : Value) (desired_locations : HostLocList)
  : M OpArg :=
  if IsImmediate use_value then fail E_UseOpArgImmediate
  else
    use_inst <- GetInst use_value;;
    location <- UseHostLocReg_inst use_inst desired_locations;;
    HostLocToX64 location.

(** [UseDefOpArgHostLocReg], lines 99-130. *)
Definition UseDefOpArgHostLocReg (use_value : Value) (def_inst : InstId)
    (desired_locations : HostLocList) : M (OpArg * HostLoc) :=
  DEBUG_ASSERT (fun _ => forallb HostLocIsRegister desired_locations)
               E_DesiredNotRegisters;;
  DEBUG_ASSERT (fun st => negb (bool_decide (is_Some (ValueLocation st def_inst))))
               E_AlreadyDefined;;
  DEBUG_ASSERT (fun st => IsImmediate use_value
                          || match use_value with
                             | VInst i => bool_decide (is_Some (ValueLocation st i))
                             | _ => false
                             end) E_UseNotDefined;;
  let slow_path : M (OpArg * HostLoc) :=
    use_oparg <- UseOpArg use_value any_gpr;;
    def_reg <- ScratchHostLocReg desired_locations;;
    DefineValue def_inst def_reg;;
    ret (use_oparg, def_reg) in
  if negb (IsImmediate use_value) then
    use_inst <- GetInst use_value;;
    ifM (fun st => IsLastUse st use_inst)
      (current_location <- (fun st => deref (ValueLocation st use_inst) st);;
       ifM (fun st => negb (IsIdle (LocInfo st current_location)))
         (if HostLocIsSpill current_location then
            LockLoc current_location;;
            DEBUG_ASSERT (fun st => IsUse (LocInfo st current_location))
                         E_Assert;;
            location <- ScratchHostLocReg desired_locations;;
            DefineValue def_inst location;;
            ret (OpArg_Spill current_location, location)
          else
            LockLoc current_location;;
            DefineValue def_inst current_location;;
            oparg <- HostLocToX64 current_location;;
            ret (oparg, current_location))
         slow_path)
      slow_path
  else slow_path.

(** [RegisterAddDef], lines 83-97. *)
Definition RegisterAddDef (def_inst : InstId) (use_inst : Value) : M unit :=
  DEBUG_ASSERT (fun st => negb (bool_decide (is_Some (ValueLocation st def_inst))))
               E_AlreadyDefined;;
  if IsImmediate use_inst then
    location <- ScratchHostLocReg any_gpr;;
    DefineValue def_inst location;;
    LoadImmediateIntoHostLocReg use_inst location;;
    ret tt
  else
    use <- GetInst use_inst;;
    DecrementRemainingUses use;;
    DEBUG_ASSERT (fun st => bool_decide (is_Some (ValueLocation st use)))
                 E_UseNotDefined;;
    location <- (fun st => deref (ValueLocation st use) st);;
    DefineValue def_inst location.

(** [ret.erase(std::find(ret.begin(), ret.end(), hostloc))]: removes the
    first occurrence (the source relies on one being there). *)
Fixpoint erase_first (hostloc : HostLoc) (l : HostLocList) : HostLocList :=
  match l with
  | [] => []
  | x :: l' => if Nat.eqb x hostloc then l' else x :: erase_first hostloc l'
  end.

Definition args_hostloc : HostLocList :=
  [ABI_PARAM1; ABI_PARAM2; ABI_PARAM3; ABI_PARAM4].

(** [other_caller_save], lines 242-249. *)
Definition other_caller_save : HostLocList :=
  fold_left (fun ret hostloc => erase_first hostloc ret)
            args_hostloc ABI_ALL_CALLER_SAVE.

(** [HostCall], lines 237-270; [result_def] may be null. *)
Definition HostCall (result_def : option InstId)
    (arg0_use arg1_use arg2_use arg3_use : Value) : M unit :=
  let args := [arg0_use; arg1_use; arg2_use; arg3_use] in
  match result_def with
  | Some def =>
      location <- ScratchHostLocReg [ABI_RETURN];;
      DefineValue def location
  | None =>
      ScratchHostLocReg [ABI_RETURN];; ret tt
  end;;
  for_each (zip args args_hostloc)
    (fun '(arg, hostloc) =>
       if negb (IR.IsEmpty arg) then
         UseScratchHostLocReg arg [hostloc];; ret tt
       else
         ScratchHostLocReg [hostloc];; ret tt);;
  for_each other_caller_save
    (fun caller_saved => ScratchHostLocReg [caller_saved];; ret tt).

(** [EndOfAllocScope], lines 343-347: over the whole table. *)
Definition EndOfAllocScope : M unit :=
  fun st =>
    Ok tt (mkState
             (fun l => if l <? HostLocCount
                       then HostLocInfo_EndOfAllocScope (HasUses st)
                              (hostloc_info st l)
                       else hostloc_info st l)
             (remaining_uses st) (code st)).

(** [AssertNoMoreUses], lines 349-353. *)
Definition AssertNoMoreUses : M unit :=
  ASSERT (fun st => forallb (fun l => IsEmpty (hostloc_info st l))
                            (seq 0 HostLocCount)) E_Bad.

(** [Reset], lines 355-357. *)
Definition Reset : M unit :=
  fun st =>
    Ok tt (mkState
             (fun l => if l <? HostLocCount then empty_info
                       else hostloc_info st l)
             (remaining_uses st) (code st)).

(** [UseHostLoc], lines 359-393. *)
Definition UseHostLoc (use_inst : InstId) (desired_locations : HostLocList)
  : M (HostLoc * bool) :=
  DEBUG_ASSERT (fun _ => forallb HostLocIsRegister desired_locations)
               E_DesiredNotRegisters;;
  DEBUG_ASSERT (fun st => bool_decide (is_Some (ValueLocation st use_inst)))
               E_UseNotDefined;;
  current_location <- (fun st => deref (ValueLocation st use_inst) st);;
  if bool_decide (current_location ∈ desired_locations) then
    was_being_used <- gets (fun st => IsLocked (LocInfo st current_location));;
    ASSERT (fun st => IsUse (LocInfo st current_location)
                      || IsIdle (LocInfo st current_location)) E_Assert;;
    LockLoc current_location;;
    DecrementRemainingUses use_inst;;
    DEBUG_ASSERT (fun st => IsUse (LocInfo st current_location)) E_Assert;;
    ret (current_location, was_being_used)
  else if HostLocIsSpill current_location then
    was_being_used <- gets (fun st => IsLocked (LocInfo st current_location));;
    LockLoc current_location;;
    DecrementRemainingUses use_inst;;
    DEBUG_ASSERT (fun st => IsUse (LocInfo st current_location)) E_Assert;;
    ret (current_location, was_being_used)
  else if HostLocIsRegister current_location then
    new_location <- SelectARegister desired_locations;;
    ASSERT (fun st => IsIdle (LocInfo st current_location)) E_Assert;;
    EmitExchange new_location current_location;;
    (fun st =>
       (set_LocInfo new_location (LocInfo st current_location);;
        set_LocInfo current_location (LocInfo st new_location)) st);;
    LockLoc new_location;;
    DecrementRemainingUses use_inst;;
    DEBUG_ASSERT (fun st => IsUse (LocInfo st new_location)) E_Assert;;
    ret (new_location, false)
  else fail E_InvalidCurrentLocation.

(** ** The contract of [std::partition] *)

(** The first component holds the elements that satisfy the predicate, the
    second those that do not; together they are a reordering of the input. *)
Definition partition_contract : Prop :=
  forall (p : HostLoc -> bool) (l : HostLocList),
    Permutation (fst (std_partition p l) ++ snd (std_partition p l)) l /\
    Forall (fun x => p x = true) (fst (std_partition p l)) /\
    Forall (fun x => p x = false) (snd (std_partition p l)).

(** ** Residency *)

(** Value [v] is resident in location [l]: [LocInfo(l).ContainsValue(v)]. *)
Definition resident (st : State) (l : HostLoc) (v : InstId) : Prop :=
  v ∈ values (hostloc_info st l).

Definition located (st : State) (v : InstId) : Prop :=
  exists l, resident st l v.

(** No value is resident in two locations. *)
Definition at_most_one (st : State) : Prop :=
  forall v l1 l2, resident st l1 v -> resident st l2 v -> l1 = l2.

(** What every completed allocator operation guarantees: no value comes to
    be resident in two locations, and a resident value that still has a
    remaining use stays resident. *)
Definition keeps_residency (st st' : State) : Prop :=
  (at_most_one st -> at_most_one st') /\
  (forall v, located st v -> 0 < remaining_uses st' v -> located st' v).

(** The table of [st'] is the table of [s1] with [def] added at [loc]. *)
Definition value_added (def : InstId) (loc : HostLoc) (s1 st' : State)
  : Prop :=
  forall l v, resident st' l v <-> resident s1 l v \/ (l = loc /\ v = def).

(** I3 as the specification words it: every value with a remaining use is
    resident in exactly one location of the table. *)
Definition I3_as_stated (st : State) : Prop :=
  forall v, 0 < remaining_uses st v ->
    exists l, l < HostLocCount /\ resident st l v /\
              forall l', l' < HostLocCount -> resident st l' v -> l' = l.

(** The table of [st'] is the table of [st] with the value sets carried to
    other locations by a bijection, and no location unlocked. *)
Definition relocated (st st' : State) : Prop :=
  exists f g : HostLoc -> HostLoc,
    (forall l, g (f l) = l) /\ (forall l, f (g l) = l) /\
    forall l, values (hostloc_info st' l) = values (hostloc_info st (f l)).

Definition locks_kept (st st' : State) : Prop :=
  forall l, is_being_used (hostloc_info st l) = true ->
            is_being_used (hostloc_info st' l) = true.

Definition same_uses (st st' : State) : Prop :=
  forall i, remaining_uses st' i = remaining_uses st i.

(** What the movement primitives do to the state. *)
Definition moved (st st' : State) : Prop :=
  relocated st st' /\ locks_kept st st' /\ same_uses st st'.

(** The use count of [v] dropped by [n], no other count changed. *)
Definition decremented (n : nat) (v : InstId) (st st' : State) : Prop :=
  n <= remaining_uses st v /\
  forall i, remaining_uses st' i =
            if Nat.eqb i v then remaining_uses st v - n
            else remaining_uses st i.

(** What a use operation does: relocation, and [n] decrements of [v]. *)
Definition used (n : nat) (v : InstId) (st st' : State) : Prop :=
  relocated st st' /\ locks_kept st st' /\ decremented n v st st'.

End Allocator.

(** ** An instance of the parameters *)

(** A stable partition satisfies the contract of [std::partition]. *)
Definition stable_partition (p : HostLoc -> bool) (l : HostLocList)
  : HostLocList * HostLocList :=
  (List.filter p l, List.filter (fun x => negb (p x)) l).

(** The System V AMD64 calling convention. *)
Definition sysv_ALL_CALLER_SAVE : HostLocList :=
  [RAX; RCX; RDX; RDI; RSI; R8; R9; R10; R11;
   XMM0; XMM1; XMM2; XMM3; XMM4; XMM5; XMM6; XMM7;
   XMM8; XMM9; XMM10; XMM11; XMM12; XMM13; XMM14; XMM15].

Definition gprs_but_rsp_r15 : HostLocList :=
  [RAX; RBX; RCX; RDX; RSI; RDI; RBP; R8; R9; R10; R11; R12; R13; R14].

(** The allocator at the start of a block: an empty table and no code. *)
Definition fresh (uses : InstId -> nat) : State :=
  mkState (fun _ => empty_info) uses [].

(** The state a run ends in. *)
Definition run_from {A : Type} (st : State) (m : M A) : State :=
  final_state (m st).

(** Instruction 0, with three consumers, is defined from an immediate by
    [RegisterAddDef], which places it in RAX, and then used, in RAX, as the
    first operand of the next instruction: RAX holds it, locked, with two
    uses remaining. *)
Definition locked_in_rax : State :=
  run_from (fresh (fun _ => 3))
    (RegisterAddDef 4 true gprs_but_rsp_r15 stable_partition 0 (VImm U32 7);;
     EndOfAllocScope 4;;
     UseHostLocReg 4 true stable_partition (VInst 0) [RAX]).

(** Instruction 0 is defined from an immediate; instructions 1 and 2 are
    defined from it by [UseDefOpArgHostLocReg], in XMM1 and XMM2.  At the end
    instruction 0 has no use left and is evicted; 1 and 2 are idle in XMM1
    and XMM2 with one use each. *)
Definition two_vectors : State :=
  run_from (fresh (fun i => if Nat.eqb i 0 then 2 else 1))
    (RegisterAddDef 4 true gprs_but_rsp_r15 stable_partition 0 (VImm U32 7);;
     EndOfAllocScope 4;;
     UseDefOpArgHostLocReg 4 true gprs_but_rsp_r15 stable_partition
       (VInst 0) 1 [XMM1];;
     EndOfAllocScope 4;;
     UseDefOpArgHostLocReg 4 true gprs_but_rsp_r15 stable_partition
       (VInst 0) 2 [XMM2];;
     EndOfAllocScope 4).

(** [locked_in_rax] after instruction 0 is used once more, now with RCX as
    the only desired location. *)
Definition after_fallback : State :=
  run_from locked_in_rax
    (UseHostLocReg 4 true stable_partition (VInst 0) [RCX]).

(** [two_vectors] after XMM1 is reserved as a scratch register. *)
Definition after_spill : State :=
  run_from two_vectors (ScratchHostLocReg 4 true stable_partition [XMM1]).

(** Instruction 0, with two consumers, is defined from an immediate and is
    idle in RAX once its defining instruction is over. *)
Definition idle_in_rax : State :=
  run_from (fresh (fun _ => 2))
    (RegisterAddDef 4 true gprs_but_rsp_r15 stable_partition 0 (VImm U32 7);;
     EndOfAllocScope 4).

(** Instruction 0, with one consumer, is defined from an immediate and then
    used, in RAX, as an operand of the next instruction: RAX holds it,
    locked, with no use remaining. *)
Definition used_up_in_rax : State :=
  run_from (fresh (fun _ => 1))
    (RegisterAddDef 4 true gprs_but_rsp_r15 stable_partition 0 (VImm U32 7);;
     EndOfAllocScope 4;;
     UseHostLocReg 4 true stable_partition (VInst 0) [RAX]).

(** The transposition of locations [a] and [b]. *)
Definition swap_loc (a b l : HostLoc) : HostLoc :=
  if Nat.eqb l a then b else if Nat.eqb l b then a else l.

(** ** What an operation leaves alone, and what it emits *)

(** Every location that is locked in [st] has the same entry in [st']. *)
Definition locked_untouched (st st' : State) : Prop :=
  forall l, is_being_used (hostloc_info st l) = true ->
            hostloc_info st' l = hostloc_info st l.

(** The code of [st'] is the code of [st] followed by [new]. *)
Definition appended (st st' : State) (new : list X64Inst) : Prop :=
  code st' = code st ++ new.

(** An instruction that copies location [from] into location [to]. *)
Definition is_move (to from : HostLoc) (i : X64Inst) : Prop :=
  i = movaps to from \/ i = mov to from \/ i = movsd to from.

(** An instruction that loads the constant [z] into register [reg]. *)
Definition loads_constant (reg : HostLoc) (z : Z) (i : X64Inst) : Prop :=
  (z = 0%Z /\ i = xor32 reg reg) \/ (z <> 0%Z /\ i = mov_imm reg z).

(** The table of [st] and the table of [st'] agree except at the locations
    listed in [ls]. *)
Definition same_except (ls : list HostLoc) (st st' : State) : Prop :=
  forall l, l ∉ ls -> hostloc_info st' l = hostloc_info st l.

(** ** Monadic inversion *)

Lemma bind_Ok {A B : Type} (m : M A) (k : A -> M B) st b st' :
  bind m k st = Ok b st' ->
  exists a s1, m st = Ok a s1 /\ k a s1 = Ok b st'.
Proof.
  unfold bind. destruct (m st) as [a s1|e s1]; [eauto | discriminate].
Qed.

Lemma bind_Fail {A B : Type} (m : M A) (k : A -> M B) st e s1 :
  m st = Fail e s1 -> bind m k st = Fail e s1.
Proof. unfold bind. intros ->. reflexivity. Qed.

Lemma bind_step {A B : Type} (m : M A) (k : A -> M B) st a s1 :
  m st = Ok a s1 -> bind m k st = k a s1.
Proof. unfold bind. intros ->. reflexivity. Qed.

Lemma ASSERT_Ok c e st u st' :
  ASSERT c e st = Ok u st' -> c st = true /\ st' = st.
Proof.
  unfold ASSERT, ifM, ret, fail. destruct (c st); [|discriminate].
  intros H. injection H as _ <-. auto.
Qed.

Lemma ASSERT_true c e st : c st = true -> ASSERT c e st = Ok tt st.
Proof. unfold ASSERT, ifM, ret. intros ->. reflexivity. Qed.

Lemma ASSERT_false c e st : c st = false -> ASSERT c e st = Fail e st.
Proof. unfold ASSERT, ifM, fail. intros ->. reflexivity. Qed.

Lemma DEBUG_ASSERT_Ok DEBUG c e st u st' :
  DEBUG_ASSERT DEBUG c e st = Ok u st' ->
  st' = st /\ (DEBUG = true -> c st = true).
Proof.
  unfold DEBUG_ASSERT. destruct DEBUG.
  - intros H. apply ASSERT_Ok in H. tauto.
  - unfold ret. intros H. injection H as _ <-. split; [reflexivity|discriminate].
Qed.

(** Splits a successful run [H : (x <- m ;; k) st = Ok _ _] at its first
    operation. *)
Ltac inv_bind H :=
  let a := fresh "a" in
  let s := fresh "s" in
  let Hm := fresh "Hm" in
  apply bind_Ok in H; destruct H as (a & s & Hm & H).

Ltac inv_assert H :=
  let Hc := fresh "Hc" in
  apply ASSERT_Ok in H; destruct H as [Hc ->].

Ltac inv_debug H :=
  let Hc := fresh "Hc" in
  apply DEBUG_ASSERT_Ok in H; destruct H as [-> Hc].

Tactic Notation "split_bind" hyp(H) "as" ident(a) ident(s) ident(Hm) :=
  apply bind_Ok in H; destruct H as (a & s & Hm & H).

Lemma deref_Ok {A : Type} (o : option A) st a s :
  deref o st = Ok a s -> o = Some a /\ s = st.
Proof.
  destruct o; simpl; [|discriminate]. unfold ret. intros H.
  injection H as -> ->. auto.
Qed.

Ltac inv_ret H :=
  unfold ret in H; injection H as <- ->.

(** ** The instance satisfies the contract *)

Lemma stable_partition_ok : partition_contract stable_partition.
Proof.
  intros p l. unfold stable_partition. simpl. split; [|split].
  - induction l as [|x l IH]; simpl; [constructor|].
    destruct (p x); simpl.
    + constructor. exact IH.
    + etransitivity; [|apply perm_skip, IH].
      symmetry. apply Permutation_middle.
  - induction l as [|x l IH]; simpl; [constructor|].
    destruct (p x) eqn:E; simpl; [constructor; assumption|assumption].
  - induction l as [|x l IH]; simpl; [constructor|].
    destruct (p x) eqn:E; simpl; [assumption|constructor; assumption].
Qed.

(** ** C7: the selection *)

Section Selection.

Variable std_partition : (HostLoc -> bool) -> HostLocList
                         -> HostLocList * HostLocList.
Hypothesis std_partition_ok : partition_contract std_partition.

Lemma partition_first_In p l x :
  x ∈ fst (std_partition p l) <-> x ∈ l /\ p x = true.
Proof.
  destruct (std_partition_ok p l) as (Hperm & Ht & Hf).
  rewrite Forall_forall in Ht, Hf. split.
  - intros Hx. split; [|apply Ht, Hx].
    rewrite <- Hperm. apply elem_of_app. auto.
  - intros [Hx Hp]. rewrite <- Hperm in Hx. apply elem_of_app in Hx.
    destruct Hx as [Hx|Hx]; [exact Hx|].
    apply Hf in Hx. congruence.
Qed.

Lemma partition_front p l a b x rest :
  std_partition p l = (a, b) -> a ++ b = x :: rest ->
  x ∈ l /\ ((exists c, c ∈ l /\ p c = true) -> p x = true).
Proof.
  intros E Hab.
  destruct (std_partition_ok p l) as (Hperm & Ht & Hf).
  rewrite E in Hperm, Ht, Hf. simpl in *.
  rewrite Forall_forall in Ht, Hf.
  split.
  - rewrite <- Hperm, Hab. apply list_elem_of_here.
  - intros (c & Hc & Hpc).
    destruct a as [|y a'].
    + exfalso. simpl in Hperm. rewrite <- Hperm in Hc.
      apply Hf in Hc. congruence.
    + simpl in Hab. injection Hab as -> _. apply Ht, list_elem_of_here.
Qed.

Lemma SelectARegister_Ok desired st l st' :
  SelectARegister std_partition desired st = Ok l st' ->
  st' = st /\ l ∈ desired /\ IsLocked (LocInfo st l) = false /\
  ((exists c, c ∈ desired /\ IsEmpty (LocInfo st c) = true) ->
   IsEmpty (LocInfo st l) = true).
Proof.
  unfold SelectARegister.
  set (p1 := fun loc => negb (IsRegisterAllocated st loc)).
  set (p2 := fun loc => negb (IsRegisterOccupied st loc)).
  destruct (bool_decide _); [discriminate|].
  destruct (std_partition p2 (fst (std_partition p1 desired)))
    as [u o] eqn:E2.
  destruct (u ++ o) as [|x rest] eqn:Eu; [discriminate|].
  intros H. injection H as -> ->.
  destruct (partition_front _ _ _ _ _ _ E2 Eu) as (Hx & Hpref).
  apply partition_first_In in Hx. destruct Hx as [Hx Hp1].
  split; [reflexivity|]. split; [exact Hx|].
  unfold p1, IsRegisterAllocated, IsIdle, IsLocked in *.
  rewrite !negb_involutive in Hp1. split.
  - destruct (is_being_used _); [discriminate|reflexivity].
  - intros (c & Hc & He).
    assert (p2 l = true) as Hl.
    { apply Hpref. exists c. split.
      - apply partition_first_In. split; [exact Hc|].
        rewrite !negb_involutive.
        unfold IsEmpty in He. apply andb_true_iff in He. tauto.
      - unfold p2, IsRegisterOccupied. rewrite negb_involutive. exact He. }
    unfold p2, IsRegisterOccupied in Hl. rewrite negb_involutive in Hl.
    exact Hl.
Qed.

Lemma SelectARegister_Fail desired st e st' :
  SelectARegister std_partition desired st = Fail e st' ->
  e = E_AllAllocated /\ st' = st /\
  forall c, c ∈ desired -> IsLocked (LocInfo st c) = true.
Proof.
  unfold SelectARegister.
  set (p1 := fun loc => negb (IsRegisterAllocated st loc)).
  set (p2 := fun loc => negb (IsRegisterOccupied st loc)).
  destruct (bool_decide_reflect (fst (std_partition p1 desired) = []))
    as [E|E].
  - intros H. injection H as <- <-. split; [reflexivity|].
    split; [reflexivity|]. intros c Hc.
    destruct (IsLocked (LocInfo st c)) eqn:L; [reflexivity|exfalso].
    assert (c ∈ fst (std_partition p1 desired)) as Hin.
    { apply partition_first_In. split; [exact Hc|].
      unfold p1, IsRegisterAllocated, IsIdle. unfold IsLocked in L.
      rewrite L. reflexivity. }
    rewrite E in Hin. inversion Hin.
  - destruct (std_partition p2 (fst (std_partition p1 desired)))
      as [u o] eqn:E2.
    destruct (u ++ o) as [|x rest] eqn:Eu; [|discriminate].
    exfalso. apply E.
    destruct (std_partition_ok p2 (fst (std_partition p1 desired)))
      as (Hperm & _). rewrite E2 in Hperm. simpl in Hperm.
    rewrite Eu in Hperm. apply Permutation_nil in Hperm. exact Hperm.
Qed.

Lemma SelectARegister_all_locked desired st :
  (forall c, c ∈ desired -> IsLocked (LocInfo st c) = true) ->
  SelectARegister std_partition desired st = Fail E_AllAllocated st.
Proof.
  intros Hall.
  destruct (SelectARegister std_partition desired st) as [l s|e s] eqn:E.
  - apply SelectARegister_Ok in E. destruct E as (_ & Hin & Hl & _).
    rewrite Hall in Hl by assumption. discriminate.
  - apply SelectARegister_Fail in E. destruct E as (-> & -> & _).
    reflexivity.
Qed.

End Selection.

(** C7.  [SelectARegister] never returns a locked location; it returns an
    unoccupied (Empty) entry of the list whenever the list has one; and it
    fails, by the assertion of line 280 and without changing the state,
    exactly when every entry of the list is locked.  This holds for every
    reordering [std::partition] may perform. *)
Theorem select_a_register_spec
    (std_partition : (HostLoc -> bool) -> HostLocList
                     -> HostLocList * HostLocList)
    (desired : HostLocList) (st : State) :
  partition_contract std_partition ->
  (forall l st', SelectARegister std_partition desired st = Ok l st' ->
     st' = st /\ l ∈ desired /\ IsLocked (LocInfo st l) = false /\
     ((exists c, c ∈ desired /\ IsEmpty (LocInfo st c) = true) ->
      IsEmpty (LocInfo st l) = true)) /\
  ((forall c, c ∈ desired -> IsLocked (LocInfo st c) = true) <->
   SelectARegister std_partition desired st = Fail E_AllAllocated st) /\
  (forall e st', SelectARegister std_partition desired st = Fail e st' ->
     e = E_AllAllocated /\ st' = st).
Proof.
  intros Hp. split; [|split].
  - intros l st'. apply SelectARegister_Ok. exact Hp.
  - split.
    + apply SelectARegister_all_locked. exact Hp.
    + intros H. eapply SelectARegister_Fail in H; [|exact Hp]. tauto.
  - intros e st' H. eapply SelectARegister_Fail in H; [|exact Hp]. tauto.
Qed.

Lemma select_a_register_spec_witness :
  partition_contract stable_partition /\
  ((forall l st',
      SelectARegister stable_partition [RAX; RCX] locked_in_rax = Ok l st' ->
      st' = locked_in_rax /\ l ∈ [RAX; RCX] /\
      IsLocked (LocInfo locked_in_rax l) = false /\
      ((exists c, c ∈ [RAX; RCX] /\
                  IsEmpty (LocInfo locked_in_rax c) = true) ->
       IsEmpty (LocInfo locked_in_rax l) = true)) /\
   ((forall c, c ∈ [RAX; RCX] ->
               IsLocked (LocInfo locked_in_rax c) = true) <->
    SelectARegister stable_partition [RAX; RCX] locked_in_rax
    = Fail E_AllAllocated locked_in_rax) /\
   (forall e st',
      SelectARegister stable_partition [RAX; RCX] locked_in_rax = Fail e st' ->
      e = E_AllAllocated /\ st' = locked_in_rax)).
Proof.
  split; [exact stable_partition_ok|].
  apply (select_a_register_spec stable_partition [RAX; RCX] locked_in_rax).
  exact stable_partition_ok.
Defined.

(** ** Relocation: the algebra of [moved] and [used] *)

Lemma relocated_refl st : relocated st st.
Proof. exists id, id. auto. Qed.

Lemma relocated_trans s1 s2 s3 :
  relocated s1 s2 -> relocated s2 s3 -> relocated s1 s3.
Proof.
  intros (f & g & Hgf & Hfg & Hv) (f' & g' & Hgf' & Hfg' & Hv').
  exists (fun l => f (f' l)), (fun l => g' (g l)).
  split; [|split].
  - intros l. rewrite Hgf, Hgf'. reflexivity.
  - intros l. rewrite Hfg', Hfg. reflexivity.
  - intros l. rewrite Hv', Hv. reflexivity.
Qed.

Lemma moved_refl st : moved st st.
Proof.
  split; [apply relocated_refl|]. split; intros ?; auto.
Qed.

Lemma moved_trans s1 s2 s3 : moved s1 s2 -> moved s2 s3 -> moved s1 s3.
Proof.
  intros (R1 & L1 & U1) (R2 & L2 & U2). split; [|split].
  - eapply relocated_trans; eauto.
  - intros l H. auto.
  - intros i. rewrite U2, U1. reflexivity.
Qed.

Lemma moved_used n v s1 s2 s3 : moved s1 s2 -> used n v s2 s3 -> used n v s1 s3.
Proof.
  intros (R1 & L1 & U1) (R2 & L2 & Hn & D2). split; [|split; [|split]].
  - eapply relocated_trans; eauto.
  - intros l H. auto.
  - rewrite <- U1. exact Hn.
  - intros i. rewrite D2, !U1. reflexivity.
Qed.

Lemma used_moved n v s1 s2 s3 : used n v s1 s2 -> moved s2 s3 -> used n v s1 s3.
Proof.
  intros (R1 & L1 & Hn & D1) (R2 & L2 & U2). split; [|split; [|split]].
  - eapply relocated_trans; eauto.
  - intros l H. auto.
  - exact Hn.
  - intros i. rewrite U2, D1. reflexivity.
Qed.

Lemma used_used n m v s1 s2 s3 :
  used n v s1 s2 -> used m v s2 s3 -> used (n + m) v s1 s3.
Proof.
  intros (R1 & L1 & Hn & D1) (R2 & L2 & Hm & D2). split; [|split; [|split]].
  - eapply relocated_trans; eauto.
  - intros l H. auto.
  - rewrite D1, Nat.eqb_refl in Hm. lia.
  - intros i. rewrite D2, !D1, Nat.eqb_refl.
    destruct (Nat.eqb i v); [lia|reflexivity].
Qed.

Lemma relocated_at_most_one st st' :
  relocated st st' -> at_most_one st -> at_most_one st'.
Proof.
  intros (f & g & Hgf & Hfg & Hv) H v l1 l2. unfold resident.
  rewrite !Hv. intros H1 H2.
  rewrite <- (Hgf l1), <- (Hgf l2). f_equal. eapply H; eauto.
Qed.

Lemma relocated_located st st' v :
  relocated st st' -> (located st v <-> located st' v).
Proof.
  intros (f & g & Hgf & Hfg & Hv). unfold located, resident. split.
  - intros [l Hl]. exists (g l). rewrite Hv, Hfg. exact Hl.
  - intros [l Hl]. exists (f l). rewrite <- Hv. exact Hl.
Qed.

(** ** The state changes of the primitives *)

Lemma fn_update_eq f l i : fn_update f l i l = i.
Proof. unfold fn_update. rewrite Nat.eqb_refl. reflexivity. Qed.

Lemma fn_update_ne f l i l' : l' <> l -> fn_update f l i l' = f l'.
Proof.
  unfold fn_update. intros H. destruct (Nat.eqb_spec l' l); congruence.
Qed.

Lemma swap_loc_involutive a b l : swap_loc a b (swap_loc a b l) = l.
Proof.
  unfold swap_loc. destruct (Nat.eqb_spec l a) as [->|Ha].
  - destruct (Nat.eqb_spec b a) as [->|Hb]; [reflexivity|].
    rewrite Nat.eqb_refl. reflexivity.
  - destruct (Nat.eqb_spec l b) as [->|Hb].
    + rewrite Nat.eqb_refl. reflexivity.
    + destruct (Nat.eqb_spec l a); [contradiction|].
      destruct (Nat.eqb_spec l b); [contradiction|]. reflexivity.
Qed.

(** [LocInfo(to) = LocInfo(from); LocInfo(from) = {}] into an empty [to]. *)
Lemma transplant_moved st to from c :
  IsEmpty (hostloc_info st to) = true ->
  is_being_used (hostloc_info st from) = false ->
  moved st (mkState (fn_update (fn_update (hostloc_info st) to
                                          (hostloc_info st from))
                               from empty_info)
                    (remaining_uses st) c).
Proof.
  intros He Hf. unfold IsEmpty in He. apply andb_true_iff in He.
  destruct He as [Hu Hv]. apply negb_true_iff in Hu.
  apply bool_decide_eq_true in Hv.
  split; [|split].
  - exists (swap_loc to from), (swap_loc to from).
    split; [apply swap_loc_involutive|]. split; [apply swap_loc_involutive|].
    intros l. simpl. unfold fn_update, swap_loc.
    destruct (Nat.eqb_spec l from) as [->|Hlf].
    + destruct (Nat.eqb_spec from to) as [->|?]; simpl; congruence.
    + destruct (Nat.eqb_spec l to) as [->|Hlt]; reflexivity.
  - intros l Hl. simpl. unfold fn_update.
    destruct (Nat.eqb_spec l from) as [->|?]; [congruence|].
    destruct (Nat.eqb_spec l to) as [->|?]; [congruence|exact Hl].
  - intros i. reflexivity.
Qed.

(** [std::swap(LocInfo(a), LocInfo(b))] of two unlocked locations. *)
Lemma swap_moved st a b c :
  is_being_used (hostloc_info st a) = false ->
  is_being_used (hostloc_info st b) = false ->
  moved st (mkState (fn_update (fn_update (hostloc_info st) a
                                          (hostloc_info st b))
                               b (hostloc_info st a))
                    (remaining_uses st) c).
Proof.
  intros Ha Hb. split; [|split].
  - exists (swap_loc a b), (swap_loc a b).
    split; [apply swap_loc_involutive|]. split; [apply swap_loc_involutive|].
    intros l. simpl. unfold fn_update, swap_loc.
    destruct (Nat.eqb_spec l b) as [->|Hlb].
    + destruct (Nat.eqb_spec b a) as [->|?]; reflexivity.
    + destruct (Nat.eqb_spec l a) as [->|Hla]; reflexivity.
  - intros l Hl. simpl. unfold fn_update.
    destruct (Nat.eqb_spec l b) as [->|?]; [congruence|].
    destruct (Nat.eqb_spec l a) as [->|?]; [congruence|exact Hl].
  - intros i. reflexivity.
Qed.

(** Writing a [HostLocInfo] with the same values and no lock removed. *)
Lemma rewrite_moved st l i c :
  values i = values (hostloc_info st l) ->
  (is_being_used (hostloc_info st l) = true -> is_being_used i = true) ->
  moved st (mkState (fn_update (hostloc_info st) l i) (remaining_uses st) c).
Proof.
  intros Hv Hu. split; [|split].
  - exists id, id. split; [auto|]. split; [auto|].
    intros l'. simpl. unfold fn_update.
    destruct (Nat.eqb_spec l' l) as [->|?]; auto.
  - intros l' Hl'. simpl. unfold fn_update.
    destruct (Nat.eqb_spec l' l) as [->|?]; auto.
  - intros i'. reflexivity.
Qed.

Lemma same_table_relocated st st' :
  hostloc_info st' = hostloc_info st -> relocated st st'.
Proof. intros H. exists id, id. rewrite H. auto. Qed.

Lemma same_table_locks_kept st st' :
  hostloc_info st' = hostloc_info st -> locks_kept st st'.
Proof. intros H l. rewrite H. auto. Qed.

Lemma same_table_moved st st' :
  hostloc_info st' = hostloc_info st ->
  remaining_uses st' = remaining_uses st -> moved st st'.
Proof.
  intros H U. split; [apply same_table_relocated, H|].
  split; [apply same_table_locks_kept, H|]. intros i. rewrite U. reflexivity.
Qed.

Lemma emit_Ok x st u st' :
  emit x st = Ok u st' ->
  moved st st' /\ hostloc_info st' = hostloc_info st.
Proof.
  unfold emit. intros H. injection H as _ <-. split; [|reflexivity].
  apply same_table_moved; reflexivity.
Qed.

Lemma LockLoc_Ok l st u st' :
  LockLoc l st = Ok u st' ->
  moved st st' /\ is_being_used (hostloc_info st' l) = true /\
  values (hostloc_info st' l) = values (hostloc_info st l) /\
  (forall l', l' <> l -> hostloc_info st' l' = hostloc_info st l').
Proof.
  unfold LockLoc, set_LocInfo. intros H. injection H as _ <-.
  split; [apply rewrite_moved; simpl; auto|].
  simpl. rewrite fn_update_eq. simpl. split; [reflexivity|].
  split; [reflexivity|]. intros l' Hl'. apply fn_update_ne. exact Hl'.
Qed.

Lemma DecrementRemainingUses_Ok v st u st' :
  DecrementRemainingUses v st = Ok u st' ->
  used 1 v st st' /\ hostloc_info st' = hostloc_info st.
Proof.
  unfold DecrementRemainingUses. intros H. inv_bind H. inv_assert Hm.
  injection H as _ <-. simpl.
  split; [|reflexivity].
  unfold HasUses in Hc. apply negb_true_iff, Nat.eqb_neq in Hc.
  split; [apply same_table_relocated; reflexivity|].
  split; [apply same_table_locks_kept; reflexivity|].
  split; [lia|]. intros i. simpl. destruct (Nat.eqb_spec i v) as [->|]; reflexivity.
Qed.

Section Movement.

Variable SpillCount : nat.
Variable DEBUG : bool.
Variable std_partition : (HostLoc -> bool) -> HostLocList
                         -> HostLocList * HostLocList.
Hypothesis std_partition_ok : partition_contract std_partition.

Lemma EmitMove_Ok to from st u st' :
  EmitMove SpillCount to from st = Ok u st' ->
  moved st st' /\ hostloc_info st' = hostloc_info st.
Proof.
  unfold EmitMove.
  repeat match goal with
         | |- context [if ?c then _ else _] => destruct c
         end; try discriminate; apply emit_Ok.
Qed.

Lemma EmitExchange_Ok a b st u st' :
  EmitExchange a b st = Ok u st' ->
  moved st st' /\ hostloc_info st' = hostloc_info st.
Proof.
  unfold EmitExchange.
  repeat match goal with
         | |- context [if ?c then _ else _] => destruct c
         end; try discriminate; apply emit_Ok.
Qed.

Lemma FindFreeSpill_Ok st l st' :
  FindFreeSpill SpillCount st = Ok l st' ->
  st' = st /\ IsEmpty (LocInfo st l) = true /\ FirstSpill <= l.
Proof.
  unfold FindFreeSpill.
  destruct (find _ (seq 0 SpillCount)) as [i|] eqn:F; [|discriminate].
  intros H. injection H as <- <-.
  apply find_some in F. destruct F as [_ F].
  unfold IsRegisterOccupied in F. rewrite negb_involutive in F.
  split; [reflexivity|]. split; [exact F|]. unfold HostLocSpill. lia.
Qed.

Lemma SpillRegister_Ok loc st u st' :
  SpillRegister SpillCount loc st = Ok u st' ->
  moved st st' /\ hostloc_info st' loc = empty_info.
Proof.
  unfold SpillRegister. intros H.
  inv_bind H. inv_assert Hm. inv_bind H. inv_assert Hm.
  inv_bind H. inv_assert Hm. inv_bind H.
  apply FindFreeSpill_Ok in Hm. destruct Hm as (-> & Hempty & Hspill).
  inv_bind H. apply EmitMove_Ok in Hm. destruct Hm as [Hmv Htab].
  inv_bind H. unfold set_LocInfo, LocInfo in *.
  injection Hm as _ <-. injection H as _ <-. simpl.
  rewrite fn_update_eq. split; [|reflexivity].
  eapply moved_trans; [exact Hmv|].
  apply transplant_moved.
  - rewrite Htab. exact Hempty.
  - rewrite Htab. unfold IsRegisterAllocated, IsIdle, LocInfo in Hc1.
    rewrite !negb_involutive in Hc1. apply negb_true_iff in Hc1. exact Hc1.
Qed.

Lemma Move_Ok to from st u st' :
  Move SpillCount to from st = Ok u st' -> moved st st'.
Proof.
  unfold Move. intros H. inv_bind H. inv_assert Hm.
  apply andb_true_iff in Hc. destruct Hc as [Hto Hfrom].
  apply negb_true_iff in Hfrom. unfold IsLocked, LocInfo in *.
  unfold ifM in H. destruct (IsEmpty (hostloc_info st from)).
  - inv_ret H. apply moved_refl.
  - inv_bind H. inv_bind H. unfold set_LocInfo in Hm, Hm0.
    injection Hm as _ <-. injection Hm0 as _ <-.
    apply EmitMove_Ok in H. destruct H as [H _].
    eapply moved_trans; [|exact H].
    apply transplant_moved; assumption.
Qed.

Lemma Exchange_Ok a b st u st' :
  Exchange SpillCount a b st = Ok u st' -> moved st st'.
Proof.
  unfold Exchange. intros H. inv_bind H. inv_assert Hm.
  apply andb_true_iff in Hc. destruct Hc as [Ha Hb].
  apply negb_true_iff in Ha, Hb. unfold IsLocked, LocInfo in *.
  unfold ifM in H. destruct (IsEmpty (hostloc_info st a)).
  { eapply Move_Ok, H. }
  destruct (IsEmpty (hostloc_info st b)).
  { eapply Move_Ok, H. }
  inv_bind H. inv_bind Hm. unfold set_LocInfo in Hm, Hm0.
  injection Hm as _ <-. injection Hm0 as _ <-. simpl in H.
  apply EmitExchange_Ok in H. destruct H as [H _].
  eapply moved_trans; [|exact H].
  apply swap_moved; assumption.
Qed.

Lemma when_SpillRegister_Ok l st u st' :
  when (fun st => IsRegisterOccupied st l) (SpillRegister SpillCount l) st
  = Ok u st' ->
  moved st st' /\ IsEmpty (LocInfo st' l) = true.
Proof.
  unfold when, ifM, IsRegisterOccupied.
  destruct (IsEmpty (LocInfo st l)) eqn:E; simpl.
  - intros H. inv_ret H. split; [apply moved_refl|exact E].
  - intros H. apply SpillRegister_Ok in H. destruct H as [H E'].
    split; [exact H|]. unfold LocInfo. rewrite E'. reflexivity.
Qed.

Lemma MoveOutOfTheWay_Ok reg st u st' :
  MoveOutOfTheWay SpillCount reg st = Ok u st' -> moved st st'.
Proof.
  unfold MoveOutOfTheWay. intros H. inv_bind H. inv_assert Hm.
  apply when_SpillRegister_Ok in H. tauto.
Qed.

Lemma LoadImmediateIntoHostLocReg_Ok imm host_loc st l st' :
  LoadImmediateIntoHostLocReg imm host_loc st = Ok l st' ->
  l = host_loc /\ moved st st' /\ hostloc_info st' = hostloc_info st.
Proof.
  unfold LoadImmediateIntoHostLocReg. intros H.
  inv_bind H. inv_assert Hm. inv_bind H.
  assert (s = st) as ->.
  { unfold ImmediateToU64 in Hm.
    destruct imm as [|[] v|]; try discriminate; inv_ret Hm; reflexivity. }
  inv_bind H. inv_ret H. split; [reflexivity|].
  destruct (Z.eqb a0 0); eapply emit_Ok; eauto.
Qed.

Lemma ScratchHostLocReg_Ok desired st l st' :
  ScratchHostLocReg SpillCount DEBUG std_partition desired st = Ok l st' ->
  moved st st' /\ l ∈ desired /\ IsScratch (LocInfo st' l) = true.
Proof.
  unfold ScratchHostLocReg. intros H.
  inv_bind H. inv_debug Hm. inv_bind H.
  apply SelectARegister_Ok in Hm; [|exact std_partition_ok].
  destruct Hm as (-> & Hin & _).
  inv_bind H. apply when_SpillRegister_Ok in Hm. destruct Hm as [M1 E1].
  inv_bind H. apply LockLoc_Ok in Hm. destruct Hm as (M2 & L2 & V2 & _).
  inv_bind H. inv_debug Hm. inv_ret H.
  split; [eapply moved_trans; eauto|]. split; [exact Hin|].
  unfold IsScratch, LocInfo. rewrite L2, V2. simpl.
  unfold IsEmpty, LocInfo in E1. apply andb_true_iff in E1. tauto.
Qed.

Lemma UseScratchHostLocReg_inst_Ok v desired st l st' :
  UseScratchHostLocReg_inst SpillCount DEBUG std_partition v desired st
  = Ok l st' ->
  used 1 v st st' /\ l ∈ desired /\ IsScratch (LocInfo st' l) = true.
Proof.
  unfold UseScratchHostLocReg_inst. intros H.
  inv_bind H. inv_debug Hm. inv_bind H. inv_debug Hm.
  inv_bind H. inv_assert Hm.
  split_bind H as cur s0 Hcur. apply deref_Ok in Hcur.
  destruct Hcur as [Hcur ->].
  split_bind H as new s1 Hsel.
  apply SelectARegister_Ok in Hsel; [|exact std_partition_ok].
  destruct Hsel as (-> & Hin & _).
  split_bind H as u1 s1 Hspill.
  apply when_SpillRegister_Ok in Hspill. destruct Hspill as [M1 E1].
  assert (forall sa sb sc ua ub,
            IsEmpty (LocInfo sa new) = true ->
            LockLoc new sa = Ok ua sb ->
            DecrementRemainingUses v sb = Ok ub sc ->
            used 1 v sa sc /\ IsScratch (LocInfo sc new) = true) as Tail.
  { intros sa sb sc ua ub E HL HD.
    apply LockLoc_Ok in HL. destruct HL as (M2 & L2 & V2 & _).
    apply DecrementRemainingUses_Ok in HD. destruct HD as [U3 T3].
    split; [eapply moved_used; eauto|].
    unfold IsScratch, LocInfo. rewrite T3, L2, V2. simpl.
    unfold IsEmpty, LocInfo in E. apply andb_true_iff in E. tauto. }
  destruct (HostLocIsSpill SpillCount cur).
  - split_bind H as u2 s2 Hmove. apply EmitMove_Ok in Hmove.
    destruct Hmove as [M2 T2].
    split_bind H as u3 s3 Hlock. split_bind H as u4 s4 Hdec.
    split_bind H as u5 s5 Hdbg. inv_debug Hdbg. inv_ret H.
    destruct (Tail s2 s3 st' u3 u4) as [U S]; try assumption.
    { unfold LocInfo in *. rewrite T2. exact E1. }
    split; [|split; assumption].
    eapply moved_used; [|exact U]. eapply moved_trans; eauto.
  - destruct (HostLocIsRegister cur); [|discriminate].
    split_bind H as u2 s2 Hassert. inv_assert Hassert.
    split_bind H as u3 s3 Hmove.
    assert (moved s1 s3 /\ hostloc_info s3 = hostloc_info s1) as [M2 T2].
    { destruct (negb (Nat.eqb cur new)).
      - eapply EmitMove_Ok; eauto.
      - inv_assert Hmove. split; [apply moved_refl|reflexivity]. }
    split_bind H as u4 s4 Hset. unfold set_LocInfo in Hset.
    injection Hset as _ <-.
    split_bind H as u5 s5 Hlock. split_bind H as u6 s6 Hdec.
    split_bind H as u7 s7 Hdbg. inv_debug Hdbg. inv_ret H.
    assert (IsEmpty (hostloc_info s3 new) = true) as E2.
    { rewrite T2. exact E1. }
    match type of Hlock with
    | LockLoc new ?sr = _ =>
        destruct (Tail sr s5 st' u5 u6) as [U S]; try assumption
    end.
    { unfold LocInfo. simpl. rewrite fn_update_eq. reflexivity. }
    split; [|split; assumption].
    eapply moved_used; [|exact U].
    eapply moved_trans; [exact M1|]. eapply moved_trans; [exact M2|].
    apply rewrite_moved.
    + simpl. unfold IsEmpty in E2. apply andb_true_iff in E2.
      destruct E2 as [_ E2]. apply bool_decide_eq_true in E2. auto.
    + unfold IsEmpty in E2. apply andb_true_iff in E2.
      destruct E2 as [E2 _]. apply negb_true_iff in E2. congruence.
Qed.

Lemma ValueLocation_same_table st st' v :
  hostloc_info st' = hostloc_info st ->
  ValueLocation SpillCount st' v = ValueLocation SpillCount st v.
Proof. unfold ValueLocation. intros ->. reflexivity. Qed.

Lemma UseScratchHostLocReg_Ok use_value desired st l st' :
  UseScratchHostLocReg SpillCount DEBUG std_partition use_value desired st
  = Ok l st' ->
  relocated st st' /\ locks_kept st st' /\ l ∈ desired.
Proof.
  unfold UseScratchHostLocReg. destruct (negb (IsImmediate use_value)).
  - intros H. split_bind H as v s1 Hget.
    assert (s1 = st) as ->.
    { destruct use_value; simpl in Hget; try discriminate.
      inv_ret Hget. reflexivity. }
    apply UseScratchHostLocReg_inst_Ok in H.
    destruct H as ((R & L & _) & Hin & _). auto.
  - intros H. split_bind H as loc s1 Hs.
    apply ScratchHostLocReg_Ok in Hs. destruct Hs as (M1 & Hin & _).
    apply LoadImmediateIntoHostLocReg_Ok in H. destruct H as (-> & M2 & _).
    destruct (moved_trans _ _ _ M1 M2) as (R & L & _). auto.
Qed.

(** What [UseHostLocReg(IR::Inst*, ...)] does to the use count: one
    decrement when the current location is desired or not locked, two when
    the call falls back to [UseScratchHostLocReg]. *)
Lemma UseHostLocReg_inst_Ok v desired st l st' :
  UseHostLocReg_inst SpillCount DEBUG std_partition v desired st = Ok l st' ->
  exists cur,
    ValueLocation SpillCount st v = Some cur /\
    if bool_decide (cur ∈ desired) || negb (IsLocked (LocInfo st cur))
    then used 1 v st st'
    else used 2 v st st'.
Proof.
  unfold UseHostLocReg_inst. intros H.
  split_bind H as u1 s1 Hdec. apply DecrementRemainingUses_Ok in Hdec.
  destruct Hdec as [U1 T1].
  split_bind H as cur s2 Hcur. apply deref_Ok in Hcur.
  destruct Hcur as [Hcur ->].
  rewrite (ValueLocation_same_table st s1 v T1) in Hcur.
  exists cur. split; [exact Hcur|].
  destruct (bool_decide (cur ∈ desired)); simpl.
  { split_bind H as u2 s2 Hlock. inv_ret H.
    apply LockLoc_Ok in Hlock. destruct Hlock as (M2 & _).
    eapply used_moved; eauto. }
  unfold ifM, LocInfo in H. rewrite T1 in H. unfold IsLocked, LocInfo in *.
  destruct (is_being_used (hostloc_info st cur)); simpl.
  { apply UseScratchHostLocReg_inst_Ok in H. destruct H as (U2 & _).
    exact (used_used 1 1 v _ _ _ U1 U2). }
  split_bind H as dst s2 Hsel.
  apply SelectARegister_Ok in Hsel; [|exact std_partition_ok].
  destruct Hsel as (-> & _).
  split_bind H as u3 s3 Hmv. split_bind H as u4 s4 Hlock. inv_ret H.
  apply LockLoc_Ok in Hlock. destruct Hlock as (M4 & _).
  assert (moved s1 s3) as M3.
  { destruct (IsSameHostLocClass SpillCount dst cur).
    - eapply Exchange_Ok; eauto.
    - split_bind Hmv as u5 s5 Hout. apply MoveOutOfTheWay_Ok in Hout.
      apply Move_Ok in Hmv. eapply moved_trans; eauto. }
  eapply used_moved; [|exact M4]. eapply used_moved; eauto.
Qed.

Lemma UseHostLocReg_inst_relocated v desired st l st' :
  UseHostLocReg_inst SpillCount DEBUG std_partition v desired st = Ok l st' ->
  relocated st st' /\ locks_kept st st'.
Proof.
  intros H. apply UseHostLocReg_inst_Ok in H. destruct H as (cur & _ & H).
  destruct (_ || _); destruct H as (R & L & _); auto.
Qed.

Lemma GetInst_Ok use_value st v st' :
  GetInst use_value st = Ok v st' -> use_value = VInst v /\ st' = st.
Proof.
  destruct use_value; simpl; try discriminate.
  unfold ret. intros H. injection H as -> ->. auto.
Qed.

Lemma UseHostLocReg_Ok use_value desired st l st' :
  UseHostLocReg SpillCount DEBUG std_partition use_value desired st
  = Ok l st' ->
  relocated st st' /\ locks_kept st st'.
Proof.
  unfold UseHostLocReg. destruct (negb (IsImmediate use_value)).
  - intros H. split_bind H as v s1 Hget. apply GetInst_Ok in Hget.
    destruct Hget as [_ ->].
    eapply UseHostLocReg_inst_relocated; eauto.
  - intros H. split_bind H as loc s1 Hs.
    apply ScratchHostLocReg_Ok in Hs. destruct Hs as (M1 & Hin & _).
    apply LoadImmediateIntoHostLocReg_Ok in H. destruct H as (-> & M2 & _).
    destruct (moved_trans _ _ _ M1 M2) as (R & L & _). auto.
Qed.

Lemma HostLocToX64_Ok hostloc st o st' :
  HostLocToX64 DEBUG hostloc st = Ok o st' -> st' = st.
Proof.
  unfold HostLocToX64. destruct (HostLocIsGPR hostloc).
  - intros H. split_bind H as u s1 Hd. inv_debug Hd. inv_ret H. reflexivity.
  - destruct (HostLocIsXMM hostloc); [|discriminate].
    intros H. inv_ret H. reflexivity.
Qed.

Lemma UseOpArg_Ok use_value desired st o st' :
  UseOpArg SpillCount DEBUG std_partition use_value desired st = Ok o st' ->
  relocated st st' /\ locks_kept st st'.
Proof.
  unfold UseOpArg. destruct (IsImmediate use_value); [discriminate|].
  intros H. split_bind H as v s1 Hget. apply GetInst_Ok in Hget.
  destruct Hget as [_ ->].
  split_bind H as loc s2 Huse. apply HostLocToX64_Ok in H. subst s2.
  eapply UseHostLocReg_inst_relocated; eauto.
Qed.

(** ** Definition and eviction *)

Lemma DefineValue_Ok def_inst host_loc st u st' :
  DefineValue SpillCount DEBUG def_inst host_loc st = Ok u st' ->
  locks_kept st st' /\
  forall l v, resident st' l v <->
              resident st l v \/ (l = host_loc /\ v = def_inst).
Proof.
  unfold DefineValue. intros H. split_bind H as u1 s1 Hd. inv_debug Hd.
  unfold set_LocInfo, LocInfo in H. injection H as _ <-. split.
  - intros l Hl. simpl. unfold fn_update.
    destruct (Nat.eqb_spec l host_loc) as [->|]; simpl; auto.
  - intros l v. unfold resident. simpl. unfold fn_update.
    destruct (Nat.eqb_spec l host_loc) as [->|Hne]; simpl.
    + rewrite elem_of_app, list_elem_of_singleton. tauto.
    + tauto.
Qed.

Lemma EndOfAllocScope_Ok st u st' :
  EndOfAllocScope SpillCount st = Ok u st' ->
  same_uses st st' /\
  (forall l v, resident st' l v -> resident st l v) /\
  (forall l v, resident st l v -> 0 < remaining_uses st v ->
               resident st' l v) /\
  (forall l, l < HostLocCount SpillCount ->
             is_being_used (hostloc_info st' l) = false).
Proof.
  unfold EndOfAllocScope. intros H. injection H as _ <-.
  split; [intros i; reflexivity|]. unfold resident. simpl.
  split; [|split].
  - intros l v. destruct (l <? HostLocCount SpillCount); simpl; [|tauto].
    rewrite list_elem_of_filter. tauto.
  - intros l v Hv Hu. destruct (l <? HostLocCount SpillCount); simpl;
      [|exact Hv].
    rewrite list_elem_of_filter. split; [|exact Hv].
    unfold HasUses. apply negb_true_iff, Nat.eqb_neq. lia.
  - intros l Hl. apply Nat.ltb_lt in Hl. rewrite Hl. reflexivity.
Qed.

Lemma Reset_Ok st u st' :
  Reset SpillCount st = Ok u st' ->
  forall l, l < HostLocCount SpillCount -> hostloc_info st' l = empty_info.
Proof.
  unfold Reset. intros H. injection H as _ <-. intros l Hl. simpl.
  apply Nat.ltb_lt in Hl. rewrite Hl. reflexivity.
Qed.

End Movement.

(** ** Residency is kept *)

Lemma relocated_keeps st st' : relocated st st' -> keeps_residency st st'.
Proof.
  intros R. split.
  - apply relocated_at_most_one, R.
  - intros v Hv _. apply (relocated_located st st' v R), Hv.
Qed.

Lemma value_added_keeps def loc st s1 st' :
  relocated st s1 -> value_added def loc s1 st' -> ~ located st def ->
  keeps_residency st st' /\ resident st' loc def.
Proof.
  intros R A Hnew.
  assert (~ located s1 def) as Hnew1.
  { intros H. apply Hnew. apply (relocated_located st s1 def R), H. }
  split; [split|].
  - intros H1 v l1 l2 Hl1 Hl2.
    apply (relocated_at_most_one _ _ R) in H1.
    apply A in Hl1, Hl2.
    destruct Hl1 as [Hl1|[-> ->]], Hl2 as [Hl2|[-> E]]; subst.
    + eapply H1; eauto.
    + exfalso. apply Hnew1. exists l1. exact Hl1.
    + exfalso. apply Hnew1. exists l2. exact Hl2.
    + reflexivity.
  - intros v Hv _. apply (relocated_located st s1 v R) in Hv.
    destruct Hv as [l Hl]. exists l. apply A. auto.
  - apply A. auto.
Qed.

Section Composite.

Variable SpillCount : nat.
Variable DEBUG : bool.
Variable any_gpr : HostLocList.
Variable std_partition : (HostLoc -> bool) -> HostLocList
                         -> HostLocList * HostLocList.
Hypothesis std_partition_ok : partition_contract std_partition.

Lemma DefineValue_added def loc st u st' :
  DefineValue SpillCount DEBUG def loc st = Ok u st' ->
  value_added def loc st st'.
Proof. intros H. apply DefineValue_Ok in H. exact (proj2 H). Qed.

Lemma value_added_same_table def loc s1 s2 s3 :
  value_added def loc s1 s2 -> hostloc_info s3 = hostloc_info s2 ->
  value_added def loc s1 s3.
Proof. intros A T l v. unfold resident. rewrite T. apply A. Qed.

Lemma RegisterAddDef_Ok def use st u st' :
  RegisterAddDef SpillCount DEBUG any_gpr std_partition def use st
  = Ok u st' ->
  exists s1 loc, relocated st s1 /\ value_added def loc s1 st'.
Proof.
  unfold RegisterAddDef. intros H.
  split_bind H as u0 s0 Hd. inv_debug Hd.
  destruct (IsImmediate use).
  - split_bind H as loc s1 Hs.
    apply ScratchHostLocReg_Ok in Hs; [|exact std_partition_ok].
    destruct Hs as (M1 & _).
    split_bind H as u2 s2 Hdef. apply DefineValue_added in Hdef.
    split_bind H as l3 s3 Hload. inv_ret H.
    apply LoadImmediateIntoHostLocReg_Ok in Hload.
    destruct Hload as (_ & _ & T).
    exists s1, loc. split; [apply M1|].
    eapply value_added_same_table; eauto.
  - split_bind H as v s1 Hget. apply GetInst_Ok in Hget.
    destruct Hget as [_ ->].
    split_bind H as u2 s2 Hdec. apply DecrementRemainingUses_Ok in Hdec.
    destruct Hdec as [U T].
    split_bind H as u3 s3 Hd. inv_debug Hd.
    split_bind H as loc s3 Hloc. apply deref_Ok in Hloc.
    destruct Hloc as [_ ->].
    apply DefineValue_added in H.
    exists s2, loc. split; [apply U|exact H].
Qed.

Lemma UseDefOpArgHostLocReg_Ok use_value def desired st r st' :
  UseDefOpArgHostLocReg SpillCount DEBUG any_gpr std_partition
    use_value def desired st = Ok r st' ->
  exists s1 loc, relocated st s1 /\ value_added def loc s1 st'.
Proof.
  unfold UseDefOpArgHostLocReg. intros H.
  split_bind H as ua sa Hd. inv_debug Hd.
  split_bind H as ub sb Hd. inv_debug Hd.
  split_bind H as uc sc Hd. inv_debug Hd.
  assert (forall s,
    (use_oparg <- UseOpArg SpillCount DEBUG std_partition use_value any_gpr;;
     def_reg <- ScratchHostLocReg SpillCount DEBUG std_partition desired;;
     DefineValue SpillCount DEBUG def def_reg;;
     ret (use_oparg, def_reg)) s = Ok r st' ->
    exists s1 loc, relocated s s1 /\ value_added def loc s1 st') as Slow.
  { intros s Hs.
    split_bind Hs as o s1 Huse.
    apply UseOpArg_Ok in Huse; [|exact std_partition_ok].
    destruct Huse as [R1 _].
    split_bind Hs as loc s2 Hscr.
    apply ScratchHostLocReg_Ok in Hscr; [|exact std_partition_ok].
    destruct Hscr as (M2 & _).
    split_bind Hs as u3 s3 Hdef. inv_ret Hs.
    apply DefineValue_added in Hdef.
    exists s2, loc. split; [|exact Hdef].
    eapply relocated_trans; [exact R1|apply M2]. }
  destruct (negb (IsImmediate use_value)); [|apply Slow, H].
  split_bind H as v s1 Hget. apply GetInst_Ok in Hget.
  destruct Hget as [_ ->].
  unfold ifM at 1 in H. unfold IsLastUse in H. apply Slow, H.
Qed.

Lemma UseHostLoc_Ok v desired st r st' :
  UseHostLoc SpillCount DEBUG std_partition v desired st = Ok r st' ->
  relocated st st'.
Proof.
  unfold UseHostLoc. intros H.
  split_bind H as ua sa Hd. inv_debug Hd.
  split_bind H as ub sb Hd. inv_debug Hd.
  split_bind H as cur s0 Hcur. apply deref_Ok in Hcur.
  destruct Hcur as [_ ->].
  assert (forall ta tb tc wa wb l,
            LockLoc l ta = Ok wa tb ->
            DecrementRemainingUses v tb = Ok wb tc ->
            relocated ta tc) as Tail.
  { intros ta tb tc wa wb l HL HD.
    apply LockLoc_Ok in HL. destruct HL as (M & _).
    apply DecrementRemainingUses_Ok in HD. destruct HD as [U _].
    eapply relocated_trans; [apply M|apply U]. }
  destruct (bool_decide (cur ∈ desired)).
  { split_bind H as w s1 Hg. unfold gets in Hg. injection Hg as _ <-.
    split_bind H as u1 s1 Ha. inv_assert Ha.
    split_bind H as u2 s2 Hl. split_bind H as u3 s3 Hdec.
    split_bind H as u4 s4 Hd. inv_debug Hd. inv_ret H. eauto. }
  destruct (HostLocIsSpill SpillCount cur).
  { split_bind H as w s1 Hg. unfold gets in Hg. injection Hg as _ <-.
    split_bind H as u2 s2 Hl. split_bind H as u3 s3 Hdec.
    split_bind H as u4 s4 Hd. inv_debug Hd. inv_ret H. eauto. }
  destruct (HostLocIsRegister cur); [|discriminate].
  split_bind H as new s1 Hsel.
  apply SelectARegister_Ok in Hsel; [|exact std_partition_ok].
  destruct Hsel as (-> & _ & Hnew & _).
  split_bind H as u1 s1 Ha. apply ASSERT_Ok in Ha.
  destruct Ha as [Hidle ->].
  split_bind H as u2 s2 Hx. apply EmitExchange_Ok in Hx.
  destruct Hx as [M2 T2].
  split_bind H as u3 s3 Hswap. split_bind Hswap as u4 s4 Hset.
  unfold set_LocInfo in Hset, Hswap. injection Hset as _ <-.
  injection Hswap as _ <-. simpl in H.
  split_bind H as u5 s5 Hl. split_bind H as u6 s6 Hdec.
  split_bind H as u7 s7 Hd. inv_debug Hd. inv_ret H.
  eapply relocated_trans; [apply M2|].
  eapply relocated_trans; [|eapply Tail; eauto].
  apply swap_moved; unfold LocInfo; rewrite T2.
  - exact Hnew.
  - unfold IsIdle, LocInfo in Hidle. apply negb_true_iff in Hidle.
    exact Hidle.
Qed.

End Composite.

(** ** C2: residency *)

(** C2, as stated, fails: at the start of a block the table is empty, and
    instruction 0, which has one consumer, is resident nowhere. *)
Lemma I3_as_stated_fails_before_definition :
  ~ I3_as_stated 4 (final_state (Reset 4 (fresh (fun _ => 1)))).
Proof.
  intros H. destruct (H 0) as (l & Hl & Hres & _); [simpl; lia|].
  unfold resident in Hres. simpl in Hres.
  destruct (l <? HostLocCount 4); simpl in Hres; inversion Hres.
Qed.

(** C2, amended.  No value is ever resident in two locations, and a resident
    value with a remaining use stays resident: every completed allocator
    operation (use, scratch, spill, move, exchange, end of scope) keeps this,
    and so does a definition of a value that has no location yet, which makes
    the value resident.  Before its definition, and after [Reset], a value
    has no location. *)
Theorem residency_kept (SpillCount : nat) (DEBUG : bool)
    (any_gpr : HostLocList)
    (std_partition : (HostLoc -> bool) -> HostLocList
                     -> HostLocList * HostLocList)
    (st st' : State) :
  partition_contract std_partition ->
  (forall u, Reset SpillCount st = Ok u st' ->
             forall l v, l < HostLocCount SpillCount -> ~ resident st' l v) /\
  (forall uses, at_most_one (fresh uses) /\
                forall v, ~ located (fresh uses) v) /\
  (forall v d l,
     UseHostLocReg SpillCount DEBUG std_partition v d st = Ok l st' ->
     keeps_residency st st') /\
  (forall v d l,
     UseScratchHostLocReg SpillCount DEBUG std_partition v d st = Ok l st' ->
     keeps_residency st st') /\
  (forall v d o,
     UseOpArg SpillCount DEBUG std_partition v d st = Ok o st' ->
     keeps_residency st st') /\
  (forall v d r,
     UseHostLoc SpillCount DEBUG std_partition v d st = Ok r st' ->
     keeps_residency st st') /\
  (forall d l,
     ScratchHostLocReg SpillCount DEBUG std_partition d st = Ok l st' ->
     keeps_residency st st') /\
  (forall loc u, SpillRegister SpillCount loc st = Ok u st' ->
                 keeps_residency st st') /\
  (forall to from u, Move SpillCount to from st = Ok u st' ->
                     keeps_residency st st') /\
  (forall a b u, Exchange SpillCount a b st = Ok u st' ->
                 keeps_residency st st') /\
  (forall reg u, MoveOutOfTheWay SpillCount reg st = Ok u st' ->
                 keeps_residency st st') /\
  (forall u, EndOfAllocScope SpillCount st = Ok u st' ->
             keeps_residency st st') /\
  (forall def loc u,
     ~ located st def ->
     DefineValue SpillCount DEBUG def loc st = Ok u st' ->
     keeps_residency st st' /\ resident st' loc def) /\
  (forall def use u,
     ~ located st def ->
     RegisterAddDef SpillCount DEBUG any_gpr std_partition def use st
     = Ok u st' ->
     keeps_residency st st' /\ located st' def) /\
  (forall use def d r,
     ~ located st def ->
     UseDefOpArgHostLocReg SpillCount DEBUG any_gpr std_partition use def d st
     = Ok r st' ->
     keeps_residency st st' /\ located st' def).
Proof.
  intros Hp.
  split.
  { intros u H l v Hl Hres. unfold resident in Hres.
    rewrite (Reset_Ok SpillCount st u st' H l Hl) in Hres. inversion Hres. }
  split.
  { intros uses. split.
    - intros v l1 l2 H. inversion H.
    - intros v [l H]. inversion H. }
  split.
  { intros v d l H. apply relocated_keeps.
    eapply UseHostLocReg_Ok in H; [apply H|exact Hp]. }
  split.
  { intros v d l H. apply relocated_keeps.
    eapply UseScratchHostLocReg_Ok in H; [apply H|exact Hp]. }
  split.
  { intros v d o H. apply relocated_keeps.
    eapply UseOpArg_Ok in H; [apply H|exact Hp]. }
  split.
  { intros v d r H. apply relocated_keeps.
    eapply UseHostLoc_Ok in H; [apply H|exact Hp]. }
  split.
  { intros d l H. apply relocated_keeps.
    eapply ScratchHostLocReg_Ok in H; [apply H|exact Hp]. }
  split.
  { intros loc u H. apply relocated_keeps.
    apply SpillRegister_Ok in H. apply H. }
  split.
  { intros to from u H. apply relocated_keeps.
    apply Move_Ok in H. apply H. }
  split.
  { intros a b u H. apply relocated_keeps.
    apply Exchange_Ok in H. apply H. }
  split.
  { intros reg u H. apply relocated_keeps.
    apply MoveOutOfTheWay_Ok in H. apply H. }
  split.
  { intros u H. apply EndOfAllocScope_Ok in H.
    destruct H as (U & Hold & Hkeep & _). split.
    - intros A v l1 l2 H1 H2. eapply A; eauto.
    - intros v [l Hl] Hv. exists l. apply Hkeep; [exact Hl|].
      rewrite <- U. exact Hv. }
  split.
  { intros def loc u Hnew H. apply DefineValue_added in H.
    eapply value_added_keeps; eauto. apply relocated_refl. }
  split.
  { intros def use u Hnew H.
    eapply RegisterAddDef_Ok in H; [|exact Hp].
    destruct H as (s1 & loc & R & A).
    destruct (value_added_keeps def loc st s1 st' R A Hnew) as [K Hres].
    split; [exact K|]. exists loc. exact Hres. }
  intros use def d r Hnew H.
  eapply UseDefOpArgHostLocReg_Ok in H; [|exact Hp].
  destruct H as (s1 & loc & R & A).
  destruct (value_added_keeps def loc st s1 st' R A Hnew) as [K Hres].
  split; [exact K|]. exists loc. exact Hres.
Qed.

Lemma residency_kept_witness :
  partition_contract stable_partition /\
  keeps_residency two_vectors after_spill.
Proof.
  split; [exact stable_partition_ok|].
  pose proof (residency_kept 4 true gprs_but_rsp_r15 stable_partition
                two_vectors after_spill stable_partition_ok) as H.
  destruct H as (_ & _ & _ & _ & _ & _ & H & _).
  apply (H [XMM1] XMM1). reflexivity.
Defined.

(** ** C10: [UseScratchHostLocReg] on a value without remaining uses *)

(** C10.  [UseScratchHostLocReg] on an instruction whose remaining-use count
    is zero fails by assertion in the state in which it was called: nothing
    was relocated, locked, decremented or emitted.  The assertion is that of
    line 187 ("use_inst ran out of uses") unless one of the two debug
    assertions before it fails first. *)
Theorem use_scratch_without_uses_fails (SpillCount : nat) (DEBUG : bool)
    (std_partition : (HostLoc -> bool) -> HostLocList
                     -> HostLocList * HostLocList)
    (v : InstId) (desired : HostLocList) (st : State) :
  remaining_uses st v = 0 ->
  exists e,
    UseScratchHostLocReg SpillCount DEBUG std_partition (VInst v) desired st
    = Fail e st /\
    (DEBUG = false \/
     (forallb HostLocIsRegister desired = true /\
      is_Some (ValueLocation SpillCount st v)) ->
     e = E_RanOutOfUses).
Proof.
  intros Hz.
  unfold UseScratchHostLocReg. simpl. unfold bind at 1. simpl.
  unfold UseScratchHostLocReg_inst.
  assert (ASSERT (fun st => HasUses st v) E_RanOutOfUses st
          = Fail E_RanOutOfUses st) as HA.
  { apply ASSERT_false. unfold HasUses. rewrite Hz. reflexivity. }
  destruct DEBUG; unfold DEBUG_ASSERT.
  - destruct (forallb HostLocIsRegister desired) eqn:E1.
    + rewrite (bind_step _ _ st tt st) by (apply ASSERT_true; reflexivity).
      destruct (bool_decide (is_Some (ValueLocation SpillCount st v))) eqn:E2.
      * rewrite (bind_step _ _ st tt st)
          by (apply ASSERT_true; exact E2).
        exists E_RanOutOfUses. split; [|reflexivity].
        apply bind_Fail. exact HA.
      * exists E_UseNotDefined. split.
        { apply bind_Fail. apply ASSERT_false. exact E2. }
        intros [?|[_ Hs]]; [discriminate|].
        apply bool_decide_eq_false in E2. contradiction.
    + exists E_DesiredNotRegisters. split.
      { apply bind_Fail. apply ASSERT_false. reflexivity. }
      intros [?|[? _]]; discriminate.
  - rewrite (bind_step _ _ st tt st) by reflexivity.
    rewrite (bind_step _ _ st tt st) by reflexivity.
    exists E_RanOutOfUses. split; [|reflexivity].
    apply bind_Fail. exact HA.
Qed.

Lemma use_scratch_without_uses_fails_witness :
  remaining_uses used_up_in_rax 0 = 0 /\
  ValueLocation 4 used_up_in_rax 0 = Some RAX /\
  forallb HostLocIsRegister [RCX] = true /\
  UseScratchHostLocReg 4 true stable_partition (VInst 0) [RCX] used_up_in_rax
  = Fail E_RanOutOfUses used_up_in_rax.
Proof.
  split; [reflexivity|]. split; [reflexivity|]. split; [reflexivity|].
  destruct (use_scratch_without_uses_fails 4 true stable_partition 0 [RCX]
              used_up_in_rax eq_refl) as (e & H & He).
  rewrite <- (He (or_intror (conj eq_refl (ex_intro _ RAX eq_refl)))).
  exact H.
Defined.

(** ** C1: the use count in [UseHostLocReg] *)

(** C1 fails on the fallback path.  When the current location of the value
    is locked and not desired, a completed [UseHostLocReg] has decremented
    the remaining-use count twice: once at line 141 and once more in
    [UseScratchHostLocReg] (line 198 or 213). *)
Theorem use_reg_fallback_decrements_twice (SpillCount : nat) (DEBUG : bool)
    (std_partition : (HostLoc -> bool) -> HostLocList
                     -> HostLocList * HostLocList)
    (v : InstId) (desired : HostLocList) (cur l : HostLoc)
    (st st' : State) :
  partition_contract std_partition ->
  ValueLocation SpillCount st v = Some cur ->
  bool_decide (cur ∈ desired) = false ->
  IsLocked (LocInfo st cur) = true ->
  UseHostLocReg SpillCount DEBUG std_partition (VInst v) desired st
  = Ok l st' ->
  2 <= remaining_uses st v /\
  remaining_uses st' v = remaining_uses st v - 2.
Proof.
  intros Hp Hcur Hnot Hlocked H.
  unfold UseHostLocReg in H. simpl in H.
  rewrite (bind_step _ _ st v st) in H by reflexivity.
  eapply UseHostLocReg_inst_Ok in H; [|exact Hp].
  destruct H as (cur' & Hcur' & H).
  rewrite Hcur in Hcur'. injection Hcur' as <-.
  rewrite Hnot, Hlocked in H. simpl in H.
  destruct H as (_ & _ & Hn & D). split; [exact Hn|].
  rewrite D, Nat.eqb_refl. reflexivity.
Qed.

Lemma use_reg_fallback_decrements_twice_witness :
  partition_contract stable_partition /\
  ValueLocation 4 locked_in_rax 0 = Some RAX /\
  bool_decide (RAX ∈ [RCX]) = false /\
  IsLocked (LocInfo locked_in_rax RAX) = true /\
  UseHostLocReg 4 true stable_partition (VInst 0) [RCX] locked_in_rax
  = Ok RCX after_fallback /\
  2 <= remaining_uses locked_in_rax 0 /\
  remaining_uses after_fallback 0 = remaining_uses locked_in_rax 0 - 2.
Proof.
  split; [exact stable_partition_ok|].
  split; [reflexivity|]. split; [reflexivity|]. split; [reflexivity|].
  split; [reflexivity|].
  apply (use_reg_fallback_decrements_twice 4 true stable_partition 0 [RCX]
           RAX RCX locked_in_rax after_fallback stable_partition_ok);
    reflexivity.
Defined.

(** With a single remaining use the same call does not complete: the second
    decrement is preceded by the assertion of line 187. *)
Lemma use_reg_fallback_runs_out_of_uses :
  failure (UseHostLocReg 4 true stable_partition (VInst 0) [RCX]
             (run_from (fresh (fun _ => 2))
                (RegisterAddDef 4 true gprs_but_rsp_r15 stable_partition 0
                   (VImm U32 7);;
                 EndOfAllocScope 4;;
                 UseHostLocReg 4 true stable_partition (VInst 0) [RAX])))
  = Some E_RanOutOfUses.
Proof. reflexivity. Qed.

(** On the other paths the count is decremented once. *)
Lemma use_reg_decrements_once (SpillCount : nat) (DEBUG : bool)
    (std_partition : (HostLoc -> bool) -> HostLocList
                     -> HostLocList * HostLocList)
    (v : InstId) (desired : HostLocList) (cur l : HostLoc)
    (st st' : State) :
  partition_contract std_partition ->
  ValueLocation SpillCount st v = Some cur ->
  bool_decide (cur ∈ desired) || negb (IsLocked (LocInfo st cur)) = true ->
  UseHostLocReg SpillCount DEBUG std_partition (VInst v) desired st
  = Ok l st' ->
  remaining_uses st' v + 1 = remaining_uses st v.
Proof.
  intros Hp Hcur Hpath H.
  unfold UseHostLocReg in H. simpl in H.
  rewrite (bind_step _ _ st v st) in H by reflexivity.
  eapply UseHostLocReg_inst_Ok in H; [|exact Hp].
  destruct H as (cur' & Hcur' & H).
  rewrite Hcur in Hcur'. injection Hcur' as <-.
  rewrite Hpath in H. destruct H as (_ & _ & Hn & D).
  rewrite D, Nat.eqb_refl. lia.
Qed.

(** ** C4: exchanging two vector registers *)

Lemma SelectARegister_singleton
    (std_partition : (HostLoc -> bool) -> HostLocList
                     -> HostLocList * HostLocList) x st :
  partition_contract std_partition ->
  IsLocked (LocInfo st x) = false ->
  SelectARegister std_partition [x] st = Ok x st.
Proof.
  intros Hp Hx.
  destruct (SelectARegister std_partition [x] st) as [l s|e s] eqn:E.
  - eapply SelectARegister_Ok in E; [|exact Hp].
    destruct E as (-> & Hin & _).
    apply list_elem_of_singleton in Hin. subst. reflexivity.
  - eapply SelectARegister_Fail in E; [|exact Hp].
    destruct E as (_ & _ & Hall).
    rewrite Hall in Hx by apply list_elem_of_here. discriminate.
Qed.

Lemma XMM_is_not_GPR l : HostLocIsXMM l = true -> HostLocIsGPR l = false.
Proof.
  unfold HostLocIsXMM, HostLocIsGPR, XMM0, XMM15, R15.
  intros H. apply andb_true_iff in H. destruct H as [H _].
  apply Nat.leb_le in H. apply Nat.leb_gt. lia.
Qed.

Lemma ValueLocation_Some SpillCount st v l :
  ValueLocation SpillCount st v = Some l ->
  v ∈ values (hostloc_info st l).
Proof.
  unfold ValueLocation. intros H. apply find_some in H.
  destruct H as [_ H]. unfold ContainsValue in H.
  apply bool_decide_eq_true in H. exact H.
Qed.

Lemma occupied_not_empty i v : v ∈ values i -> IsEmpty i = false.
Proof.
  intros H. unfold IsEmpty. apply andb_false_iff. right.
  apply bool_decide_eq_false. intros E. rewrite E in H. inversion H.
Qed.

(** C4 fails.  A value resident in one vector register, used through
    [UseHostLocReg] with another, occupied, vector register as the only
    desired location, reaches the assertion of [EmitExchange] that forbids
    exchanging XMM registers: no moves are arranged. *)
Theorem xmm_exchange_reachable (SpillCount : nat) (DEBUG : bool)
    (std_partition : (HostLoc -> bool) -> HostLocList
                     -> HostLocList * HostLocList)
    (v w : InstId) (cur dst : HostLoc) (st : State) :
  partition_contract std_partition ->
  ValueLocation SpillCount st v = Some cur ->
  0 < remaining_uses st v ->
  HostLocIsXMM cur = true ->
  HostLocIsXMM dst = true ->
  cur <> dst ->
  IsLocked (LocInfo st cur) = false ->
  IsLocked (LocInfo st dst) = false ->
  w ∈ values (LocInfo st dst) ->
  exists s,
    UseHostLocReg SpillCount DEBUG std_partition (VInst v) [dst] st
    = Fail E_ExchangeXMM s /\ code s = code st.
Proof.
  intros Hp Hcur Huses Xcur Xdst Hne Lcur Ldst Hw.
  pose proof (ValueLocation_Some _ _ _ _ Hcur) as Hv.
  unfold UseHostLocReg. simpl.
  rewrite (bind_step _ _ st v st) by reflexivity.
  unfold UseHostLocReg_inst.
  set (s1 := mkState (hostloc_info st)
               (fun i => if Nat.eqb i v then remaining_uses st i - 1
                         else remaining_uses st i) (code st)).
  assert (DecrementRemainingUses v st = Ok tt s1) as Hdec.
  { unfold DecrementRemainingUses.
    rewrite (bind_step _ _ st tt st); [reflexivity|].
    apply ASSERT_true. unfold HasUses.
    apply negb_true_iff, Nat.eqb_neq. lia. }
  rewrite (bind_step _ _ _ _ _ Hdec).
  assert (ValueLocation SpillCount s1 v = Some cur) as Hcur1 by exact Hcur.
  rewrite (bind_step _ _ s1 cur s1) by (simpl; rewrite Hcur1; reflexivity).
  assert (bool_decide (cur ∈ [dst]) = false) as ->.
  { apply bool_decide_eq_false. rewrite list_elem_of_singleton. exact Hne. }
  unfold ifM at 1.
  assert (IsLocked (LocInfo s1 cur) = false) as -> by exact Lcur.
  rewrite (bind_step _ _ s1 dst s1)
    by (apply SelectARegister_singleton; [exact Hp|exact Ldst]).
  assert (IsSameHostLocClass SpillCount dst cur = true) as ->.
  { unfold IsSameHostLocClass. rewrite Xcur, Xdst.
    rewrite !(XMM_is_not_GPR _ Xcur), !(XMM_is_not_GPR _ Xdst). reflexivity. }
  eexists. split.
  - apply bind_Fail. unfold Exchange.
    rewrite (bind_step _ _ s1 tt s1).
    2:{ apply ASSERT_true.
        change (negb (IsLocked (LocInfo st dst))
                && negb (IsLocked (LocInfo st cur)) = true).
        rewrite Lcur, Ldst. reflexivity. }
    unfold ifM.
    change (IsEmpty (LocInfo s1 dst)) with (IsEmpty (hostloc_info st dst)).
    change (IsEmpty (LocInfo s1 cur)) with (IsEmpty (hostloc_info st cur)).
    unfold LocInfo in Hw.
    rewrite (occupied_not_empty _ w Hw), (occupied_not_empty _ v Hv).
    unfold bind at 1. simpl. unfold EmitExchange.
    rewrite !(XMM_is_not_GPR _ Xdst), Xcur, Xdst. simpl. reflexivity.
  - reflexivity.
Qed.

Lemma xmm_exchange_reachable_witness :
  partition_contract stable_partition /\
  ValueLocation 4 two_vectors 1 = Some XMM1 /\
  0 < remaining_uses two_vectors 1 /\
  HostLocIsXMM XMM1 = true /\
  HostLocIsXMM XMM2 = true /\
  XMM1 <> XMM2 /\
  IsLocked (LocInfo two_vectors XMM1) = false /\
  IsLocked (LocInfo two_vectors XMM2) = false /\
  2 ∈ values (LocInfo two_vectors XMM2) /\
  exists s,
    UseHostLocReg 4 true stable_partition (VInst 1) [XMM2] two_vectors
    = Fail E_ExchangeXMM s /\ code s = code two_vectors.
Proof.
  assert (XMM1 <> XMM2) as Hne by discriminate.
  assert (2 ∈ values (LocInfo two_vectors XMM2)) as Hin
    by (vm_compute; apply list_elem_of_here).
  assert (0 < remaining_uses two_vectors 1) as Hu by (vm_compute; lia).
  split; [exact stable_partition_ok|].
  split; [reflexivity|]. split; [exact Hu|].
  split; [reflexivity|]. split; [reflexivity|]. split; [exact Hne|].
  split; [reflexivity|]. split; [reflexivity|]. split; [exact Hin|].
  apply (xmm_exchange_reachable 4 true stable_partition 1 2 XMM1 XMM2
           two_vectors stable_partition_ok);
    first [reflexivity | assumption].
Defined.

(** ** C9: [HostCall] *)

Section HostCalls.

Variable SpillCount : nat.
Variable DEBUG : bool.
Variables ABI_RETURN ABI_PARAM1 ABI_PARAM2 ABI_PARAM3 ABI_PARAM4 : HostLoc.
Variable ABI_ALL_CALLER_SAVE : HostLocList.
Variable std_partition : (HostLoc -> bool) -> HostLocList
                         -> HostLocList * HostLocList.
Hypothesis std_partition_ok : partition_contract std_partition.

Lemma erase_first_In (x y : HostLoc) (l : HostLocList) :
  x ∈ l -> x <> y -> x ∈ erase_first y l.
Proof.
  intros Hin Hne. induction l as [|z l IH]; simpl; [exact Hin|].
  apply elem_of_cons in Hin.
  destruct (Nat.eqb_spec z y) as [->|Hz].
  - destruct Hin as [->|Hin]; [contradiction|exact Hin].
  - apply elem_of_cons. destruct Hin as [->|Hin]; auto.
Qed.

Lemma return_register_in_other_caller_save :
  ABI_RETURN ∈ ABI_ALL_CALLER_SAVE ->
  ABI_RETURN <> ABI_PARAM1 -> ABI_RETURN <> ABI_PARAM2 ->
  ABI_RETURN <> ABI_PARAM3 -> ABI_RETURN <> ABI_PARAM4 ->
  ABI_RETURN ∈ other_caller_save ABI_PARAM1 ABI_PARAM2 ABI_PARAM3 ABI_PARAM4
                 ABI_ALL_CALLER_SAVE.
Proof.
  intros Hin H1 H2 H3 H4. unfold other_caller_save, args_hostloc. simpl.
  repeat apply erase_first_In; assumption.
Qed.

Lemma ScratchHostLocReg_singleton x st l st' :
  ScratchHostLocReg SpillCount DEBUG std_partition [x] st = Ok l st' ->
  l = x /\ IsLocked (LocInfo st x) = false /\ locks_kept st st' /\
  IsLocked (LocInfo st' x) = true.
Proof.
  intros H. pose proof H as H'.
  apply ScratchHostLocReg_Ok in H'; [|exact std_partition_ok].
  destruct H' as ((_ & L & _) & Hin & Hs).
  apply list_elem_of_singleton in Hin. subst l.
  unfold ScratchHostLocReg in H.
  split_bind H as u0 s0 Hd. inv_debug Hd.
  split_bind H as l s1 Hsel.
  eapply SelectARegister_Ok in Hsel; [|exact std_partition_ok].
  destruct Hsel as (-> & Hin & Hu & _).
  apply list_elem_of_singleton in Hin. subst l.
  split; [reflexivity|]. split; [exact Hu|]. split; [exact L|].
  unfold IsScratch in Hs. apply andb_true_iff in Hs. apply Hs.
Qed.

Lemma scratch_loop_fails (l : HostLocList) (x : HostLoc) (st : State) :
  x ∈ l -> IsLocked (LocInfo st x) = true ->
  exists e s,
    for_each l (fun caller_saved =>
                  ScratchHostLocReg SpillCount DEBUG std_partition
                                    [caller_saved];; ret tt) st
    = Fail e s.
Proof.
  revert st. induction l as [|y l IH]; intros st Hin Hx.
  - inversion Hin.
  - simpl.
    destruct ((ScratchHostLocReg SpillCount DEBUG std_partition [y];; ret tt)
                st) as [u s1|e s1] eqn:E.
    + rewrite (bind_step _ _ _ _ _ E).
      split_bind E as r s2 Hs. inv_ret E.
      apply ScratchHostLocReg_singleton in Hs.
      destruct Hs as (-> & Hu & L & _).
      apply elem_of_cons in Hin. destruct Hin as [->|Hin].
      * rewrite Hx in Hu. discriminate.
      * apply IH; [exact Hin|]. apply L. exact Hx.
    + rewrite (bind_Fail _ _ _ _ _ E). eauto.
Qed.

Lemma for_each_locks_kept {A : Type} (f : A -> M unit) (l : list A) :
  (forall x st u st', f x st = Ok u st' -> locks_kept st st') ->
  forall st u st', for_each l f st = Ok u st' -> locks_kept st st'.
Proof.
  intros Hf. induction l as [|x l IH]; intros st u st' H; simpl in H.
  - inv_ret H. intros ? ?. assumption.
  - split_bind H as u1 s1 Hx. apply Hf in Hx. apply IH in H.
    intros loc Hloc. auto.
Qed.

(** C9 fails.  [ABI_RETURN] is reserved first and never erased from
    [other_caller_save]; when it is a caller-saved register, the last loop
    asks for it again while it is locked, and [HostCall] stops at an
    assertion on every input. *)
Theorem host_call_never_completes (result_def : option InstId)
    (arg0_use arg1_use arg2_use arg3_use : Value) (st : State) :
  ABI_RETURN ∈ ABI_ALL_CALLER_SAVE ->
  ABI_RETURN <> ABI_PARAM1 -> ABI_RETURN <> ABI_PARAM2 ->
  ABI_RETURN <> ABI_PARAM3 -> ABI_RETURN <> ABI_PARAM4 ->
  exists e s,
    HostCall SpillCount DEBUG ABI_RETURN ABI_PARAM1 ABI_PARAM2 ABI_PARAM3
      ABI_PARAM4 ABI_ALL_CALLER_SAVE std_partition
      result_def arg0_use arg1_use arg2_use arg3_use st
    = Fail e s.
Proof.
  intros Hin H1 H2 H3 H4.
  pose proof (return_register_in_other_caller_save Hin H1 H2 H3 H4) as Hother.
  unfold HostCall.
  match goal with
  | |- exists e s, bind ?m _ st = _ =>
      destruct (m st) as [u s1|e s1] eqn:E1
  end.
  2:{ rewrite (bind_Fail _ _ _ _ _ E1). eauto. }
  rewrite (bind_step _ _ _ _ _ E1).
  assert (IsLocked (LocInfo s1 ABI_RETURN) = true) as Hlocked.
  { destruct result_def as [def|].
    - split_bind E1 as loc s0 Hs.
      apply ScratchHostLocReg_singleton in Hs.
      destruct Hs as (-> & _ & _ & L).
      apply DefineValue_Ok in E1. destruct E1 as [K _].
      apply K. exact L.
    - split_bind E1 as loc s0 Hs. inv_ret E1.
      apply ScratchHostLocReg_singleton in Hs. apply Hs. }
  match goal with
  | |- exists e s, bind ?m _ s1 = _ =>
      destruct (m s1) as [u2 s2|e s2] eqn:E2
  end.
  2:{ rewrite (bind_Fail _ _ _ _ _ E2). eauto. }
  rewrite (bind_step _ _ _ _ _ E2).
  apply (scratch_loop_fails _ ABI_RETURN); [exact Hother|].
  eapply for_each_locks_kept in E2; [apply E2; exact Hlocked|].
  intros [arg hostloc] sa ua sb Hf.
  destruct (negb (IR.IsEmpty arg)).
  - split_bind Hf as r sc Hu. inv_ret Hf.
    eapply UseScratchHostLocReg_Ok in Hu; [|exact std_partition_ok].
    apply Hu.
  - split_bind Hf as r sc Hu. inv_ret Hf.
    eapply ScratchHostLocReg_Ok in Hu; [|exact std_partition_ok].
    apply Hu.
Qed.

End HostCalls.

Lemma host_call_never_completes_witness :
  partition_contract stable_partition /\
  RAX ∈ sysv_ALL_CALLER_SAVE /\
  RAX <> RDI /\ RAX <> RSI /\ RAX <> RDX /\ RAX <> RCX /\
  exists e s,
    HostCall 4 true RAX RDI RSI RDX RCX sysv_ALL_CALLER_SAVE
      stable_partition None VEmpty VEmpty VEmpty VEmpty (fresh (fun _ => 1))
    = Fail e s.
Proof.
  assert (RAX ∈ sysv_ALL_CALLER_SAVE) as Hin by apply list_elem_of_here.
  assert (RAX <> RDI) as H1 by discriminate.
  assert (RAX <> RSI) as H2 by discriminate.
  assert (RAX <> RDX) as H3 by discriminate.
  assert (RAX <> RCX) as H4 by discriminate.
  split; [exact stable_partition_ok|].
  split; [exact Hin|].
  split; [exact H1|]. split; [exact H2|]. split; [exact H3|].
  split; [exact H4|].
  exact (host_call_never_completes 4 true RAX RDI RSI RDX RCX
           sysv_ALL_CALLER_SAVE stable_partition stable_partition_ok
           None VEmpty VEmpty VEmpty VEmpty (fresh (fun _ => 1))
           Hin H1 H2 H3 H4).
Defined.

(** On the freshly reset allocator the call stops at the assertion of
    [SelectARegister], with the return register and the four parameter
    registers locked and nothing else reserved. *)
Lemma host_call_fails_on_fresh_allocator :
  failure (HostCall 4 true RAX RDI RSI RDX RCX sysv_ALL_CALLER_SAVE
             stable_partition None VEmpty VEmpty VEmpty VEmpty
             (fresh (fun _ => 1)))
  = Some E_AllAllocated.
Proof. reflexivity. Qed.

End X64.

(* ================================================================== *)
(** * Properties of the constant propagation pass *)
(* ================================================================== *)

Module ConstPropTheory.
Import IR ConstProp ConstPropSpec.

Lemma arg_at_ReplaceUsesWith b k v j p :
  arg_at (IR.ReplaceUsesWith b k v) j p = subst_value k v <$> arg_at b j p.
Proof.
  unfold arg_at, IR.ReplaceUsesWith.
  rewrite list_lookup_fmap.
  destruct (b !! j) as [inst|]; simpl; [|reflexivity].
  apply list_lookup_fmap.
Qed.

Lemma no_use_after_subst k v (l : list Value) :
  v <> VInst k ->
  filter (fun a => a = VInst k) (subst_value k v <$> l) = [].
Proof.
  intros Hv. induction l as [|a l IH]; [reflexivity|].
  rewrite fmap_cons, filter_cons.
  destruct (decide (subst_value k v a = VInst k)) as [E|E]; [|exact IH].
  exfalso. destruct a as [| |i]; simpl in E; try discriminate.
  destruct (Nat.eqb_spec i k); congruence.
Qed.

Lemma use_count_ReplaceUsesWith b k v :
  v <> VInst k -> use_count (IR.ReplaceUsesWith b k v) k = 0%nat.
Proof.
  intros Hv. unfold use_count, IR.ReplaceUsesWith.
  induction b as [|inst b IH]; [reflexivity|].
  rewrite !fmap_cons. simpl.
  rewrite no_use_after_subst by assumption. simpl. exact IH.
Qed.

Lemma ReplaceUsesWith_replaced b k v :
  uses_replaced b (IR.ReplaceUsesWith b k v) k v.
Proof.
  unfold uses_replaced. split; [apply length_fmap|].
  split.
  { intros j. unfold IR.ReplaceUsesWith. rewrite list_lookup_fmap.
    destruct (b !! j); reflexivity. }
  split.
  { intros j p H. rewrite arg_at_ReplaceUsesWith, H. simpl.
    rewrite Nat.eqb_refl. reflexivity. }
  split.
  { intros j p a H Ha. rewrite arg_at_ReplaceUsesWith, H. simpl.
    destruct a as [| |i]; try reflexivity. simpl.
    destruct (Nat.eqb_spec i k); [congruence|reflexivity]. }
  apply use_count_ReplaceUsesWith.
Qed.

(** ** Division by the immediate zero *)

Lemma FoldDivide_zero b k inst rhs is_32_bit is_signed :
  b !! k = Some inst ->
  GetArg inst 1 = Some rhs ->
  IsZero rhs = true ->
  FoldDivide b k is_32_bit is_signed
  = Some (IR.ReplaceUsesWith b k (VImm (if is_32_bit then U32 else U64) 0)).
Proof.
  intros Hk Hrhs Hz. unfold FoldDivide. rewrite Hk. simpl.
  rewrite Hrhs. simpl. rewrite Hz.
  unfold ConstProp.ReplaceUsesWith. destruct is_32_bit; reflexivity.
Qed.

(** The step on a division whose divisor is the immediate zero returns and
    rewrites every use of the instruction to the immediate 0 of the output
    width of the opcode, whatever the dividend is. *)
Lemma divide_by_zero_step (b : Block) (k : InstId) (inst : Inst)
    (rhs : Value) :
  b !! k = Some inst ->
  is_division (opcode inst) = true ->
  GetArg inst 1 = Some rhs ->
  IsZero rhs = true ->
  exists b',
    ConstantPropagation_inst b k = Some b' /\
    uses_replaced b b' k (VImm (output_type (opcode inst)) 0).
Proof.
  intros Hk Hop Hrhs Hz.
  exists (IR.ReplaceUsesWith b k (VImm (output_type (opcode inst)) 0)).
  split; [|apply ReplaceUsesWith_replaced].
  unfold ConstantPropagation_inst. rewrite Hk. simpl.
  destruct (opcode inst) eqn:E; try discriminate Hop;
    erewrite FoldDivide_zero by eassumption; reflexivity.
Qed.

(** ** Both operands of a commutative operation are immediates *)

Lemma mod_pow2_small_bits (a n : Z) :
  0 <= n -> 0 <= a ->
  (forall m, n <= m -> Z.testbit a m = false) -> a mod 2 ^ n = a.
Proof.
  intros Hn Ha Hhi. apply Z.bits_inj'. intros m Hm.
  destruct (Z.lt_ge_cases m n).
  - apply Z.mod_pow2_bits_low; lia.
  - rewrite Z.mod_pow2_bits_high by lia. symmetry. apply Hhi. lia.
Qed.

Lemma testbit_mod_high (x n m : Z) :
  0 <= n <= m -> Z.testbit (x mod 2 ^ n) m = false.
Proof. intros. apply Z.mod_pow2_bits_high. lia. Qed.

Lemma widened_high_bits t x m :
  64 <= m -> Z.testbit (x mod 2 ^ bit_width t) m = false.
Proof. intros. apply testbit_mod_high. destruct t; simpl; lia. Qed.

Lemma widened_nonneg t x : 0 <= x mod 2 ^ bit_width t.
Proof. apply Z.mod_pos_bound. destruct t; simpl; lia. Qed.

Lemma bitwise_fits_u64 (f : Z -> Z -> Z) ta tb x y :
  (forall a b, 0 <= a -> 0 <= b -> 0 <= f a b) ->
  (forall a b m, Z.testbit a m = false -> Z.testbit b m = false ->
                 Z.testbit (f a b) m = false) ->
  cast_u64 (f (x mod 2 ^ bit_width ta) (y mod 2 ^ bit_width tb))
  = f (x mod 2 ^ bit_width ta) (y mod 2 ^ bit_width tb).
Proof.
  intros Hpos Hbits. unfold cast_u64. apply mod_pow2_small_bits; [lia| |].
  - apply Hpos; apply widened_nonneg.
  - intros m Hm. apply Hbits; apply widened_high_bits; lia.
Qed.

Lemma imm_fn_is_u64_evaluation op ta tb x y :
  let X := x mod 2 ^ bit_width ta in
  let Y := y mod 2 ^ bit_width tb in
  match op with
  | OpAnd => imm_and X Y | OpOr => imm_or X Y
  | OpEor => imm_eor X Y | OpMul => imm_mul X Y
  end = cast_u64 (exact op X Y).
Proof.
  intros X Y. subst X Y. destruct op; simpl; unfold imm_and, imm_or, imm_eor, imm_mul;
    try reflexivity; symmetry; apply bitwise_fits_u64.
  - intros. apply Z.land_nonneg. lia.
  - intros a b m Ha Hb. rewrite Z.land_spec, Ha. reflexivity.
  - intros. apply Z.lor_nonneg. lia.
  - intros a b m Ha Hb. rewrite Z.lor_spec, Ha, Hb. reflexivity.
  - intros. apply Z.lxor_nonneg. lia.
  - intros a b m Ha Hb. rewrite Z.lxor_spec, Ha, Hb. reflexivity.
Qed.

Lemma FoldCommutative_immediates b k inst is_32_bit imm_fn ta x tb y :
  b !! k = Some inst ->
  GetArg inst 0 = Some (VImm ta x) ->
  GetArg inst 1 = Some (VImm tb y) ->
  FoldCommutative b k is_32_bit imm_fn
  = Some (ConstProp.ReplaceUsesWith b k is_32_bit
            (imm_fn (x mod 2 ^ bit_width ta) (y mod 2 ^ bit_width tb)), false).
Proof.
  intros Hk H0 H1. unfold FoldCommutative. rewrite Hk. simpl.
  rewrite H0. simpl. rewrite H1. reflexivity.
Qed.

Lemma truncate_u64_then_width t (a : Z) :
  (a mod 2 ^ 64) mod 2 ^ bit_width t = a mod 2 ^ bit_width t.
Proof.
  assert (0 <= bit_width t <= 64) as Hw by (destruct t; simpl; lia).
  apply Z.bits_inj'. intros m Hm.
  destruct (Z.lt_ge_cases m (bit_width t)).
  - rewrite !Z.mod_pow2_bits_low by lia. reflexivity.
  - rewrite !Z.mod_pow2_bits_high by lia. reflexivity.
Qed.

(** The step on a commutative foldable instruction whose two operands are
    immediates rewrites every use of the instruction to one immediate of the
    output width of the opcode, whose value is the 64-bit evaluation of the
    operation on the widened operands, truncated to that width; every bit
    below the output width is the bit of the exact result. *)
Lemma commutative_immediates_step (b : Block) (k : InstId) (inst : Inst)
    (op : BinOp) (t ta tb : ImmType) (x y : Z) :
  b !! k = Some inst ->
  commutative_op (opcode inst) = Some (op, t) ->
  GetArg inst 0 = Some (VImm ta x) ->
  GetArg inst 1 = Some (VImm tb y) ->
  let X := x mod 2 ^ bit_width ta in
  let Y := y mod 2 ^ bit_width tb in
  let r := cast_u64 (exact op X Y) mod 2 ^ bit_width t in
  (exists b',
    ConstantPropagation_inst b k = Some b' /\
    uses_replaced b b' k (VImm t r)) /\
  (forall n, 0 <= n < bit_width t ->
             Z.testbit r n = Z.testbit (exact op X Y) n).
Proof.
  intros Hk Hop H0 H1 X Y r.
  split.
  - exists (IR.ReplaceUsesWith b k (VImm t r)).
    split; [|apply ReplaceUsesWith_replaced].
    unfold ConstantPropagation_inst. rewrite Hk. simpl.
    pose proof (imm_fn_is_u64_evaluation op ta tb x y) as Himm. simpl in Himm.
    destruct (opcode inst) eqn:E; try discriminate Hop;
      injection Hop as <- <-;
      unfold FoldAND, FoldOR, FoldEOR, FoldMultiply;
      erewrite FoldCommutative_immediates by eassumption; simpl;
      rewrite Himm; unfold ConstProp.ReplaceUsesWith, Opcode_eqb; simpl;
      subst r X Y; unfold cast_u32, cast_u64; simpl bit_width;
      rewrite ?Z.mod_mod by lia; reflexivity.
  - intros n Hn. subst r. unfold cast_u64.
    rewrite truncate_u64_then_width.
    apply Z.mod_pow2_bits_low. lia.
Qed.

(** ** SSA order *)

Lemma ordered_from_lookup (j0 : nat) (b : Block) :
  ordered_from j0 b = true <->
  (forall j inst, b !! j = Some inst -> inst_ordered (j0 + j) inst = true).
Proof.
  revert j0. induction b as [|i b IH]; intros j0; simpl.
  - split; [intros _ j inst H; discriminate H | reflexivity].
  - rewrite andb_true_iff, IH. split.
    + intros [Hi Hb] [|j] inst H; simpl in H.
      * injection H as <-. rewrite Nat.add_0_r. exact Hi.
      * replace (j0 + S j)%nat with (S j0 + j)%nat by lia. apply Hb, H.
    + intros H. split.
      * specialize (H 0%nat i eq_refl). rewrite Nat.add_0_r in H. exact H.
      * intros j inst Hj. replace (S j0 + j)%nat with (j0 + S j)%nat by lia.
        apply H. exact Hj.
Qed.

Lemma ssa_ordered_lookup (b : Block) (j : nat) (inst : Inst) :
  ssa_ordered b = true -> b !! j = Some inst -> inst_ordered j inst = true.
Proof.
  intros H Hj. exact (proj1 (ordered_from_lookup 0 b) H j inst Hj).
Qed.

Lemma ordered_arg_below (j : nat) (inst : Inst) (p : nat) (a : Value) :
  inst_ordered j inst = true -> GetArg inst p = Some a ->
  refs_below j a = true.
Proof.
  unfold inst_ordered, GetArg. rewrite andb_true_iff. intros [H _] Hp.
  rewrite forallb_forall in H. apply H.
  apply list_elem_of_In. eapply list_elem_of_lookup_2. exact Hp.
Qed.

Lemma ordered_carry_above (j : nat) (inst : Inst) (op : Opcode) (c : nat) :
  inst_ordered j inst = true ->
  GetAssociatedPseudoOperation inst op = Some c -> (j < c)%nat.
Proof.
  unfold inst_ordered, GetAssociatedPseudoOperation.
  rewrite andb_true_iff. intros [_ H] Hc.
  destruct (find _ (pseudo_ops inst)) as [[o c']|] eqn:F; [|discriminate Hc].
  simpl in Hc. injection Hc as ->.
  apply find_some in F. destruct F as [Hin _].
  rewrite forallb_forall in H. specialize (H _ Hin). simpl in H.
  apply Nat.ltb_lt. exact H.
Qed.

Lemma refs_below_not_ref (j i : nat) (a : Value) :
  refs_below j a = true -> (j <= i)%nat -> a <> VInst i.
Proof.
  intros H Hle ->. simpl in H. apply Nat.ltb_lt in H. lia.
Qed.

(** ** Shifts and rotates by the immediate zero *)

Lemma subst_value_other k v a : a <> VInst k -> subst_value k v a = a.
Proof.
  destruct a as [| |i]; simpl; try reflexivity.
  intros H. destruct (Nat.eqb_spec i k); congruence.
Qed.

Lemma subst_value_same k v : subst_value k v (VInst k) = v.
Proof. simpl. rewrite Nat.eqb_refl. reflexivity. Qed.

Lemma use_count_two_replaced b k c a0 a2 :
  a0 <> VInst c -> a2 <> VInst c ->
  use_count (IR.ReplaceUsesWith (IR.ReplaceUsesWith b c a2) k a0) c = 0%nat.
Proof.
  intros H0 H2. unfold use_count, IR.ReplaceUsesWith.
  induction b as [|inst b IH]; [reflexivity|].
  rewrite !fmap_cons. simpl. rewrite IH, Nat.add_0_r.
  clear IH. induction (args inst) as [|a l IHl]; [reflexivity|].
  rewrite !fmap_cons, filter_cons.
  destruct (decide (subst_value k a0 (subst_value c a2 a) = VInst c)) as [E|E];
    [|exact IHl].
  exfalso. destruct (decide (a = VInst c)) as [->|Hc].
  - rewrite subst_value_same in E.
    destruct (decide (a2 = VInst k)) as [->|Hk].
    + rewrite subst_value_same in E. congruence.
    + rewrite subst_value_other in E by assumption. congruence.
  - rewrite (subst_value_other c) in E by assumption.
    destruct (decide (a = VInst k)) as [->|Hk].
    + rewrite subst_value_same in E. congruence.
    + rewrite subst_value_other in E by assumption. congruence.
Qed.

Lemma lookup_ReplaceUsesWith b k v j :
  IR.ReplaceUsesWith b k v !! j = subst_inst k v <$> b !! j.
Proof. apply list_lookup_fmap. Qed.

Lemma two_replaced b k c a0 a2 :
  k <> c -> a0 <> VInst k -> a0 <> VInst c -> a2 <> VInst k ->
  a2 <> VInst c ->
  result_and_carry_replaced b
    (IR.ReplaceUsesWith (IR.ReplaceUsesWith b c a2) k a0) k c a0 a2.
Proof.
  intros Hkc H0k H0c H2k H2c. unfold result_and_carry_replaced.
  split; [unfold IR.ReplaceUsesWith; rewrite !length_fmap; reflexivity|].
  split.
  { intros j. rewrite !lookup_ReplaceUsesWith. destruct (b !! j); reflexivity. }
  split.
  { intros j p H. rewrite !arg_at_ReplaceUsesWith, H. simpl.
    destruct (Nat.eqb_spec k c); [contradiction|]. simpl.
    rewrite Nat.eqb_refl. reflexivity. }
  split.
  { intros j p H. rewrite !arg_at_ReplaceUsesWith, H. simpl.
    rewrite Nat.eqb_refl. rewrite subst_value_other by assumption.
    reflexivity. }
  split.
  { intros j p a H Hk Hc. rewrite !arg_at_ReplaceUsesWith, H. simpl.
    rewrite (subst_value_other c) by assumption.
    rewrite subst_value_other by assumption. reflexivity. }
  split.
  - apply use_count_ReplaceUsesWith. assumption.
  - apply use_count_two_replaced; assumption.
Qed.

Lemma GetArg_subst_inst k v inst p :
  GetArg (subst_inst k v inst) p = subst_value k v <$> GetArg inst p.
Proof. unfold GetArg. simpl. apply list_lookup_fmap. Qed.

(** The step on a shift or rotate instruction whose operands refer to
    earlier instructions and whose shift amount is the immediate zero: when
    a GetCarryFromOp pseudo-operation [c] is associated with it, every use
    of the instruction is rewritten to its first operand and every use of
    [c] to its third operand; when none is associated, the third operand of
    a three-operand instruction is first set to the constant false, and then
    every use of the instruction is rewritten to its first operand. *)
Lemma zero_shift_step (b : Block) (k : InstId) (inst : Inst)
    (a0 amount : Value) :
  inst_ordered k inst = true ->
  b !! k = Some inst ->
  is_shift (opcode inst) = true ->
  GetArg inst 0 = Some a0 ->
  GetArg inst 1 = Some amount ->
  IsZero amount = true ->
  match GetAssociatedPseudoOperation inst GetCarryFromOp with
  | Some c =>
      forall a2, GetArg inst 2 = Some a2 ->
      exists b',
        ConstantPropagation_inst b k = Some b' /\
        result_and_carry_replaced b b' k c a0 a2
  | None =>
      exists b0 b',
        (if Nat.eqb (NumArgs inst) 3
         then SetArg b k 2 (of_bool false) = Some b0 /\
              arg_at b' k 2 = Some (of_bool false)
         else b0 = b) /\
        ConstantPropagation_inst b k = Some b' /\
        uses_replaced b0 b' k a0
  end.
Proof.
  intros Hord Hk Hop H0 H1 Hz.
  assert (ConstantPropagation_inst b k = FoldShifts b k) as ->.
  { unfold ConstantPropagation_inst. rewrite Hk. simpl.
    destruct (opcode inst); try discriminate Hop; reflexivity. }
  pose proof (refs_below_not_ref k k a0
                (ordered_arg_below k inst 0 a0 Hord H0) (le_n k)) as H0k.
  unfold FoldShifts. rewrite Hk. simpl.
  destruct (GetAssociatedPseudoOperation inst GetCarryFromOp) as [c|] eqn:Hc.
  - intros a2 H2.
    pose proof (ordered_carry_above k inst _ c Hord Hc) as Hkc.
    pose proof (ordered_arg_below k inst 0 a0 Hord H0) as B0.
    pose proof (ordered_arg_below k inst 2 a2 Hord H2) as B2.
    assert (bool_decide (is_Some (Some c)) = true) as ->
      by (apply bool_decide_eq_true; eauto).
    rewrite andb_false_r. simpl. rewrite Hk. simpl.
    rewrite H1. simpl. rewrite Hz. simpl. rewrite H2. simpl.
    rewrite lookup_ReplaceUsesWith, Hk. simpl.
    rewrite GetArg_subst_inst, H0. simpl.
    rewrite (subst_value_other c) by (eapply refs_below_not_ref; eauto; lia).
    eexists. split; [reflexivity|].
    apply two_replaced; try assumption; try lia;
      eapply refs_below_not_ref; eauto; lia.
  - assert (bool_decide (is_Some (@None nat)) = false) as ->.
    { apply bool_decide_eq_false. intros [? ?]. discriminate. }
    rewrite andb_true_r.
    destruct (Nat.eqb_spec (NumArgs inst) 3) as [E3|E3].
    + unfold SetArg. rewrite Hk. simpl.
      destruct (decide (2 < NumArgs inst)%nat) as [_|?]; [|lia].
      simpl.
      assert (k < length b)%nat as Hlt by (eapply lookup_lt_Some; eauto).
      rewrite list_lookup_insert_eq by assumption. simpl.
      unfold GetArg in *. simpl.
      rewrite !list_lookup_insert_ne by lia. rewrite H1. simpl.
      rewrite Hz. simpl. rewrite H0. simpl.
      set (b0 := <[k:=_]> b).
      exists b0, (IR.ReplaceUsesWith b0 k a0).
      split; [split; [reflexivity|]|].
      * rewrite arg_at_ReplaceUsesWith. unfold arg_at, b0.
        rewrite list_lookup_insert_eq by assumption. simpl.
        rewrite list_lookup_insert_eq by (unfold NumArgs in E3; lia).
        reflexivity.
      * split; [reflexivity|]. apply ReplaceUsesWith_replaced.
    + simpl. rewrite Hk. simpl. rewrite H1. simpl. rewrite Hz. simpl.
      rewrite H0. simpl.
      exists b. eexists. split; [reflexivity|].
      split; [reflexivity|]. apply ReplaceUsesWith_replaced.
Qed.

(** ** Well-formed blocks, step by step *)

Lemma well_formed_WF (b : Block) : well_formed b = true -> WF b.
Proof.
  unfold well_formed. rewrite andb_true_iff. intros [Ho Hf] j inst Hj.
  split; [eapply ssa_ordered_lookup; eauto|].
  rewrite forallb_forall in Hf. apply Hf.
  apply list_elem_of_In. eapply list_elem_of_lookup_2. exact Hj.
Qed.

Lemma refs_below_mono (j k : nat) (v : Value) :
  refs_below k v = true -> (k <= j)%nat -> refs_below j v = true.
Proof.
  destruct v; simpl; auto. intros H Hle.
  apply Nat.ltb_lt in H. apply Nat.ltb_lt. lia.
Qed.

Lemma subst_value_below (j k : nat) (v a : Value) :
  refs_below j a = true -> (j <= k)%nat -> subst_value k v a = a.
Proof.
  intros H Hle. apply subst_value_other.
  eapply refs_below_not_ref; eauto.
Qed.

Lemma subst_inst_below (j k : nat) (v : Value) (inst : Inst) :
  inst_ordered j inst = true -> (j <= k)%nat -> subst_inst k v inst = inst.
Proof.
  unfold inst_ordered. rewrite andb_true_iff. intros [H _] Hle.
  unfold subst_inst. destruct inst as [o l ps]. simpl in *. f_equal.
  induction l as [|a l IH]; [reflexivity|].
  simpl in H. apply andb_true_iff in H. destruct H as [Ha Hl].
  rewrite fmap_cons. f_equal; [|apply IH, Hl].
  eapply subst_value_below; eauto.
Qed.

Lemma forallb_fmap_subst (P : Value -> bool) (k : nat) (v : Value)
    (l : list Value) :
  (forall a, P a = true -> P (subst_value k v a) = true) ->
  forallb P l = true -> forallb P (subst_value k v <$> l) = true.
Proof.
  intros HP. induction l as [|a l IH]; [reflexivity|].
  rewrite fmap_cons. simpl. rewrite !andb_true_iff. intros [Ha Hl].
  split; [apply HP, Ha|apply IH, Hl].
Qed.

Lemma operands_ok_subst (k : nat) (v : Value) (inst : Inst) :
  IR.IsEmpty v = false ->
  operands_ok inst = true -> operands_ok (subst_inst k v inst) = true.
Proof.
  intros Hv. unfold operands_ok, subst_inst, NumArgs,
    GetAssociatedPseudoOperation. simpl. rewrite length_fmap.
  assert (forallb (fun a => negb (IR.IsEmpty a)) (args inst) = true ->
          forallb (fun a => negb (IR.IsEmpty a))
                  (subst_value k v <$> args inst) = true) as Hne.
  { apply forallb_fmap_subst. intros a Ha.
    destruct a as [| |i]; simpl; try exact Ha.
    destruct (Nat.eqb i k); [rewrite Hv; reflexivity|reflexivity]. }
  destruct (opcode inst); try reflexivity;
    rewrite !andb_true_iff; intros [[H1 H2] H3];
    (split; [split; [exact H1|apply Hne, H2]|exact H3]).
Qed.

Lemma inst_ordered_subst (j k : nat) (v : Value) (inst : Inst) :
  refs_below k v = true ->
  inst_ordered j inst = true -> inst_ordered j (subst_inst k v inst) = true.
Proof.
  intros Hv. unfold inst_ordered, subst_inst. simpl.
  rewrite !andb_true_iff. intros [Ha Hp]. split; [|exact Hp].
  revert Ha. apply forallb_fmap_subst. intros a Ha.
  destruct a as [| |i]; simpl; try exact Ha.
  destruct (Nat.eqb_spec i k) as [->|]; [|exact Ha].
  simpl in Ha. apply Nat.ltb_lt in Ha.
  eapply refs_below_mono; eauto. lia.
Qed.

Lemma value_ok_parts (k : nat) (v : Value) :
  value_ok k v = true -> IR.IsEmpty v = false /\ refs_below k v = true.
Proof.
  unfold value_ok. rewrite andb_true_iff, negb_true_iff. tauto.
Qed.

Lemma extends_refl (k : nat) (b : Block) : WF b -> extends k b b.
Proof.
  intros H. split; [exact H|]. split; [reflexivity|].
  split; [intros; reflexivity|reflexivity].
Qed.

Lemma extends_trans (k : nat) (b1 b2 b3 : Block) :
  extends k b1 b2 -> extends k b2 b3 -> extends k b1 b3.
Proof.
  intros (W2 & L2 & P2 & O2) (W3 & L3 & P3 & O3).
  split; [exact W3|]. split; [congruence|]. split.
  - intros j Hj. rewrite P3, P2 by assumption. reflexivity.
  - congruence.
Qed.

Lemma ReplaceUsesWith_extends (b : Block) (k k' : nat) (v : Value) :
  WF b -> (k <= k')%nat -> value_ok k' v = true ->
  extends k b (IR.ReplaceUsesWith b k' v) /\
  IR.ReplaceUsesWith b k' v !! k = b !! k.
Proof.
  intros W Hle Hv. apply value_ok_parts in Hv. destruct Hv as [Hne Hbelow].
  assert (forall j, (j <= k')%nat ->
                    IR.ReplaceUsesWith b k' v !! j = b !! j) as Hprefix.
  { intros j Hj. rewrite lookup_ReplaceUsesWith.
    destruct (b !! j) as [inst|] eqn:E; [|reflexivity]. simpl.
    f_equal. eapply subst_inst_below; eauto. apply (W j inst E). }
  split; [|apply Hprefix, Hle].
  split; [|split; [apply length_fmap|split]].
  - intros j inst Hj. rewrite lookup_ReplaceUsesWith in Hj.
    destruct (b !! j) as [inst0|] eqn:E; [|discriminate].
    simpl in Hj. injection Hj as <-.
    destruct (W j inst0 E) as [Ho Hk]. split.
    + apply inst_ordered_subst; assumption.
    + apply operands_ok_subst; assumption.
  - intros j Hj. apply Hprefix. lia.
  - rewrite Hprefix by exact Hle. reflexivity.
Qed.

Lemma forallb_insert {A : Type} (P : A -> bool) (l : list A) (i : nat)
    (v : A) :
  forallb P l = true -> P v = true -> forallb P (<[i:=v]> l) = true.
Proof.
  intros Hl Hv. revert i. induction l as [|a l IH]; intros i; [reflexivity|].
  simpl in Hl. apply andb_true_iff in Hl. destruct Hl as [Ha Hl].
  destruct i as [|i]; simpl; rewrite andb_true_iff; auto.
Qed.

Lemma SetArg_extends (b : Block) (k i : nat) (inst : Inst) (v : Value) :
  WF b -> b !! k = Some inst -> (i < NumArgs inst)%nat ->
  value_ok k v = true ->
  SetArg b k i v = Some (<[k := with_arg inst i v]> b) /\
  extends k b (<[k := with_arg inst i v]> b) /\
  <[k := with_arg inst i v]> b !! k = Some (with_arg inst i v).
Proof.
  intros W Hk Hi Hv.
  assert (k < length b)%nat as Hlt by (eapply lookup_lt_Some; eauto).
  apply value_ok_parts in Hv. destruct Hv as [Hne Hbelow].
  split.
  { unfold SetArg. rewrite Hk. simpl.
    destruct (decide (i < NumArgs inst)%nat); [reflexivity|contradiction]. }
  split; [|apply list_lookup_insert_eq, Hlt].
  split; [|split; [apply length_insert|split]].
  - intros j inst' Hj.
    destruct (decide (j = k)) as [->|Hjk].
    + rewrite list_lookup_insert_eq in Hj by exact Hlt.
      injection Hj as <-. destruct (W k inst Hk) as [Ho Hok]. split.
      * unfold inst_ordered, with_arg in *. simpl.
        apply andb_true_iff in Ho. destruct Ho as [Ha Hp].
        apply andb_true_iff. split; [|exact Hp].
        apply forallb_insert; assumption.
      * unfold operands_ok, with_arg, NumArgs,
          GetAssociatedPseudoOperation in *. simpl.
        rewrite length_insert.
        destruct (opcode inst); try reflexivity;
          rewrite !andb_true_iff in *;
          destruct Hok as [[H1 H2] H3];
          (split; [split; [exact H1|]|exact H3]);
          (apply forallb_insert; [exact H2|rewrite Hne; reflexivity]).
    + rewrite list_lookup_insert_ne in Hj by congruence. apply (W j), Hj.
  - intros j Hj. apply list_lookup_insert_ne. lia.
  - rewrite list_lookup_insert_eq by exact Hlt. rewrite Hk. reflexivity.
Qed.

Lemma immediate_value_ok (k : nat) (v : Value) :
  IsImmediate v = true -> value_ok k v = true.
Proof. destruct v; simpl; try discriminate. reflexivity. Qed.

Lemma operand_value_ok (b : Block) (k i : nat) (inst : Inst) (a : Value) :
  WF b -> b !! k = Some inst -> min_args (opcode inst) <> 0%nat ->
  GetArg inst i = Some a -> value_ok k a = true.
Proof.
  intros W Hk Hf Ha. destruct (W k inst Hk) as [Ho Hok].
  unfold value_ok. apply andb_true_iff. split.
  - unfold operands_ok in Hok.
    assert (forallb (fun a => negb (IR.IsEmpty a)) (args inst) = true) as H.
    { destruct (opcode inst); simpl in Hf; try contradiction;
        rewrite !andb_true_iff in Hok; tauto. }
    rewrite forallb_forall in H. apply H.
    apply list_elem_of_In. eapply list_elem_of_lookup_2. exact Ha.
  - eapply ordered_arg_below; eauto.
Qed.

Lemma has_min_args (b : Block) (k : nat) (inst : Inst) :
  WF b -> b !! k = Some inst ->
  (min_args (opcode inst) <= NumArgs inst)%nat.
Proof.
  intros W Hk. destruct (W k inst Hk) as [_ Hok]. unfold operands_ok in Hok.
  destruct (opcode inst); simpl; try lia;
    rewrite !andb_true_iff in Hok; destruct Hok as [[H _] _];
    apply Nat.leb_le in H; exact H.
Qed.

Lemma GetArg_exists (inst : Inst) (i : nat) :
  (i < NumArgs inst)%nat -> exists a, GetArg inst i = Some a.
Proof. intros H. apply lookup_lt_is_Some_2 in H. exact H. Qed.

Lemma all_immediates_arg (inst : Inst) (i : nat) (a : Value) :
  AreAllArgsImmediates inst = true -> GetArg inst i = Some a ->
  exists t x, a = VImm t x.
Proof.
  unfold AreAllArgsImmediates. intros H Ha. rewrite forallb_forall in H.
  assert (IsImmediate a = true) as Hi.
  { apply H. apply list_elem_of_In. eapply list_elem_of_lookup_2. exact Ha. }
  destruct a; try discriminate. eauto.
Qed.

Lemma step_ok_not_commutative (k : nat) (b : Block) (inst : Inst)
    (r : option Block) :
  b !! k = Some inst -> commutative_op (opcode inst) = None ->
  (exists b', r = Some b' /\ extends k b b') -> step_ok k b r.
Proof.
  intros Hk Hc (b' & -> & E). exists b'. split; [reflexivity|].
  split; [exact E|]. intros inst' Hk' [x Hx].
  destruct E as (_ & _ & _ & Ho). rewrite Hk, Hk' in Ho. simpl in Ho.
  injection Ho as Ho. rewrite Ho, Hc in Hx. discriminate.
Qed.

Lemma replace_by_immediate (k : nat) (b : Block) (v : Value) :
  WF b -> IsImmediate v = true ->
  exists b', Some (IR.ReplaceUsesWith b k v) = Some b' /\ extends k b b'.
Proof.
  intros W Hv. eexists. split; [reflexivity|].
  apply ReplaceUsesWith_extends; [exact W|lia|].
  apply immediate_value_ok, Hv.
Qed.

Lemma unchanged_extends (k : nat) (b : Block) :
  WF b -> exists b', Some b = Some b' /\ extends k b b'.
Proof. intros W. exists b. split; [reflexivity|apply extends_refl, W]. Qed.

Lemma GetImmediateAsS64_imm t x : is_Some (GetImmediateAsS64 (VImm t x)).
Proof. destruct t; simpl; eauto. Qed.


Lemma obind_Some {A B : Type} (x : A) (f : A -> option B) :
  Some x ≫= f = f x.
Proof. reflexivity. Qed.

(** Steps through [x ← Some a; ...] without unfolding the arithmetic. *)
Ltac obind := repeat (rewrite obind_Some; cbv beta).

Lemma GetImmediateAsU64_imm t x : is_Some (GetImmediateAsU64 (VImm t x)).
Proof. simpl. eauto. Qed.

(** A folder that reads operand 0 when all operands are immediates. *)
Lemma all_immediates_folder (b : Block) (k : nat) (inst : Inst)
    (get : Value -> option Z) (f : Z -> Value) :
  WF b -> b !! k = Some inst -> (1 <= NumArgs inst)%nat ->
  (forall t x, is_Some (get (VImm t x))) ->
  (forall z, IsImmediate (f z) = true) ->
  exists b',
    (inst ← b !! k;
     if negb (AreAllArgsImmediates inst) then Some b
     else a0 ← GetArg inst 0; value ← get a0;
          Some (IR.ReplaceUsesWith b k (f value))) = Some b' /\
    extends k b b'.
Proof.
  intros W Hk Hn Hget Hf. rewrite Hk. obind.
  destruct (AreAllArgsImmediates inst) eqn:EA; simpl negb; cbv iota.
  - destruct (GetArg_exists inst 0 ltac:(lia)) as [a0 Ha0].
    destruct (all_immediates_arg inst 0 a0 EA Ha0) as (t & x & ->).
    rewrite Ha0. obind. destruct (Hget t x) as [z ->]. obind.
    apply replace_by_immediate; [exact W|apply Hf].
  - apply unchanged_extends, W.
Qed.

Lemma FoldLeastSignificant_extends cast t (b : Block) (k : nat)
    (inst : Inst) :
  WF b -> b !! k = Some inst -> (1 <= NumArgs inst)%nat ->
  exists b', FoldLeastSignificant cast t b k = Some b' /\ extends k b b'.
Proof.
  intros W Hk Hn. unfold FoldLeastSignificant.
  apply (all_immediates_folder b k inst GetImmediateAsU64
           (fun x => VImm t (cast x))); auto using GetImmediateAsU64_imm.
Qed.

Lemma FoldExtend_extends get t cast (b : Block) (k : nat) (inst : Inst) :
  WF b -> b !! k = Some inst -> (1 <= NumArgs inst)%nat ->
  (forall t x, is_Some (get (VImm t x))) ->
  exists b', FoldExtend get t cast b k = Some b' /\ extends k b b'.
Proof.
  intros W Hk Hn Hget. unfold FoldExtend.
  apply (all_immediates_folder b k inst get (fun x => VImm t (cast x)));
    auto.
Qed.

Lemma FoldMostSignificantBit_extends (b : Block) (k : nat) (inst : Inst) :
  WF b -> b !! k = Some inst -> (1 <= NumArgs inst)%nat ->
  exists b', FoldMostSignificantBit b k = Some b' /\ extends k b b'.
Proof.
  intros W Hk Hn. unfold FoldMostSignificantBit.
  apply (all_immediates_folder b k inst GetImmediateAsU64
           (fun x => of_bool (negb (Z.shiftr x 31 =? 0)%Z))); auto using GetImmediateAsU64_imm.
Qed.

Lemma FoldMostSignificantWord_extends (b : Block) (k : nat) (inst : Inst) :
  WF b -> b !! k = Some inst -> (1 <= NumArgs inst)%nat ->
  exists b', FoldMostSignificantWord b k = Some b' /\ extends k b b'.
Proof.
  intros W Hk Hn. unfold FoldMostSignificantWord.
  pose proof (W k inst Hk) as [Hord _].
  rewrite Hk. obind.
  destruct (AreAllArgsImmediates inst) eqn:EA; simpl negb; cbv iota.
  2:{ apply unchanged_extends, W. }
  destruct (GetArg_exists inst 0 ltac:(lia)) as [a0 Ha0].
  destruct (all_immediates_arg inst 0 a0 EA Ha0) as (t & x & ->).
  rewrite Ha0. obind.
  destruct (GetImmediateAsU64_imm t x) as [z ->]. obind.
  destruct (GetAssociatedPseudoOperation inst GetCarryFromOp) as [c|] eqn:Ec.
  - pose proof (ordered_carry_above k inst _ c Hord Ec) as Hc.
    eexists. split; [reflexivity|].
    assert (extends k b (IR.ReplaceUsesWith b c (of_bool (Bit 31 z)))) as E1
      by (apply ReplaceUsesWith_extends; [exact W|lia|reflexivity]).
    eapply extends_trans; [exact E1|].
    apply ReplaceUsesWith_extends; [apply E1|lia|reflexivity].
  - apply replace_by_immediate; [exact W|reflexivity].
Qed.

Lemma ReplaceUsesWith_width_extends (b : Block) (k : nat)
    (is_32_bit : bool) (value : Z) :
  WF b ->
  exists b', Some (ConstProp.ReplaceUsesWith b k is_32_bit value) = Some b' /\
             extends k b b'.
Proof.
  intros W. unfold ConstProp.ReplaceUsesWith.
  destruct is_32_bit; apply replace_by_immediate; auto.
Qed.

Lemma ReplaceUsesWith_width_lookup (b : Block) (k : nat)
    (is_32_bit : bool) (value : Z) :
  WF b -> ConstProp.ReplaceUsesWith b k is_32_bit value !! k = b !! k.
Proof.
  intros W. unfold ConstProp.ReplaceUsesWith.
  destruct is_32_bit.
  - apply (ReplaceUsesWith_extends b k k (VImm U32 (cast_u32 value)) W);
      [lia|reflexivity].
  - apply (ReplaceUsesWith_extends b k k (VImm U64 value) W);
      [lia|reflexivity].
Qed.

Lemma FoldNOT_extends (b : Block) (k : nat) (inst : Inst) is_32_bit :
  WF b -> b !! k = Some inst -> (1 <= NumArgs inst)%nat ->
  exists b', FoldNOT b k is_32_bit = Some b' /\ extends k b b'.
Proof.
  intros W Hk Hn. unfold FoldNOT. rewrite Hk. obind.
  destruct (GetArg_exists inst 0 ltac:(lia)) as [a0 Ha0].
  rewrite Ha0. obind.
  destruct a0 as [|t x|i]; simpl IsImmediate; simpl negb; cbv iota;
    try (apply unchanged_extends, W).
  destruct (GetImmediateAsU64_imm t x) as [z ->]. obind.
  apply ReplaceUsesWith_width_extends, W.
Qed.

Lemma FoldByteReverse_extends (b : Block) (k : nat) (inst : Inst) op :
  WF b -> b !! k = Some inst -> (1 <= NumArgs inst)%nat ->
  exists b', FoldByteReverse b k op = Some b' /\ extends k b b'.
Proof.
  intros W Hk Hn. unfold FoldByteReverse. rewrite Hk. obind.
  destruct (GetArg_exists inst 0 ltac:(lia)) as [a0 Ha0].
  rewrite Ha0. obind.
  destruct a0 as [|t x|i]; simpl IsImmediate; simpl negb; cbv iota;
    try (apply unchanged_extends, W).
  destruct (GetImmediateAsU64_imm t x) as [z ->]. obind.
  destruct (Opcode_eqb op ByteReverseWord);
    [|destruct (Opcode_eqb op ByteReverseHalf)];
    apply replace_by_immediate; auto.
Qed.

Lemma FoldDivide_extends (b : Block) (k : nat) (inst : Inst)
    is_32_bit is_signed :
  WF b -> b !! k = Some inst -> is_division (opcode inst) = true ->
  is_signed = is_signed_division (opcode inst) ->
  division_overflows inst = false ->
  exists b', FoldDivide b k is_32_bit is_signed = Some b' /\ extends k b b'.
Proof.
  intros W Hk Hop Hs Hov.
  pose proof (has_min_args b k inst W Hk) as Hmin.
  assert (min_args (opcode inst) = 2%nat) as Em
    by (destruct (opcode inst); try discriminate Hop; reflexivity).
  rewrite Em in Hmin.
  unfold FoldDivide. rewrite Hk. obind.
  destruct (GetArg_exists inst 1 ltac:(lia)) as [rhs Hrhs].
  destruct (GetArg_exists inst 0 ltac:(lia)) as [lhs Hlhs].
  rewrite Hrhs. obind.
  destruct (IsZero rhs); [apply ReplaceUsesWith_width_extends, W|].
  rewrite Hlhs. obind.
  destruct (IsImmediate lhs && IsImmediate rhs) eqn:EI.
  - apply andb_true_iff in EI. destruct EI as [El Er].
    destruct lhs as [|tl xl|]; try discriminate.
    destruct rhs as [|tr xr|]; try discriminate.
    destruct is_signed.
    + unfold division_overflows in Hov. rewrite <- Hs, Hlhs, Hrhs in Hov.
      destruct (GetImmediateAsS64_imm tl xl) as [x Hx].
      destruct (GetImmediateAsS64_imm tr xr) as [y Hy].
      rewrite Hx, Hy in Hov |- *. obind.
      cbn [andb IsImmediate] in Hov. rewrite Hov.
      apply ReplaceUsesWith_width_extends, W.
    + destruct (GetImmediateAsU64_imm tl xl) as [x ->].
      destruct (GetImmediateAsU64_imm tr xr) as [y ->]. obind.
      apply ReplaceUsesWith_width_extends, W.
  - destruct (IsUnsignedImmediate rhs 1); [|apply unchanged_extends, W].
    eexists. split; [reflexivity|].
    apply ReplaceUsesWith_extends; [exact W|lia|].
    eapply operand_value_ok; eauto. rewrite Em. discriminate.
Qed.

Lemma value_ok_mono (j k : nat) (v : Value) :
  value_ok k v = true -> (k <= j)%nat -> value_ok j v = true.
Proof.
  unfold value_ok. rewrite !andb_true_iff. intros [H1 H2] Hle.
  split; [exact H1|]. eapply refs_below_mono; eauto.
Qed.

Lemma GetArg_with_arg_eq (inst : Inst) (i : nat) (v : Value) :
  (i < NumArgs inst)%nat -> GetArg (with_arg inst i v) i = Some v.
Proof. intros H. unfold GetArg, with_arg. simpl. apply list_lookup_insert_eq, H. Qed.

Lemma GetArg_with_arg_ne (inst : Inst) (i j : nat) (v : Value) :
  i <> j -> GetArg (with_arg inst i v) j = GetArg inst j.
Proof. intros H. unfold GetArg, with_arg. simpl. apply list_lookup_insert_ne, H. Qed.

Lemma NumArgs_with_arg (inst : Inst) (i : nat) (v : Value) :
  NumArgs (with_arg inst i v) = NumArgs inst.
Proof. unfold NumArgs, with_arg. simpl. apply length_insert. Qed.

Lemma FoldShifts_extends (b : Block) (k : nat) (inst : Inst) :
  WF b -> b !! k = Some inst -> is_shift (opcode inst) = true ->
  exists b', FoldShifts b k = Some b' /\ extends k b b'.
Proof.
  intros W Hk Hop.
  pose proof (has_min_args b k inst W Hk) as Hmin.
  assert (min_args (opcode inst) = 2%nat) as Em
    by (destruct (opcode inst); try discriminate Hop; reflexivity).
  rewrite Em in Hmin.
  pose proof (W k inst Hk) as [Hord Hok].
  assert (forall c, GetAssociatedPseudoOperation inst GetCarryFromOp = Some c
                    -> (3 <= NumArgs inst)%nat) as Hcarry.
  { intros c Hc. unfold operands_ok in Hok. rewrite Hop, Hc in Hok.
    destruct (opcode inst); try discriminate Hop;
      rewrite !andb_true_iff in Hok; destruct Hok as [_ H];
      apply Nat.leb_le in H; exact H. }
  (* the state after the third operand has been forced *)
  assert (exists b1 inst1,
            (if Nat.eqb (NumArgs inst) 3
                && negb (bool_decide (is_Some
                     (GetAssociatedPseudoOperation inst GetCarryFromOp)))
             then SetArg b k 2 (of_bool false) else Some b) = Some b1 /\
            extends k b b1 /\ b1 !! k = Some inst1 /\
            GetArg inst1 0 = GetArg inst 0 /\
            GetArg inst1 1 = GetArg inst 1 /\
            (is_Some (GetAssociatedPseudoOperation inst GetCarryFromOp) ->
             b1 = b /\ inst1 = inst))
    as (b1 & inst1 & Hb1 & E1 & Hk1 & G0 & G1 & Hsame).
  { destruct (Nat.eqb_spec (NumArgs inst) 3) as [E3|E3]; simpl.
    - destruct (bool_decide_reflect (is_Some
                  (GetAssociatedPseudoOperation inst GetCarryFromOp)))
        as [Hs|Hs]; simpl.
      + exists b, inst. split; [reflexivity|].
        split; [apply extends_refl, W|]. auto.
      + destruct (SetArg_extends b k 2 inst (of_bool false) W Hk)
          as (HS & HE & HL); [lia|reflexivity|].
        eexists. eexists. split; [exact HS|]. split; [exact HE|].
        split; [exact HL|].
        split; [apply GetArg_with_arg_ne; lia|].
        split; [apply GetArg_with_arg_ne; lia|]. contradiction.
    - exists b, inst. split; [reflexivity|].
      split; [apply extends_refl, W|]. auto. }
  unfold FoldShifts. rewrite Hk. obind. rewrite Hb1. obind.
  rewrite Hk1. obind.
  destruct (GetArg_exists inst 1 ltac:(lia)) as [amount Hamount].
  destruct (GetArg_exists inst 0 ltac:(lia)) as [a0 Ha0].
  rewrite G1, Hamount. obind.
  destruct (IsZero amount); simpl negb; cbv iota.
  2:{ eexists. split; [reflexivity|exact E1]. }
  assert (value_ok k a0 = true) as V0.
  { eapply operand_value_ok; eauto. rewrite Em. discriminate. }
  destruct (GetAssociatedPseudoOperation inst GetCarryFromOp) as [c|] eqn:Ec.
  - destruct (Hsame ltac:(eauto)) as [-> ->].
    pose proof (ordered_carry_above k inst _ c Hord Ec) as Hc.
    destruct (GetArg_exists inst 2) as [a2 Ha2];
      [specialize (Hcarry c eq_refl); lia|].
    rewrite Ha2. obind.
    assert (value_ok c a2 = true) as V2.
    { eapply value_ok_mono; [|apply Nat.lt_le_incl, Hc].
      eapply operand_value_ok; eauto. rewrite Em. discriminate. }
    destruct (ReplaceUsesWith_extends b k c a2 W ltac:(lia) V2) as [E2 L2].
    rewrite L2, Hk. obind. rewrite Ha0. obind.
    eexists. split; [reflexivity|].
    eapply extends_trans; [exact E2|].
    apply ReplaceUsesWith_extends; [apply E2|lia|exact V0].
  - obind. rewrite Hk1. obind. rewrite G0, Ha0. obind.
    eexists. split; [reflexivity|].
    eapply extends_trans; [exact E1|].
    apply ReplaceUsesWith_extends; [apply E1|lia|exact V0].
Qed.

(** Two operands of instruction [k] set one after the other. *)
Lemma SetArg_twice (b : Block) (k : nat) (inst : Inst) (v0 v1 : Value) :
  WF b -> b !! k = Some inst -> (2 <= NumArgs inst)%nat ->
  value_ok k v0 = true -> value_ok k v1 = true ->
  exists b2 inst2,
    (b' ← SetArg b k 0 v0; SetArg b' k 1 v1) = Some b2 /\
    extends k b b2 /\ b2 !! k = Some inst2 /\
    GetArg inst2 0 = Some v0 /\ GetArg inst2 1 = Some v1.
Proof.
  intros W Hk Hn V0 V1.
  destruct (SetArg_extends b k 0 inst v0 W Hk ltac:(lia) V0)
    as (S1 & E1 & L1).
  assert (1 < NumArgs (with_arg inst 0 v0))%nat as Hn1
    by (rewrite NumArgs_with_arg; lia).
  destruct (SetArg_extends _ k 1 _ v1 (proj1 E1) L1 Hn1 V1)
    as (S2 & E2 & L2).
  eexists. eexists. rewrite S1. obind.
  split; [exact S2|]. split; [eapply extends_trans; eauto|].
  split; [exact L2|]. split.
  - rewrite GetArg_with_arg_ne by lia. apply GetArg_with_arg_eq. lia.
  - apply GetArg_with_arg_eq. exact Hn1.
Qed.

Lemma normalized_arg1_immediate (inst : Inst) (a1 : Value) :
  GetArg inst 1 = Some a1 -> IsImmediate a1 = true -> normalized inst.
Proof. intros H1 Hi _ a0 a1' _ H1' _. congruence. Qed.

Lemma normalized_arg0_not_immediate (inst : Inst) (a0 : Value) :
  GetArg inst 0 = Some a0 -> IsImmediate a0 = false -> normalized inst.
Proof. intros H0 Hi _ a0' a1 H0' _ Hi'. congruence. Qed.

Lemma Value_immediate is_32_bit z : IsImmediate (Value_ is_32_bit z) = true.
Proof. destruct is_32_bit; reflexivity. Qed.

(** A non-immediate operand of a dispatched instruction refers to an
    earlier instruction of the block. *)
Lemma operand_refers_to_earlier (b : Block) (k i : nat) (inst : Inst)
    (a : Value) :
  WF b -> b !! k = Some inst -> min_args (opcode inst) <> 0%nat ->
  GetArg inst i = Some a -> IsImmediate a = false ->
  exists r inst_r, a = VInst r /\ (r < k)%nat /\ b !! r = Some inst_r.
Proof.
  intros W Hk Hm Ha Hi.
  pose proof (operand_value_ok b k i inst a W Hk Hm Ha) as V.
  apply value_ok_parts in V. destruct V as [Hne Hb].
  destruct a as [| |r]; try discriminate.
  simpl in Hb. apply Nat.ltb_lt in Hb.
  assert (k < length b)%nat as Hlt by (eapply lookup_lt_Some; eauto).
  destruct (lookup_lt_is_Some_2 b r ltac:(lia)) as [inst_r Hr].
  eauto.
Qed.

Lemma FoldCommutative_ok (b : Block) (k : nat) (inst : Inst)
    (is_32_bit : bool) (imm_fn : Z -> Z -> Z) :
  WF b -> b !! k = Some inst -> is_Some (commutative_op (opcode inst)) ->
  exists b1 continue inst1,
    FoldCommutative b k is_32_bit imm_fn = Some (b1, continue) /\
    extends k b b1 /\ b1 !! k = Some inst1 /\ normalized inst1.
Proof.
  intros W Hk Hop.
  pose proof (has_min_args b k inst W Hk) as Hmin.
  assert (forall i, is_Some (commutative_op (opcode i)) ->
                    min_args (opcode i) = 2%nat) as Hcomm.
  { intros i [x Hx]. destruct (opcode i); try discriminate Hx; reflexivity. }
  pose proof (Hcomm inst Hop) as Em. rewrite Em in Hmin.
  assert (min_args (opcode inst) <> 0%nat) as Hm0 by (rewrite Em; discriminate).
  destruct (GetArg_exists inst 0 ltac:(lia)) as [lhs Hlhs].
  destruct (GetArg_exists inst 1 ltac:(lia)) as [rhs Hrhs].
  unfold FoldCommutative. rewrite Hk. obind. rewrite Hlhs. obind.
  rewrite Hrhs. obind. cbv zeta.
  (* an operand fused from an earlier instruction of the same opcode *)
  assert (forall r inst_r, (r < k)%nat -> b !! r = Some inst_r ->
            Opcode_eqb (opcode inst_r) (opcode inst) = true ->
            (exists a1, GetArg inst_r 1 = Some a1) /\
            (exists a0, GetArg inst_r 0 = Some a0 /\ value_ok k a0 = true))
    as Hfuse.
  { intros r inst_r Hr Hir Heq.
    apply bool_decide_eq_true in Heq.
    assert (is_Some (commutative_op (opcode inst_r))) as Hc
      by (rewrite Heq; exact Hop).
    pose proof (has_min_args b r inst_r W Hir) as Hmr.
    rewrite (Hcomm _ Hc) in Hmr.
    split; [apply GetArg_exists; lia|].
    destruct (GetArg_exists inst_r 0 ltac:(lia)) as [a0 Ha0].
    exists a0. split; [exact Ha0|].
    eapply value_ok_mono; [|apply Nat.lt_le_incl, Hr].
    eapply operand_value_ok; eauto. rewrite (Hcomm _ Hc). discriminate. }
  destruct (IsImmediate lhs) eqn:Il, (IsImmediate rhs) eqn:Ir;
    simpl andb; simpl negb; cbv iota.
  - (* both immediate *)
    destruct lhs as [|tl xl|]; try discriminate.
    destruct rhs as [|tr xr|]; try discriminate.
    destruct (GetImmediateAsU64_imm tl xl) as [x ->].
    destruct (GetImmediateAsU64_imm tr xr) as [y ->]. obind.
    destruct (ReplaceUsesWith_width_extends b k is_32_bit (imm_fn x y) W)
      as (b1 & Hb1 & E1).
    injection Hb1 as Hb1.
    exists b1, false, inst. split; [rewrite Hb1; reflexivity|].
    split; [exact E1|]. split.
    + rewrite <- Hb1, ReplaceUsesWith_width_lookup by exact W. exact Hk.
    + eapply normalized_arg1_immediate; eauto.
  - (* immediate on the left only *)
    destruct (operand_refers_to_earlier b k 1 inst rhs W Hk Hm0 Hrhs Ir)
      as (r & rhs_inst & -> & Hr & Hir).
    assert (value_ok k (VInst r) = true) as Vr
      by (eapply operand_value_ok; eauto).
    assert (value_ok k lhs = true) as Vl
      by (apply immediate_value_ok, Il).
    simpl GetInstRecursive. rewrite Hir. obind.
    assert (exists b1 inst1,
              (b' ← SetArg b k 0 (VInst r); SetArg b' k 1 lhs) = Some b1 /\
              extends k b b1 /\ b1 !! k = Some inst1 /\ normalized inst1)
      as (bn & instn & Sn & En & Ln & Nn).
    { destruct (SetArg_twice b k inst (VInst r) lhs W Hk Hmin Vr Vl)
        as (b2 & inst2 & S2 & E2 & L2 & G0 & G1).
      exists b2, inst2. split; [exact S2|]. split; [exact E2|].
      split; [exact L2|].
      eapply normalized_arg0_not_immediate; eauto. }
    destruct (Opcode_eqb (opcode rhs_inst) (opcode inst)) eqn:Eo.
    + destruct (Hfuse r rhs_inst Hr Hir Eo)
        as ((a1 & Ha1) & (a0 & Ha0 & V0)).
      rewrite Ha1. obind.
      destruct (IsImmediate a1) eqn:I1.
      * destruct lhs as [|tl xl|]; try discriminate.
        destruct a1 as [|t1 x1|]; try discriminate.
        destruct (GetImmediateAsU64_imm tl xl) as [x ->].
        destruct (GetImmediateAsU64_imm t1 x1) as [y ->]. obind.
        rewrite Ha0. obind.
        destruct (SetArg_twice b k inst a0 (Value_ is_32_bit (imm_fn x y))
                    W Hk Hmin V0
                    (immediate_value_ok _ _ (Value_immediate _ _)))
          as (b2 & inst2 & S2 & E2 & L2 & G0 & G1).
        rewrite S2. obind.
        exists b2, true, inst2. split; [reflexivity|].
        split; [exact E2|]. split; [exact L2|].
        exact (normalized_arg1_immediate _ _ G1 (Value_immediate _ _)).
      * rewrite Sn. obind. exists bn, true, instn. auto.
    + rewrite Sn. obind. exists bn, true, instn. auto.
  - (* immediate on the right only *)
    obind.
    destruct (operand_refers_to_earlier b k 0 inst lhs W Hk Hm0 Hlhs Il)
      as (l & lhs_inst & -> & Hl & Hil).
    simpl GetInstRecursive. rewrite Hil. obind.
    assert (normalized inst) as Ninst
      by (eapply normalized_arg1_immediate; eauto).
    destruct (Opcode_eqb (opcode lhs_inst) (opcode inst)) eqn:Eo.
    + destruct (Hfuse l lhs_inst Hl Hil Eo)
        as ((a1 & Ha1) & (a0 & Ha0 & V0)).
      rewrite Ha1. obind.
      destruct (IsImmediate a1) eqn:I1.
      * destruct rhs as [|tr xr|]; try discriminate.
        destruct a1 as [|t1 x1|]; try discriminate.
        destruct (GetImmediateAsU64_imm tr xr) as [x ->].
        destruct (GetImmediateAsU64_imm t1 x1) as [y ->]. obind.
        rewrite Ha0. obind.
        destruct (SetArg_twice b k inst a0 (Value_ is_32_bit (imm_fn x y))
                    W Hk Hmin V0
                    (immediate_value_ok _ _ (Value_immediate _ _)))
          as (b2 & inst2 & S2 & E2 & L2 & G0 & G1).
        rewrite S2. obind.
        exists b2, true, inst2. split; [reflexivity|].
        split; [exact E2|]. split; [exact L2|].
        exact (normalized_arg1_immediate _ _ G1 (Value_immediate _ _)).
      * obind. exists b, true, inst. split; [reflexivity|].
        split; [apply extends_refl, W|]. auto.
    + obind. exists b, true, inst. split; [reflexivity|].
      split; [apply extends_refl, W|]. auto.
  - (* no immediate *)
    obind. exists b, true, inst. split; [reflexivity|].
    split; [apply extends_refl, W|]. split; [exact Hk|].
    eapply normalized_arg0_not_immediate; eauto.
Qed.

Lemma finish_commutative (b b1 : Block) (k : nat) (inst1 : Inst)
    (r : option Block) :
  extends k b b1 -> b1 !! k = Some inst1 -> normalized inst1 ->
  (r = Some b1 \/
   exists v, value_ok k v = true /\ r = Some (IR.ReplaceUsesWith b1 k v)) ->
  step_ok k b r.
Proof.
  intros E1 Hk1 N1 [->|(v & Hv & ->)].
  - exists b1. split; [reflexivity|]. split; [exact E1|].
    intros inst' H. rewrite Hk1 in H. injection H as <-. exact N1.
  - destruct (ReplaceUsesWith_extends b1 k k v (proj1 E1) (le_n k) Hv)
      as [E2 L2].
    eexists. split; [reflexivity|].
    split; [eapply extends_trans; eauto|].
    intros inst' H. rewrite L2, Hk1 in H. injection H as <-. exact N1.
Qed.

Lemma ReplaceUsesWith_width_value (b : Block) (k : nat) (is_32_bit : bool)
    (z : Z) :
  exists v, value_ok k v = true /\
            Some (ConstProp.ReplaceUsesWith b k is_32_bit z)
            = Some (IR.ReplaceUsesWith b k v).
Proof.
  unfold ConstProp.ReplaceUsesWith.
  destruct is_32_bit; eexists; (split; [|reflexivity]); reflexivity.
Qed.

(** The four folders built on [FoldCommutative]: after it, the uses of the
    instruction may be replaced, by an immediate or by operand 0. *)
Lemma commutative_folder_ok (b : Block) (k : nat) (inst : Inst)
    (is_32_bit : bool) (imm_fn : Z -> Z -> Z)
    (zero one : Value -> bool) (zero_is_zero : bool) :
  WF b -> b !! k = Some inst -> is_Some (commutative_op (opcode inst)) ->
  step_ok k b
    ('(b1, continue) ← FoldCommutative b k is_32_bit imm_fn;
     if continue : bool then
       inst ← b1 !! k;
       rhs ← GetArg inst 1;
       if zero rhs then
         (if zero_is_zero
          then Some (ConstProp.ReplaceUsesWith b1 k is_32_bit 0)
          else a0 ← GetArg inst 0; Some (IR.ReplaceUsesWith b1 k a0))
       else if one rhs then
         a0 ← GetArg inst 0; Some (IR.ReplaceUsesWith b1 k a0)
       else Some b1
     else Some b1).
Proof.
  intros W Hk Hop.
  destruct (FoldCommutative_ok b k inst is_32_bit imm_fn W Hk Hop)
    as (b1 & continue & inst1 & HF & E1 & Hk1 & N1).
  rewrite HF. obind. cbv beta iota.
  apply (finish_commutative b b1 k inst1); try assumption.
  destruct continue; [|left; reflexivity].
  rewrite Hk1. obind.
  assert (opcode inst1 = opcode inst) as Eo.
  { destruct E1 as (_ & _ & _ & Ho). rewrite Hk, Hk1 in Ho.
    injection Ho as Ho. exact Ho. }
  pose proof (has_min_args b1 k inst1 (proj1 E1) Hk1) as Hmin.
  assert (min_args (opcode inst1) = 2%nat) as Em.
  { rewrite Eo. destruct Hop as [x Hx].
    destruct (opcode inst); try discriminate Hx; reflexivity. }
  rewrite Em in Hmin.
  destruct (GetArg_exists inst1 1 ltac:(lia)) as [rhs Hrhs].
  destruct (GetArg_exists inst1 0 ltac:(lia)) as [a0 Ha0].
  assert (value_ok k a0 = true) as V0.
  { eapply (operand_value_ok b1); eauto; [apply E1|].
    rewrite Em. discriminate. }
  rewrite Hrhs. obind.
  destruct (zero rhs).
  - destruct zero_is_zero.
    + right. apply ReplaceUsesWith_width_value.
    + rewrite Ha0. obind. right. eauto.
  - destruct (one rhs).
    + rewrite Ha0. obind. right. eauto.
    + left. reflexivity.
Qed.

Lemma FoldAND_ok (b : Block) (k : nat) (inst : Inst) (is_32_bit : bool) :
  WF b -> b !! k = Some inst -> is_Some (commutative_op (opcode inst)) ->
  step_ok k b (FoldAND b k is_32_bit).
Proof.
  intros W Hk Hop.
  exact (commutative_folder_ok b k inst is_32_bit imm_and
           IsZero HasAllBitsSet true W Hk Hop).
Qed.

Lemma FoldMultiply_ok (b : Block) (k : nat) (inst : Inst) (is_32_bit : bool) :
  WF b -> b !! k = Some inst -> is_Some (commutative_op (opcode inst)) ->
  step_ok k b (FoldMultiply b k is_32_bit).
Proof.
  intros W Hk Hop.
  exact (commutative_folder_ok b k inst is_32_bit imm_mul
           IsZero (fun rhs => IsUnsignedImmediate rhs 1) true W Hk Hop).
Qed.

Lemma FoldEOR_ok (b : Block) (k : nat) (inst : Inst) (is_32_bit : bool) :
  WF b -> b !! k = Some inst -> is_Some (commutative_op (opcode inst)) ->
  step_ok k b (FoldEOR b k is_32_bit).
Proof.
  intros W Hk Hop.
  pose proof (commutative_folder_ok b k inst is_32_bit imm_eor
                IsZero (fun _ => false) false W Hk Hop) as H.
  exact H.
Qed.

Lemma FoldOR_ok (b : Block) (k : nat) (inst : Inst) (is_32_bit : bool) :
  WF b -> b !! k = Some inst -> is_Some (commutative_op (opcode inst)) ->
  step_ok k b (FoldOR b k is_32_bit).
Proof.
  intros W Hk Hop.
  pose proof (commutative_folder_ok b k inst is_32_bit imm_or
                IsZero (fun _ => false) false W Hk Hop) as H.
  exact H.
Qed.

(** One step of the sweep on a well-formed block, away from the overflowing
    division. *)
Lemma ConstantPropagation_inst_ok (b : Block) (k : nat) (inst : Inst) :
  WF b -> b !! k = Some inst -> division_overflows inst = false ->
  step_ok k b (ConstantPropagation_inst b k).
Proof.
  intros W Hk Hov.
  pose proof (has_min_args b k inst W Hk) as Hmin.
  unfold ConstantPropagation_inst. rewrite Hk. obind. cbv zeta.
  destruct (opcode inst) eqn:Eop; cbv iota;
    match goal with
    | |- step_ok _ _ (FoldMultiply _ _ _) =>
        apply (FoldMultiply_ok b k inst _ W Hk)
    | |- step_ok _ _ (FoldAND _ _ _) => apply (FoldAND_ok b k inst _ W Hk)
    | |- step_ok _ _ (FoldEOR _ _ _) => apply (FoldEOR_ok b k inst _ W Hk)
    | |- step_ok _ _ (FoldOR _ _ _) => apply (FoldOR_ok b k inst _ W Hk)
    | |- _ =>
        apply (step_ok_not_commutative k b inst _ Hk);
        [rewrite Eop; reflexivity|]
    end;
    try rewrite Eop in *; simpl in Hmin;
    match goal with
    | |- is_Some _ => eexists; reflexivity
    | |- exists b', Some b = Some b' /\ _ => apply unchanged_extends, W
    | |- exists b', FoldLeastSignificantWord _ _ = _ /\ _ =>
        apply (FoldLeastSignificant_extends _ _ b k inst W Hk Hmin)
    | |- exists b', FoldLeastSignificantHalf _ _ = _ /\ _ =>
        apply (FoldLeastSignificant_extends _ _ b k inst W Hk Hmin)
    | |- exists b', FoldLeastSignificantByte _ _ = _ /\ _ =>
        apply (FoldLeastSignificant_extends _ _ b k inst W Hk Hmin)
    | |- exists b', FoldMostSignificantBit _ _ = _ /\ _ =>
        apply (FoldMostSignificantBit_extends b k inst W Hk Hmin)
    | |- exists b', FoldMostSignificantWord _ _ = _ /\ _ =>
        apply (FoldMostSignificantWord_extends b k inst W Hk Hmin)
    | |- exists b', FoldShifts _ _ = _ /\ _ =>
        apply (FoldShifts_extends b k inst W Hk); rewrite Eop; reflexivity
    | |- exists b', FoldDivide _ _ _ _ = _ /\ _ =>
        apply (FoldDivide_extends b k inst _ _ W Hk);
        [rewrite Eop; reflexivity|rewrite Eop; reflexivity|exact Hov]
    | |- exists b', FoldNOT _ _ _ = _ /\ _ =>
        apply (FoldNOT_extends b k inst _ W Hk Hmin)
    | |- exists b', FoldByteReverse _ _ _ = _ /\ _ =>
        apply (FoldByteReverse_extends b k inst _ W Hk Hmin)
    | |- exists b', FoldSignExtendXToWord _ _ = _ /\ _ =>
        apply (FoldExtend_extends _ _ _ b k inst W Hk Hmin
                 GetImmediateAsS64_imm)
    | |- exists b', FoldSignExtendXToLong _ _ = _ /\ _ =>
        apply (FoldExtend_extends _ _ _ b k inst W Hk Hmin
                 GetImmediateAsS64_imm)
    | |- exists b', FoldZeroExtendXToWord _ _ = _ /\ _ =>
        apply (FoldExtend_extends _ _ _ b k inst W Hk Hmin
                 GetImmediateAsU64_imm)
    | |- exists b', FoldZeroExtendXToLong _ _ = _ /\ _ =>
        apply (FoldExtend_extends _ _ _ b k inst W Hk Hmin
                 GetImmediateAsU64_imm)
    end.
Qed.

End ConstPropTheory.
(* ================================================================== *)
(** * The pass as a whole *)
(* ================================================================== *)

Module ConstPropPass.
Import IR ConstProp ConstPropSpec ConstPropTheory.

Lemma Some_eq {A : Type} (x y : A) : Some x = Some y -> x = y.
Proof. congruence. Qed.

Lemma Some_pair_eq {A B : Type} (x x' : A) (y y' : B) :
  Some (x, y) = Some (x', y') -> x = x' /\ y = y'.
Proof. intros H. split; congruence. Qed.

(** Takes the successful runs among the hypotheses apart, down to the
    blocks they return. *)
Ltac unfold_runs :=
  repeat match goal with
         | H : (_ ≫= _) = Some _ |- _ =>
             let x := fresh "x" in
             let Hx := fresh "Hx" in
             apply bind_Some in H; destruct H as (x & Hx & H)
         | H : (if ?c then _ else _) = Some _ |- _ => destruct c
         | H : match ?o with Some _ => _ | None => _ end = Some _ |- _ =>
             destruct o
         | H : (let '(_, _) := ?p in _) = Some _ |- _ => destruct p
         | H : None = Some _ |- _ => discriminate H
         | H : Some (_, _) = Some (?y, ?z) |- _ =>
             apply Some_pair_eq in H; destruct H as [? ?];
             try subst y; try subst z
         | H : Some ?x = Some ?y |- _ =>
             apply Some_eq in H; first [subst y | subst x]
         end.

(** ** The sweep, in pieces *)

Lemma sweep_app (ks1 ks2 : list InstId) (b : Block) :
  sweep (ks1 ++ ks2) b = b1 ← sweep ks1 b; sweep ks2 b1.
Proof.
  revert b. induction ks1 as [|k ks1 IH]; intros b; [reflexivity|].
  simpl. destruct (ConstantPropagation_inst b k) as [b1|]; [|reflexivity].
  simpl. apply IH.
Qed.

Lemma seq_split (k n : nat) :
  (k < n)%nat -> seq 0 n = seq 0 k ++ k :: seq (S k) (n - S k).
Proof.
  intros H. replace n with (k + S (n - S k))%nat at 1 by lia.
  rewrite seq_app. reflexivity.
Qed.

(** The pass at instruction [k]: the sweep up to [k], the step on [k], and
    the sweep over the rest. *)
Lemma pass_split (b b' : Block) (k : nat) :
  (k < length b)%nat -> ConstantPropagation b = Some b' ->
  exists b1 b2,
    sweep (seq 0 k) b = Some b1 /\
    ConstantPropagation_inst b1 k = Some b2 /\
    sweep (seq (S k) (length b - S k)) b2 = Some b'.
Proof.
  intros Hk H. unfold ConstantPropagation in H.
  rewrite (seq_split k (length b) Hk), sweep_app in H.
  apply bind_Some in H. destruct H as (b1 & H1 & H). simpl in H.
  apply bind_Some in H. destruct H as (b2 & H2 & H). eauto.
Qed.

(** ** Where the pass does not return *)

Lemma overflow_not_zero (lhs rhs : Value) (x y : Z) :
  GetImmediateAsS64 rhs = Some y -> y = -1 -> IsZero rhs = false.
Proof.
  intros Hy ->. unfold IsZero, IsUnsignedImmediate.
  destruct rhs as [|t r|]; try discriminate. simpl.
  apply Z.eqb_neq. intros E.
  destruct t; cbn [GetImmediateAsS64] in Hy; cbv zeta in Hy;
    rewrite ?E in Hy; try (vm_compute in Hy; discriminate Hy).
  apply Some_eq in Hy. change (2 ^ bit_width U1) with 2 in E. lia.
Qed.

Lemma overflow_step (b : Block) (k : nat) (inst : Inst) :
  b !! k = Some inst -> division_overflows inst = true ->
  ConstantPropagation_inst b k = None.
Proof.
  intros Hk Hov. unfold division_overflows in Hov.
  apply andb_true_iff in Hov. destruct Hov as [Hs Hov].
  destruct (GetArg inst 0) as [lhs|] eqn:H0; [|discriminate].
  destruct (GetArg inst 1) as [rhs|] eqn:H1; [|discriminate].
  apply andb_true_iff in Hov. destruct Hov as [Hi Hov].
  destruct (GetImmediateAsS64 lhs) as [x|] eqn:Hx; [|discriminate].
  destruct (GetImmediateAsS64 rhs) as [y|] eqn:Hy; [|discriminate].
  assert (IsZero rhs = false) as Hz.
  { apply (overflow_not_zero lhs rhs x y Hy).
    apply andb_true_iff in Hov. destruct Hov as [_ Hov].
    apply Z.eqb_eq in Hov. exact Hov. }
  assert (forall w, FoldDivide b k w true = None) as HF.
  { intros w. unfold FoldDivide. rewrite Hk. obind. rewrite H1. obind.
    rewrite Hz, H0. obind. rewrite Hi, Hx. obind. rewrite Hy. obind.
    rewrite Hov. reflexivity. }
  unfold ConstantPropagation_inst. rewrite Hk. obind. cbv zeta.
  destruct (opcode inst); try discriminate Hs; apply HF.
Qed.

(** A step that returns, on a well-formed block. *)
Lemma step_returns (b b' : Block) (k : nat) :
  WF b -> ConstantPropagation_inst b k = Some b' ->
  extends k b b' /\ forall inst', b' !! k = Some inst' -> normalized inst'.
Proof.
  intros W H. destruct (b !! k) as [inst|] eqn:Hk.
  - destruct (division_overflows inst) eqn:Hov.
    + rewrite (overflow_step b k inst Hk Hov) in H. discriminate.
    + destruct (ConstantPropagation_inst_ok b k inst W Hk Hov)
        as (b1 & E & He & Hn).
      rewrite H in E. apply Some_eq in E. subst b1. auto.
  - unfold ConstantPropagation_inst in H. rewrite Hk in H. discriminate.
Qed.

Lemma sweep_WF (ks : list InstId) (b b' : Block) :
  WF b -> sweep ks b = Some b' -> WF b' /\ length b' = length b.
Proof.
  revert b. induction ks as [|k ks IH]; intros b W H; simpl in H.
  - apply Some_eq in H. subst. auto.
  - apply bind_Some in H. destruct H as (b1 & H1 & H).
    destruct (step_returns b b1 k W H1) as [(W1 & L1 & _) _].
    destruct (IH b1 W1 H) as [W' L']. split; [exact W'|congruence].
Qed.

(** The sweep over instructions [n], ..., [n + m - 1] of a well-formed
    block either returns a well-formed block, normalized where the sweep
    has been, or stops at an overflowing division. *)
Lemma sweep_outcome (m n : nat) (b : Block) :
  WF b -> (n + m)%nat = length b ->
  (forall j inst, (j < n)%nat -> b !! j = Some inst -> normalized inst) ->
  (exists b',
     sweep (seq n m) b = Some b' /\ WF b' /\ length b' = length b /\
     forall j inst, b' !! j = Some inst -> normalized inst) \/
  (sweep (seq n m) b = None /\
   exists i b1 inst,
     (i < m)%nat /\ sweep (seq n i) b = Some b1 /\
     b1 !! (n + i)%nat = Some inst /\ division_overflows inst = true).
Proof.
  revert n b. induction m as [|m IH]; intros n b W Hlen Hdone.
  - left. exists b. split; [reflexivity|]. split; [exact W|].
    split; [reflexivity|]. intros j inst Hj. apply (Hdone j); [|exact Hj].
    apply lookup_lt_Some in Hj. lia.
  - destruct (lookup_lt_is_Some_2 b n ltac:(lia)) as [inst Hn].
    destruct (division_overflows inst) eqn:Hov.
    + right. split.
      * simpl. rewrite (overflow_step b n inst Hn Hov). reflexivity.
      * exists 0%nat, b, inst. split; [lia|]. split; [reflexivity|].
        rewrite Nat.add_0_r. auto.
    + destruct (ConstantPropagation_inst_ok b n inst W Hn Hov)
        as (b1 & E1 & (W1 & L1 & P1 & O1) & N1).
      destruct (IH (S n) b1 W1 ltac:(lia)) as
        [(b' & HS & W' & L' & N')|(HS & i & b2 & insti & Hi & H2 & Hl & Ho)].
      { intros j instj Hj Hlook.
        destruct (decide (j = n)) as [->|Hne].
        - apply N1, Hlook.
        - rewrite P1 in Hlook by lia. apply (Hdone j); [lia|exact Hlook]. }
      * left. exists b'. split; [simpl; rewrite E1; exact HS|].
        split; [exact W'|]. split; [congruence|exact N'].
      * right. split; [simpl; rewrite E1; exact HS|].
        exists (S i), b2, insti. split; [lia|].
        split; [simpl; rewrite E1; exact H2|].
        replace (n + S i)%nat with (S n + i)%nat by lia. auto.
Qed.

(** On a well-formed block the pass fails to return only at an overflowing
    division. *)
Lemma pass_fails_at_overflow (b : Block) :
  WF b -> ConstantPropagation b = None -> reaches_overflow b.
Proof.
  intros W H.
  destruct (sweep_outcome (length b) 0 b W eq_refl) as
    [(b' & HS & _)|(_ & i & b1 & inst & Hi & H1 & Hl & Ho)].
  { intros j inst Hj. lia. }
  - unfold ConstantPropagation in H. rewrite H in HS. discriminate.
  - exists i, b1, inst. auto.
Qed.

Lemma overflow_fails (b : Block) :
  reaches_overflow b -> ConstantPropagation b = None.
Proof.
  intros (k & b1 & inst & Hk & H1 & Hl & Ho).
  unfold ConstantPropagation.
  rewrite (seq_split k (length b) Hk), sweep_app, H1. simpl.
  rewrite (overflow_step b1 k inst Hl Ho). reflexivity.
Qed.

(** ** What every step keeps *)

Lemma immediates_kept_refl (inst : Inst) : immediates_kept inst inst.
Proof. split; [reflexivity|auto]. Qed.

Lemma immediates_kept_trans (i1 i2 i3 : Inst) :
  immediates_kept i1 i2 -> immediates_kept i2 i3 -> immediates_kept i1 i3.
Proof.
  intros [S1 K1] [S2 K2]. split; [congruence|]. intros p t x H.
  apply K2, K1, H.
Qed.

Lemma immediates_kept_subst (k : nat) (v : Value) (inst : Inst) :
  immediates_kept inst (subst_inst k v inst).
Proof.
  split.
  - unfold shape, subst_inst, NumArgs. simpl. rewrite length_fmap.
    reflexivity.
  - intros p t x H. rewrite GetArg_subst_inst, H. reflexivity.
Qed.

Lemma no_use_iff (i : nat) (l : list Value) :
  length (filter (fun a => a = VInst i) l) = 0%nat <->
  Forall (fun a => a <> VInst i) l.
Proof.
  induction l as [|a l IH].
  - split; [constructor|reflexivity].
  - rewrite filter_cons, Forall_cons.
    destruct (decide (a = VInst i)) as [E|E]; simpl.
    + split; [discriminate|]. intros [H _]. contradiction.
    + rewrite IH. tauto.
Qed.

Lemma use_count_zero (b : Block) (i : nat) :
  use_count b i = 0%nat <->
  Forall (fun inst => Forall (fun a => a <> VInst i) (args inst)) b.
Proof.
  unfold use_count. induction b as [|inst b IH].
  - split; [constructor|reflexivity].
  - rewrite fmap_cons, Forall_cons. simpl. rewrite <- IH, <- no_use_iff.
    lia.
Qed.

Lemma referred_imm (b : Block) (v : Value) :
  IsImmediate v = true -> referred_in b v.
Proof. intros H i _ ->. discriminate. Qed.

Lemma referred_arg (b : Block) (j p : nat) (inst : Inst) (v : Value) :
  b !! j = Some inst -> GetArg inst p = Some v -> referred_in b v.
Proof.
  intros Hj Hp i Hi ->. apply use_count_zero in Hi.
  rewrite Forall_forall in Hi.
  specialize (Hi inst (list_elem_of_lookup_2 _ _ _ Hj)).
  rewrite Forall_forall in Hi.
  exact (Hi (VInst i) (list_elem_of_lookup_2 _ _ _ Hp) eq_refl).
Qed.

Lemma keeps_refl (k : nat) (b : Block) : step_keeps k b b.
Proof.
  split.
  - intros i inst _ H. exists inst. split; [exact H|].
    apply immediates_kept_refl.
  - intros i H. exact H.
Qed.

Lemma keeps_replace (k : nat) (b b1 : Block) (j : nat) (v : Value) :
  step_keeps k b b1 -> referred_in b1 v ->
  step_keeps k b (IR.ReplaceUsesWith b1 j v).
Proof.
  intros [Ho Hn] Hv. split.
  - intros i inst Hi H. destruct (Ho i inst Hi H) as (inst1 & H1 & K1).
    exists (subst_inst j v inst1). split.
    + rewrite lookup_ReplaceUsesWith, H1. reflexivity.
    + eapply immediates_kept_trans; [exact K1|].
      apply immediates_kept_subst.
  - intros i Hi. specialize (Hn i Hi). specialize (Hv i Hn).
    apply use_count_zero. apply use_count_zero in Hn.
    unfold IR.ReplaceUsesWith. rewrite Forall_fmap.
    eapply Forall_impl; [exact Hn|]. intros inst Hinst. simpl.
    rewrite Forall_fmap. eapply Forall_impl; [exact Hinst|].
    intros a Ha. simpl. destruct a as [| |r]; simpl; try discriminate.
    destruct (Nat.eqb r j); assumption.
Qed.

Lemma keeps_width (k : nat) (b b1 : Block) (j : nat) (w : bool) (z : Z) :
  step_keeps k b b1 -> step_keeps k b (ConstProp.ReplaceUsesWith b1 j w z).
Proof.
  intros H. unfold ConstProp.ReplaceUsesWith.
  destruct w; apply keeps_replace; try exact H;
    apply referred_imm; reflexivity.
Qed.

Lemma keeps_set (k : nat) (b b1 b2 : Block) (p : nat) (v : Value) :
  step_keeps k b b1 -> referred_in b1 v -> SetArg b1 k p v = Some b2 ->
  step_keeps k b b2.
Proof.
  intros [Ho Hn] Hv H. unfold SetArg in H.
  destruct (b1 !! k) as [inst1|] eqn:E; [|discriminate]. simpl in H.
  destruct (decide (p < NumArgs inst1)%nat); [|discriminate].
  apply Some_eq in H. subst b2. split.
  - intros i inst Hi Hl. destruct (Ho i inst Hi Hl) as (inst' & H1 & K1).
    exists inst'. split; [|exact K1].
    rewrite list_lookup_insert_ne by congruence. exact H1.
  - intros i Hi. specialize (Hn i Hi). specialize (Hv i Hn).
    apply use_count_zero. apply use_count_zero in Hn.
    apply Forall_insert; [exact Hn|]. simpl.
    rewrite Forall_forall in Hn.
    specialize (Hn inst1 (list_elem_of_lookup_2 _ _ _ E)).
    apply Forall_insert; assumption.
Qed.

Ltac referred :=
  repeat match goal with
         | H : GetInstRecursive _ ?v = Some _ |- _ =>
             unfold GetInstRecursive in H; destruct v; try discriminate H
         end;
  match goal with
  | |- referred_in _ (Value_ _ _) => apply referred_imm, Value_immediate
  | |- referred_in _ (of_bool _) => apply referred_imm; reflexivity
  | |- referred_in _ (VImm _ _) => apply referred_imm; reflexivity
  | H : IsImmediate ?v = true |- referred_in _ ?v => apply referred_imm, H
  | H1 : ?b !! _ = Some ?i, H2 : GetArg ?i _ = Some ?v
    |- referred_in ?b ?v => exact (referred_arg _ _ _ _ _ H1 H2)
  end.

Ltac keeps_close :=
  repeat first
    [ apply keeps_refl
    | assumption
    | apply keeps_width
    | apply keeps_replace
    | match goal with
      | H : SetArg ?b0 ?k _ ?v = Some ?x |- step_keeps ?k _ ?x =>
          refine (keeps_set k _ b0 x _ v _ _ H)
      end
    | referred ].

Ltac keeps_of_run H := cbv zeta in H; unfold_runs; keeps_close.

Lemma FoldCommutative_keeps (b b1 : Block) (k : nat) (w : bool)
    (f : Z -> Z -> Z) (c : bool) :
  FoldCommutative b k w f = Some (b1, c) -> step_keeps k b b1.
Proof.
  unfold FoldCommutative. intros H.
  apply bind_Some in H. destruct H as (inst & Hi & H).
  apply bind_Some in H. destruct H as (lhs & Hl & H).
  apply bind_Some in H. destruct H as (rhs & Hr & H). cbv zeta in H.
  destruct (IsImmediate lhs) eqn:Il; destruct (IsImmediate rhs) eqn:Ir;
    cbn [andb negb] in H; unfold_runs; keeps_close.
Qed.

Lemma commutative_folder_keeps (b b' : Block) (k : nat) (w : bool) :
  (FoldAND b k w = Some b' -> step_keeps k b b') /\
  (FoldEOR b k w = Some b' -> step_keeps k b b') /\
  (FoldOR b k w = Some b' -> step_keeps k b b') /\
  (FoldMultiply b k w = Some b' -> step_keeps k b b').
Proof.
  split; [|split; [|split]];
    unfold FoldAND, FoldEOR, FoldOR, FoldMultiply; intros H;
    apply bind_Some in H; destruct H as ([b1 c] & Hc & H);
    apply FoldCommutative_keeps in Hc; keeps_of_run H.
Qed.

Lemma FoldDivide_keeps (b b' : Block) (k : nat) (w s : bool) :
  FoldDivide b k w s = Some b' -> step_keeps k b b'.
Proof. unfold FoldDivide. intros H. keeps_of_run H. Qed.

Lemma FoldByteReverse_keeps (b b' : Block) (k : nat) (op : Opcode) :
  FoldByteReverse b k op = Some b' -> step_keeps k b b'.
Proof. unfold FoldByteReverse. intros H. keeps_of_run H. Qed.

Lemma FoldLeastSignificant_keeps cast t (b b' : Block) (k : nat) :
  FoldLeastSignificant cast t b k = Some b' -> step_keeps k b b'.
Proof. unfold FoldLeastSignificant. intros H. keeps_of_run H. Qed.

Lemma FoldMostSignificantBit_keeps (b b' : Block) (k : nat) :
  FoldMostSignificantBit b k = Some b' -> step_keeps k b b'.
Proof. unfold FoldMostSignificantBit. intros H. keeps_of_run H. Qed.

Lemma FoldMostSignificantWord_keeps (b b' : Block) (k : nat) :
  FoldMostSignificantWord b k = Some b' -> step_keeps k b b'.
Proof.
  unfold FoldMostSignificantWord. intros H. cbv zeta in H.
  apply bind_Some in H. destruct H as (inst & Hi & H).
  destruct (GetAssociatedPseudoOperation inst GetCarryFromOp);
    unfold_runs; keeps_close.
Qed.

Lemma FoldNOT_keeps (b b' : Block) (k : nat) (w : bool) :
  FoldNOT b k w = Some b' -> step_keeps k b b'.
Proof. unfold FoldNOT. intros H. keeps_of_run H. Qed.

Lemma FoldShifts_keeps (b b' : Block) (k : nat) :
  FoldShifts b k = Some b' -> step_keeps k b b'.
Proof.
  unfold FoldShifts. intros H. cbv zeta in H.
  apply bind_Some in H. destruct H as (inst & Hi & H).
  destruct (GetAssociatedPseudoOperation inst GetCarryFromOp);
    unfold_runs; keeps_close.
Qed.

Lemma FoldExtend_keeps get t cast (b b' : Block) (k : nat) :
  FoldExtend get t cast b k = Some b' -> step_keeps k b b'.
Proof. unfold FoldExtend. intros H. keeps_of_run H. Qed.

Lemma ConstantPropagation_inst_keeps (b b' : Block) (k : nat) :
  ConstantPropagation_inst b k = Some b' -> step_keeps k b b'.
Proof.
  unfold ConstantPropagation_inst. intros H. apply bind_Some in H.
  destruct H as (inst & Hi & H). cbv zeta in H.
  destruct (commutative_folder_keeps b b' k
              (Opcode_eqb (opcode inst) And32)) as (KA & _).
  destruct (commutative_folder_keeps b b' k
              (Opcode_eqb (opcode inst) Eor32)) as (_ & KE & _).
  destruct (commutative_folder_keeps b b' k
              (Opcode_eqb (opcode inst) Or32)) as (_ & _ & KO & _).
  destruct (commutative_folder_keeps b b' k
              (Opcode_eqb (opcode inst) Mul32)) as (_ & _ & _ & KM).
  destruct (opcode inst);
    match type of H with
    | Some _ = Some _ => apply Some_eq in H; subst; apply keeps_refl
    | FoldAND _ _ _ = _ => exact (KA H)
    | FoldEOR _ _ _ = _ => exact (KE H)
    | FoldOR _ _ _ = _ => exact (KO H)
    | FoldMultiply _ _ _ = _ => exact (KM H)
    | FoldDivide _ _ _ _ = _ => exact (FoldDivide_keeps _ _ _ _ _ H)
    | FoldByteReverse _ _ _ = _ => exact (FoldByteReverse_keeps _ _ _ _ H)
    | FoldLeastSignificantWord _ _ = _ =>
        exact (FoldLeastSignificant_keeps _ _ _ _ _ H)
    | FoldLeastSignificantHalf _ _ = _ =>
        exact (FoldLeastSignificant_keeps _ _ _ _ _ H)
    | FoldLeastSignificantByte _ _ = _ =>
        exact (FoldLeastSignificant_keeps _ _ _ _ _ H)
    | FoldMostSignificantBit _ _ = _ =>
        exact (FoldMostSignificantBit_keeps _ _ _ H)
    | FoldMostSignificantWord _ _ = _ =>
        exact (FoldMostSignificantWord_keeps _ _ _ H)
    | FoldNOT _ _ _ = _ => exact (FoldNOT_keeps _ _ _ _ H)
    | FoldShifts _ _ = _ => exact (FoldShifts_keeps _ _ _ H)
    | FoldSignExtendXToWord _ _ = _ =>
        exact (FoldExtend_keeps _ _ _ _ _ _ H)
    | FoldSignExtendXToLong _ _ = _ =>
        exact (FoldExtend_keeps _ _ _ _ _ _ H)
    | FoldZeroExtendXToWord _ _ = _ =>
        exact (FoldExtend_keeps _ _ _ _ _ _ H)
    | FoldZeroExtendXToLong _ _ = _ =>
        exact (FoldExtend_keeps _ _ _ _ _ _ H)
    end.
Qed.

(** No sweep gives a use to an instruction that has none. *)
Lemma sweep_no_new_refs (ks : list InstId) (b b' : Block) :
  sweep ks b = Some b' -> no_new_refs b b'.
Proof.
  revert b. induction ks as [|k ks IH]; intros b H; simpl in H.
  - apply Some_eq in H. subst. intros i Hi. exact Hi.
  - apply bind_Some in H. destruct H as (b1 & H1 & H).
    apply ConstantPropagation_inst_keeps in H1. destruct H1 as [_ N1].
    intros i Hi. apply (IH b1 H), N1, Hi.
Qed.

(** An instruction the sweep does not go through keeps its shape and its
    immediate operands. *)
Lemma sweep_elsewhere (ks : list InstId) (b b' : Block) (i : nat)
    (inst : Inst) :
  sweep ks b = Some b' -> i ∉ ks -> b !! i = Some inst ->
  exists inst', b' !! i = Some inst' /\ immediates_kept inst inst'.
Proof.
  revert b inst. induction ks as [|k ks IH]; intros b inst H Hi Hl;
    simpl in H.
  - apply Some_eq in H. subst. exists inst. split; [exact Hl|].
    apply immediates_kept_refl.
  - apply bind_Some in H. destruct H as (b1 & H1 & H).
    apply not_elem_of_cons in Hi. destruct Hi as [Hne Hi].
    apply ConstantPropagation_inst_keeps in H1. destruct H1 as [O1 _].
    destruct (O1 i inst Hne Hl) as (inst1 & Hl1 & K1).
    destruct (IH b1 inst1 H Hi Hl1) as (inst' & Hl' & K').
    exists inst'. split; [exact Hl'|].
    eapply immediates_kept_trans; eauto.
Qed.

(** The instruction the pass finds at [k] when it gets there. *)
Lemma found_at (b b1 : Block) (k : nat) (inst : Inst) :
  sweep (seq 0 k) b = Some b1 -> b !! k = Some inst ->
  exists inst1, b1 !! k = Some inst1 /\ immediates_kept inst inst1.
Proof.
  intros H Hk. apply (sweep_elsewhere (seq 0 k) b b1 k inst H); [|exact Hk].
  intros Hin. apply elem_of_seq in Hin. lia.
Qed.

(** What the rest of the pass keeps of the step on [k]. *)
Lemma kept_after (b2 b' : Block) (k n : nat) :
  sweep (seq (S k) n) b2 = Some b' ->
  (forall i, use_count b2 i = 0%nat -> use_count b' i = 0%nat) /\
  (forall p t x, arg_at b2 k p = Some (VImm t x) ->
                 arg_at b' k p = Some (VImm t x)).
Proof.
  intros H. split; [exact (sweep_no_new_refs _ _ _ H)|].
  intros p t x Hp. unfold arg_at in *.
  destruct (b2 !! k) as [inst2|] eqn:E; [|discriminate]. simpl in Hp.
  destruct (sweep_elsewhere (seq (S k) n) b2 b' k inst2 H) as
    (inst' & Hl & _ & K); [|exact E|].
  { intros Hin. apply elem_of_seq in Hin. lia. }
  rewrite Hl. simpl. apply K, Hp.
Qed.

Lemma kept_opcode (inst inst1 : Inst) :
  immediates_kept inst inst1 ->
  opcode inst1 = opcode inst /\ NumArgs inst1 = NumArgs inst /\
  pseudo_ops inst1 = pseudo_ops inst.
Proof.
  intros [S _]. unfold shape in S.
  apply pair_equal_spec in S. destruct S as [S S3].
  apply pair_equal_spec in S. destruct S as [S1 S2]. auto.
Qed.

Lemma zero_is_immediate (v : Value) :
  IsZero v = true -> exists t x, v = VImm t x.
Proof.
  unfold IsZero, IsUnsignedImmediate. destruct v; simpl; try discriminate.
  eauto.
Qed.

(** ** C6: normalization after one run *)

(** C6.  On a well-formed block (SSA order, every dispatched instruction
    with the operands its folder reads), when one forward run of the pass
    returns, no commutative instruction (AND, OR, XOR, MUL) of the block it
    returns, live or not, has an immediate in position 0 and a non-immediate
    in position 1.  The run fails to return only when it reaches a signed
    division of the least 64-bit integer by -1, where the behaviour of the
    source is undefined. *)
Theorem pass_normalizes_commutative (b : Block) :
  well_formed b = true ->
  (forall b',
     ConstantPropagation b = Some b' ->
     length b' = length b /\
     forall j inst a0 a1,
       b' !! j = Some inst -> is_Some (commutative_op (opcode inst)) ->
       GetArg inst 0 = Some a0 -> GetArg inst 1 = Some a1 ->
       IsImmediate a0 = true -> IsImmediate a1 = true) /\
  (ConstantPropagation b = None -> reaches_overflow b).
Proof.
  intros Hwf. apply well_formed_WF in Hwf.
  split; [|apply pass_fails_at_overflow, Hwf].
  intros b0 H0.
  destruct (sweep_outcome (length b) 0 b Hwf eq_refl) as
    [(b' & HS & _ & HL & HN)|(HS & _)].
  { intros j inst Hj. lia. }
  - unfold ConstantPropagation in H0. rewrite H0 in HS.
    apply Some_eq in HS. subst b'. split; [exact HL|].
    intros j inst a0 a1 Hj Hc Ha0 Ha1.
    exact (HN j inst Hj Hc a0 a1 Ha0 Ha1).
  - unfold ConstantPropagation in H0. rewrite H0 in HS. discriminate.
Qed.

Lemma pass_normalizes_commutative_witness :
  well_formed unnormalized_block = true /\
  exists b',
    ConstantPropagation unnormalized_block = Some b' /\
    length b' = length unnormalized_block /\
    forall j inst a0 a1,
      b' !! j = Some inst -> is_Some (commutative_op (opcode inst)) ->
      GetArg inst 0 = Some a0 -> GetArg inst 1 = Some a1 ->
      IsImmediate a0 = true -> IsImmediate a1 = true.
Proof.
  split; [reflexivity|].
  destruct (pass_normalizes_commutative unnormalized_block eq_refl)
    as [H _].
  eexists. split; [reflexivity|]. apply H. reflexivity.
Defined.

(** The sweep on [unnormalized_block]: (1) is swapped, (2) is fused with
    (1), and (4), whose left operand has become an immediate, is swapped. *)
Lemma pass_on_unnormalized_block :
  ConstantPropagation unnormalized_block
  = Some [ mkInst (OtherOpcode 0) [] [];
           mkInst And32 [VInst 0; VImm U32 255] [];
           mkInst And32 [VInst 0; VImm U32 240] [];
           mkInst Not32 [VImm U32 0] [];
           mkInst Mul32 [VInst 2; VImm U32 4294967295] [];
           mkInst (OtherOpcode 1) [VInst 2; VInst 4] [] ].
Proof. reflexivity. Qed.

(** ** C3: division by the immediate zero *)

(** C3.  Let instruction [k] of a well-formed block be a division
    (SignedDiv32/64, UnsignedDiv32/64) whose divisor is the immediate zero,
    whatever its dividend.  Whenever the pass gets to [k], the step on [k]
    returns, without error, and rewrites every use of the instruction to
    the immediate 0 of the output width of the opcode.  When the pass
    returns, it has gone through that step and no operand of the block it
    returns refers to the instruction.  The pass fails to return only when
    it reaches a signed division of the least 64-bit integer by -1 (which
    a division by zero is not). *)
Theorem divide_by_zero_folds_to_zero (b : Block) (k : InstId) (inst : Inst)
    (rhs : Value) :
  well_formed b = true ->
  b !! k = Some inst ->
  is_division (opcode inst) = true ->
  GetArg inst 1 = Some rhs ->
  IsZero rhs = true ->
  (forall b1,
     sweep (seq 0 k) b = Some b1 ->
     exists b2,
       ConstantPropagation_inst b1 k = Some b2 /\
       uses_replaced b1 b2 k (VImm (output_type (opcode inst)) 0)) /\
  (forall b',
     ConstantPropagation b = Some b' ->
     exists b1 b2,
       sweep (seq 0 k) b = Some b1 /\
       ConstantPropagation_inst b1 k = Some b2 /\
       sweep (seq (S k) (length b - S k)) b2 = Some b' /\
       use_count b' k = 0%nat) /\
  (ConstantPropagation b = None -> reaches_overflow b).
Proof.
  intros Hwf Hk Hop Hrhs Hz. apply well_formed_WF in Hwf.
  assert (forall b1,
            sweep (seq 0 k) b = Some b1 ->
            exists b2,
              ConstantPropagation_inst b1 k = Some b2 /\
              uses_replaced b1 b2 k (VImm (output_type (opcode inst)) 0))
    as Hstep.
  { intros b1 H1.
    destruct (found_at b b1 k inst H1 Hk) as (inst1 & Hl1 & K1).
    destruct (kept_opcode inst inst1 K1) as (Eo & _).
    destruct (zero_is_immediate rhs Hz) as (t & x & ->).
    destruct K1 as [_ K1]. rewrite <- Eo.
    apply (divide_by_zero_step b1 k inst1 (VImm t x) Hl1);
      [rewrite Eo; exact Hop|apply K1, Hrhs|exact Hz]. }
  split; [exact Hstep|]. split; [|apply pass_fails_at_overflow, Hwf].
  intros b' Hb'.
  destruct (pass_split b b' k (lookup_lt_Some _ _ _ Hk) Hb')
    as (b1 & b2 & H1 & H2 & H3).
  exists b1, b2. split; [exact H1|]. split; [exact H2|].
  split; [exact H3|].
  destruct (Hstep b1 H1) as (b2' & H2' & U).
  rewrite H2 in H2'. apply Some_eq in H2'. subst b2'.
  destruct U as (_ & _ & _ & _ & U).
  apply (proj1 (kept_after b2 b' k _ H3)), U. discriminate.
Qed.

Lemma divide_by_zero_folds_to_zero_witness :
  well_formed example_block = true /\
  example_block !! 1%nat
  = Some (mkInst UnsignedDiv32 [VInst 0; VImm U32 0] []) /\
  is_division UnsignedDiv32 = true /\
  IsZero (VImm U32 0) = true /\
  exists b' b1 b2,
    ConstantPropagation example_block = Some b' /\
    sweep (seq 0 1) example_block = Some b1 /\
    ConstantPropagation_inst b1 1 = Some b2 /\
    uses_replaced b1 b2 1 (VImm U32 0) /\
    sweep (seq 2 4) b2 = Some b' /\
    use_count b' 1 = 0%nat.
Proof.
  split; [reflexivity|]. split; [reflexivity|]. split; [reflexivity|].
  split; [reflexivity|].
  destruct (divide_by_zero_folds_to_zero example_block 1
              (mkInst UnsignedDiv32 [VInst 0; VImm U32 0] []) (VImm U32 0)
              eq_refl eq_refl eq_refl eq_refl eq_refl) as (Hs & Hp & _).
  destruct (Hp _ eq_refl) as (b1 & b2 & H1 & H2 & H3 & U).
  destruct (Hs b1 H1) as (b2' & H2' & R).
  rewrite H2 in H2'. apply Some_eq in H2'. subst b2'.
  eexists _, b1, b2. split; [reflexivity|]. auto.
Defined.

(** ** C5: both operands of a commutative operation are immediates *)

(** C5.  Let instruction [k] of a well-formed block be a commutative
    foldable instruction (AND, OR, XOR, MUL; 32 or 64 bit) whose two
    operands are immediates.  When the pass returns, it has gone through
    the step on [k], which rewrote every use of the instruction to one
    immediate of the output width of the opcode, whose value is the 64-bit
    evaluation of the operation on the widened operands, truncated to that
    width; no operand of the block the pass returns refers to the
    instruction.  Every bit of the immediate below the output width is the
    bit of the exact result.  The pass fails to return only when it reaches
    a signed division of the least 64-bit integer by -1. *)
Theorem commutative_immediates_fold (b : Block) (k : InstId) (inst : Inst)
    (op : BinOp) (t ta tb : ImmType) (x y : Z) :
  well_formed b = true ->
  b !! k = Some inst ->
  commutative_op (opcode inst) = Some (op, t) ->
  GetArg inst 0 = Some (VImm ta x) ->
  GetArg inst 1 = Some (VImm tb y) ->
  let X := x mod 2 ^ bit_width ta in
  let Y := y mod 2 ^ bit_width tb in
  let r := cast_u64 (exact op X Y) mod 2 ^ bit_width t in
  (forall b',
     ConstantPropagation b = Some b' ->
     exists b1 b2,
       sweep (seq 0 k) b = Some b1 /\
       ConstantPropagation_inst b1 k = Some b2 /\
       uses_replaced b1 b2 k (VImm t r) /\
       sweep (seq (S k) (length b - S k)) b2 = Some b' /\
       use_count b' k = 0%nat) /\
  (ConstantPropagation b = None -> reaches_overflow b) /\
  (forall n, 0 <= n < bit_width t ->
             Z.testbit r n = Z.testbit (exact op X Y) n).
Proof.
  intros Hwf Hk Hop H0 H1 X Y r. apply well_formed_WF in Hwf.
  split; [|split; [apply pass_fails_at_overflow, Hwf|]].
  - intros b' Hb'.
    destruct (pass_split b b' k (lookup_lt_Some _ _ _ Hk) Hb')
      as (b1 & b2 & S1 & S2 & S3).
    destruct (found_at b b1 k inst S1 Hk) as (inst1 & Hl1 & K1).
    destruct (kept_opcode inst inst1 K1) as (Eo & _).
    destruct K1 as [_ K1].
    destruct (commutative_immediates_step b1 k inst1 op t ta tb x y Hl1)
      as [(b2' & H2' & U) _];
      [rewrite Eo; exact Hop|apply K1, H0|apply K1, H1|].
    rewrite S2 in H2'. apply Some_eq in H2'. subst b2'.
    exists b1, b2. split; [exact S1|]. split; [exact S2|].
    split; [exact U|]. split; [exact S3|].
    destruct U as (_ & _ & _ & _ & U).
    apply (proj1 (kept_after b2 b' k _ S3)), U. discriminate.
  - exact (proj2 (commutative_immediates_step b k inst op t ta tb x y
                    Hk Hop H0 H1)).
Qed.

Lemma commutative_immediates_fold_witness :
  well_formed example_block = true /\
  example_block !! 2%nat
  = Some (mkInst And32 [VImm U32 65295; VImm U32 4080] []) /\
  commutative_op And32 = Some (OpAnd, U32) /\
  (exists b' b1 b2,
     ConstantPropagation example_block = Some b' /\
     sweep (seq 0 2) example_block = Some b1 /\
     ConstantPropagation_inst b1 2 = Some b2 /\
     uses_replaced b1 b2 2 (VImm U32 3840) /\
     sweep (seq 3 3) b2 = Some b' /\
     use_count b' 2 = 0%nat) /\
  (forall n, 0 <= n < 32 ->
             Z.testbit 3840 n = Z.testbit (Z.land 65295 4080) n).
Proof.
  split; [reflexivity|]. split; [reflexivity|]. split; [reflexivity|].
  destruct (commutative_immediates_fold example_block 2
              (mkInst And32 [VImm U32 65295; VImm U32 4080] [])
              OpAnd U32 U32 U32 65295 4080
              eq_refl eq_refl eq_refl eq_refl eq_refl) as (Hp & _ & Hb).
  split; [|exact Hb].
  destruct (Hp _ eq_refl) as (b1 & b2 & H).
  eexists _, b1, b2. split; [reflexivity|exact H].
Defined.

(** ** C8: shifts and rotates by the immediate zero *)

Lemma GetArg_lt (inst : Inst) (i : nat) (a : Value) :
  GetArg inst i = Some a -> (i < NumArgs inst)%nat.
Proof. unfold GetArg, NumArgs. apply lookup_lt_Some. Qed.

Lemma shift_carry_has_third (inst : Inst) (c : InstId) :
  operands_ok inst = true -> is_shift (opcode inst) = true ->
  GetAssociatedPseudoOperation inst GetCarryFromOp = Some c ->
  (2 < NumArgs inst)%nat.
Proof.
  unfold operands_ok. intros H Hs Hc.
  destruct (opcode inst); try discriminate Hs;
    cbn [is_shift] in H; rewrite Hc in H;
    rewrite !andb_true_iff in H; destruct H as [_ H];
    apply Nat.leb_le in H; lia.
Qed.

Lemma carry_of_kept (inst inst1 : Inst) (op : Opcode) :
  pseudo_ops inst1 = pseudo_ops inst ->
  GetAssociatedPseudoOperation inst1 op
  = GetAssociatedPseudoOperation inst op.
Proof. unfold GetAssociatedPseudoOperation. intros ->. reflexivity. Qed.

(** C8.  Let instruction [k] of a well-formed block be a shift or rotate
    (LSL, LSR, ASR, ROR; 32 or 64 bit) whose shift amount is the immediate
    zero.  When the pass returns, it has found at [k] the instruction with
    the same opcode, pseudo-operations and immediate operands, and gone
    through the step on it.  When a GetCarryFromOp pseudo-operation [c] is
    associated with the instruction, that step rewrote every use of the
    instruction to its first operand and every use of [c] to its third
    operand, and no operand of the block the pass returns refers to the
    instruction or to [c].  When none is associated, the third operand of a
    three-operand instruction was first set to the constant false, which it
    still is in the block the pass returns, and then every use of the
    instruction was rewritten to its first operand; no operand of the block
    the pass returns refers to the instruction.  The pass fails to return
    only when it reaches a signed division of the least 64-bit integer by
    -1. *)
Theorem zero_shift_folds (b : Block) (k : InstId) (inst : Inst)
    (amount : Value) :
  well_formed b = true ->
  b !! k = Some inst ->
  is_shift (opcode inst) = true ->
  GetArg inst 1 = Some amount ->
  IsZero amount = true ->
  (forall b',
     ConstantPropagation b = Some b' ->
     exists b1 inst1 a0 b2,
       sweep (seq 0 k) b = Some b1 /\
       b1 !! k = Some inst1 /\ immediates_kept inst inst1 /\
       GetArg inst1 0 = Some a0 /\
       ConstantPropagation_inst b1 k = Some b2 /\
       sweep (seq (S k) (length b - S k)) b2 = Some b' /\
       use_count b' k = 0%nat /\
       match GetAssociatedPseudoOperation inst GetCarryFromOp with
       | Some c =>
           exists a2,
             GetArg inst1 2 = Some a2 /\
             result_and_carry_replaced b1 b2 k c a0 a2 /\
             use_count b' c = 0%nat
       | None =>
           exists b0,
             (if Nat.eqb (NumArgs inst) 3
              then SetArg b1 k 2 (of_bool false) = Some b0 /\
                   arg_at b' k 2 = Some (of_bool false)
              else b0 = b1) /\
             uses_replaced b0 b2 k a0
       end) /\
  (ConstantPropagation b = None -> reaches_overflow b).
Proof.
  intros Hwf Hk Hop H1 Hz. apply well_formed_WF in Hwf.
  split; [|apply pass_fails_at_overflow, Hwf].
  intros b' Hb'.
  destruct (pass_split b b' k (lookup_lt_Some _ _ _ Hk) Hb')
    as (b1 & b2 & S1 & S2 & S3).
  destruct (found_at b b1 k inst S1 Hk) as (inst1 & Hl1 & K1).
  destruct (kept_opcode inst inst1 K1) as (Eo & En & Ep).
  destruct (zero_is_immediate amount Hz) as (t & x & ->).
  pose proof (proj2 K1 1%nat t x H1) as H1'.
  destruct (sweep_WF _ _ _ Hwf S1) as [W1 _].
  destruct (W1 k inst1 Hl1) as [Hord Hok].
  destruct (GetArg_exists inst1 0) as [a0 H0];
    [apply GetArg_lt in H1'; lia|].
  assert (a0 <> VInst k) as H0k.
  { apply (refs_below_not_ref k k a0); [|lia].
    exact (ordered_arg_below k inst1 0 a0 Hord H0). }
  destruct (kept_after b2 b' k _ S3) as [Huse Himm].
  rewrite <- Eo in Hop.
  pose proof (zero_shift_step b1 k inst1 a0 (VImm t x) Hord Hl1 Hop H0 H1'
                Hz) as Hstep.
  rewrite (carry_of_kept inst inst1 _ Ep) in Hstep.
  exists b1, inst1, a0, b2.
  split; [exact S1|]. split; [exact Hl1|]. split; [exact K1|].
  split; [exact H0|]. split; [exact S2|]. split; [exact S3|].
  destruct (GetAssociatedPseudoOperation inst GetCarryFromOp) as [c|] eqn:Hc.
  - destruct (GetArg_exists inst1 2) as [a2 H2].
    { apply (shift_carry_has_third inst1 c Hok Hop).
      rewrite (carry_of_kept inst inst1 _ Ep). exact Hc. }
    destruct (Hstep a2 H2) as (b2' & H2' & R).
    rewrite S2 in H2'. apply Some_eq in H2'. subst b2'.
    pose proof R as (_ & _ & _ & _ & _ & Uk & Uc).
    split; [apply Huse, Uk|].
    exists a2. split; [exact H2|]. split; [exact R|]. apply Huse, Uc.
  - destruct Hstep as (b0 & b2' & Hforce & H2' & R).
    rewrite S2 in H2'. apply Some_eq in H2'. subst b2'.
    pose proof R as (_ & _ & _ & _ & Uk).
    split; [apply Huse, Uk, H0k|].
    exists b0. split; [|exact R].
    rewrite <- En.
    destruct (Nat.eqb (NumArgs inst1) 3); [|exact Hforce].
    destruct Hforce as [Hset Harg]. split; [exact Hset|].
    apply Himm, Harg.
Qed.

Lemma zero_shift_folds_witness :
  well_formed example_block = true /\
  example_block !! 3%nat
  = Some (mkInst LogicalShiftLeft32 [VInst 0; VImm U8 0; VImm U1 1]
                 [(GetCarryFromOp, 4%nat)]) /\
  is_shift LogicalShiftLeft32 = true /\
  IsZero (VImm U8 0) = true /\
  exists b' b1 inst1 b2,
    ConstantPropagation example_block = Some b' /\
    sweep (seq 0 3) example_block = Some b1 /\
    b1 !! 3%nat = Some inst1 /\
    GetArg inst1 0 = Some (VInst 0) /\
    GetArg inst1 2 = Some (VImm U1 1) /\
    ConstantPropagation_inst b1 3 = Some b2 /\
    result_and_carry_replaced b1 b2 3 4 (VInst 0) (VImm U1 1) /\
    sweep (seq 4 2) b2 = Some b' /\
    use_count b' 3 = 0%nat /\ use_count b' 4 = 0%nat.
Proof.
  split; [reflexivity|]. split; [reflexivity|]. split; [reflexivity|].
  split; [reflexivity|].
  destruct (zero_shift_folds example_block 3
              (mkInst LogicalShiftLeft32 [VInst 0; VImm U8 0; VImm U1 1]
                      [(GetCarryFromOp, 4%nat)])
              (VImm U8 0) eq_refl eq_refl eq_refl eq_refl eq_refl)
    as (Hp & _).
  destruct (Hp _ eq_refl)
    as (b1 & inst1 & a0 & b2 & S1 & Hl & K & H0 & S2 & S3 & Uk & a2 & H2
        & R & Uc).
  simpl in S1. apply Some_eq in S1. subst b1.
  simpl in Hl. apply Some_eq in Hl. subst inst1.
  simpl in H0. apply Some_eq in H0. subst a0.
  simpl in H2. apply Some_eq in H2. subst a2.
  eexists _, _, _, b2. split; [reflexivity|]. split; [reflexivity|].
  split; [reflexivity|]. split; [reflexivity|]. split; [reflexivity|].
  auto.
Defined.

End ConstPropPass.

(* ================================================================== *)
(** * Contracts of the allocator operations *)
(* ================================================================== *)

Module X64Facts.
Import IR X64.
Local Open Scope nat_scope.

(** ** Searching a range *)

Lemma find_seq_first (p : nat -> bool) (n s i : nat) :
  find p (seq s n) = Some i ->
  s <= i < s + n /\ p i = true /\ forall j, s <= j < i -> p j = false.
Proof.
  revert s. induction n as [|n IH]; intros s; simpl; [discriminate|].
  destruct (p s) eqn:E.
  - intros H. injection H as <-. split; [lia|]. split; [exact E|]. lia.
  - intros H. apply IH in H. destruct H as (Hr & Hp & Hlow).
    split; [lia|]. split; [exact Hp|]. intros j Hj.
    destruct (Nat.eq_dec j s) as [->|]; [exact E|]. apply Hlow. lia.
Qed.

Lemma find_seq_none (p : nat -> bool) (n s : nat) :
  find p (seq s n) = None <-> forall j, s <= j < s + n -> p j = false.
Proof.
  revert s. induction n as [|n IH]; intros s; simpl.
  - split; [lia|reflexivity].
  - destruct (p s) eqn:E.
    + split; [discriminate|]. intros H. rewrite H in E by lia. discriminate.
    + rewrite IH. split.
      * intros H j Hj. destruct (Nat.eq_dec j s) as [->|]; [exact E|].
        apply H. lia.
      * intros H j Hj. apply H. lia.
Qed.

Lemma find_pointwise {A : Type} (p q : A -> bool) (l : list A) :
  (forall x, p x = q x) -> find p l = find q l.
Proof.
  intros E. induction l as [|x l IH]; simpl; [reflexivity|].
  rewrite E, IH. reflexivity.
Qed.

(** ** Framing *)

Lemma locked_untouched_refl st : locked_untouched st st.
Proof. intros l _. reflexivity. Qed.

Lemma locked_untouched_trans s1 s2 s3 :
  locked_untouched s1 s2 -> locked_untouched s2 s3 -> locked_untouched s1 s3.
Proof.
  intros H1 H2 l Hl. rewrite H2; [apply H1, Hl|]. rewrite H1; assumption.
Qed.

Lemma same_table_untouched st st' :
  hostloc_info st' = hostloc_info st -> locked_untouched st st'.
Proof. intros E l _. rewrite E. reflexivity. Qed.

Lemma set_unlocked_untouched loc i st u st' :
  set_LocInfo loc i st = Ok u st' ->
  is_being_used (hostloc_info st loc) = false ->
  locked_untouched st st'.
Proof.
  unfold set_LocInfo. intros H Hl. injection H as _ <-. intros l L. simpl.
  apply fn_update_ne. intros ->. congruence.
Qed.

Lemma Lock_locked i : is_being_used i = true -> Lock i = i.
Proof. destruct i as [vs b]. simpl. intros ->. reflexivity. Qed.

Lemma LockLoc_untouched loc st u st' :
  LockLoc loc st = Ok u st' -> locked_untouched st st'.
Proof.
  unfold LockLoc, set_LocInfo, LocInfo. intros H. injection H as _ <-.
  intros l L. simpl. unfold fn_update.
  destruct (Nat.eqb_spec l loc) as [->|]; [|reflexivity].
  apply Lock_locked, L.
Qed.

Lemma IsEmpty_empty_info i : IsEmpty i = true <-> i = empty_info.
Proof.
  destruct i as [vs b]. unfold IsEmpty, empty_info. simpl. split.
  - intros H. apply andb_true_iff in H. destruct H as [Hb Hv].
    apply negb_true_iff in Hb. apply bool_decide_eq_true in Hv.
    subst. reflexivity.
  - intros H. injection H as -> ->. reflexivity.
Qed.

Lemma IsEmpty_not_locked i : IsEmpty i = true -> is_being_used i = false.
Proof. intros H. apply IsEmpty_empty_info in H. subst. reflexivity. Qed.

Lemma IsEmpty_no_values i : IsEmpty i = true -> values i = [].
Proof. intros H. apply IsEmpty_empty_info in H. subst. reflexivity. Qed.

Lemma register_below_spills l :
  HostLocIsRegister l = true -> l < FirstSpill.
Proof.
  unfold HostLocIsRegister, HostLocIsGPR, HostLocIsXMM, FirstSpill, R15,
    XMM0, XMM15.
  intros H. apply orb_true_iff in H. destruct H as [H|H].
  - apply Nat.leb_le in H. lia.
  - apply andb_true_iff in H. destruct H as [_ H]. apply Nat.leb_le in H. lia.
Qed.

Section Primitives.

Variable SpillCount : nat.
Variable DEBUG : bool.
Variable std_partition : (HostLoc -> bool) -> HostLocList
                         -> HostLocList * HostLocList.
Hypothesis std_partition_ok : partition_contract std_partition.

Lemma spill_above_registers l :
  HostLocIsSpill SpillCount l = true -> FirstSpill <= l.
Proof.
  unfold HostLocIsSpill. intros H. apply andb_true_iff in H.
  destruct H as [H _]. apply Nat.leb_le in H. exact H.
Qed.

(** ** The static helpers *)

Lemma EmitMove_effect to from st u st' :
  EmitMove SpillCount to from st = Ok u st' ->
  exists i, is_move to from i /\
            st' = mkState (hostloc_info st) (remaining_uses st)
                          (code st ++ [i]).
Proof.
  unfold EmitMove, is_move, emit.
  repeat match goal with
         | |- context [if ?c then _ else _] => destruct c
         end; try discriminate;
    intros H; injection H as _ <-;
    (eexists; split; [|reflexivity]);
    first [left; reflexivity | right; left; reflexivity
          | right; right; reflexivity].
Qed.

Lemma EmitExchange_effect a b st u st' :
  EmitExchange a b st = Ok u st' ->
  HostLocIsGPR a = true /\ HostLocIsGPR b = true /\
  st' = mkState (hostloc_info st) (remaining_uses st) (code st ++ [xchg a b]).
Proof.
  unfold EmitExchange, emit.
  destruct (HostLocIsGPR a), (HostLocIsGPR b); simpl;
    try (destruct (_ && _); discriminate).
  intros H. injection H as _ <-. auto.
Qed.

(** ** The spill slots *)

Lemma FindFreeSpill_first st l st' :
  FindFreeSpill SpillCount st = Ok l st' ->
  st' = st /\
  exists i, l = HostLocSpill i /\ i < SpillCount /\
            IsEmpty (LocInfo st l) = true /\
            forall j, j < i -> IsEmpty (LocInfo st (HostLocSpill j)) = false.
Proof.
  unfold FindFreeSpill.
  destruct (find _ (seq 0 SpillCount)) as [i|] eqn:F; [|discriminate].
  intros H. injection H as <- <-. split; [reflexivity|].
  apply find_seq_first in F. destruct F as (Hr & Hp & Hlow).
  unfold IsRegisterOccupied in Hp, Hlow. rewrite negb_involutive in Hp.
  exists i. split; [reflexivity|]. split; [lia|]. split; [exact Hp|].
  intros j Hj. specialize (Hlow j). rewrite negb_involutive in Hlow.
  apply Hlow. lia.
Qed.

Lemma FindFreeSpill_full st :
  (forall i, i < SpillCount ->
             IsEmpty (LocInfo st (HostLocSpill i)) = false) <->
  FindFreeSpill SpillCount st = Fail E_SpillsFull st.
Proof.
  unfold FindFreeSpill.
  destruct (find _ (seq 0 SpillCount)) as [i|] eqn:F.
  - apply find_seq_first in F. destruct F as (Hr & Hp & _).
    unfold IsRegisterOccupied in Hp. rewrite negb_involutive in Hp.
    split; [|discriminate]. intros H. rewrite H in Hp by lia. discriminate.
  - split; [reflexivity|]. intros _ i Hi.
    rewrite find_seq_none in F. specialize (F i).
    unfold IsRegisterOccupied in F. rewrite negb_involutive in F.
    apply F. lia.
Qed.

Lemma FindFreeSpill_is_spill st l st' :
  FindFreeSpill SpillCount st = Ok l st' ->
  HostLocIsSpill SpillCount l = true.
Proof.
  intros H. apply FindFreeSpill_first in H.
  destruct H as (_ & i & -> & Hi & _).
  unfold HostLocIsSpill, HostLocSpill. apply andb_true_iff. split.
  - apply Nat.leb_le. lia.
  - apply Nat.ltb_lt. lia.
Qed.

Lemma SpillRegister_effect loc st u st' :
  SpillRegister SpillCount loc st = Ok u st' ->
  HostLocIsRegister loc = true /\
  IsEmpty (LocInfo st loc) = false /\
  IsLocked (LocInfo st loc) = false /\
  exists slot i,
    FindFreeSpill SpillCount st = Ok slot st /\ is_move slot loc i /\
    st' = mkState (fn_update (fn_update (hostloc_info st) slot
                                        (hostloc_info st loc))
                             loc empty_info)
                  (remaining_uses st) (code st ++ [i]).
Proof.
  unfold SpillRegister. intros H.
  split_bind H as u1 s1 H1. apply ASSERT_Ok in H1. destruct H1 as [Hreg ->].
  split_bind H as u2 s2 H2. apply ASSERT_Ok in H2. destruct H2 as [Hocc ->].
  split_bind H as u3 s3 H3. apply ASSERT_Ok in H3. destruct H3 as [Hidle ->].
  split_bind H as slot s4 Hfind.
  pose proof Hfind as Hfind'. apply FindFreeSpill_first in Hfind'.
  destruct Hfind' as (-> & _).
  split_bind H as u5 s5 Hmove. apply EmitMove_effect in Hmove.
  destruct Hmove as (i & Hi & ->).
  split_bind H as u6 s6 Hset. unfold set_LocInfo, LocInfo in Hset, H.
  injection Hset as _ <-. injection H as _ <-. simpl.
  split; [exact Hreg|].
  unfold IsRegisterOccupied in Hocc. apply negb_true_iff in Hocc.
  split; [exact Hocc|].
  unfold IsRegisterAllocated, IsIdle in Hidle.
  rewrite !negb_involutive in Hidle. apply negb_true_iff in Hidle.
  split; [exact Hidle|].
  exists slot, i. auto.
Qed.


(** Making room in [l] (the [if (IsRegisterOccupied(l)) SpillRegister(l)] of
    the source): nothing happens when [l] is empty; otherwise the entry of
    [l] goes to a free spill slot and one move is emitted. *)
Lemma make_room_effect l st u st' :
  when (fun st => IsRegisterOccupied st l) (SpillRegister SpillCount l) st
  = Ok u st' ->
  (IsEmpty (LocInfo st l) = true /\ st' = st) \/
  (IsEmpty (LocInfo st l) = false /\ IsLocked (LocInfo st l) = false /\
   HostLocIsRegister l = true /\
   exists slot i,
     FindFreeSpill SpillCount st = Ok slot st /\ is_move slot l i /\
     st' = mkState (fn_update (fn_update (hostloc_info st) slot
                                         (hostloc_info st l))
                              l empty_info)
                   (remaining_uses st) (code st ++ [i])).
Proof.
  unfold when, ifM, IsRegisterOccupied.
  destruct (IsEmpty (LocInfo st l)) eqn:E; simpl.
  - intros H. inv_ret H. left. auto.
  - intros H. apply SpillRegister_effect in H.
    destruct H as (Hreg & _ & Hl & slot & i & Hf & Hi & ->).
    right. split; [reflexivity|]. split; [exact Hl|]. split; [exact Hreg|].
    exists slot, i. auto.
Qed.

(** What making room guarantees, whichever case applies. *)
Lemma make_room_summary l st u st' :
  when (fun st => IsRegisterOccupied st l) (SpillRegister SpillCount l) st
  = Ok u st' ->
  is_being_used (hostloc_info st l) = false ->
  hostloc_info st' l = empty_info /\
  locked_untouched st st' /\
  remaining_uses st' = remaining_uses st /\
  (forall l', l' <> l -> IsEmpty (hostloc_info st l') = false ->
              hostloc_info st' l' = hostloc_info st l') /\
  exists new, code st' = code st ++ new.
Proof.
  intros H Hl. apply make_room_effect in H.
  destruct H as [[E ->]|(E & _ & Hreg & slot & i & Hf & Hi & ->)].
  - split; [apply IsEmpty_empty_info, E|].
    split; [apply locked_untouched_refl|]. split; [reflexivity|].
    split; [reflexivity|]. exists []. rewrite app_nil_r. reflexivity.
  - pose proof (FindFreeSpill_is_spill _ _ _ Hf) as Hs.
    apply spill_above_registers in Hs.
    apply register_below_spills in Hreg.
    apply FindFreeSpill_first in Hf.
    destruct Hf as (_ & k & _ & _ & Hempty & _). unfold LocInfo in *.
    simpl. rewrite fn_update_eq. split; [reflexivity|].
    split; [|split; [reflexivity|split]].
    + intros l' L. simpl. unfold fn_update.
      destruct (Nat.eqb_spec l' l) as [->|]; [congruence|].
      destruct (Nat.eqb_spec l' slot) as [->|]; [|reflexivity].
      apply IsEmpty_not_locked in Hempty. congruence.
    + intros l' Hne Hocc. simpl. unfold fn_update.
      destruct (Nat.eqb_spec l' l) as [->|]; [congruence|].
      destruct (Nat.eqb_spec l' slot) as [->|]; [|reflexivity].
      congruence.
    + exists [i]. reflexivity.
Qed.

(** ** Moving and exchanging *)

Lemma Move_effect to from st u st' :
  Move SpillCount to from st = Ok u st' ->
  IsEmpty (LocInfo st to) = true /\ IsLocked (LocInfo st from) = false /\
  ((IsEmpty (LocInfo st from) = true /\ st' = st) \/
   (IsEmpty (LocInfo st from) = false /\
    exists i, is_move to from i /\
      st' = mkState (fn_update (fn_update (hostloc_info st) to
                                          (hostloc_info st from))
                               from empty_info)
                    (remaining_uses st) (code st ++ [i]))).
Proof.
  unfold Move. intros H. split_bind H as u1 s1 Ha.
  apply ASSERT_Ok in Ha. destruct Ha as [Hc ->].
  apply andb_true_iff in Hc. destruct Hc as [Hto Hfrom].
  apply negb_true_iff in Hfrom. split; [exact Hto|]. split; [exact Hfrom|].
  unfold ifM in H. destruct (IsEmpty (LocInfo st from)) eqn:E.
  - inv_ret H. left. auto.
  - right. split; [reflexivity|].
    split_bind H as u2 s2 H2. split_bind H as u3 s3 H3.
    unfold set_LocInfo, LocInfo in H2, H3.
    injection H2 as _ <-. injection H3 as _ <-.
    apply EmitMove_effect in H. destruct H as (i & Hi & ->). simpl.
    exists i. auto.
Qed.

Lemma swap_loc_spec a b l :
  swap_loc a b l = if Nat.eqb l a then b else if Nat.eqb l b then a else l.
Proof. reflexivity. Qed.

(** [Exchange] swaps the two entries whichever way it goes about it. *)
Lemma Exchange_effect a b st u st' :
  Exchange SpillCount a b st = Ok u st' ->
  IsLocked (LocInfo st a) = false /\ IsLocked (LocInfo st b) = false /\
  (forall l, hostloc_info st' l = hostloc_info st (swap_loc a b l)) /\
  remaining_uses st' = remaining_uses st /\
  exists new, code st' = code st ++ new /\
    match IsEmpty (LocInfo st a), IsEmpty (LocInfo st b) with
    | true, true => new = []
    | true, false => exists i, is_move a b i /\ new = [i]
    | false, true => exists i, is_move b a i /\ new = [i]
    | false, false =>
        new = [xchg a b] /\ HostLocIsGPR a = true /\ HostLocIsGPR b = true
    end.
Proof.
  unfold Exchange. intros H. split_bind H as u1 s1 Ha.
  apply ASSERT_Ok in Ha. destruct Ha as [Hc ->].
  apply andb_true_iff in Hc. destruct Hc as [La Lb].
  apply negb_true_iff in La, Lb. split; [exact La|]. split; [exact Lb|].
  unfold ifM in H.
  destruct (IsEmpty (LocInfo st a)) eqn:Ea.
  { pose proof Ea as Ea'. apply IsEmpty_empty_info in Ea'.
    apply Move_effect in H.
    destruct H as (_ & _ & [[Eb ->]|(Eb & i & Hi & ->)]).
    - rewrite Eb. apply IsEmpty_empty_info in Eb. unfold LocInfo in *.
      split; [|split; [reflexivity|]].
      + intros l. unfold swap_loc.
        destruct (Nat.eqb_spec l a) as [->|]; [congruence|].
        destruct (Nat.eqb_spec l b) as [->|]; [congruence|reflexivity].
      + exists []. rewrite app_nil_r. auto.
    - rewrite Eb. unfold LocInfo in *. simpl.
      split; [|split; [reflexivity|]].
      + intros l. unfold swap_loc, fn_update.
        destruct (Nat.eqb_spec l b) as [->|].
        * destruct (Nat.eqb_spec b a) as [->|]; [congruence|].
          symmetry. exact Ea'.
        * destruct (Nat.eqb_spec l a) as [->|]; reflexivity.
      + exists [i]. split; [reflexivity|]. exists i. auto. }
  destruct (IsEmpty (LocInfo st b)) eqn:Eb.
  { pose proof Eb as Eb'. apply IsEmpty_empty_info in Eb'.
    apply Move_effect in H.
    destruct H as (_ & _ & [[Ea2 ->]|(_ & i & Hi & ->)]);
      [congruence|].
    unfold LocInfo in *. simpl. split; [|split; [reflexivity|]].
    - intros l. unfold swap_loc, fn_update.
      destruct (Nat.eqb_spec l a) as [->|].
      + symmetry. exact Eb'.
      + destruct (Nat.eqb_spec l b) as [->|]; reflexivity.
    - exists [i]. split; [reflexivity|]. exists i. auto. }
  split_bind H as u2 s2 Hswap. split_bind Hswap as u3 s3 H3.
  unfold set_LocInfo, LocInfo in H3, Hswap.
  injection H3 as _ <-. injection Hswap as _ <-.
  apply EmitExchange_effect in H. destruct H as (Ga & Gb & ->). simpl.
  split; [|split; [reflexivity|]].
  - intros l. unfold swap_loc, fn_update.
    destruct (Nat.eqb_spec l b) as [->|].
    + destruct (Nat.eqb_spec b a) as [->|]; reflexivity.
    + destruct (Nat.eqb_spec l a) as [->|]; reflexivity.
  - exists [xchg a b]. auto.
Qed.


(** ** Locking and counting *)

Lemma LockLoc_effect l st u st' :
  LockLoc l st = Ok u st' ->
  st' = mkState (fn_update (hostloc_info st) l (Lock (hostloc_info st l)))
                (remaining_uses st) (code st).
Proof.
  unfold LockLoc, set_LocInfo, LocInfo. intros H. injection H as _ <-.
  reflexivity.
Qed.

Lemma DecrementRemainingUses_effect v st u st' :
  DecrementRemainingUses v st = Ok u st' ->
  hostloc_info st' = hostloc_info st /\ code st' = code st /\
  decremented 1 v st st'.
Proof.
  intros H. pose proof H as H'. apply DecrementRemainingUses_Ok in H'.
  destruct H' as [(_ & _ & D) T]. split; [exact T|]. split; [|exact D].
  unfold DecrementRemainingUses in H. split_bind H as u1 s1 Ha.
  apply ASSERT_Ok in Ha. destruct Ha as [_ ->]. injection H as _ <-.
  reflexivity.
Qed.

Lemma decremented_twice n m v s1 s2 s3 :
  decremented n v s1 s2 -> decremented m v s2 s3 ->
  decremented (n + m) v s1 s3.
Proof.
  intros [L1 D1] [L2 D2]. pose proof (D1 v) as E. rewrite Nat.eqb_refl in E.
  split; [lia|]. intros i. rewrite D2, !D1, Nat.eqb_refl.
  destruct (Nat.eqb i v); [lia|reflexivity].
Qed.

Lemma decremented_same_uses n v s1 s2 s3 :
  decremented n v s1 s2 -> remaining_uses s3 = remaining_uses s2 ->
  decremented n v s1 s3.
Proof. intros [L D] E. split; [exact L|]. intros i. rewrite E. apply D. Qed.

Lemma same_uses_decremented n v s1 s2 s3 :
  remaining_uses s2 = remaining_uses s1 -> decremented n v s2 s3 ->
  decremented n v s1 s3.
Proof.
  intros E [L D]. rewrite E in L. split; [exact L|]. intros i.
  rewrite D, E. reflexivity.
Qed.

(** ** [ScratchHostLocReg] *)

Lemma ScratchHostLocReg_steps desired st l st' :
  ScratchHostLocReg SpillCount DEBUG std_partition desired st = Ok l st' ->
  l ∈ desired /\ is_being_used (hostloc_info st l) = false /\
  exists u s1,
    when (fun st => IsRegisterOccupied st l) (SpillRegister SpillCount l) st
    = Ok u s1 /\
    st' = mkState (fn_update (hostloc_info s1) l (Lock (hostloc_info s1 l)))
                  (remaining_uses s1) (code s1).
Proof.
  unfold ScratchHostLocReg. intros H.
  split_bind H as u0 s0 Hd. apply DEBUG_ASSERT_Ok in Hd. destruct Hd as [-> _].
  split_bind H as loc s1 Hsel.
  apply SelectARegister_Ok in Hsel; [|exact std_partition_ok].
  destruct Hsel as (-> & Hin & Hl & _).
  split_bind H as u1 s1 Hroom.
  split_bind H as u2 s2 Hlock. apply LockLoc_effect in Hlock. subst s2.
  split_bind H as u3 s3 Hd. apply DEBUG_ASSERT_Ok in Hd. destruct Hd as [-> _].
  unfold ret in H. injection H as <- <-.
  split; [exact Hin|]. split; [exact Hl|]. eauto.
Qed.

Lemma ScratchHostLocReg_summary desired st l st' :
  ScratchHostLocReg SpillCount DEBUG std_partition desired st = Ok l st' ->
  l ∈ desired /\ is_being_used (hostloc_info st l) = false /\
  hostloc_info st' l = mkInfo [] true /\
  locked_untouched st st' /\
  remaining_uses st' = remaining_uses st /\
  (forall l', l' <> l -> IsEmpty (hostloc_info st l') = false ->
              hostloc_info st' l' = hostloc_info st l') /\
  exists new, code st' = code st ++ new.
Proof.
  intros H. apply ScratchHostLocReg_steps in H.
  destruct H as (Hin & Hl & u & s1 & Hroom & ->).
  apply make_room_summary in Hroom; [|exact Hl].
  destruct Hroom as (E & F & U & O & C).
  split; [exact Hin|]. split; [exact Hl|]. simpl.
  rewrite fn_update_eq, E. split; [reflexivity|].
  split; [|split; [exact U|split; [|exact C]]].
  - intros l' L. simpl. rewrite fn_update_ne; [apply F, L|].
    intros ->. congruence.
  - intros l' Hne Hocc. rewrite fn_update_ne by exact Hne. apply O; assumption.
Qed.


(** ** [UseScratchHostLocReg] *)

Lemma scratch_tail v new s2 u3 s3 u4 st' :
  LockLoc new s2 = Ok u3 s3 ->
  DecrementRemainingUses v s3 = Ok u4 st' ->
  hostloc_info st' new = Lock (hostloc_info s2 new) /\
  (forall l', l' <> new -> hostloc_info st' l' = hostloc_info s2 l') /\
  code st' = code s2.
Proof.
  intros HL HD. apply LockLoc_effect in HL. subst s3.
  apply DecrementRemainingUses_effect in HD. destruct HD as (T & C & _).
  rewrite T, C. simpl. rewrite fn_update_eq. split; [reflexivity|].
  split; [|reflexivity]. intros l' Hne. apply fn_update_ne, Hne.
Qed.

Lemma UseScratchHostLocReg_inst_effect v desired st l st' :
  UseScratchHostLocReg_inst SpillCount DEBUG std_partition v desired st
  = Ok l st' ->
  exists cur,
    ValueLocation SpillCount st v = Some cur /\
    l ∈ desired /\ is_being_used (hostloc_info st l) = false /\
    hostloc_info st' l = mkInfo [] true /\
    locked_untouched st st' /\
    (forall l', l' <> l -> IsEmpty (hostloc_info st l') = false ->
                hostloc_info st' l' = hostloc_info st l') /\
    exists new, code st' = code st ++ new /\
      (cur <> l -> exists pre i, new = pre ++ [i] /\ is_move l cur i).
Proof.
  unfold UseScratchHostLocReg_inst. intros H.
  split_bind H as u0 s0 Hd. apply DEBUG_ASSERT_Ok in Hd. destruct Hd as [-> _].
  split_bind H as u1 s0 Hd. apply DEBUG_ASSERT_Ok in Hd. destruct Hd as [-> _].
  split_bind H as u2 s0 Ha. apply ASSERT_Ok in Ha. destruct Ha as [_ ->].
  split_bind H as cur s0 Hcur. apply deref_Ok in Hcur.
  destruct Hcur as [Hcur ->].
  split_bind H as new s0 Hsel.
  apply SelectARegister_Ok in Hsel; [|exact std_partition_ok].
  destruct Hsel as (-> & Hin & Hl & _). unfold IsLocked, LocInfo in Hl.
  split_bind H as u3 s1 Hroom.
  apply make_room_summary in Hroom; [|exact Hl].
  destruct Hroom as (E & F & U & O & pre & C).
  exists cur. split; [exact Hcur|].
  assert (forall s2 c2,
            hostloc_info s2 new = empty_info ->
            (forall l', l' <> new -> hostloc_info s2 l' = hostloc_info s1 l') ->
            code s2 = code s1 ++ c2 ->
            (cur <> new -> exists i, c2 = [i] /\ is_move new cur i) ->
            forall u4 s3 u5 s4,
              LockLoc new s2 = Ok u4 s3 ->
              DecrementRemainingUses v s3 = Ok u5 s4 ->
              new ∈ desired /\ is_being_used (hostloc_info st new) = false /\
              hostloc_info s4 new = mkInfo [] true /\
              locked_untouched st s4 /\
              (forall l', l' <> new -> IsEmpty (hostloc_info st l') = false ->
                          hostloc_info s4 l' = hostloc_info st l') /\
              exists new_code, code s4 = code st ++ new_code /\
                (cur <> new -> exists pre i, new_code = pre ++ [i] /\
                                              is_move new cur i)) as Tail.
  { intros s2 c2 E2 O2 C2 M2 u4 s3 u5 s4 HL HD.
    destruct (scratch_tail _ _ _ _ _ _ _ HL HD) as (T1 & T2 & T3).
    split; [exact Hin|]. split; [exact Hl|].
    rewrite T1, E2. split; [reflexivity|]. split; [|split].
    - intros l' L. destruct (Nat.eq_dec l' new) as [->|Hne]; [congruence|].
      rewrite T2, O2 by exact Hne. apply F, L.
    - intros l' Hne Hocc. rewrite T2, O2 by exact Hne. apply O; assumption.
    - exists (pre ++ c2). rewrite T3, C2, C, app_assoc.
      split; [reflexivity|]. intros Hne. destruct (M2 Hne) as (i & -> & Hi).
      exists pre, i. auto. }
  destruct (HostLocIsSpill SpillCount cur) eqn:Hsp.
  - split_bind H as u4 s2 Hmove. apply EmitMove_effect in Hmove.
    destruct Hmove as (i & Hi & ->).
    split_bind H as u5 s3 Hlock. split_bind H as u6 s4 Hdec.
    split_bind H as u7 s5 Hd. apply DEBUG_ASSERT_Ok in Hd.
    destruct Hd as [-> _]. unfold ret in H. injection H as <- <-.
    refine (Tail _ [i] _ _ _ _ _ _ _ _ Hlock Hdec); simpl;
      [exact E | reflexivity | reflexivity | eauto].
  - destruct (HostLocIsRegister cur); [|discriminate].
    split_bind H as u4 s2 Ha. apply ASSERT_Ok in Ha. destruct Ha as [_ ->].
    split_bind H as u5 s2 Hmove.
    assert (exists c2, hostloc_info s2 = hostloc_info s1 /\
                       remaining_uses s2 = remaining_uses s1 /\
                       code s2 = code s1 ++ c2 /\
                       (cur <> new -> exists i, c2 = [i] /\ is_move new cur i))
      as (c2 & T2 & U2 & C2 & M2).
    { destruct (Nat.eqb_spec cur new) as [->|Hne]; simpl in Hmove.
      - apply ASSERT_Ok in Hmove. destruct Hmove as [_ ->].
        exists []. rewrite app_nil_r. repeat split; congruence.
      - apply EmitMove_effect in Hmove. destruct Hmove as (i & Hi & ->).
        exists [i]. simpl. repeat split. eauto. }
    split_bind H as u6 s3 Hset. unfold set_LocInfo in Hset.
    injection Hset as _ <-.
    split_bind H as u7 s4 Hlock. split_bind H as u8 s5 Hdec.
    split_bind H as u9 s6 Hd. apply DEBUG_ASSERT_Ok in Hd.
    destruct Hd as [-> _]. unfold ret in H. injection H as <- <-.
    refine (Tail _ c2 _ _ _ _ _ _ _ _ Hlock Hdec); simpl;
      [apply fn_update_eq | | exact C2 | exact M2].
    intros l' Hne. rewrite fn_update_ne by exact Hne. rewrite T2.
    reflexivity.
Qed.


(** ** [UseHostLocReg] *)

Lemma Lock_values i : values (Lock i) = values i.
Proof. reflexivity. Qed.

Lemma MoveOutOfTheWay_summary reg st u st' :
  MoveOutOfTheWay SpillCount reg st = Ok u st' ->
  is_being_used (hostloc_info st reg) = false /\
  hostloc_info st' reg = empty_info /\
  locked_untouched st st' /\
  remaining_uses st' = remaining_uses st /\
  (forall l', l' <> reg -> IsEmpty (hostloc_info st l') = false ->
              hostloc_info st' l' = hostloc_info st l') /\
  exists new, code st' = code st ++ new.
Proof.
  unfold MoveOutOfTheWay. intros H. split_bind H as u1 s1 Ha.
  apply ASSERT_Ok in Ha. destruct Ha as [Hl ->].
  apply negb_true_iff in Hl. unfold IsLocked, LocInfo in Hl.
  split; [exact Hl|]. exact (make_room_summary _ _ _ _ H Hl).
Qed.

Lemma UseHostLocReg_inst_effect v desired st l st' :
  UseHostLocReg_inst SpillCount DEBUG std_partition v desired st = Ok l st' ->
  exists cur,
    ValueLocation SpillCount st v = Some cur /\
    l ∈ desired /\ is_being_used (hostloc_info st' l) = true /\
    locked_untouched st st' /\
    (bool_decide (cur ∈ desired) || negb (IsLocked (LocInfo st cur)) = true ->
     v ∈ values (hostloc_info st' l)) /\
    (cur ∈ desired -> l = cur /\ code st' = code st).
Proof.
  unfold UseHostLocReg_inst. intros H.
  split_bind H as u1 s1 Hdec. apply DecrementRemainingUses_effect in Hdec.
  destruct Hdec as (T1 & C1 & _).
  split_bind H as cur s2 Hcur. apply deref_Ok in Hcur.
  destruct Hcur as [Hcur ->].
  rewrite (ValueLocation_same_table _ st s1 v T1) in Hcur.
  pose proof (ValueLocation_Some _ _ _ _ Hcur) as Hv.
  exists cur. split; [exact Hcur|].
  destruct (bool_decide_reflect (cur ∈ desired)) as [Hin|Hnin]; simpl.
  { split_bind H as u2 s2 Hlock. unfold ret in H. injection H as <- <-.
    apply LockLoc_effect in Hlock. subst s2. simpl. rewrite fn_update_eq, T1.
    split; [exact Hin|]. split; [reflexivity|]. split; [|split].
    - intros l' L. simpl. unfold fn_update.
      destruct (Nat.eqb_spec l' cur) as [->|]; [|reflexivity].
      apply Lock_locked, L.
    - intros _. exact Hv.
    - intros _. split; [reflexivity|exact C1]. }
  unfold ifM, IsLocked, LocInfo in H. rewrite T1 in H.
  unfold IsLocked, LocInfo.
  destruct (is_being_used (hostloc_info st cur)) eqn:Lcur; simpl.
  { apply UseScratchHostLocReg_inst_effect in H.
    destruct H as (cur' & _ & Hin & _ & E & F & _).
    split; [exact Hin|]. rewrite E. split; [reflexivity|].
    split; [|split; [discriminate|tauto]].
    eapply locked_untouched_trans; [|exact F].
    apply same_table_untouched, T1. }
  split_bind H as dst s2 Hsel.
  apply SelectARegister_Ok in Hsel; [|exact std_partition_ok].
  destruct Hsel as (-> & Hin & Hl & _). unfold IsLocked, LocInfo in Hl.
  rewrite T1 in Hl.
  split_bind H as u3 s3 Hmv. split_bind H as u4 s4 Hlock.
  unfold ret in H. injection H as <- <-.
  apply LockLoc_effect in Hlock. subst s4. simpl. rewrite fn_update_eq.
  split; [exact Hin|]. split; [reflexivity|].
  assert (hostloc_info s3 dst = hostloc_info st cur /\
          forall l', is_being_used (hostloc_info st l') = true ->
                     hostloc_info s3 l' = hostloc_info st l') as [Hdst Hfr].
  { destruct (IsSameHostLocClass SpillCount dst cur).
    - apply Exchange_effect in Hmv. destruct Hmv as (_ & _ & Hsw & _).
      split.
      + rewrite Hsw, T1. unfold swap_loc. rewrite Nat.eqb_refl. reflexivity.
      + intros l' L. rewrite Hsw, T1. unfold swap_loc.
        destruct (Nat.eqb_spec l' dst) as [->|]; [congruence|].
        destruct (Nat.eqb_spec l' cur) as [->|]; [congruence|reflexivity].
    - split_bind Hmv as u5 s5 Hout. apply MoveOutOfTheWay_summary in Hout.
      destruct Hout as (_ & E5 & F5 & _ & O5 & _).
      assert (dst <> cur) as Hne by (intros ->; contradiction).
      assert (hostloc_info s5 cur = hostloc_info st cur) as Hc5.
      { rewrite O5, T1; [reflexivity|congruence|].
        rewrite T1. destruct (IsEmpty (hostloc_info st cur)) eqn:Ec;
          [|reflexivity].
        apply IsEmpty_no_values in Ec. rewrite Ec in Hv. inversion Hv. }
      apply Move_effect in Hmv.
      destruct Hmv as (_ & _ & [[Ec ->]|(_ & i & _ & ->)]).
      + unfold LocInfo in Ec. rewrite Hc5 in Ec.
        apply IsEmpty_no_values in Ec. rewrite Ec in Hv. inversion Hv.
      + simpl. split.
        * rewrite fn_update_ne by exact Hne. rewrite fn_update_eq. exact Hc5.
        * intros l' L. unfold fn_update.
          destruct (Nat.eqb_spec l' cur) as [->|]; [congruence|].
          destruct (Nat.eqb_spec l' dst) as [->|]; [congruence|].
          rewrite F5; rewrite T1; [reflexivity|exact L]. }
  split; [|split; [|contradiction]].
  - intros l' L. simpl. unfold fn_update.
    destruct (Nat.eqb_spec l' dst) as [->|]; [congruence|]. apply Hfr, L.
  - intros _. rewrite Lock_values, Hdst. exact Hv.
Qed.


(** ** [UseHostLoc] *)

Lemma gets_Ok {A : Type} (f : State -> A) st a st' :
  gets f st = Ok a st' -> a = f st /\ st' = st.
Proof. unfold gets. intros H. injection H as <- <-. auto. Qed.

Lemma lock_and_count v loc s u1 s1 u2 s2 :
  LockLoc loc s = Ok u1 s1 ->
  DecrementRemainingUses v s1 = Ok u2 s2 ->
  decremented 1 v s s2 /\
  hostloc_info s2 loc = Lock (hostloc_info s loc) /\
  (forall l', l' <> loc -> hostloc_info s2 l' = hostloc_info s l') /\
  code s2 = code s.
Proof.
  intros HL HD. apply LockLoc_effect in HL. subst s1.
  apply DecrementRemainingUses_effect in HD. destruct HD as (T & C & D).
  split; [exact D|]. rewrite T, C. simpl. rewrite fn_update_eq.
  split; [reflexivity|]. split; [|reflexivity].
  intros l' Hne. apply fn_update_ne, Hne.
Qed.

Lemma UseHostLoc_effect v desired st l was st' :
  UseHostLoc SpillCount DEBUG std_partition v desired st = Ok (l, was) st' ->
  exists cur,
    ValueLocation SpillCount st v = Some cur /\
    decremented 1 v st st' /\
    v ∈ values (hostloc_info st' l) /\
    is_being_used (hostloc_info st' l) = true /\
    locked_untouched st st' /\
    ((l = cur /\
      (cur ∈ desired \/ HostLocIsSpill SpillCount cur = true) /\
      was = IsLocked (LocInfo st cur) /\
      code st' = code st /\ same_except [cur] st st') \/
     (l <> cur /\ l ∈ desired /\ was = false /\
      HostLocIsGPR l = true /\ HostLocIsGPR cur = true /\
      is_being_used (hostloc_info st l) = false /\
      is_being_used (hostloc_info st cur) = false /\
      code st' = code st ++ [xchg l cur] /\
      hostloc_info st' cur = hostloc_info st l /\
      same_except [l; cur] st st')).
Proof.
  unfold UseHostLoc. intros H.
  split_bind H as u0 s0 Hd. apply DEBUG_ASSERT_Ok in Hd. destruct Hd as [-> _].
  split_bind H as u1 s0 Hd. apply DEBUG_ASSERT_Ok in Hd. destruct Hd as [-> _].
  split_bind H as cur s0 Hcur. apply deref_Ok in Hcur.
  destruct Hcur as [Hcur ->].
  pose proof (ValueLocation_Some _ _ _ _ Hcur) as Hv.
  exists cur. split; [exact Hcur|].
  assert (forall u2 s2 u3 s3,
            LockLoc cur st = Ok u2 s2 ->
            DecrementRemainingUses v s2 = Ok u3 s3 ->
            decremented 1 v st s3 /\
            v ∈ values (hostloc_info s3 cur) /\
            is_being_used (hostloc_info s3 cur) = true /\
            locked_untouched st s3 /\
            code s3 = code st /\ same_except [cur] st s3) as Stay.
  { intros u2 s2 u3 s3 HL HD.
    destruct (lock_and_count _ _ _ _ _ _ _ HL HD) as (D & E & O & C).
    split; [exact D|]. rewrite E. split; [exact Hv|].
    split; [reflexivity|]. split; [|split; [exact C|]].
    - intros l' L. destruct (Nat.eq_dec l' cur) as [->|Hne].
      + rewrite E. apply Lock_locked, L.
      + apply O, Hne.
    - intros l' Hl'. apply O. intros ->. apply Hl', list_elem_of_here. }
  destruct (bool_decide_reflect (cur ∈ desired)) as [Hin|Hnin].
  { split_bind H as w s1 Hg. apply gets_Ok in Hg. destruct Hg as [-> ->].
    split_bind H as u2 s1 Ha. apply ASSERT_Ok in Ha. destruct Ha as [_ ->].
    split_bind H as u3 s2 Hlock. split_bind H as u4 s3 Hdec.
    split_bind H as u5 s4 Hd. apply DEBUG_ASSERT_Ok in Hd.
    destruct Hd as [-> _]. unfold ret in H. injection H as <- <- <-.
    destruct (Stay _ _ _ _ Hlock Hdec) as (D & V & L & F & C & S).
    repeat (split; [assumption|]). left. auto 6. }
  destruct (HostLocIsSpill SpillCount cur) eqn:Hsp.
  { split_bind H as w s1 Hg. apply gets_Ok in Hg. destruct Hg as [-> ->].
    split_bind H as u3 s2 Hlock. split_bind H as u4 s3 Hdec.
    split_bind H as u5 s4 Hd. apply DEBUG_ASSERT_Ok in Hd.
    destruct Hd as [-> _]. unfold ret in H. injection H as <- <- <-.
    destruct (Stay _ _ _ _ Hlock Hdec) as (D & V & L & F & C & S).
    repeat (split; [assumption|]). left. auto 6. }
  destruct (HostLocIsRegister cur); [|discriminate].
  split_bind H as new s1 Hsel.
  apply SelectARegister_Ok in Hsel; [|exact std_partition_ok].
  destruct Hsel as (-> & Hin & Hl & _). unfold IsLocked, LocInfo in Hl.
  split_bind H as u2 s1 Ha. apply ASSERT_Ok in Ha. destruct Ha as [Hidle ->].
  unfold IsIdle, LocInfo in Hidle. apply negb_true_iff in Hidle.
  split_bind H as u3 s2 Hx. apply EmitExchange_effect in Hx.
  destruct Hx as (Gn & Gc & ->).
  split_bind H as u4 s3 Hswap. split_bind Hswap as u5 s4 H4.
  unfold set_LocInfo, LocInfo in H4, Hswap. simpl in H4, Hswap.
  injection H4 as _ <-. injection Hswap as _ <-. simpl in H.
  split_bind H as u6 s5 Hlock. split_bind H as u7 s6 Hdec.
  split_bind H as u8 s7 Hd. apply DEBUG_ASSERT_Ok in Hd.
  destruct Hd as [-> _]. unfold ret in H. injection H as <- <- <-.
  destruct (lock_and_count _ _ _ _ _ _ _ Hlock Hdec) as (D & E & O & C).
  simpl in E, O, C.
  assert (new <> cur) as Hne by (intros ->; contradiction).
  split; [exact D|]. rewrite E.
  rewrite fn_update_ne by exact Hne. rewrite fn_update_eq.
  split; [exact Hv|]. split; [reflexivity|]. split.
  - intros l' L. destruct (Nat.eq_dec l' new) as [->|Hn]; [congruence|].
    destruct (Nat.eq_dec l' cur) as [->|Hc]; [congruence|].
    rewrite O by exact Hn. rewrite !fn_update_ne by assumption. reflexivity.
  - right. split; [exact Hne|]. split; [exact Hin|]. split; [reflexivity|].
    split; [exact Gn|]. split; [exact Gc|]. split; [exact Hl|].
    split; [exact Hidle|]. split; [exact C|]. split.
    + rewrite O by congruence. apply fn_update_eq.
    + intros l' Hl'. rewrite O.
      * rewrite !fn_update_ne; [reflexivity| |];
          intros ->; apply Hl'; [apply list_elem_of_here|].
        apply list_elem_of_further, list_elem_of_here.
      * intros ->. apply Hl', list_elem_of_here.
Qed.


(** ** Looking a value up *)

Lemma ValueLocation_first st v l :
  ValueLocation SpillCount st v = Some l <->
  l < HostLocCount SpillCount /\ v ∈ values (hostloc_info st l) /\
  forall l', l' < l -> v ∉ values (hostloc_info st l').
Proof.
  unfold ValueLocation, ContainsValue. split.
  - intros H. apply find_seq_first in H. destruct H as (Hr & Hp & Hlow).
    apply bool_decide_eq_true in Hp. split; [lia|]. split; [exact Hp|].
    intros l' Hl'. apply (proj1 (bool_decide_eq_false _)).
    apply Hlow. lia.
  - intros (Hr & Hp & Hlow).
    destruct (find _ (seq 0 (HostLocCount SpillCount))) as [l'|] eqn:F.
    + apply find_seq_first in F. destruct F as (Hr' & Hp' & Hlow').
      apply bool_decide_eq_true in Hp'.
      destruct (Nat.lt_trichotomy l' l) as [Hlt|[->|Hgt]];
        [|reflexivity|].
      * exfalso. exact (Hlow l' Hlt Hp').
      * exfalso. refine (proj1 (bool_decide_eq_false _) (Hlow' l _) Hp).
        lia.
    + rewrite find_seq_none in F.
      exfalso. refine (proj1 (bool_decide_eq_false _) (F l _) Hp). lia.
Qed.

Lemma ValueLocation_none st v :
  ValueLocation SpillCount st v = None <->
  forall l, l < HostLocCount SpillCount -> v ∉ values (hostloc_info st l).
Proof.
  unfold ValueLocation, ContainsValue. rewrite find_seq_none. split.
  - intros H l Hl. apply (proj1 (bool_decide_eq_false _)), H. lia.
  - intros H l Hl. apply (proj2 (bool_decide_eq_false _)), H. lia.
Qed.

Lemma DefineValue_effect def loc st u st' :
  DefineValue SpillCount DEBUG def loc st = Ok u st' ->
  (DEBUG = true -> ValueLocation SpillCount st def = None) /\
  st' = mkState (fn_update (hostloc_info st) loc
                           (AddValue (hostloc_info st loc) def))
                (remaining_uses st) (code st).
Proof.
  unfold DefineValue. intros H. split_bind H as u1 s1 Hd.
  apply DEBUG_ASSERT_Ok in Hd. destruct Hd as [-> Hd].
  unfold set_LocInfo, LocInfo in H. injection H as _ <-.
  split; [|reflexivity]. intros D. specialize (Hd D).
  apply negb_true_iff, bool_decide_eq_false in Hd.
  destruct (ValueLocation SpillCount st def); [|reflexivity].
  exfalso. apply Hd. eauto.
Qed.

Lemma located_after_definition st def loc :
  ValueLocation SpillCount st def = None ->
  loc < HostLocCount SpillCount ->
  let st' := mkState (fn_update (hostloc_info st) loc
                                (AddValue (hostloc_info st loc) def))
                     (remaining_uses st) (code st) in
  ValueLocation SpillCount st' def = Some loc /\
  forall w, w <> def ->
            ValueLocation SpillCount st' w = ValueLocation SpillCount st w.
Proof.
  intros Hnone Hloc st'. rewrite ValueLocation_none in Hnone. split.
  - apply ValueLocation_first. split; [exact Hloc|]. subst st'. simpl. split.
    + rewrite fn_update_eq. simpl. apply elem_of_app. right.
      apply list_elem_of_here.
    + intros l' Hl'. rewrite fn_update_ne by lia. apply Hnone. lia.
  - intros w Hw. unfold ValueLocation.
    apply find_pointwise. intros l. subst st'. simpl. unfold fn_update.
    destruct (Nat.eqb_spec l loc) as [->|]; [|reflexivity].
    unfold ContainsValue. simpl. apply bool_decide_ext.
    rewrite elem_of_app, list_elem_of_singleton. tauto.
Qed.


(** ** Immediates *)

Lemma ImmediateToU64_stateless imm st z st' :
  ImmediateToU64 imm st = Ok z st' ->
  st' = st /\ exists t x, imm = VImm t x /\ t <> U16 /\
                          z = (x mod 2 ^ bit_width t)%Z.
Proof.
  destruct imm as [|t x|]; try discriminate.
  destruct t; simpl; try discriminate; unfold ret; intros H;
    injection H as <- <-; (split; [reflexivity|]);
    eexists _, x; (split; [reflexivity|]); (split; [discriminate|]);
    reflexivity.
Qed.

Lemma LoadImmediateIntoHostLocReg_effect imm host_loc st l st' :
  LoadImmediateIntoHostLocReg imm host_loc st = Ok l st' ->
  l = host_loc /\
  exists t x i,
    imm = VImm t x /\ t <> U16 /\
    loads_constant host_loc (x mod 2 ^ bit_width t)%Z i /\
    st' = mkState (hostloc_info st) (remaining_uses st) (code st ++ [i]).
Proof.
  unfold LoadImmediateIntoHostLocReg. intros H.
  split_bind H as u0 s0 Ha. apply ASSERT_Ok in Ha. destruct Ha as [_ ->].
  split_bind H as z s0 Hz. apply ImmediateToU64_stateless in Hz.
  destruct Hz as (-> & t & x & -> & Ht & ->).
  split_bind H as u1 s1 He. unfold ret in H. injection H as <- <-.
  split; [reflexivity|]. exists t, x.
  destruct (Z.eqb_spec (x mod 2 ^ bit_width t) 0) as [E|E];
    unfold emit in He; injection He as _ <-; eexists;
    (split; [reflexivity|]); (split; [exact Ht|]);
    (split; [|reflexivity]); [left|right]; auto.
Qed.

Lemma LoadImmediateIntoHostLocReg_U16 x host_loc st :
  LoadImmediateIntoHostLocReg (VImm U16 x) host_loc st
  = Fail E_ImmediateType st.
Proof. reflexivity. Qed.

End Primitives.

Section Definers.

Variable SpillCount : nat.
Variable DEBUG : bool.
Variable any_gpr : HostLocList.
Variable std_partition : (HostLoc -> bool) -> HostLocList
                         -> HostLocList * HostLocList.
Hypothesis std_partition_ok : partition_contract std_partition.

(** ** [RegisterAddDef] *)

Lemma RegisterAddDef_alias def use st u st' :
  RegisterAddDef SpillCount DEBUG any_gpr std_partition def (VInst use) st
  = Ok u st' ->
  exists loc,
    ValueLocation SpillCount st use = Some loc /\
    decremented 1 use st st' /\
    code st' = code st /\
    hostloc_info st' loc = AddValue (hostloc_info st loc) def /\
    same_except [loc] st st'.
Proof.
  unfold RegisterAddDef. simpl. intros H.
  split_bind H as u0 s0 Hd. apply DEBUG_ASSERT_Ok in Hd. destruct Hd as [-> _].
  split_bind H as use' s0 Hg. unfold ret in Hg. injection Hg as <- <-.
  split_bind H as u1 s1 Hdec. apply DecrementRemainingUses_effect in Hdec.
  destruct Hdec as (T & C & D).
  split_bind H as u2 s2 Hd. apply DEBUG_ASSERT_Ok in Hd. destruct Hd as [-> _].
  split_bind H as loc s2 Hloc. apply deref_Ok in Hloc.
  destruct Hloc as [Hloc ->].
  rewrite (ValueLocation_same_table _ st s1 use T) in Hloc.
  apply DefineValue_effect in H. destruct H as [_ ->].
  exists loc. split; [exact Hloc|]. split.
  { eapply decremented_same_uses; [exact D|reflexivity]. }
  simpl. rewrite fn_update_eq, T. split; [exact C|]. split; [reflexivity|].
  intros l Hl. simpl. apply fn_update_ne. intros ->.
  apply Hl, list_elem_of_here.
Qed.

Lemma RegisterAddDef_immediate def imm st u st' :
  IsImmediate imm = true ->
  RegisterAddDef SpillCount DEBUG any_gpr std_partition def imm st
  = Ok u st' ->
  exists l t x pre i,
    imm = VImm t x /\ t <> U16 /\
    l ∈ any_gpr /\ is_being_used (hostloc_info st l) = false /\
    hostloc_info st' l = mkInfo [def] true /\
    locked_untouched st st' /\
    remaining_uses st' = remaining_uses st /\
    (forall l', l' <> l -> IsEmpty (hostloc_info st l') = false ->
                hostloc_info st' l' = hostloc_info st l') /\
    code st' = code st ++ pre ++ [i] /\
    loads_constant l (x mod 2 ^ bit_width t)%Z i.
Proof.
  unfold RegisterAddDef. intros Himm H. rewrite Himm in H.
  split_bind H as u0 s0 Hd. apply DEBUG_ASSERT_Ok in Hd. destruct Hd as [-> _].
  split_bind H as l s1 Hs. apply ScratchHostLocReg_summary in Hs;
    [|exact std_partition_ok].
  destruct Hs as (Hin & Hl & E & F & U & O & pre & C).
  split_bind H as u1 s2 Hdef. apply DefineValue_effect in Hdef.
  destruct Hdef as [_ ->].
  split_bind H as l' s3 Hload. unfold ret in H. injection H as _ <-.
  apply LoadImmediateIntoHostLocReg_effect in Hload.
  destruct Hload as (-> & t & x & i & -> & Ht & Hi & ->). simpl.
  exists l, t, x, pre, i. split; [reflexivity|]. split; [exact Ht|].
  split; [exact Hin|]. split; [exact Hl|].
  rewrite fn_update_eq, E. split; [reflexivity|]. split; [|split; [exact U|]].
  - intros l' L. simpl. rewrite fn_update_ne; [apply F, L|].
    intros ->. congruence.
  - split.
    + intros l' Hne Hocc. rewrite fn_update_ne by exact Hne.
      apply O; assumption.
    + rewrite C, <- app_assoc. auto.
Qed.

(** ** [UseDefOpArgHostLocReg] *)

Lemma HostLocToX64_effect hostloc st o st' :
  HostLocToX64 DEBUG hostloc st = Ok o st' ->
  st' = st /\ o = OpArg_Reg hostloc /\ HostLocIsRegister hostloc = true.
Proof.
  unfold HostLocToX64, HostLocIsRegister. destruct (HostLocIsGPR hostloc).
  - intros H. split_bind H as u s1 Hd. apply DEBUG_ASSERT_Ok in Hd.
    destruct Hd as [-> _]. unfold ret in H. injection H as <- <-. auto.
  - destruct (HostLocIsXMM hostloc); [|discriminate].
    unfold ret. intros H. injection H as <- <-. auto.
Qed.

Lemma UseOpArg_effect use_value desired st o st' :
  UseOpArg SpillCount DEBUG std_partition use_value desired st = Ok o st' ->
  exists v l,
    use_value = VInst v /\ o = OpArg_Reg l /\
    HostLocIsRegister l = true /\
    UseHostLocReg_inst SpillCount DEBUG std_partition v desired st
    = Ok l st'.
Proof.
  unfold UseOpArg. destruct (IsImmediate use_value); [discriminate|].
  intros H. split_bind H as v s1 Hget. apply GetInst_Ok in Hget.
  destruct Hget as [-> ->].
  split_bind H as l s2 Huse. apply HostLocToX64_effect in H.
  destruct H as (-> & -> & Hreg). exists v, l. auto.
Qed.

Lemma UseDefOpArgHostLocReg_effect use_value def desired st o d st' :
  UseDefOpArgHostLocReg SpillCount DEBUG any_gpr std_partition
    use_value def desired st = Ok (o, d) st' ->
  exists v u,
    use_value = VInst v /\ o = OpArg_Reg u /\
    HostLocIsRegister u = true /\ u ∈ any_gpr /\ d ∈ desired /\ u <> d /\
    is_being_used (hostloc_info st' u) = true /\
    hostloc_info st' d = mkInfo [def] true /\
    locked_untouched st st'.
Proof.
  unfold UseDefOpArgHostLocReg. intros H.
  split_bind H as u0 s0 Hd. apply DEBUG_ASSERT_Ok in Hd. destruct Hd as [-> _].
  split_bind H as u1 s0 Hd. apply DEBUG_ASSERT_Ok in Hd. destruct Hd as [-> _].
  split_bind H as u2 s0 Hd. apply DEBUG_ASSERT_Ok in Hd. destruct Hd as [-> _].
  assert ((use_oparg <- UseOpArg SpillCount DEBUG std_partition use_value
                          any_gpr;;
           def_reg <- ScratchHostLocReg SpillCount DEBUG std_partition
                        desired;;
           DefineValue SpillCount DEBUG def def_reg;;
           ret (use_oparg, def_reg)) st = Ok (o, d) st') as Slow.
  { destruct (negb (IsImmediate use_value)); [|exact H].
    split_bind H as v s1 Hget. apply GetInst_Ok in Hget.
    destruct Hget as [_ ->]. exact H. }
  clear H. split_bind Slow as o' s1 Huse.
  apply UseOpArg_effect in Huse.
  destruct Huse as (v & u & -> & -> & Hreg & Huse).
  apply UseHostLocReg_inst_effect in Huse; [|exact std_partition_ok].
  destruct Huse as (cur & _ & Hin & Lu & F1 & _).
  split_bind Slow as d' s2 Hs.
  apply ScratchHostLocReg_summary in Hs; [|exact std_partition_ok].
  destruct Hs as (Hd & Ld & E & F2 & _).
  split_bind Slow as u3 s3 Hdef. apply DefineValue_effect in Hdef.
  destruct Hdef as [_ ->]. unfold ret in Slow. injection Slow as <- <- <-.
  assert (u <> d') as Hne by (intros ->; congruence).
  exists v, u. split; [reflexivity|]. split; [reflexivity|].
  split; [exact Hreg|]. split; [exact Hin|]. split; [exact Hd|].
  split; [exact Hne|]. simpl.
  rewrite fn_update_ne by exact Hne. rewrite fn_update_eq, E.
  rewrite (F2 u Lu). split; [exact Lu|]. split; [reflexivity|].
  intros l' L. simpl.
  rewrite fn_update_ne.
  - rewrite F2; [apply F1, L|]. rewrite F1; assumption.
  - intros ->. rewrite <- (F1 d' L) in L. congruence.
Qed.

End Definers.

(* ------------------------------------------------------------------ *)
(** ** The contracts *)
(* ------------------------------------------------------------------ *)

Section Contracts.

Variable SpillCount : nat.
Variable DEBUG : bool.
Variable std_partition : (HostLoc -> bool) -> HostLocList
                         -> HostLocList * HostLocList.
Hypothesis std_partition_ok : partition_contract std_partition.

(** X1.  [FindFreeSpill] returns the lowest-numbered spill slot that is
    empty and leaves the state alone; it fails, with "All spill locations
    are full", exactly when none of the [SpillCount] slots is empty. *)
Theorem find_free_spill_spec (st : State) :
  (forall l st', FindFreeSpill SpillCount st = Ok l st' ->
     st' = st /\
     exists i, l = HostLocSpill i /\ i < SpillCount /\
               IsEmpty (LocInfo st l) = true /\
               forall j, j < i ->
                         IsEmpty (LocInfo st (HostLocSpill j)) = false) /\
  ((forall i, i < SpillCount ->
              IsEmpty (LocInfo st (HostLocSpill i)) = false) <->
   FindFreeSpill SpillCount st = Fail E_SpillsFull st) /\
  (forall e st', FindFreeSpill SpillCount st = Fail e st' ->
                 e = E_SpillsFull /\ st' = st).
Proof.
  split; [|split].
  - intros l st' H. apply FindFreeSpill_first, H.
  - apply FindFreeSpill_full.
  - unfold FindFreeSpill. intros e st'.
    destruct (find _ (seq 0 SpillCount)); [discriminate|].
    intros H. injection H as <- <-. auto.
Qed.

(** X2.  A completed [SpillRegister(loc)] has moved the entry of the
    register [loc], which was occupied and not locked, to the first free
    spill slot, emptied [loc], emitted exactly one move from [loc] to the
    slot, and changed no other entry and no use count. *)
Theorem spill_register_effect (loc : HostLoc) (st st' : State) (u : unit) :
  SpillRegister SpillCount loc st = Ok u st' ->
  HostLocIsRegister loc = true /\
  IsEmpty (LocInfo st loc) = false /\
  IsLocked (LocInfo st loc) = false /\
  exists slot i,
    FindFreeSpill SpillCount st = Ok slot st /\
    HostLocIsSpill SpillCount slot = true /\
    LocInfo st' slot = LocInfo st loc /\
    LocInfo st' loc = empty_info /\
    same_except [loc; slot] st st' /\
    same_uses st st' /\
    is_move slot loc i /\ appended st st' [i].
Proof.
  intros H. apply SpillRegister_effect in H.
  destruct H as (Hreg & Hocc & Hl & slot & i & Hf & Hi & ->).
  split; [exact Hreg|]. split; [exact Hocc|]. split; [exact Hl|].
  exists slot, i. split; [exact Hf|].
  pose proof (FindFreeSpill_is_spill _ _ _ _ Hf) as Hs.
  split; [exact Hs|].
  apply spill_above_registers in Hs. apply register_below_spills in Hreg.
  unfold LocInfo, same_except, same_uses, appended. simpl.
  rewrite fn_update_eq. rewrite fn_update_ne by lia. rewrite fn_update_eq.
  split; [reflexivity|]. split; [reflexivity|]. split; [|auto].
  intros l Hl'. rewrite !fn_update_ne; [reflexivity| |];
    intros ->; apply Hl'; [|apply list_elem_of_here].
  apply list_elem_of_further, list_elem_of_here.
Qed.

(** X3.  A completed [Exchange(a, b)] has swapped the entries of [a] and
    [b], neither of which was locked, and changed nothing else.  It emits
    [xchg] only when both were occupied (and then both are general-purpose
    registers), one move into the empty one when one was empty, and nothing
    when both were. *)
Theorem exchange_swaps (a b : HostLoc) (st st' : State) (u : unit) :
  Exchange SpillCount a b st = Ok u st' ->
  IsLocked (LocInfo st a) = false /\ IsLocked (LocInfo st b) = false /\
  (forall l, hostloc_info st' l = hostloc_info st (swap_loc a b l)) /\
  same_uses st st' /\
  exists new, appended st st' new /\
    match IsEmpty (LocInfo st a), IsEmpty (LocInfo st b) with
    | true, true => new = []
    | true, false => exists i, is_move a b i /\ new = [i]
    | false, true => exists i, is_move b a i /\ new = [i]
    | false, false =>
        new = [xchg a b] /\ HostLocIsGPR a = true /\ HostLocIsGPR b = true
    end.
Proof.
  intros H. apply Exchange_effect in H.
  destruct H as (La & Lb & Hsw & U & new & C & Hnew).
  split; [exact La|]. split; [exact Lb|]. split; [exact Hsw|].
  split; [intros i; rewrite U; reflexivity|]. exists new. auto.
Qed.

(** X4.  A completed [ScratchHostLocReg] returns one of the desired
    locations, which was not locked and is now locked and holds no value.
    If it was empty, no code is emitted and no other entry changes;
    otherwise its entry is now in a spill slot that was empty, exactly one
    move from the register to that slot is emitted, and no other entry
    changes.  No use count changes. *)
Theorem scratch_reg_contract (desired : HostLocList) (st st' : State)
    (l : HostLoc) :
  ScratchHostLocReg SpillCount DEBUG std_partition desired st = Ok l st' ->
  l ∈ desired /\
  IsLocked (LocInfo st l) = false /\
  LocInfo st' l = mkInfo [] true /\
  same_uses st st' /\
  ((IsEmpty (LocInfo st l) = true /\ appended st st' [] /\
    same_except [l] st st') \/
   (IsEmpty (LocInfo st l) = false /\
    exists slot i,
      HostLocIsSpill SpillCount slot = true /\
      IsEmpty (LocInfo st slot) = true /\
      LocInfo st' slot = LocInfo st l /\
      is_move slot l i /\ appended st st' [i] /\
      same_except [l; slot] st st')).
Proof.
  intros H. apply ScratchHostLocReg_steps in H; [|exact std_partition_ok].
  destruct H as (Hin & Hl & u & s1 & Hroom & ->).
  split; [exact Hin|]. split; [exact Hl|].
  apply make_room_effect in Hroom.
  destruct Hroom as [[E ->]|(E & _ & Hreg & slot & i & Hf & Hi & ->)].
  - pose proof E as E'. apply IsEmpty_empty_info in E'.
    unfold LocInfo, same_uses, appended, same_except in *. simpl.
    rewrite fn_update_eq, E'. split; [reflexivity|].
    split; [reflexivity|]. left. split; [reflexivity|].
    split; [symmetry; apply app_nil_r|].
    intros l' Hl'. apply fn_update_ne. intros ->.
    apply Hl', list_elem_of_here.
  - pose proof (FindFreeSpill_is_spill _ _ _ _ Hf) as Hs.
    pose proof (spill_above_registers _ _ Hs) as Hge.
    apply register_below_spills in Hreg.
    apply FindFreeSpill_first in Hf.
    destruct Hf as (_ & k & _ & _ & Hempty & _).
    unfold LocInfo, same_uses, appended, same_except in *. simpl.
    rewrite !fn_update_eq. split; [reflexivity|]. split; [reflexivity|].
    right. split; [exact E|]. exists slot, i. split; [exact Hs|].
    split; [exact Hempty|].
    rewrite !(fn_update_ne _ l) by lia. rewrite fn_update_eq.
    split; [reflexivity|]. split; [exact Hi|]. split; [reflexivity|].
    intros l' Hl'. rewrite !fn_update_ne; [reflexivity| | |];
      intros ->; apply Hl'; try apply list_elem_of_here;
      apply list_elem_of_further, list_elem_of_here.
Qed.


(** X5.  A completed [UseScratchHostLocReg] of an instruction value returns
    one of the desired locations, which was not locked and is now locked and
    holds no value; the use count of the value has dropped by exactly one and
    no other count has changed; the value still has a home.  When the
    returned register is not the value's location, that location is
    untouched and the last instruction emitted copies it into the
    register. *)
Theorem use_scratch_reg_contract (v : InstId) (desired : HostLocList)
    (st st' : State) (l : HostLoc) :
  UseScratchHostLocReg SpillCount DEBUG std_partition (VInst v) desired st
  = Ok l st' ->
  exists cur,
    ValueLocation SpillCount st v = Some cur /\
    l ∈ desired /\
    IsLocked (LocInfo st l) = false /\
    LocInfo st' l = mkInfo [] true /\
    decremented 1 v st st' /\
    located st' v /\
    (cur <> l ->
     LocInfo st' cur = LocInfo st cur /\
     exists pre i, appended st st' (pre ++ [i]) /\ is_move l cur i).
Proof.
  unfold UseScratchHostLocReg. simpl. intros H.
  split_bind H as v' s0 Hg. unfold ret in Hg. injection Hg as <- <-.
  pose proof H as H'.
  apply UseScratchHostLocReg_inst_Ok in H'; [|exact std_partition_ok].
  destruct H' as ((R & _ & D) & _).
  apply UseScratchHostLocReg_inst_effect in H; [|exact std_partition_ok].
  destruct H as (cur & Hcur & Hin & Hl & E & _ & O & new & C & M).
  pose proof (ValueLocation_Some _ _ _ _ Hcur) as Hv.
  exists cur. split; [exact Hcur|]. split; [exact Hin|]. split; [exact Hl|].
  split; [exact E|]. split; [exact D|]. split.
  { apply (relocated_located st st' v R). exists cur. exact Hv. }
  intros Hne. split.
  - apply O; [exact Hne|].
    destruct (IsEmpty (hostloc_info st cur)) eqn:Ec; [|reflexivity].
    apply IsEmpty_no_values in Ec. rewrite Ec in Hv. inversion Hv.
  - destruct (M Hne) as (pre & i & -> & Hi). exists pre, i. auto.
Qed.

(** X6.  A completed [UseHostLocReg] of an instruction value returns one of
    the desired locations, locked.  If the value's location is desired, that
    location is returned and no code is emitted.  If it is desired or not
    locked, the returned location holds the value and the use count of the
    value has dropped by exactly one, no other count having changed. *)
Theorem use_reg_contract (v : InstId) (desired : HostLocList)
    (st st' : State) (l : HostLoc) :
  UseHostLocReg SpillCount DEBUG std_partition (VInst v) desired st
  = Ok l st' ->
  exists cur,
    ValueLocation SpillCount st v = Some cur /\
    l ∈ desired /\
    IsLocked (LocInfo st' l) = true /\
    (cur ∈ desired -> l = cur /\ appended st st' []) /\
    (cur ∈ desired \/ IsLocked (LocInfo st cur) = false ->
     resident st' l v /\ decremented 1 v st st').
Proof.
  unfold UseHostLocReg. simpl. intros H.
  split_bind H as v' s0 Hg. unfold ret in Hg. injection Hg as <- <-.
  pose proof H as H'.
  apply UseHostLocReg_inst_Ok in H'; [|exact std_partition_ok].
  destruct H' as (cur' & Hcur' & Hused).
  apply UseHostLocReg_inst_effect in H; [|exact std_partition_ok].
  destruct H as (cur & Hcur & Hin & L & _ & Hv & Hstay).
  assert (cur' = cur) as -> by congruence.
  exists cur. split; [exact Hcur|]. split; [exact Hin|]. split; [exact L|].
  split.
  - intros Hc. destruct (Hstay Hc) as [-> C]. split; [reflexivity|].
    unfold appended. rewrite C, app_nil_r. reflexivity.
  - intros Hc.
    assert (bool_decide (cur ∈ desired) || negb (IsLocked (LocInfo st cur))
            = true) as Hb.
    { destruct Hc as [Hc|Hc].
      - rewrite (bool_decide_eq_true_2 _ Hc). reflexivity.
      - rewrite Hc. apply orb_true_r. }
    rewrite Hb in Hused. destruct Hused as (_ & _ & D).
    split; [exact (Hv Hb)|exact D].
Qed.

(** X7.  A completed [UseHostLoc] lowers the use count of the value by
    exactly one and returns a locked location that holds the value.  Either
    this is the value's own location, which is desired or a spill slot, no
    code is emitted, and the flag returned tells whether it was locked
    already; or the value sat in an idle general-purpose register outside
    the desired ones, the returned register is a desired general-purpose
    register that was not locked, the two entries have been swapped, one
    [xchg] is emitted and the flag is false.  No entry that was locked
    changes. *)
Theorem use_host_loc_contract (v : InstId) (desired : HostLocList)
    (st st' : State) (l : HostLoc) (was_being_used : bool) :
  UseHostLoc SpillCount DEBUG std_partition v desired st
  = Ok (l, was_being_used) st' ->
  exists cur,
    ValueLocation SpillCount st v = Some cur /\
    decremented 1 v st st' /\
    resident st' l v /\
    IsLocked (LocInfo st' l) = true /\
    locked_untouched st st' /\
    ((l = cur /\
      (cur ∈ desired \/ HostLocIsSpill SpillCount cur = true) /\
      was_being_used = IsLocked (LocInfo st cur) /\
      appended st st' [] /\ same_except [cur] st st') \/
     (l <> cur /\ l ∈ desired /\ was_being_used = false /\
      HostLocIsGPR l = true /\ HostLocIsGPR cur = true /\
      IsLocked (LocInfo st l) = false /\
      IsLocked (LocInfo st cur) = false /\
      appended st st' [xchg l cur] /\
      LocInfo st' cur = LocInfo st l /\
      same_except [l; cur] st st')).
Proof.
  intros H. apply UseHostLoc_effect in H; [|exact std_partition_ok].
  destruct H as (cur & Hcur & D & V & L & F & Hcase).
  exists cur. split; [exact Hcur|]. split; [exact D|]. split; [exact V|].
  split; [exact L|]. split; [exact F|].
  destruct Hcase as [(-> & Hwhere & -> & C & S)|Hx].
  - left. split; [reflexivity|]. split; [exact Hwhere|].
    split; [reflexivity|]. split; [|exact S].
    unfold appended. rewrite C, app_nil_r. reflexivity.
  - right. exact Hx.
Qed.


Lemma load_after_scratch_untouched imm desired st l st' :
  (location <- ScratchHostLocReg SpillCount DEBUG std_partition desired;;
   LoadImmediateIntoHostLocReg imm location) st = Ok l st' ->
  locked_untouched st st'.
Proof.
  intros H. split_bind H as loc s1 Hs.
  apply ScratchHostLocReg_summary in Hs; [|exact std_partition_ok].
  destruct Hs as (_ & _ & _ & F & _).
  apply LoadImmediateIntoHostLocReg_effect in H.
  destruct H as (_ & t & x & i & _ & _ & _ & ->).
  intros l' L. simpl. apply F, L.
Qed.

Lemma SpillRegister_untouched loc st u st' :
  SpillRegister SpillCount loc st = Ok u st' -> locked_untouched st st'.
Proof.
  intros H. apply SpillRegister_effect in H.
  destruct H as (_ & _ & Hl & slot & i & Hf & _ & ->).
  apply FindFreeSpill_first in Hf. destruct Hf as (_ & k & _ & _ & E & _).
  apply IsEmpty_not_locked in E. unfold IsLocked, LocInfo in *.
  intros l' L. simpl. unfold fn_update.
  destruct (Nat.eqb_spec l' loc) as [->|]; [congruence|].
  destruct (Nat.eqb_spec l' slot) as [->|]; [congruence|reflexivity].
Qed.

Lemma Move_untouched to from st u st' :
  Move SpillCount to from st = Ok u st' -> locked_untouched st st'.
Proof.
  intros H. apply Move_effect in H.
  destruct H as (Eto & Lfrom & [[_ ->]|(_ & i & _ & ->)]).
  - apply locked_untouched_refl.
  - apply IsEmpty_not_locked in Eto. unfold IsLocked, LocInfo in *.
    intros l' L. simpl. unfold fn_update.
    destruct (Nat.eqb_spec l' from) as [->|]; [congruence|].
    destruct (Nat.eqb_spec l' to) as [->|]; [congruence|reflexivity].
Qed.

Lemma Exchange_untouched a b st u st' :
  Exchange SpillCount a b st = Ok u st' -> locked_untouched st st'.
Proof.
  intros H. apply Exchange_effect in H. destruct H as (La & Lb & Hsw & _).
  unfold IsLocked, LocInfo in *. intros l' L. rewrite Hsw. unfold swap_loc.
  destruct (Nat.eqb_spec l' a) as [->|]; [congruence|].
  destruct (Nat.eqb_spec l' b) as [->|]; [congruence|reflexivity].
Qed.

(** X8.  No completed use or scratch operation, and no completed movement
    primitive, changes the entry of a location that was locked when it
    started: the registers bound to the operands of the in-flight
    instruction keep their contents. *)
Theorem locked_registers_untouched (any_gpr : HostLocList)
    (st st' : State) :
  (forall v d l,
     UseHostLocReg SpillCount DEBUG std_partition v d st = Ok l st' ->
     locked_untouched st st') /\
  (forall v d l,
     UseScratchHostLocReg SpillCount DEBUG std_partition v d st = Ok l st' ->
     locked_untouched st st') /\
  (forall d l,
     ScratchHostLocReg SpillCount DEBUG std_partition d st = Ok l st' ->
     locked_untouched st st') /\
  (forall v d o,
     UseOpArg SpillCount DEBUG std_partition v d st = Ok o st' ->
     locked_untouched st st') /\
  (forall v d r,
     UseHostLoc SpillCount DEBUG std_partition v d st = Ok r st' ->
     locked_untouched st st') /\
  (forall use def d r,
     UseDefOpArgHostLocReg SpillCount DEBUG any_gpr std_partition use def d st
     = Ok r st' ->
     locked_untouched st st') /\
  (forall loc u, SpillRegister SpillCount loc st = Ok u st' ->
                 locked_untouched st st') /\
  (forall to from u, Move SpillCount to from st = Ok u st' ->
                     locked_untouched st st') /\
  (forall a b u, Exchange SpillCount a b st = Ok u st' ->
                 locked_untouched st st') /\
  (forall reg u, MoveOutOfTheWay SpillCount reg st = Ok u st' ->
                 locked_untouched st st').
Proof.
  repeat split.
  - intros v d l. unfold UseHostLocReg.
    destruct (negb (IsImmediate v)).
    + intros H. split_bind H as i s1 Hg. apply GetInst_Ok in Hg.
      destruct Hg as [_ ->].
      apply UseHostLocReg_inst_effect in H; [|exact std_partition_ok].
      destruct H as (cur & _ & _ & _ & F & _). exact F.
    + apply load_after_scratch_untouched.
  - intros v d l. unfold UseScratchHostLocReg.
    destruct (negb (IsImmediate v)).
    + intros H. split_bind H as i s1 Hg. apply GetInst_Ok in Hg.
      destruct Hg as [_ ->].
      apply UseScratchHostLocReg_inst_effect in H; [|exact std_partition_ok].
      destruct H as (cur & _ & _ & _ & _ & F & _). exact F.
    + apply load_after_scratch_untouched.
  - intros d l H.
    apply ScratchHostLocReg_summary in H; [|exact std_partition_ok].
    destruct H as (_ & _ & _ & F & _). exact F.
  - intros v d o H. apply UseOpArg_effect in H.
    destruct H as (i & l & _ & _ & _ & H).
    apply UseHostLocReg_inst_effect in H; [|exact std_partition_ok].
    destruct H as (cur & _ & _ & _ & F & _). exact F.
  - intros v d [l w] H.
    apply UseHostLoc_effect in H; [|exact std_partition_ok].
    destruct H as (cur & _ & _ & _ & _ & F & _). exact F.
  - intros use def d [o r] H.
    apply UseDefOpArgHostLocReg_effect in H; [|exact std_partition_ok].
    destruct H as (v & u & _ & _ & _ & _ & _ & _ & _ & _ & F). exact F.
  - intros loc u. apply SpillRegister_untouched.
  - intros to from u. apply Move_untouched.
  - intros a b u. apply Exchange_untouched.
  - intros reg u H. apply MoveOutOfTheWay_summary in H.
    destruct H as (_ & _ & F & _). exact F.
Qed.

(** X9.  [ValueLocation] returns the lowest-numbered location of the table
    that holds the value, and none exactly when no location of the table
    holds it. *)
Theorem value_location_spec (st : State) (v : InstId) :
  (forall l, ValueLocation SpillCount st v = Some l <->
             l < HostLocCount SpillCount /\ resident st l v /\
             forall l', l' < l -> ~ resident st l' v) /\
  (ValueLocation SpillCount st v = None <->
   forall l, l < HostLocCount SpillCount -> ~ resident st l v).
Proof.
  split.
  - intros l. apply ValueLocation_first.
  - apply ValueLocation_none.
Qed.

(** X10.  Defining a value that has no location yet at a location of the
    table makes [ValueLocation] find it there, changes the location of no
    other value, emits no code and changes no use count. *)
Theorem define_then_locate (def : InstId) (loc : HostLoc) (st st' : State)
    (u : unit) :
  ValueLocation SpillCount st def = None ->
  loc < HostLocCount SpillCount ->
  DefineValue SpillCount DEBUG def loc st = Ok u st' ->
  ValueLocation SpillCount st' def = Some loc /\
  (forall w, w <> def ->
             ValueLocation SpillCount st' w = ValueLocation SpillCount st w) /\
  appended st st' [] /\ same_uses st st'.
Proof.
  intros Hnone Hloc H. apply DefineValue_effect in H. destruct H as [_ ->].
  destruct (located_after_definition _ st def loc Hnone Hloc) as [H1 H2].
  split; [exact H1|]. split; [exact H2|]. split.
  - unfold appended. simpl. rewrite app_nil_r. reflexivity.
  - intros i. reflexivity.
Qed.


(** X11.  A completed [RegisterAddDef(def, use)] with an instruction value
    [use] adds [def] to the entry of the location of [use], so that the two
    values share it; it emits no code, changes no other entry, and lowers
    the use count of [use] by exactly one. *)
Theorem register_add_def_aliases (any_gpr : HostLocList) (def use : InstId)
    (st st' : State) (u : unit) :
  RegisterAddDef SpillCount DEBUG any_gpr std_partition def (VInst use) st
  = Ok u st' ->
  exists loc,
    ValueLocation SpillCount st use = Some loc /\
    LocInfo st' loc = AddValue (LocInfo st loc) def /\
    resident st' loc use /\ resident st' loc def /\
    same_except [loc] st st' /\
    appended st st' [] /\
    decremented 1 use st st'.
Proof.
  intros H. apply RegisterAddDef_alias in H.
  destruct H as (loc & Hloc & D & C & E & S).
  pose proof (ValueLocation_Some _ _ _ _ Hloc) as Hv.
  exists loc. split; [exact Hloc|]. split; [exact E|].
  unfold resident. rewrite E. simpl. rewrite !elem_of_app.
  split; [left; exact Hv|]. split; [right; apply list_elem_of_here|].
  split; [exact S|]. split; [|exact D].
  unfold appended. rewrite C, app_nil_r. reflexivity.
Qed.

(** X12.  A completed [RegisterAddDef(def, imm)] with an immediate has
    reserved one of the [any_gpr] registers, which was not locked, for [def]
    alone, locked; the last instruction emitted loads the immediate, widened
    to 64 bits, into that register ([xor] for zero, [mov] otherwise).  No
    use count changes and no entry that was locked changes.  The immediate
    is not a 16-bit one. *)
Theorem register_add_def_immediate (any_gpr : HostLocList) (def : InstId)
    (imm : Value) (st st' : State) (u : unit) :
  IsImmediate imm = true ->
  RegisterAddDef SpillCount DEBUG any_gpr std_partition def imm st
  = Ok u st' ->
  exists l t x pre i,
    imm = VImm t x /\ t <> U16 /\
    l ∈ any_gpr /\ IsLocked (LocInfo st l) = false /\
    LocInfo st' l = mkInfo [def] true /\
    locked_untouched st st' /\ same_uses st st' /\
    appended st st' (pre ++ [i]) /\
    loads_constant l (x mod 2 ^ bit_width t)%Z i.
Proof.
  intros Himm H.
  apply RegisterAddDef_immediate in H; [|exact std_partition_ok|exact Himm].
  destruct H as (l & t & x & pre & i & -> & Ht & Hin & Hl & E & F & U & _ &
                 C & Hi).
  exists l, t, x, pre, i. repeat (split; [assumption || reflexivity|]).
  split; [intros j; rewrite U; reflexivity|]. auto.
Qed.

(** X13.  [UseDefOpArgHostLocReg] never completes on an immediate.  When it
    completes, the operand returned is a register of [any_gpr], the
    definition register is one of the desired locations and differs from
    it, both are locked, the definition register holds the defined value
    alone, and no entry that was locked has changed. *)
Theorem use_def_op_contract (any_gpr : HostLocList) (use_value : Value)
    (def : InstId) (desired : HostLocList) (st st' : State) (o : OpArg)
    (d : HostLoc) :
  UseDefOpArgHostLocReg SpillCount DEBUG any_gpr std_partition
    use_value def desired st = Ok (o, d) st' ->
  exists v u,
    use_value = VInst v /\ o = OpArg_Reg u /\
    HostLocIsRegister u = true /\ u ∈ any_gpr /\ d ∈ desired /\ u <> d /\
    IsLocked (LocInfo st' u) = true /\
    LocInfo st' d = mkInfo [def] true /\
    locked_untouched st st'.
Proof.
  intros H. apply UseDefOpArgHostLocReg_effect in H;
    [exact H|exact std_partition_ok].
Qed.

(** X14.  [UseOpArg] fails on an immediate, leaving the state alone.  When
    it completes, the operand returned is a register, one of the desired
    locations, and locked. *)
Theorem use_op_arg_contract (use_value : Value) (desired : HostLocList)
    (st : State) :
  (IsImmediate use_value = true ->
   UseOpArg SpillCount DEBUG std_partition use_value desired st
   = Fail E_UseOpArgImmediate st) /\
  (forall o st',
     UseOpArg SpillCount DEBUG std_partition use_value desired st
     = Ok o st' ->
     exists v l,
       use_value = VInst v /\ o = OpArg_Reg l /\
       HostLocIsRegister l = true /\ l ∈ desired /\
       IsLocked (LocInfo st' l) = true).
Proof.
  split.
  - unfold UseOpArg. intros ->. reflexivity.
  - intros o st' H. apply UseOpArg_effect in H.
    destruct H as (v & l & -> & -> & Hreg & H).
    apply UseHostLocReg_inst_effect in H; [|exact std_partition_ok].
    destruct H as (cur & _ & Hin & L & _).
    exists v, l. auto.
Qed.

(** X15.  A 16-bit immediate cannot be loaded: [ImmediateToU64] has no case
    for it, so [UseHostLocReg], [UseScratchHostLocReg] and [RegisterAddDef]
    never complete on one; when a general-purpose register has been reserved
    for it, the failure is the assertion of [ImmediateToU64]. *)
Theorem u16_immediate_rejected (any_gpr : HostLocList) (x : Z)
    (desired : HostLocList) (def : InstId) (st : State) :
  (forall l st',
     UseHostLocReg SpillCount DEBUG std_partition (VImm U16 x) desired st
     <> Ok l st') /\
  (forall l st',
     UseScratchHostLocReg SpillCount DEBUG std_partition (VImm U16 x)
       desired st <> Ok l st') /\
  (forall u st',
     RegisterAddDef SpillCount DEBUG any_gpr std_partition def (VImm U16 x) st
     <> Ok u st') /\
  (forall l s1,
     ScratchHostLocReg SpillCount DEBUG std_partition desired st = Ok l s1 ->
     HostLocIsGPR l = true ->
     UseHostLocReg SpillCount DEBUG std_partition (VImm U16 x) desired st
     = Fail E_ImmediateType s1 /\
     UseScratchHostLocReg SpillCount DEBUG std_partition (VImm U16 x)
       desired st = Fail E_ImmediateType s1).
Proof.
  split; [|split; [|split]].
  - intros l st' H. unfold UseHostLocReg in H. simpl in H.
    split_bind H as loc s1 Hs. discriminate.
  - intros l st' H. unfold UseScratchHostLocReg in H. simpl in H.
    split_bind H as loc s1 Hs. discriminate.
  - intros u st' H. unfold RegisterAddDef in H. simpl in H.
    split_bind H as u0 s0 Hd. split_bind H as loc s1 Hs.
    split_bind H as u1 s2 Hdef. split_bind H as l' s3 Hload. discriminate.
  - intros l s1 Hs _. unfold UseHostLocReg, UseScratchHostLocReg. simpl.
    rewrite !(bind_step _ _ _ _ _ Hs). auto.
Qed.

(** X16.  [EndOfAllocScope] never fails, emits no code and changes no use
    count; after it no location of the table is locked, and running it a
    second time changes nothing. *)
Theorem end_of_scope_idempotent (st : State) :
  exists s1 s2,
    EndOfAllocScope SpillCount st = Ok tt s1 /\
    EndOfAllocScope SpillCount s1 = Ok tt s2 /\
    (forall l, l < HostLocCount SpillCount ->
               IsLocked (LocInfo s1 l) = false) /\
    (forall l, hostloc_info s2 l = hostloc_info s1 l) /\
    appended st s1 [] /\ same_uses st s1.
Proof.
  eexists _, _. split; [reflexivity|]. split; [reflexivity|].
  unfold appended, same_uses, LocInfo, IsLocked. simpl. split; [|split].
  - intros l Hl. apply Nat.ltb_lt in Hl. rewrite Hl. reflexivity.
  - intros l. destruct (l <? HostLocCount SpillCount); [|reflexivity].
    unfold HostLocInfo_EndOfAllocScope. simpl. f_equal.
    induction (values (hostloc_info st l)) as [|a vs IH]; [reflexivity|].
    rewrite !filter_cons. unfold HasUses at 2 3. simpl.
    destruct (decide (HasUses st a = true)) as [Ha|Ha].
    + rewrite filter_cons. destruct (decide _); [|contradiction].
      f_equal. exact IH.
    + exact IH.
  - split; [symmetry; apply app_nil_r|]. intros i. reflexivity.
Qed.

Lemma no_value_in_use st (vs : list InstId) :
  (forall v, v ∈ vs -> remaining_uses st v = 0) ->
  filter (fun v => HasUses st v = true) vs = [].
Proof.
  induction vs as [|a vs IH]; intros H; [reflexivity|].
  rewrite filter_cons. destruct (decide (HasUses st a = true)) as [Ha|Ha].
  - exfalso. unfold HasUses in Ha.
    rewrite (H a (list_elem_of_here _ _)) in Ha. discriminate.
  - apply IH. intros v Hv. apply H, list_elem_of_further, Hv.
Qed.

(** X17.  The check at the end of a block: [EndOfAllocScope] followed by
    [AssertNoMoreUses] completes exactly when no value held in the table has
    a remaining use; otherwise it fails with "bad". *)
Theorem end_of_block_check (st : State) :
  ((forall l v, l < HostLocCount SpillCount -> resident st l v ->
                remaining_uses st v = 0) <->
   exists st', (EndOfAllocScope SpillCount;;
                AssertNoMoreUses SpillCount) st = Ok tt st') /\
  (forall e st', (EndOfAllocScope SpillCount;;
                  AssertNoMoreUses SpillCount) st = Fail e st' ->
                 e = E_Bad).
Proof.
  unfold bind, EndOfAllocScope, AssertNoMoreUses, ASSERT, ifM, ret, fail.
  cbv beta iota.
  match goal with
  | |- context [if ?c then _ else _] => destruct c eqn:All
  end.
  - split; [|discriminate]. split; [eauto|]. intros _ l v Hl Hv.
    rewrite forallb_forall in All. specialize (All l).
    rewrite in_seq in All. specialize (All ltac:(lia)). simpl in All.
    apply Nat.ltb_lt in Hl. rewrite Hl in All.
    apply IsEmpty_no_values in All. simpl in All.
    destruct (Nat.eq_dec (remaining_uses st v) 0) as [E|E]; [exact E|].
    exfalso. assert (v ∈ filter (fun v => HasUses st v = true)
                              (values (hostloc_info st l))) as Hf.
    { apply list_elem_of_filter. split; [|exact Hv].
      unfold HasUses. apply negb_true_iff, Nat.eqb_neq, E. }
    rewrite All in Hf. inversion Hf.
  - split.
    + split; [|intros [st' H]; discriminate]. intros Hall. exfalso.
      apply not_true_iff_false in All. apply All.
      apply forallb_forall. intros l Hl. apply in_seq in Hl. simpl.
      destruct (Nat.ltb_spec l (HostLocCount SpillCount)) as [Hlt|]; [|lia].
      unfold IsEmpty, HostLocInfo_EndOfAllocScope. simpl.
      apply bool_decide_eq_true, no_value_in_use.
      intros v Hv. exact (Hall l v Hlt Hv).
    + intros e st' H. injection H as <- _. reflexivity.
Qed.

End Contracts.

(** ** The contracts at work *)

Lemma spill_register_effect_witness :
  SpillRegister 4 XMM1 two_vectors
  = Ok tt (run_from two_vectors (SpillRegister 4 XMM1)) /\
  HostLocIsRegister XMM1 = true /\
  IsEmpty (LocInfo two_vectors XMM1) = false /\
  IsLocked (LocInfo two_vectors XMM1) = false /\
  exists slot i,
    FindFreeSpill 4 two_vectors = Ok slot two_vectors /\
    HostLocIsSpill 4 slot = true /\
    LocInfo (run_from two_vectors (SpillRegister 4 XMM1)) slot
    = LocInfo two_vectors XMM1 /\
    LocInfo (run_from two_vectors (SpillRegister 4 XMM1)) XMM1
    = empty_info /\
    same_except [XMM1; slot] two_vectors
      (run_from two_vectors (SpillRegister 4 XMM1)) /\
    same_uses two_vectors (run_from two_vectors (SpillRegister 4 XMM1)) /\
    is_move slot XMM1 i /\
    appended two_vectors (run_from two_vectors (SpillRegister 4 XMM1)) [i].
Proof.
  split; [reflexivity|].
  apply (spill_register_effect 4 XMM1 two_vectors _ tt). reflexivity.
Defined.

Lemma exchange_swaps_witness :
  Exchange 4 RCX RAX idle_in_rax
  = Ok tt (run_from idle_in_rax (Exchange 4 RCX RAX)) /\
  IsLocked (LocInfo idle_in_rax RCX) = false /\
  IsLocked (LocInfo idle_in_rax RAX) = false /\
  (forall l, hostloc_info (run_from idle_in_rax (Exchange 4 RCX RAX)) l
             = hostloc_info idle_in_rax (swap_loc RCX RAX l)) /\
  same_uses idle_in_rax (run_from idle_in_rax (Exchange 4 RCX RAX)) /\
  exists new,
    appended idle_in_rax (run_from idle_in_rax (Exchange 4 RCX RAX)) new /\
    exists i, is_move RCX RAX i /\ new = [i].
Proof.
  split; [reflexivity|].
  apply (exchange_swaps 4 RCX RAX idle_in_rax _ tt). reflexivity.
Defined.

Lemma scratch_reg_contract_witness :
  partition_contract stable_partition /\
  ScratchHostLocReg 4 true stable_partition [XMM1] two_vectors
  = Ok XMM1 after_spill /\
  XMM1 ∈ [XMM1] /\
  IsLocked (LocInfo two_vectors XMM1) = false /\
  LocInfo after_spill XMM1 = mkInfo [] true /\
  same_uses two_vectors after_spill /\
  ((IsEmpty (LocInfo two_vectors XMM1) = true /\
    appended two_vectors after_spill [] /\
    same_except [XMM1] two_vectors after_spill) \/
   (IsEmpty (LocInfo two_vectors XMM1) = false /\
    exists slot i,
      HostLocIsSpill 4 slot = true /\
      IsEmpty (LocInfo two_vectors slot) = true /\
      LocInfo after_spill slot = LocInfo two_vectors XMM1 /\
      is_move slot XMM1 i /\ appended two_vectors after_spill [i] /\
      same_except [XMM1; slot] two_vectors after_spill)).
Proof.
  split; [exact stable_partition_ok|]. split; [reflexivity|].
  apply (scratch_reg_contract 4 true stable_partition stable_partition_ok
           [XMM1] two_vectors after_spill XMM1).
  reflexivity.
Defined.

Lemma use_scratch_reg_contract_witness :
  partition_contract stable_partition /\
  UseScratchHostLocReg 4 true stable_partition (VInst 1) [XMM3] two_vectors
  = Ok XMM3 (run_from two_vectors
               (UseScratchHostLocReg 4 true stable_partition (VInst 1)
                  [XMM3])) /\
  exists cur,
    ValueLocation 4 two_vectors 1 = Some cur /\
    XMM3 ∈ [XMM3] /\
    IsLocked (LocInfo two_vectors XMM3) = false /\
    LocInfo (run_from two_vectors
               (UseScratchHostLocReg 4 true stable_partition (VInst 1)
                  [XMM3])) XMM3 = mkInfo [] true /\
    decremented 1 1 two_vectors
      (run_from two_vectors
         (UseScratchHostLocReg 4 true stable_partition (VInst 1) [XMM3])) /\
    located (run_from two_vectors
               (UseScratchHostLocReg 4 true stable_partition (VInst 1)
                  [XMM3])) 1 /\
    (cur <> XMM3 ->
     LocInfo (run_from two_vectors
                (UseScratchHostLocReg 4 true stable_partition (VInst 1)
                   [XMM3])) cur = LocInfo two_vectors cur /\
     exists pre i,
       appended two_vectors
         (run_from two_vectors
            (UseScratchHostLocReg 4 true stable_partition (VInst 1) [XMM3]))
         (pre ++ [i]) /\
       is_move XMM3 cur i).
Proof.
  split; [exact stable_partition_ok|]. split; [reflexivity|].
  apply (use_scratch_reg_contract 4 true stable_partition
           stable_partition_ok 1 [XMM3] two_vectors _ XMM3).
  reflexivity.
Defined.

Lemma use_reg_contract_witness :
  partition_contract stable_partition /\
  UseHostLocReg 4 true stable_partition (VInst 0) [RCX] idle_in_rax
  = Ok RCX (run_from idle_in_rax
              (UseHostLocReg 4 true stable_partition (VInst 0) [RCX])) /\
  exists cur,
    ValueLocation 4 idle_in_rax 0 = Some cur /\
    RCX ∈ [RCX] /\
    IsLocked (LocInfo (run_from idle_in_rax
                         (UseHostLocReg 4 true stable_partition (VInst 0)
                            [RCX])) RCX) = true /\
    (cur ∈ [RCX] ->
     RCX = cur /\
     appended idle_in_rax
       (run_from idle_in_rax
          (UseHostLocReg 4 true stable_partition (VInst 0) [RCX])) []) /\
    (cur ∈ [RCX] \/ IsLocked (LocInfo idle_in_rax cur) = false ->
     resident (run_from idle_in_rax
                 (UseHostLocReg 4 true stable_partition (VInst 0) [RCX]))
              RCX 0 /\
     decremented 1 0 idle_in_rax
       (run_from idle_in_rax
          (UseHostLocReg 4 true stable_partition (VInst 0) [RCX]))).
Proof.
  split; [exact stable_partition_ok|]. split; [reflexivity|].
  apply (use_reg_contract 4 true stable_partition stable_partition_ok
           0 [RCX] idle_in_rax _ RCX).
  reflexivity.
Defined.

Lemma use_host_loc_contract_witness :
  partition_contract stable_partition /\
  UseHostLoc 4 true stable_partition 0 [RCX] idle_in_rax
  = Ok (RCX, false)
       (run_from idle_in_rax (UseHostLoc 4 true stable_partition 0 [RCX])) /\
  exists cur,
    ValueLocation 4 idle_in_rax 0 = Some cur /\
    decremented 1 0 idle_in_rax
      (run_from idle_in_rax (UseHostLoc 4 true stable_partition 0 [RCX])) /\
    resident
      (run_from idle_in_rax (UseHostLoc 4 true stable_partition 0 [RCX]))
      RCX 0 /\
    IsLocked
      (LocInfo
         (run_from idle_in_rax (UseHostLoc 4 true stable_partition 0 [RCX]))
         RCX) = true /\
    locked_untouched idle_in_rax
      (run_from idle_in_rax (UseHostLoc 4 true stable_partition 0 [RCX])) /\
    ((RCX = cur /\
      (cur ∈ [RCX] \/ HostLocIsSpill 4 cur = true) /\
      false = IsLocked (LocInfo idle_in_rax cur) /\
      appended idle_in_rax
        (run_from idle_in_rax (UseHostLoc 4 true stable_partition 0 [RCX]))
        [] /\
      same_except [cur] idle_in_rax
        (run_from idle_in_rax (UseHostLoc 4 true stable_partition 0 [RCX])))
     \/
     (RCX <> cur /\ RCX ∈ [RCX] /\ false = false /\
      HostLocIsGPR RCX = true /\ HostLocIsGPR cur = true /\
      IsLocked (LocInfo idle_in_rax RCX) = false /\
      IsLocked (LocInfo idle_in_rax cur) = false /\
      appended idle_in_rax
        (run_from idle_in_rax (UseHostLoc 4 true stable_partition 0 [RCX]))
        [xchg RCX cur] /\
      LocInfo
        (run_from idle_in_rax (UseHostLoc 4 true stable_partition 0 [RCX]))
        cur = LocInfo idle_in_rax RCX /\
      same_except [RCX; cur] idle_in_rax
        (run_from idle_in_rax (UseHostLoc 4 true stable_partition 0 [RCX])))).
Proof.
  split; [exact stable_partition_ok|]. split; [reflexivity|].
  apply (use_host_loc_contract 4 true stable_partition stable_partition_ok
           0 [RCX] idle_in_rax _ RCX false).
  reflexivity.
Defined.

Lemma locked_registers_untouched_witness :
  partition_contract stable_partition /\
  UseHostLocReg 4 true stable_partition (VInst 0) [RCX] locked_in_rax
  = Ok RCX after_fallback /\
  locked_untouched locked_in_rax after_fallback.
Proof.
  split; [exact stable_partition_ok|]. split; [reflexivity|].
  destruct (locked_registers_untouched 4 true stable_partition
              stable_partition_ok gprs_but_rsp_r15
              locked_in_rax after_fallback) as (H & _).
  apply (H (VInst 0) [RCX] RCX). reflexivity.
Defined.

Lemma define_then_locate_witness :
  ValueLocation 4 (fresh (fun _ => 1)) 5 = None /\
  RAX < HostLocCount 4 /\
  DefineValue 4 true 5 RAX (fresh (fun _ => 1))
  = Ok tt (run_from (fresh (fun _ => 1)) (DefineValue 4 true 5 RAX)) /\
  ValueLocation 4 (run_from (fresh (fun _ => 1)) (DefineValue 4 true 5 RAX)) 5
  = Some RAX /\
  (forall w, w <> 5 ->
     ValueLocation 4
       (run_from (fresh (fun _ => 1)) (DefineValue 4 true 5 RAX)) w
     = ValueLocation 4 (fresh (fun _ => 1)) w) /\
  appended (fresh (fun _ => 1))
    (run_from (fresh (fun _ => 1)) (DefineValue 4 true 5 RAX)) [] /\
  same_uses (fresh (fun _ => 1))
    (run_from (fresh (fun _ => 1)) (DefineValue 4 true 5 RAX)).
Proof.
  split; [reflexivity|]. split; [unfold RAX, HostLocCount, FirstSpill; lia|].
  split; [reflexivity|].
  apply (define_then_locate 4 true 5 RAX (fresh (fun _ => 1)) _ tt).
  - reflexivity.
  - unfold RAX, HostLocCount, FirstSpill. lia.
  - reflexivity.
Defined.

Lemma register_add_def_aliases_witness :
  RegisterAddDef 4 true gprs_but_rsp_r15 stable_partition 1 (VInst 0)
    idle_in_rax
  = Ok tt (run_from idle_in_rax
             (RegisterAddDef 4 true gprs_but_rsp_r15 stable_partition 1
                (VInst 0))) /\
  exists loc,
    ValueLocation 4 idle_in_rax 0 = Some loc /\
    LocInfo (run_from idle_in_rax
               (RegisterAddDef 4 true gprs_but_rsp_r15 stable_partition 1
                  (VInst 0))) loc
    = AddValue (LocInfo idle_in_rax loc) 1 /\
    resident (run_from idle_in_rax
                (RegisterAddDef 4 true gprs_but_rsp_r15 stable_partition 1
                   (VInst 0))) loc 0 /\
    resident (run_from idle_in_rax
                (RegisterAddDef 4 true gprs_but_rsp_r15 stable_partition 1
                   (VInst 0))) loc 1 /\
    same_except [loc] idle_in_rax
      (run_from idle_in_rax
         (RegisterAddDef 4 true gprs_but_rsp_r15 stable_partition 1
            (VInst 0))) /\
    appended idle_in_rax
      (run_from idle_in_rax
         (RegisterAddDef 4 true gprs_but_rsp_r15 stable_partition 1
            (VInst 0))) [] /\
    decremented 1 0 idle_in_rax
      (run_from idle_in_rax
         (RegisterAddDef 4 true gprs_but_rsp_r15 stable_partition 1
            (VInst 0))).
Proof.
  split; [reflexivity|].
  apply (register_add_def_aliases 4 true stable_partition
           gprs_but_rsp_r15 1 0 idle_in_rax _ tt).
  reflexivity.
Defined.

Lemma register_add_def_immediate_witness :
  partition_contract stable_partition /\
  IsImmediate (VImm U32 7) = true /\
  RegisterAddDef 4 true gprs_but_rsp_r15 stable_partition 0 (VImm U32 7)
    (fresh (fun _ => 2))
  = Ok tt (run_from (fresh (fun _ => 2))
             (RegisterAddDef 4 true gprs_but_rsp_r15 stable_partition 0
                (VImm U32 7))) /\
  exists l t x pre i,
    VImm U32 7 = VImm t x /\ t <> U16 /\
    l ∈ gprs_but_rsp_r15 /\
    IsLocked (LocInfo (fresh (fun _ => 2)) l) = false /\
    LocInfo (run_from (fresh (fun _ => 2))
               (RegisterAddDef 4 true gprs_but_rsp_r15 stable_partition 0
                  (VImm U32 7))) l = mkInfo [0] true /\
    locked_untouched (fresh (fun _ => 2))
      (run_from (fresh (fun _ => 2))
         (RegisterAddDef 4 true gprs_but_rsp_r15 stable_partition 0
            (VImm U32 7))) /\
    same_uses (fresh (fun _ => 2))
      (run_from (fresh (fun _ => 2))
         (RegisterAddDef 4 true gprs_but_rsp_r15 stable_partition 0
            (VImm U32 7))) /\
    appended (fresh (fun _ => 2))
      (run_from (fresh (fun _ => 2))
         (RegisterAddDef 4 true gprs_but_rsp_r15 stable_partition 0
            (VImm U32 7))) (pre ++ [i]) /\
    loads_constant l (x mod 2 ^ bit_width t)%Z i.
Proof.
  split; [exact stable_partition_ok|]. split; [reflexivity|].
  split; [reflexivity|].
  apply (register_add_def_immediate 4 true stable_partition
           stable_partition_ok gprs_but_rsp_r15 0 (VImm U32 7)
           (fresh (fun _ => 2)) _ tt); reflexivity.
Defined.

Lemma use_def_op_contract_witness :
  partition_contract stable_partition /\
  UseDefOpArgHostLocReg 4 true gprs_but_rsp_r15 stable_partition
    (VInst 0) 1 [XMM1] idle_in_rax
  = Ok (OpArg_Reg RAX, XMM1)
       (run_from idle_in_rax
          (UseDefOpArgHostLocReg 4 true gprs_but_rsp_r15 stable_partition
             (VInst 0) 1 [XMM1])) /\
  exists v u,
    VInst 0 = VInst v /\ OpArg_Reg RAX = OpArg_Reg u /\
    HostLocIsRegister u = true /\ u ∈ gprs_but_rsp_r15 /\
    XMM1 ∈ [XMM1] /\ u <> XMM1 /\
    IsLocked (LocInfo (run_from idle_in_rax
                         (UseDefOpArgHostLocReg 4 true gprs_but_rsp_r15
                            stable_partition (VInst 0) 1 [XMM1])) u)
    = true /\
    LocInfo (run_from idle_in_rax
               (UseDefOpArgHostLocReg 4 true gprs_but_rsp_r15
                  stable_partition (VInst 0) 1 [XMM1])) XMM1
    = mkInfo [1] true /\
    locked_untouched idle_in_rax
      (run_from idle_in_rax
         (UseDefOpArgHostLocReg 4 true gprs_but_rsp_r15 stable_partition
            (VInst 0) 1 [XMM1])).
Proof.
  split; [exact stable_partition_ok|]. split; [reflexivity|].
  apply (use_def_op_contract 4 true stable_partition stable_partition_ok
           gprs_but_rsp_r15 (VInst 0) 1 [XMM1] idle_in_rax _
           (OpArg_Reg RAX) XMM1).
  reflexivity.
Defined.

Lemma use_op_arg_contract_witness :
  partition_contract stable_partition /\
  (IsImmediate (VInst 0) = true ->
   UseOpArg 4 true stable_partition (VInst 0) [RCX] idle_in_rax
   = Fail E_UseOpArgImmediate idle_in_rax) /\
  (forall o st',
     UseOpArg 4 true stable_partition (VInst 0) [RCX] idle_in_rax
     = Ok o st' ->
     exists v l,
       VInst 0 = VInst v /\ o = OpArg_Reg l /\
       HostLocIsRegister l = true /\ l ∈ [RCX] /\
       IsLocked (LocInfo st' l) = true).
Proof.
  split; [exact stable_partition_ok|].
  apply (use_op_arg_contract 4 true stable_partition stable_partition_ok
           (VInst 0) [RCX] idle_in_rax).
Defined.

End X64Facts.
(* ================================================================== *)
(** * Further properties of the constant propagation pass *)
(* ================================================================== *)

Module ConstPropFacts.
Import IR ConstProp ConstPropSpec ConstPropTheory ConstPropPass.

(** ** The pass keeps blocks well-formed *)

Lemma WF_well_formed (b : Block) : WF b -> well_formed b = true.
Proof.
  intros H. unfold well_formed, ssa_ordered. apply andb_true_iff. split.
  - apply ordered_from_lookup. intros j inst Hj. simpl. apply (H j inst Hj).
  - apply forallb_forall. intros inst Hin. apply list_elem_of_In in Hin.
    apply list_elem_of_lookup in Hin. destruct Hin as [j Hj].
    apply (H j inst Hj).
Qed.

(** X19.  When the pass returns on a well-formed block, the block it
    returns is well-formed again (still in SSA order, every dispatched
    instruction still with the operands its folder reads).  On a
    well-formed block the pass fails to return exactly when it reaches a
    signed division of the least 64-bit integer by -1, where the behaviour
    of the source is undefined. *)
Theorem pass_keeps_well_formed (b : Block) :
  well_formed b = true ->
  (forall b', ConstantPropagation b = Some b' -> well_formed b' = true) /\
  (ConstantPropagation b = None <-> reaches_overflow b).
Proof.
  intros H. apply well_formed_WF in H. split.
  - intros b' Hb'. apply WF_well_formed.
    exact (proj1 (sweep_WF _ _ _ H Hb')).
  - split; [apply pass_fails_at_overflow, H|apply overflow_fails].
Qed.

Lemma pass_keeps_well_formed_witness :
  well_formed example_block = true /\
  exists b',
    ConstantPropagation example_block = Some b' /\ well_formed b' = true.
Proof.
  split; [reflexivity|].
  destruct (pass_keeps_well_formed example_block eq_refl) as [H _].
  eexists. split; [reflexivity|]. apply H. reflexivity.
Defined.

(** ** Nothing to fold *)

Lemma not_immediate_tests (a : Value) (n : Z) :
  IsImmediate a = false ->
  IsZero a = false /\ HasAllBitsSet a = false /\
  IsUnsignedImmediate a n = false.
Proof. destruct a; simpl; [auto|discriminate|auto]. Qed.

Lemma no_immediate_arg (inst : Inst) (i : nat) :
  no_immediate inst = true -> (i < NumArgs inst)%nat ->
  exists a, GetArg inst i = Some a /\ IsImmediate a = false.
Proof.
  unfold no_immediate, NumArgs, GetArg. intros H Hi.
  destruct (lookup_lt_is_Some_2 (args inst) i Hi) as [a Ha].
  exists a. split; [exact Ha|].
  rewrite forallb_forall in H. apply negb_true_iff, H.
  apply list_elem_of_In. eapply list_elem_of_lookup_2, Ha.
Qed.

Lemma no_immediate_not_all (inst : Inst) :
  no_immediate inst = true -> (1 <= NumArgs inst)%nat ->
  AreAllArgsImmediates inst = false.
Proof.
  intros H Hn. destruct (no_immediate_arg inst 0 H) as (a & Ha & Hi); [lia|].
  unfold AreAllArgsImmediates, GetArg in *.
  destruct (args inst) as [|a' l]; [discriminate|].
  simpl in Ha. injection Ha as ->. simpl. rewrite Hi. reflexivity.
Qed.

Lemma operands_ok_min_args (inst : Inst) :
  operands_ok inst = true -> (min_args (opcode inst) <= NumArgs inst)%nat.
Proof.
  unfold operands_ok. intros H.
  destruct (opcode inst) eqn:E; cbv beta iota in H;
    try (simpl; lia);
    apply andb_true_iff in H; destruct H as [H _];
    apply andb_true_iff in H; destruct H as [H _];
    apply Nat.leb_le in H; exact H.
Qed.

Lemma FoldCommutative_nothing (b : Block) (k : nat) (inst : Inst)
    (w : bool) (f : Z -> Z -> Z) (a0 a1 : Value) :
  b !! k = Some inst ->
  GetArg inst 0 = Some a0 -> GetArg inst 1 = Some a1 ->
  IsImmediate a0 = false -> IsImmediate a1 = false ->
  FoldCommutative b k w f = Some (b, true).
Proof.
  intros Hk H0 H1 I0 I1. unfold FoldCommutative.
  rewrite Hk. obind. rewrite H0. obind. rewrite H1. obind.
  rewrite I0, I1. reflexivity.
Qed.

Lemma commutative_folder_nothing (b : Block) (k : nat) (inst : Inst)
    (w : bool) (f : Z -> Z -> Z) (then_ : Block -> Inst -> Value ->
                                          option Block) :
  b !! k = Some inst -> no_immediate inst = true ->
  (2 <= NumArgs inst)%nat ->
  (forall rhs, IsImmediate rhs = false -> then_ b inst rhs = Some b) ->
  ('(b1, continue) ← FoldCommutative b k w f;
   if continue : bool then
     inst ← b1 !! k; rhs ← GetArg inst 1; then_ b1 inst rhs
   else Some b1) = Some b.
Proof.
  intros Hk Hno Hn Hthen.
  destruct (no_immediate_arg inst 0 Hno) as (a0 & H0 & I0); [lia|].
  destruct (no_immediate_arg inst 1 Hno) as (a1 & H1 & I1); [lia|].
  rewrite (FoldCommutative_nothing b k inst w f a0 a1) by assumption.
  obind. rewrite Hk. obind. rewrite H1. obind. apply Hthen, I1.
Qed.

Lemma step_without_immediates (b : Block) (k : nat) (inst : Inst) :
  b !! k = Some inst -> operands_ok inst = true ->
  no_immediate inst = true -> carry_in_kept inst = true ->
  ConstantPropagation_inst b k = Some b.
Proof.
  intros Hk Hok Hno Hcarry.
  pose proof (operands_ok_min_args inst Hok) as Hmin.
  assert (forall cast t, (1 <= NumArgs inst)%nat ->
                         FoldLeastSignificant cast t b k = Some b) as LS.
  { intros cast t Hn. unfold FoldLeastSignificant. rewrite Hk. obind.
    rewrite (no_immediate_not_all inst Hno Hn). reflexivity. }
  assert (forall get t cast, (1 <= NumArgs inst)%nat ->
                             FoldExtend get t cast b k = Some b) as EX.
  { intros get t cast Hn. unfold FoldExtend. rewrite Hk. obind.
    rewrite (no_immediate_not_all inst Hno Hn). reflexivity. }
  assert (forall w, (1 <= NumArgs inst)%nat -> FoldNOT b k w = Some b) as NT.
  { intros w Hn. destruct (no_immediate_arg inst 0 Hno) as (a & Ha & Hi);
      [lia|].
    unfold FoldNOT. rewrite Hk. obind. rewrite Ha. obind. rewrite Hi.
    reflexivity. }
  assert (forall op, (1 <= NumArgs inst)%nat ->
                     FoldByteReverse b k op = Some b) as BR.
  { intros op Hn. destruct (no_immediate_arg inst 0 Hno) as (a & Ha & Hi);
      [lia|].
    unfold FoldByteReverse. rewrite Hk. obind. rewrite Ha. obind.
    rewrite Hi. reflexivity. }
  assert (forall w s, (2 <= NumArgs inst)%nat ->
                      FoldDivide b k w s = Some b) as DV.
  { intros w s Hn.
    destruct (no_immediate_arg inst 0 Hno) as (a0 & H0 & I0); [lia|].
    destruct (no_immediate_arg inst 1 Hno) as (a1 & H1 & I1); [lia|].
    destruct (not_immediate_tests a1 1 I1) as (Z1 & _ & U1).
    unfold FoldDivide. rewrite Hk. obind. rewrite H1. obind. rewrite Z1.
    rewrite H0. obind. rewrite I0, U1. reflexivity. }
  assert ((2 <= NumArgs inst)%nat -> is_shift (opcode inst) = true ->
          FoldShifts b k = Some b) as SH.
  { intros Hn Hs.
    destruct (no_immediate_arg inst 1 Hno) as (a1 & H1 & I1); [lia|].
    destruct (not_immediate_tests a1 0 I1) as (Z1 & _ & _).
    unfold carry_in_kept in Hcarry. rewrite Hs in Hcarry. simpl in Hcarry.
    unfold FoldShifts. rewrite Hk. obind. cbv zeta.
    assert (Nat.eqb (NumArgs inst) 3
            && negb (bool_decide
                       (is_Some (GetAssociatedPseudoOperation inst
                                   GetCarryFromOp))) = false) as ->.
    { destruct (Nat.eqb (NumArgs inst) 3); [|reflexivity].
      simpl in *. rewrite Hcarry. reflexivity. }
    obind. rewrite Hk. obind. rewrite H1. obind. rewrite Z1. reflexivity. }
  assert ((2 <= NumArgs inst)%nat ->
          forall w, FoldAND b k w = Some b /\ FoldEOR b k w = Some b /\
                    FoldOR b k w = Some b /\ FoldMultiply b k w = Some b)
    as CM.
  { intros Hn w. unfold FoldAND, FoldEOR, FoldOR, FoldMultiply.
    repeat split;
      (apply (commutative_folder_nothing b k inst w _
                (fun b1 inst rhs => _) Hk Hno Hn);
       intros rhs Hr;
       destruct (not_immediate_tests rhs 1 Hr) as (-> & E2 & E3);
       rewrite ?E2, ?E3; reflexivity). }
  assert (FoldMostSignificantWord b k = Some b \/ NumArgs inst = 0%nat)
    as MW.
  { destruct (NumArgs inst) eqn:En; [right; reflexivity|left].
    unfold FoldMostSignificantWord. rewrite Hk. obind. cbv zeta.
    rewrite (no_immediate_not_all inst Hno) by lia. reflexivity. }
  assert (FoldMostSignificantBit b k = Some b \/ NumArgs inst = 0%nat)
    as MB.
  { destruct (NumArgs inst) eqn:En; [right; reflexivity|left].
    unfold FoldMostSignificantBit. rewrite Hk. obind.
    rewrite (no_immediate_not_all inst Hno) by lia. reflexivity. }
  unfold ConstantPropagation_inst. rewrite Hk. obind. cbv zeta.
  destruct (opcode inst) eqn:Eop; simpl in Hmin;
    match goal with
    | |- Some _ = Some _ => reflexivity
    | |- FoldLeastSignificantWord _ _ = _ => apply LS; exact Hmin
    | |- FoldLeastSignificantHalf _ _ = _ => apply LS; exact Hmin
    | |- FoldLeastSignificantByte _ _ = _ => apply LS; exact Hmin
    | |- FoldSignExtendXToWord _ _ = _ => apply EX; exact Hmin
    | |- FoldSignExtendXToLong _ _ = _ => apply EX; exact Hmin
    | |- FoldZeroExtendXToWord _ _ = _ => apply EX; exact Hmin
    | |- FoldZeroExtendXToLong _ _ = _ => apply EX; exact Hmin
    | |- FoldNOT _ _ _ = _ => apply NT; exact Hmin
    | |- FoldByteReverse _ _ _ = _ => apply BR; exact Hmin
    | |- FoldDivide _ _ _ _ = _ => apply DV; exact Hmin
    | |- FoldShifts _ _ = _ => apply SH; [exact Hmin|reflexivity]
    | |- FoldAND _ _ ?w = _ => exact (proj1 (CM Hmin w))
    | |- FoldEOR _ _ ?w = _ => exact (proj1 (proj2 (CM Hmin w)))
    | |- FoldOR _ _ ?w = _ => exact (proj1 (proj2 (proj2 (CM Hmin w))))
    | |- FoldMultiply _ _ ?w = _ =>
        exact (proj2 (proj2 (proj2 (CM Hmin w))))
    | |- FoldMostSignificantWord _ _ = _ =>
        destruct MW as [MW|MW]; [exact MW|lia]
    | |- FoldMostSignificantBit _ _ = _ =>
        destruct MB as [MB|MB]; [exact MB|lia]
    end.
Qed.

Lemma sweep_without_immediates (b : Block) (ks : list nat) :
  (forall k, k ∈ ks -> exists inst,
      b !! k = Some inst /\ operands_ok inst = true /\
      no_immediate inst = true /\ carry_in_kept inst = true) ->
  sweep ks b = Some b.
Proof.
  induction ks as [|k ks IH]; intros H; simpl; [reflexivity|].
  destruct (H k) as (inst & Hk & Hok & Hno & Hc); [apply list_elem_of_here|].
  rewrite (step_without_immediates b k inst Hk Hok Hno Hc). obind.
  apply IH. intros k' Hk'. apply H, list_elem_of_further, Hk'.
Qed.

(** X20.  A well-formed block in which no operand is an immediate, and in
    which every three-operand shift has its carry read by a
    pseudo-operation, is returned unchanged: without constants the pass has
    nothing to fold. *)
Theorem pass_without_constants (b : Block) :
  well_formed b = true ->
  forallb no_immediate b = true ->
  forallb carry_in_kept b = true ->
  ConstantPropagation b = Some b.
Proof.
  intros Hwf Hno Hc. unfold ConstantPropagation.
  apply sweep_without_immediates. intros k Hk.
  apply elem_of_seq in Hk.
  destruct (lookup_lt_is_Some_2 b k) as [inst Hi]; [lia|].
  exists inst. split; [exact Hi|].
  assert (inst ∈ b) as Hin by (eapply list_elem_of_lookup_2, Hi).
  apply list_elem_of_In in Hin.
  unfold well_formed in Hwf. apply andb_true_iff in Hwf.
  destruct Hwf as [_ Hwf].
  rewrite forallb_forall in Hwf, Hno, Hc. auto.
Qed.

Lemma pass_without_constants_witness :
  well_formed constant_free_block = true /\
  forallb no_immediate constant_free_block = true /\
  forallb carry_in_kept constant_free_block = true /\
  ConstantPropagation constant_free_block = Some constant_free_block.
Proof.
  split; [reflexivity|]. split; [reflexivity|]. split; [reflexivity|].
  apply (pass_without_constants constant_free_block); reflexivity.
Defined.

(** ** Division *)

Lemma signed_zero_is_zero (t : ImmType) (y Y : Z) :
  GetImmediateAsS64 (VImm t y) = Some Y -> Y <> 0 ->
  y mod 2 ^ bit_width t <> 0.
Proof.
  intros H Hne E. apply Hne. unfold GetImmediateAsS64 in H.
  destruct t; simpl bit_width in *; rewrite ?E in H; simpl in H;
    try (injection H as <-; reflexivity).
  change (2 ^ 1) with 2 in E. rewrite E in H. injection H as <-.
  reflexivity.
Qed.

Lemma division_operand_nonzero (o : Opcode) (t : ImmType) (y Y : Z) :
  division_operand o (VImm t y) = Some Y -> Y <> 0 ->
  IsZero (VImm t y) = false.
Proof.
  unfold division_operand, IsZero, IsUnsignedImmediate. simpl.
  intros H Hne. apply Z.eqb_neq.
  destruct (is_signed_division o).
  - eapply signed_zero_is_zero; eauto.
  - injection H as <-. exact Hne.
Qed.

Lemma unsigned_quotient_fits (ta tb : ImmType) (x y : Z) :
  y mod 2 ^ bit_width tb <> 0 ->
  0 <= Z.quot (x mod 2 ^ bit_width ta) (y mod 2 ^ bit_width tb) < 2 ^ 64.
Proof.
  intros Hy.
  assert (0 <= x mod 2 ^ bit_width ta < 2 ^ 64) as Hx.
  { pose proof (Z.mod_pos_bound x (2 ^ bit_width ta)) as B.
    assert (2 ^ bit_width ta <= 2 ^ 64)
      by (destruct ta; simpl; lia).
    assert (0 < 2 ^ bit_width ta) by (destruct ta; simpl; lia). lia. }
  assert (0 < y mod 2 ^ bit_width tb) as Hy'.
  { pose proof (Z.mod_pos_bound y (2 ^ bit_width tb)) as B.
    assert (0 < 2 ^ bit_width tb) by (destruct tb; simpl; lia). lia. }
  rewrite Z.quot_div_nonneg by lia. split.
  - apply Z.div_pos; lia.
  - apply Z.div_lt_upper_bound; [lia|]. nia.
Qed.

(** X21.  A division whose operands are both immediates, with a divisor
    that is not zero, is folded: every use of the instruction becomes the
    immediate of the output width of the opcode that holds the quotient,
    truncated toward zero, of the operands read as the opcode reads them
    (signed for [SignedDiv], unsigned for [UnsignedDiv]), in two's
    complement.  (The quotient of the least 64-bit integer by -1 is left
    out: the source computes it with a signed division that overflows.) *)
Theorem division_of_immediates_folds (b : Block) (k : InstId) (inst : Inst)
    (ta tb : ImmType) (x y X Y : Z) :
  b !! k = Some inst ->
  is_division (opcode inst) = true ->
  GetArg inst 0 = Some (VImm ta x) ->
  GetArg inst 1 = Some (VImm tb y) ->
  division_operand (opcode inst) (VImm ta x) = Some X ->
  division_operand (opcode inst) (VImm tb y) = Some Y ->
  Y <> 0 ->
  (X = - 2 ^ 63 -> Y <> -1) ->
  exists b',
    ConstantPropagation_inst b k = Some b' /\
    uses_replaced b b' k
      (VImm (output_type (opcode inst))
            (Z.quot X Y mod 2 ^ bit_width (output_type (opcode inst)))).
Proof.
  intros Hk Hop H0 H1 HX HY Hne Hov.
  pose proof (division_operand_nonzero _ _ _ _ HY Hne) as Hz.
  assert ((X =? - 2 ^ 63) && (Y =? -1) = false) as Ht.
  { apply andb_false_iff.
    destruct (Z.eqb_spec X (- 2 ^ 63)) as [EX|]; [right|left; reflexivity].
    apply Z.eqb_neq, Hov, EX. }
  eexists. split; [|apply ReplaceUsesWith_replaced].
  unfold ConstantPropagation_inst. rewrite Hk. obind. cbv zeta.
  unfold division_operand in HX, HY.
  destruct (opcode inst) eqn:E; try discriminate Hop;
    unfold FoldDivide; rewrite Hk; obind; rewrite H1; obind; rewrite Hz;
    rewrite H0; obind; simpl is_signed_division in HX, HY;
    cbv iota in HX, HY; cbn [IsImmediate andb]; cbv iota;
    rewrite HX; obind; rewrite HY; obind; rewrite ?Ht;
    unfold ConstProp.ReplaceUsesWith, Opcode_eqb;
    cbn [bool_decide decide_rel]; simpl output_type.
  - (* SignedDiv32 *)
    rewrite bool_decide_eq_true_2 by reflexivity.
    unfold cast_u32, cast_u64. change 32 with (bit_width U32).
    rewrite truncate_u64_then_width. reflexivity.
  - (* SignedDiv64 *)
    rewrite bool_decide_eq_false_2 by discriminate. reflexivity.
  - (* UnsignedDiv32 *)
    rewrite bool_decide_eq_true_2 by reflexivity. reflexivity.
  - (* UnsignedDiv64 *)
    rewrite bool_decide_eq_false_2 by discriminate.
    simpl in HX, HY. injection HX as <-. injection HY as <-.
    rewrite (Z.mod_small (Z.quot _ _)); [reflexivity|].
    apply unsigned_quotient_fits. exact Hne.
Qed.

Lemma division_of_immediates_folds_witness :
  constants_block !! 0%nat
  = Some (mkInst SignedDiv32 [VImm U32 4294967289; VImm U32 2] []) /\
  is_division SignedDiv32 = true /\
  division_operand SignedDiv32 (VImm U32 4294967289) = Some (-7) /\
  division_operand SignedDiv32 (VImm U32 2) = Some 2 /\
  2 <> 0 /\
  (-7 = - 2 ^ 63 -> 2 <> -1) /\
  exists b',
    ConstantPropagation_inst constants_block 0 = Some b' /\
    uses_replaced constants_block b' 0 (VImm U32 4294967293).
Proof.
  split; [reflexivity|]. split; [reflexivity|]. split; [reflexivity|].
  split; [reflexivity|]. split; [lia|]. split; [lia|].
  apply (division_of_immediates_folds constants_block 0
           (mkInst SignedDiv32 [VImm U32 4294967289; VImm U32 2] [])
           U32 U32 4294967289 2 (-7) 2); try reflexivity; lia.
Defined.

(** X22.  A division by the immediate one whose dividend is not an immediate
    is replaced by its dividend: every use of the instruction becomes the
    dividend. *)
Theorem division_by_one_folds (b : Block) (k : InstId) (inst : Inst)
    (lhs rhs : Value) :
  b !! k = Some inst ->
  is_division (opcode inst) = true ->
  GetArg inst 0 = Some lhs ->
  GetArg inst 1 = Some rhs ->
  IsImmediate lhs = false ->
  IsUnsignedImmediate rhs 1 = true ->
  exists b',
    ConstantPropagation_inst b k = Some b' /\ uses_replaced b b' k lhs.
Proof.
  intros Hk Hop H0 H1 Hl Hone.
  assert (IsZero rhs = false) as Hz.
  { unfold IsZero, IsUnsignedImmediate in *.
    destruct (GetImmediateAsU64 rhs) as [v|]; [|discriminate].
    apply Z.eqb_eq in Hone. subst v. reflexivity. }
  eexists. split; [|apply ReplaceUsesWith_replaced].
  unfold ConstantPropagation_inst. rewrite Hk. obind. cbv zeta.
  destruct (opcode inst) eqn:E; try discriminate Hop;
    unfold FoldDivide; rewrite Hk; obind; rewrite H1; obind; rewrite Hz;
    rewrite H0; obind; rewrite Hl, Hone; reflexivity.
Qed.

Lemma division_by_one_folds_witness :
  constants_block !! 8%nat
  = Some (mkInst UnsignedDiv64 [VInst 7; VImm U64 1] []) /\
  is_division UnsignedDiv64 = true /\
  IsImmediate (VInst 7) = false /\
  IsUnsignedImmediate (VImm U64 1) 1 = true /\
  exists b',
    ConstantPropagation_inst constants_block 8 = Some b' /\
    uses_replaced constants_block b' 8 (VInst 7).
Proof.
  split; [reflexivity|]. split; [reflexivity|]. split; [reflexivity|].
  split; [reflexivity|].
  apply (division_by_one_folds constants_block 8
           (mkInst UnsignedDiv64 [VInst 7; VImm U64 1] [])
           (VInst 7) (VImm U64 1)); reflexivity.
Defined.

(** ** Complement *)

Lemma widened_bounds (t : ImmType) (x : Z) :
  0 <= x mod 2 ^ bit_width t < 2 ^ 64.
Proof.
  pose proof (Z.mod_pos_bound x (2 ^ bit_width t)) as B.
  assert (0 < 2 ^ bit_width t <= 2 ^ 64) by (destruct t; simpl; lia). lia.
Qed.

Lemma complement_bits (X n : Z) :
  0 <= n < 64 ->
  Z.testbit (2 ^ 64 - 1 - X) n = negb (Z.testbit X n).
Proof.
  intros Hn. rewrite <- (Z.mod_pow2_bits_low (2 ^ 64 - 1 - X) 64 n) by lia.
  replace (2 ^ 64 - 1 - X) with (Z.lnot X + 1 * 2 ^ 64)
    by (unfold Z.lnot; lia).
  rewrite Z.mod_add by lia. rewrite Z.mod_pow2_bits_low by lia.
  apply Z.lnot_spec. lia.
Qed.

(** X23.  A [Not32] or [Not64] of an immediate is folded: every use of the
    instruction becomes an immediate of the output width of the opcode whose
    bits, below that width, are the complements of the bits of the
    operand. *)
Theorem not_of_immediate_folds (b : Block) (k : InstId) (inst : Inst)
    (t ta : ImmType) (x : Z) :
  b !! k = Some inst ->
  not_type (opcode inst) = Some t ->
  GetArg inst 0 = Some (VImm ta x) ->
  exists r,
    (exists b', ConstantPropagation_inst b k = Some b' /\
                uses_replaced b b' k (VImm t r)) /\
    0 <= r < 2 ^ bit_width t /\
    forall n, 0 <= n < bit_width t ->
              Z.testbit r n = negb (Z.testbit (x mod 2 ^ bit_width ta) n).
Proof.
  intros Hk Hop H0.
  pose proof (widened_bounds ta x) as HX.
  set (X := x mod 2 ^ bit_width ta) in *.
  assert (FoldNOT b k (Opcode_eqb (opcode inst) Not32)
          = Some (ConstProp.ReplaceUsesWith b k
                    (Opcode_eqb (opcode inst) Not32) (2 ^ 64 - 1 - X)))
    as Hfold.
  { unfold FoldNOT. rewrite Hk. obind. rewrite H0. obind. reflexivity. }
  unfold ConstantPropagation_inst. rewrite Hk. obind. cbv zeta.
  destruct (opcode inst) eqn:E; try discriminate Hop;
    apply Some_eq in Hop; subst t; rewrite Hfold;
    unfold ConstProp.ReplaceUsesWith, Opcode_eqb.
  - rewrite bool_decide_eq_true_2 by reflexivity.
    exists (cast_u32 (2 ^ 64 - 1 - X)). split; [|split].
    + eexists. split; [reflexivity|apply ReplaceUsesWith_replaced].
    + unfold cast_u32. simpl bit_width. apply Z.mod_pos_bound. lia.
    + intros n Hn. simpl bit_width in Hn. unfold cast_u32.
      rewrite Z.mod_pow2_bits_low by lia. apply complement_bits. lia.
  - rewrite bool_decide_eq_false_2 by discriminate.
    exists (2 ^ 64 - 1 - X). split; [|split].
    + eexists. split; [reflexivity|apply ReplaceUsesWith_replaced].
    + simpl bit_width. lia.
    + intros n Hn. apply complement_bits. exact Hn.
Qed.

Lemma not_of_immediate_folds_witness :
  constants_block !! 1%nat = Some (mkInst Not32 [VImm U32 255] []) /\
  not_type Not32 = Some U32 /\
  exists r,
    (exists b', ConstantPropagation_inst constants_block 1 = Some b' /\
                uses_replaced constants_block b' 1 (VImm U32 r)) /\
    0 <= r < 2 ^ bit_width U32 /\
    forall n, 0 <= n < bit_width U32 ->
              Z.testbit r n = negb (Z.testbit (255 mod 2 ^ bit_width U32) n).
Proof.
  split; [reflexivity|]. split; [reflexivity|].
  apply (not_of_immediate_folds constants_block 1
           (mkInst Not32 [VImm U32 255] []) U32 U32 255); reflexivity.
Defined.

(** ** The most significant word and bit *)

Lemma all_immediates_not_negb (inst : Inst) :
  AreAllArgsImmediates inst = true ->
  negb (AreAllArgsImmediates inst) = false.
Proof. intros ->. reflexivity. Qed.

(** X24.  A [MostSignificantWord] of an immediate is folded: every use of
    the instruction becomes the 32-bit immediate that holds bits 32 to 63 of
    the operand, and every use of its carry pseudo-operation, if it has one,
    becomes the 1-bit immediate that holds bit 31 of the operand. *)
Theorem most_significant_word_folds (b : Block) (k : InstId) (inst : Inst)
    (ta : ImmType) (x : Z) :
  b !! k = Some inst ->
  opcode inst = MostSignificantWord ->
  AreAllArgsImmediates inst = true ->
  GetArg inst 0 = Some (VImm ta x) ->
  let X := x mod 2 ^ bit_width ta in
  let hi := VImm U32 ((X / 2 ^ 32) mod 2 ^ 32) in
  match GetAssociatedPseudoOperation inst GetCarryFromOp with
  | Some c =>
      c <> k ->
      exists b',
        ConstantPropagation_inst b k = Some b' /\
        result_and_carry_replaced b b' k c hi
          (VImm U1 (if Z.testbit X 31 then 1 else 0))
  | None =>
      exists b',
        ConstantPropagation_inst b k = Some b' /\ uses_replaced b b' k hi
  end.
Proof.
  intros Hk Hop Hall H0 X hi.
  unfold ConstantPropagation_inst. rewrite Hk. obind. cbv zeta.
  rewrite Hop. unfold FoldMostSignificantWord. rewrite Hk. obind. cbv zeta.
  rewrite (all_immediates_not_negb inst Hall). rewrite H0. obind.
  cbn [GetImmediateAsU64]. obind. cbv zeta.
  fold X. rewrite Z.shiftr_div_pow2 by lia. unfold cast_u32. fold hi.
  destruct (GetAssociatedPseudoOperation inst GetCarryFromOp) as [c|].
  - intros Hc. eexists. split; [reflexivity|].
    apply two_replaced; try discriminate. congruence.
  - eexists. split; [reflexivity|]. apply ReplaceUsesWith_replaced.
Qed.

Lemma most_significant_word_folds_witness :
  constants_block !! 3%nat
  = Some (mkInst MostSignificantWord [VImm U64 81985529216486895]
                 [(GetCarryFromOp, 4%nat)]) /\
  4%nat <> 3%nat /\
  exists b',
    ConstantPropagation_inst constants_block 3 = Some b' /\
    result_and_carry_replaced constants_block b' 3 4
      (VImm U32 19088743) (VImm U1 1).
Proof.
  split; [reflexivity|]. split; [discriminate|].
  apply (most_significant_word_folds constants_block 3
           (mkInst MostSignificantWord [VImm U64 81985529216486895]
                   [(GetCarryFromOp, 4%nat)])
           U64 81985529216486895); try reflexivity. discriminate.
Defined.

(** X25.  A [MostSignificantBit] of an immediate is folded: every use of the
    instruction becomes the 1-bit immediate that tells whether the operand,
    widened to 64 bits, is at least 2^31.  For an operand of at most 32 bits
    this is its bit 31. *)
Theorem most_significant_bit_folds (b : Block) (k : InstId) (inst : Inst)
    (ta : ImmType) (x : Z) :
  b !! k = Some inst ->
  opcode inst = MostSignificantBit ->
  AreAllArgsImmediates inst = true ->
  GetArg inst 0 = Some (VImm ta x) ->
  let X := x mod 2 ^ bit_width ta in
  (exists b',
     ConstantPropagation_inst b k = Some b' /\
     uses_replaced b b' k (VImm U1 (if 2 ^ 31 <=? X then 1 else 0))) /\
  (bit_width ta <= 32 -> (2 ^ 31 <=? X) = Z.testbit X 31).
Proof.
  intros Hk Hop Hall H0 X.
  assert (0 <= X < 2 ^ bit_width ta) as HX.
  { apply Z.mod_pos_bound. destruct ta; simpl; lia. }
  split.
  - unfold ConstantPropagation_inst. rewrite Hk. obind. cbv zeta.
    rewrite Hop. unfold FoldMostSignificantBit. rewrite Hk. obind.
    rewrite (all_immediates_not_negb inst Hall). rewrite H0. obind.
    cbn [GetImmediateAsU64]. obind.
    fold X. eexists. split; [reflexivity|].
    assert (negb (Z.shiftr X 31 =? 0) = (2 ^ 31 <=? X)) as ->.
    { rewrite Z.shiftr_div_pow2 by lia.
      destruct (Z.leb_spec (2 ^ 31) X) as [Hge|Hlt].
      - apply negb_true_iff, Z.eqb_neq. intros E.
        apply Z.div_small_iff in E; lia.
      - apply negb_false_iff, Z.eqb_eq, Z.div_small. lia. }
    unfold of_bool. apply ReplaceUsesWith_replaced.
  - intros Hw.
    assert (X < 2 ^ 32).
    { assert (2 ^ bit_width ta <= 2 ^ 32)
        by (apply Z.pow_le_mono_r; lia). lia. }
    destruct (Z.leb_spec (2 ^ 31) X) as [Hge|Hlt]; symmetry.
    + apply Z.testbit_true; [lia|].
      replace (X / 2 ^ 31) with 1; [reflexivity|].
      apply Z.div_unique with (r := X - 2 ^ 31); lia.
    + rewrite <- (Z.mod_small X (2 ^ 31)) by lia.
      apply Z.mod_pow2_bits_high. lia.
Qed.

Lemma most_significant_bit_folds_witness :
  constants_block !! 14%nat
  = Some (mkInst MostSignificantBit [VImm U32 2147483648] []) /\
  (exists b',
     ConstantPropagation_inst constants_block 14 = Some b' /\
     uses_replaced constants_block b' 14 (VImm U1 1)) /\
  (bit_width U32 <= 32 ->
   (2 ^ 31 <=? 2147483648 mod 2 ^ bit_width U32)
   = Z.testbit (2147483648 mod 2 ^ bit_width U32) 31).
Proof.
  split; [reflexivity|].
  apply (most_significant_bit_folds constants_block 14
           (mkInst MostSignificantBit [VImm U32 2147483648] [])
           U32 2147483648); reflexivity.
Defined.

(** ** Extension *)

(** The bits of a [w]-bit integer read as a signed one: bit [w-1] repeats
    upwards. *)
Lemma signed_reading_bits (w u n : Z) :
  0 < w -> 0 <= u < 2 ^ w -> 0 <= n ->
  Z.testbit (if 2 ^ (w - 1) <=? u then u - 2 ^ w else u) n
  = Z.testbit u (Z.min n (w - 1)).
Proof.
  intros Hw Hu Hn.
  assert (2 ^ w = 2 * 2 ^ (w - 1)) as Hpow.
  { rewrite <- Z.pow_succ_r by lia. f_equal. lia. }
  assert (0 < 2 ^ (w - 1)) as Hpos by (apply Z.pow_pos_nonneg; lia).
  destruct (Z.lt_ge_cases n w) as [Hlow|Hhigh].
  - rewrite Z.min_l by lia.
    destruct (2 ^ (w - 1) <=? u); [|reflexivity].
    rewrite <- (Z.mod_pow2_bits_low (u - 2 ^ w) w n) by lia.
    replace (u - 2 ^ w) with (u + (-1) * 2 ^ w) by lia.
    rewrite Z.mod_add by lia. apply Z.mod_pow2_bits_low. lia.
  - rewrite Z.min_r by lia.
    destruct (Z.leb_spec (2 ^ (w - 1)) u) as [Hneg|Hnonneg].
    + transitivity true.
      * apply Z.bits_iff_neg; [|lia].
        apply Z.log2_lt_pow2; [lia|].
        assert (2 ^ w <= 2 ^ n) by (apply Z.pow_le_mono_r; lia). lia.
      * symmetry. apply Z.testbit_true; [lia|].
        replace (u / 2 ^ (w - 1)) with 1; [reflexivity|].
        apply Z.div_unique with (r := u - 2 ^ (w - 1)); lia.
    + transitivity false.
      * rewrite <- (Z.mod_small u (2 ^ w)) by lia.
        apply Z.mod_pow2_bits_high. lia.
      * symmetry. rewrite <- (Z.mod_small u (2 ^ (w - 1))) by lia.
        apply Z.mod_pow2_bits_high. lia.
Qed.

Lemma GetImmediateAsS64_bits (t : ImmType) (x n : Z) :
  t <> U1 -> 0 <= n ->
  exists s, GetImmediateAsS64 (VImm t x) = Some s /\
            Z.testbit s n
            = Z.testbit (x mod 2 ^ bit_width t) (Z.min n (bit_width t - 1)).
Proof.
  intros Ht Hn.
  assert (0 < bit_width t) as Hw by (destruct t; simpl; lia).
  pose proof (Z.mod_pos_bound x (2 ^ bit_width t)
                ltac:(apply Z.pow_pos_nonneg; lia)) as Hu.
  destruct t; try contradiction; simpl GetImmediateAsS64;
    (eexists; split; [reflexivity|]);
    apply (signed_reading_bits _ _ n Hw Hu Hn).
Qed.

(** X26.  An extension of an immediate is folded: every use of the
    instruction becomes an immediate of the output width of the opcode.
    Below that width its bits are those of the operand, continued upwards by
    zeros for a zero extension, and by the top bit of the operand for a sign
    extension (a 1-bit operand has no sign and is continued by zeros). *)
Theorem extension_of_immediate_folds (b : Block) (k : InstId) (inst : Inst)
    (signed : bool) (t ta : ImmType) (x : Z) :
  b !! k = Some inst ->
  extension (opcode inst) = Some (signed, t) ->
  AreAllArgsImmediates inst = true ->
  GetArg inst 0 = Some (VImm ta x) ->
  let X := x mod 2 ^ bit_width ta in
  exists r,
    (exists b', ConstantPropagation_inst b k = Some b' /\
                uses_replaced b b' k (VImm t r)) /\
    0 <= r < 2 ^ bit_width t /\
    forall n, 0 <= n < bit_width t ->
      Z.testbit r n
      = if signed && negb (bool_decide (ta = U1))
        then Z.testbit X (Z.min n (bit_width ta - 1))
        else Z.testbit X n.
Proof.
  intros Hk Hop Hall H0 X.
  pose proof (widened_bounds ta x) as HX. fold X in HX.
  assert (forall get cast s,
            get (VImm ta x) = Some s ->
            FoldExtend get t cast b k
            = Some (IR.ReplaceUsesWith b k (VImm t (cast s)))) as Hfold.
  { intros get cast s Hs. unfold FoldExtend. rewrite Hk. obind.
    rewrite (all_immediates_not_negb inst Hall). rewrite H0. obind.
    rewrite Hs. obind. reflexivity. }
  assert (forall s, (forall n, 0 <= n ->
                       Z.testbit s n
                       = if signed && negb (bool_decide (ta = U1))
                         then Z.testbit X (Z.min n (bit_width ta - 1))
                         else Z.testbit X n) ->
                    0 <= s mod 2 ^ bit_width t < 2 ^ bit_width t /\
                    forall n, 0 <= n < bit_width t ->
                      Z.testbit (s mod 2 ^ bit_width t) n
                      = if signed && negb (bool_decide (ta = U1))
                        then Z.testbit X (Z.min n (bit_width ta - 1))
                        else Z.testbit X n) as Hcast.
  { intros s Hs. split.
    - apply Z.mod_pos_bound. destruct t; simpl; lia.
    - intros n Hn. rewrite Z.mod_pow2_bits_low by lia. apply Hs. lia. }
  assert (exists s, GetImmediateAsS64 (VImm ta x) = Some s /\
                    forall n, 0 <= n ->
                      Z.testbit s n
                      = if negb (bool_decide (ta = U1))
                        then Z.testbit X (Z.min n (bit_width ta - 1))
                        else Z.testbit X n) as (s & Hs & Hsbits).
  { destruct (decide (ta = U1)) as [->|Hne].
    - exists X. split; [reflexivity|]. intros n Hn. reflexivity.
    - rewrite (bool_decide_eq_false_2 _ Hne). simpl negb. cbv iota.
      destruct (GetImmediateAsS64_bits ta x 0 Hne) as (s & Hs & _); [lia|].
      exists s. split; [exact Hs|]. intros n Hn.
      destruct (GetImmediateAsS64_bits ta x n Hne Hn) as (s' & Hs' & Hb).
      rewrite Hs in Hs'. apply Some_eq in Hs'. subst s'. exact Hb. }
  unfold ConstantPropagation_inst. rewrite Hk. obind. cbv zeta.
  destruct (opcode inst) eqn:E; try discriminate Hop;
    apply Some_eq in Hop; apply pair_equal_spec in Hop;
    destruct Hop as [<- <-];
    unfold FoldSignExtendXToWord, FoldSignExtendXToLong,
      FoldZeroExtendXToWord, FoldZeroExtendXToLong;
    first [ rewrite (Hfold GetImmediateAsS64 _ s Hs)
          | rewrite (Hfold GetImmediateAsU64 _ X eq_refl) ];
    unfold cast_u32, cast_u64, id;
    try (eexists; split;
         [eexists; split; [reflexivity|apply ReplaceUsesWith_replaced]|];
         first [ exact (Hcast s Hsbits)
               | exact (Hcast X (fun n _ => eq_refl)) ]).
  all: exists X; split;
    [eexists; split; [reflexivity|apply ReplaceUsesWith_replaced]|];
    split; [simpl bit_width; lia|]; intros n Hn; reflexivity.
Qed.

Lemma extension_of_immediate_folds_witness :
  constants_block !! 5%nat
  = Some (mkInst SignExtendByteToWord [VImm U8 128] []) /\
  extension SignExtendByteToWord = Some (true, U32) /\
  exists r,
    (exists b', ConstantPropagation_inst constants_block 5 = Some b' /\
                uses_replaced constants_block b' 5 (VImm U32 r)) /\
    0 <= r < 2 ^ bit_width U32 /\
    forall n, 0 <= n < bit_width U32 ->
      Z.testbit r n
      = if true && negb (bool_decide (U8 = U1))
        then Z.testbit (128 mod 2 ^ bit_width U8)
                       (Z.min n (bit_width U8 - 1))
        else Z.testbit (128 mod 2 ^ bit_width U8) n.
Proof.
  split; [reflexivity|]. split; [reflexivity|].
  apply (extension_of_immediate_folds constants_block 5
           (mkInst SignExtendByteToWord [VImm U8 128] [])
           true U32 U8 128); reflexivity.
Defined.

(** ** Byte reversal *)

Lemma testbit_255 (n : Z) : 0 <= n -> Z.testbit 255 n = (n <? 8).
Proof.
  intros Hn. change 255 with (Z.ones 8).
  destruct (Z.ltb_spec n 8).
  - apply Z.ones_spec_low. lia.
  - apply Z.ones_spec_high. lia.
Qed.

Lemma byte_of_bits (x i n : Z) :
  0 <= i -> 0 <= n ->
  Z.testbit (byte_of x i) n = (n <? 8) && Z.testbit x (n + 8 * i).
Proof.
  intros Hi Hn. unfold byte_of.
  rewrite Z.land_spec, testbit_255, Z.shiftr_spec by lia.
  apply andb_comm.
Qed.

Lemma byte_of_nonneg (x i : Z) : 0 <= byte_of x i.
Proof. unfold byte_of. apply Z.land_nonneg. right. lia. Qed.

Lemma testbit_at (x n m : Z) : n = m -> Z.testbit x n = Z.testbit x m.
Proof. intros ->. reflexivity. Qed.

Lemma Swap16_bits (x n : Z) :
  0 <= n ->
  Z.testbit (Swap16 x) n
  = if n <? 8 then Z.testbit x (n + 8)
    else if n <? 16 then Z.testbit x (n - 8) else false.
Proof.
  intros Hn. unfold Swap16. rewrite Z.lor_spec, Z.shiftl_spec by lia.
  rewrite (byte_of_bits x 1 n) by lia.
  destruct (Z.ltb_spec n 8) as [H8|H8].
  - rewrite Z.testbit_neg_r by lia. simpl. apply testbit_at. lia.
  - rewrite (byte_of_bits x 0 (n - 8)) by lia. simpl.
    rewrite orb_false_r.
    destruct (Z.ltb_spec n 16) as [H16|H16].
    + replace (n - 8 <? 8) with true by (symmetry; apply Z.ltb_lt; lia).
      simpl. apply testbit_at. lia.
    + replace (n - 8 <? 8) with false by (symmetry; apply Z.ltb_ge; lia).
      reflexivity.
Qed.

Lemma Swap16_nonneg (x : Z) : 0 <= Swap16 x.
Proof.
  unfold Swap16. apply Z.lor_nonneg. split.
  - apply Z.shiftl_nonneg, byte_of_nonneg.
  - apply byte_of_nonneg.
Qed.

Lemma Swap32_bits (x n : Z) :
  0 <= n ->
  Z.testbit (Swap32 x) n
  = if n <? 16 then Z.testbit (Swap16 (Z.shiftr x 16)) n
    else Z.testbit (Swap16 x) (n - 16).
Proof.
  intros Hn. unfold Swap32. rewrite Z.lor_spec, Z.shiftl_spec by lia.
  destruct (Z.ltb_spec n 16) as [H16|H16].
  - rewrite Z.testbit_neg_r by lia. reflexivity.
  - rewrite (Swap16_bits (Z.shiftr x 16) n) by lia.
    replace (n <? 8) with false by (symmetry; apply Z.ltb_ge; lia).
    replace (n <? 16) with false by (symmetry; apply Z.ltb_ge; lia).
    apply orb_false_r.
Qed.

Lemma Swap32_nonneg (x : Z) : 0 <= Swap32 x.
Proof.
  unfold Swap32. apply Z.lor_nonneg. split.
  - apply Z.shiftl_nonneg, Swap16_nonneg.
  - apply Swap16_nonneg.
Qed.

Lemma Swap64_bits (x n : Z) :
  0 <= n ->
  Z.testbit (Swap64 x) n
  = if n <? 32 then Z.testbit (Swap32 (Z.shiftr x 32)) n
    else Z.testbit (Swap32 x) (n - 32).
Proof.
  intros Hn. unfold Swap64. rewrite Z.lor_spec, Z.shiftl_spec by lia.
  destruct (Z.ltb_spec n 32) as [H32|H32].
  - rewrite Z.testbit_neg_r by lia. reflexivity.
  - rewrite (Swap32_bits (Z.shiftr x 32) n) by lia.
    replace (n <? 16) with false by (symmetry; apply Z.ltb_ge; lia).
    rewrite (Swap16_bits _ (n - 16)) by lia.
    replace (n - 16 <? 8) with false by (symmetry; apply Z.ltb_ge; lia).
    replace (n - 16 <? 16) with false by (symmetry; apply Z.ltb_ge; lia).
    apply orb_false_r.
Qed.

Lemma Swap64_nonneg (x : Z) : 0 <= Swap64 x.
Proof.
  unfold Swap64. apply Z.lor_nonneg. split.
  - apply Z.shiftl_nonneg, Swap32_nonneg.
  - apply Swap32_nonneg.
Qed.

Lemma Swap16_mirror (x n : Z) :
  0 <= n ->
  Z.testbit (Swap16 x) n
  = if n <? 16 then Z.testbit x (8 * (1 - n / 8) + n mod 8) else false.
Proof.
  intros Hn. rewrite Swap16_bits by lia.
  destruct (Z.ltb_spec n 8); destruct (Z.ltb_spec n 16); try lia;
    try reflexivity; apply testbit_at; Z.div_mod_to_equations; lia.
Qed.

Lemma Swap32_mirror (x n : Z) :
  0 <= n ->
  Z.testbit (Swap32 x) n
  = if n <? 32 then Z.testbit x (8 * (3 - n / 8) + n mod 8) else false.
Proof.
  intros Hn. rewrite Swap32_bits by lia.
  destruct (Z.ltb_spec n 16).
  - rewrite Swap16_mirror by lia.
    replace (n <? 16) with true by (symmetry; apply Z.ltb_lt; lia).
    replace (n <? 32) with true by (symmetry; apply Z.ltb_lt; lia).
    rewrite Z.shiftr_spec by (Z.div_mod_to_equations; lia).
    apply testbit_at. Z.div_mod_to_equations. lia.
  - rewrite Swap16_mirror by lia.
    destruct (Z.ltb_spec n 32).
    + replace (n - 16 <? 16) with true by (symmetry; apply Z.ltb_lt; lia).
      apply testbit_at. Z.div_mod_to_equations. lia.
    + replace (n - 16 <? 16) with false by (symmetry; apply Z.ltb_ge; lia).
      reflexivity.
Qed.

Lemma Swap64_mirror (x n : Z) :
  0 <= n ->
  Z.testbit (Swap64 x) n
  = if n <? 64 then Z.testbit x (8 * (7 - n / 8) + n mod 8) else false.
Proof.
  intros Hn. rewrite Swap64_bits by lia.
  destruct (Z.ltb_spec n 32).
  - rewrite Swap32_mirror by lia.
    replace (n <? 32) with true by (symmetry; apply Z.ltb_lt; lia).
    replace (n <? 64) with true by (symmetry; apply Z.ltb_lt; lia).
    rewrite Z.shiftr_spec by (Z.div_mod_to_equations; lia).
    apply testbit_at. Z.div_mod_to_equations. lia.
  - rewrite Swap32_mirror by lia.
    destruct (Z.ltb_spec n 64).
    + replace (n - 32 <? 32) with true by (symmetry; apply Z.ltb_lt; lia).
      apply testbit_at. Z.div_mod_to_equations. lia.
    + replace (n - 32 <? 32) with false by (symmetry; apply Z.ltb_ge; lia).
      reflexivity.
Qed.

(** A reversal mirrors the bytes and fits the width, given what its bits
    are. *)
Lemma mirror_reverses_bytes (bytes : Z) (swapped x : Z) :
  0 < bytes -> 0 <= swapped ->
  (forall n, 0 <= n ->
     Z.testbit swapped n
     = if n <? 8 * bytes
       then Z.testbit x (8 * (bytes - 1 - n / 8) + n mod 8) else false) ->
  0 <= swapped < 2 ^ (8 * bytes) /\
  forall i, 0 <= i < bytes ->
            byte_of swapped i = byte_of x (bytes - 1 - i).
Proof.
  intros Hb Hnn Hbits. split.
  - rewrite <- (mod_pow2_small_bits swapped (8 * bytes)); [| lia | exact Hnn |].
    + apply Z.mod_pos_bound. apply Z.pow_pos_nonneg; lia.
    + intros m Hm. rewrite Hbits by lia.
      replace (m <? 8 * bytes) with false
        by (symmetry; apply Z.ltb_ge; lia).
      reflexivity.
  - intros i Hi. apply Z.bits_inj'. intros n Hn.
    rewrite !byte_of_bits by lia.
    destruct (Z.ltb_spec n 8); [|reflexivity]. simpl.
    rewrite Hbits by lia.
    replace (n + 8 * i <? 8 * bytes) with true
      by (symmetry; apply Z.ltb_lt; lia).
    apply testbit_at. Z.div_mod_to_equations. lia.
Qed.

Lemma byte_of_truncated (x w i : Z) :
  0 <= i -> 8 * i + 8 <= w ->
  byte_of (x mod 2 ^ w) i = byte_of x i.
Proof.
  intros Hi Hw. apply Z.bits_inj'. intros n Hn.
  rewrite !byte_of_bits by lia.
  destruct (Z.ltb_spec n 8); [|reflexivity]. simpl.
  apply Z.mod_pow2_bits_low. lia.
Qed.

(** X27.  A byte reversal of an immediate is folded: every use of the
    instruction becomes an immediate of the width of the opcode (16, 32 or
    64 bits) whose byte [i] is the byte of the operand at the mirrored
    place. *)
Theorem byte_reverse_of_immediate_folds (b : Block) (k : InstId)
    (inst : Inst) (t ta : ImmType) (x : Z) :
  b !! k = Some inst ->
  byte_reverse_type (opcode inst) = Some t ->
  GetArg inst 0 = Some (VImm ta x) ->
  let X := x mod 2 ^ bit_width ta in
  let bytes := bit_width t / 8 in
  exists r,
    (exists b', ConstantPropagation_inst b k = Some b' /\
                uses_replaced b b' k (VImm t r)) /\
    0 <= r < 2 ^ bit_width t /\
    forall i, 0 <= i < bytes -> byte_of r i = byte_of X (bytes - 1 - i).
Proof.
  intros Hk Hop H0 X bytes.
  assert (forall op, FoldByteReverse b k op
          = if Opcode_eqb op ByteReverseWord then
              Some (IR.ReplaceUsesWith b k (VImm U32 (Swap32 (cast_u32 X))))
            else if Opcode_eqb op ByteReverseHalf then
              Some (IR.ReplaceUsesWith b k (VImm U16 (Swap16 (cast_u16 X))))
            else Some (IR.ReplaceUsesWith b k (VImm U64 (Swap64 X))))
    as Hfold.
  { intros op. unfold FoldByteReverse. rewrite Hk. obind. rewrite H0. obind.
    reflexivity. }
  unfold ConstantPropagation_inst. rewrite Hk. obind. cbv zeta.
  destruct (opcode inst) eqn:E; try discriminate Hop;
    apply Some_eq in Hop; subst t; rewrite Hfold; unfold Opcode_eqb;
    cbn [bool_decide decide_rel]; subst bytes; simpl bit_width.
  - rewrite bool_decide_eq_true_2 by reflexivity.
    destruct (mirror_reverses_bytes 4 (Swap32 (cast_u32 X)) (cast_u32 X))
      as [Hr Hbytes]; [lia|apply Swap32_nonneg|apply Swap32_mirror|].
    eexists. split; [eexists; split;
                       [reflexivity|apply ReplaceUsesWith_replaced]|].
    split; [exact Hr|]. change (32 / 8) with 4. intros i Hi.
    rewrite Hbytes by lia. apply byte_of_truncated; lia.
  - rewrite bool_decide_eq_false_2 by discriminate.
    rewrite bool_decide_eq_true_2 by reflexivity.
    destruct (mirror_reverses_bytes 2 (Swap16 (cast_u16 X)) (cast_u16 X))
      as [Hr Hbytes]; [lia|apply Swap16_nonneg|apply Swap16_mirror|].
    eexists. split; [eexists; split;
                       [reflexivity|apply ReplaceUsesWith_replaced]|].
    split; [exact Hr|]. change (16 / 8) with 2. intros i Hi.
    rewrite Hbytes by lia. apply byte_of_truncated; lia.
  - rewrite !bool_decide_eq_false_2 by discriminate.
    destruct (mirror_reverses_bytes 8 (Swap64 X) X)
      as [Hr Hbytes]; [lia|apply Swap64_nonneg|apply Swap64_mirror|].
    eexists. split; [eexists; split;
                       [reflexivity|apply ReplaceUsesWith_replaced]|].
    split; [exact Hr|]. change (64 / 8) with 8. exact Hbytes.
Qed.

Lemma byte_reverse_of_immediate_folds_witness :
  constants_block !! 6%nat
  = Some (mkInst ByteReverseWord [VImm U32 305419896] []) /\
  byte_reverse_type ByteReverseWord = Some U32 /\
  exists r,
    (exists b', ConstantPropagation_inst constants_block 6 = Some b' /\
                uses_replaced constants_block b' 6 (VImm U32 r)) /\
    0 <= r < 2 ^ bit_width U32 /\
    forall i, 0 <= i < bit_width U32 / 8 ->
              byte_of r i
              = byte_of (305419896 mod 2 ^ bit_width U32)
                        (bit_width U32 / 8 - 1 - i).
Proof.
  split; [reflexivity|]. split; [reflexivity|].
  apply (byte_reverse_of_immediate_folds constants_block 6
           (mkInst ByteReverseWord [VImm U32 305419896] [])
           U32 U32 305419896); reflexivity.
Defined.

(** ** Rewriting the operands of an instruction *)

Lemma SetArg_at (b : Block) (k i : nat) (inst : Inst) (v : Value) :
  b !! k = Some inst -> (i < NumArgs inst)%nat ->
  SetArg b k i v = Some (<[k := with_arg inst i v]> b).
Proof.
  intros Hk Hi. unfold SetArg. rewrite Hk. obind.
  destruct (decide (i < NumArgs inst)%nat); [reflexivity|contradiction].
Qed.

Lemma SetArg_both (b : Block) (k : nat) (inst : Inst) (v0 v1 : Value) :
  b !! k = Some inst -> (2 <= NumArgs inst)%nat ->
  (b' ← SetArg b k 0 v0; SetArg b' k 1 v1)
  = Some (<[k := with_arg (with_arg inst 0 v0) 1 v1]> b).
Proof.
  intros Hk Hn.
  assert (k < length b)%nat as Hlt by (eapply lookup_lt_Some; eauto).
  rewrite (SetArg_at b k 0 inst v0 Hk) by lia. obind.
  rewrite (SetArg_at _ k 1 (with_arg inst 0 v0) v1).
  - rewrite list_insert_insert_eq. reflexivity.
  - apply list_lookup_insert_eq, Hlt.
  - rewrite NumArgs_with_arg. lia.
Qed.

Lemma with_arg_same (inst : Inst) (i : nat) (a : Value) :
  GetArg inst i = Some a -> with_arg inst i a = inst.
Proof.
  unfold GetArg, with_arg. intros H. rewrite list_insert_id by exact H.
  destruct inst. reflexivity.
Qed.

Lemma both_args_same (b : Block) (k : nat) (inst : Inst) (a0 a1 : Value) :
  b !! k = Some inst -> GetArg inst 0 = Some a0 -> GetArg inst 1 = Some a1 ->
  <[k := with_arg (with_arg inst 0 a0) 1 a1]> b = b.
Proof.
  intros Hk H0 H1. rewrite (with_arg_same inst 0 a0 H0).
  rewrite (with_arg_same inst 1 a1 H1). apply list_insert_id, Hk.
Qed.

(** X28.  A three-operand shift whose carry nobody reads gets the immediate
    false as its carry-in operand, even when its shift amount is not zero
    and nothing is folded: the step returns the block with that one operand
    overwritten. *)
Theorem shift_without_carry_reader (b : Block) (k : InstId) (inst : Inst)
    (amount : Value) :
  b !! k = Some inst ->
  is_shift (opcode inst) = true ->
  NumArgs inst = 3%nat ->
  GetAssociatedPseudoOperation inst GetCarryFromOp = None ->
  GetArg inst 1 = Some amount ->
  IsZero amount = false ->
  ConstantPropagation_inst b k
  = Some (<[k := with_arg inst 2 (VImm U1 0)]> b).
Proof.
  intros Hk Hop Hn Hc H1 Hz.
  assert (k < length b)%nat as Hlt by (eapply lookup_lt_Some; eauto).
  assert (FoldShifts b k = Some (<[k := with_arg inst 2 (VImm U1 0)]> b))
    as Hfold.
  { unfold FoldShifts. rewrite Hk. obind. cbv zeta. rewrite Hc, Hn.
    cbn [Nat.eqb andb negb]. rewrite bool_decide_eq_false_2
      by (intros [? ?]; discriminate).
    cbn [negb]. rewrite (SetArg_at b k 2 inst (of_bool false) Hk) by lia.
    obind. rewrite list_lookup_insert_eq by exact Hlt. obind.
    rewrite (GetArg_with_arg_ne inst 2 1) by discriminate. rewrite H1.
    obind. rewrite Hz. reflexivity. }
  unfold ConstantPropagation_inst. rewrite Hk. obind. cbv zeta.
  destruct (opcode inst); try discriminate Hop; exact Hfold.
Qed.

Lemma shift_without_carry_reader_witness :
  constants_block !! 10%nat
  = Some (mkInst LogicalShiftLeft32 [VInst 7; VImm U8 3; VInst 7] []) /\
  is_shift LogicalShiftLeft32 = true /\
  IsZero (VImm U8 3) = false /\
  ConstantPropagation_inst constants_block 10
  = Some (<[10%nat := with_arg
                        (mkInst LogicalShiftLeft32
                                [VInst 7; VImm U8 3; VInst 7] [])
                        2 (VImm U1 0)]> constants_block).
Proof.
  split; [reflexivity|]. split; [reflexivity|]. split; [reflexivity|].
  apply (shift_without_carry_reader constants_block 10
           (mkInst LogicalShiftLeft32 [VInst 7; VImm U8 3; VInst 7] [])
           (VImm U8 3)); reflexivity.
Defined.

(** ** One immediate operand of a commutative operation *)

Lemma Opcode_eqb_true (o o' : Opcode) : o = o' -> Opcode_eqb o o' = true.
Proof. intros ->. unfold Opcode_eqb. apply bool_decide_eq_true_2. reflexivity. Qed.

Lemma Opcode_eqb_false (o o' : Opcode) : o <> o' -> Opcode_eqb o o' = false.
Proof. intros H. unfold Opcode_eqb. apply bool_decide_eq_false_2, H. Qed.

(** The immediate meets the immediate of the operand instruction: the two
    are combined and the instruction takes the other operand of the operand
    instruction. *)
Lemma FoldCommutative_fuses (b : Block) (k r : nat) (inst inst_r : Inst)
    (w : bool) (f : Z -> Z -> Z) (tb tc : ImmType) (y c : Z) (z : Value) :
  b !! k = Some inst ->
  (GetArg inst 0 = Some (VInst r) /\ GetArg inst 1 = Some (VImm tb y)) \/
  (GetArg inst 0 = Some (VImm tb y) /\ GetArg inst 1 = Some (VInst r)) ->
  b !! r = Some inst_r -> opcode inst_r = opcode inst ->
  GetArg inst_r 0 = Some z -> GetArg inst_r 1 = Some (VImm tc c) ->
  FoldCommutative b k w f
  = Some (<[k := with_arg (with_arg inst 0 z) 1
                   (Value_ w (f (y mod 2 ^ bit_width tb)
                                (c mod 2 ^ bit_width tc)))]> b, true).
Proof.
  intros Hk Hargs Hr Hop Hz Hc.
  pose proof (Opcode_eqb_true _ _ Hop) as Heq.
  assert (2 <= NumArgs inst)%nat as Hn.
  { destruct Hargs as [[_ H1]|[_ H1]]; apply GetArg_lt in H1; lia. }
  unfold FoldCommutative. rewrite Hk. obind.
  destruct Hargs as [[H0 H1]|[H0 H1]]; rewrite H0; obind; rewrite H1; obind;
    cbn [IsImmediate andb negb GetInstRecursive]; cbv zeta; obind;
    rewrite Hr; obind; rewrite Heq, Hc; obind;
    cbn [IsImmediate GetImmediateAsU64]; obind; rewrite Hz; obind;
    rewrite (SetArg_both b k inst _ _ Hk Hn); reflexivity.
Qed.

(** The immediate does not meet another one: it goes, or stays, on the
    right. *)
Lemma FoldCommutative_normalizes (b : Block) (k r : nat)
    (inst inst_r : Inst) (w : bool) (f : Z -> Z -> Z) (imm : Value) :
  b !! k = Some inst ->
  (GetArg inst 0 = Some (VInst r) /\ GetArg inst 1 = Some imm) \/
  (GetArg inst 0 = Some imm /\ GetArg inst 1 = Some (VInst r)) ->
  IsImmediate imm = true ->
  b !! r = Some inst_r ->
  opcode inst_r <> opcode inst \/
  (exists c, GetArg inst_r 1 = Some c /\ IsImmediate c = false) ->
  FoldCommutative b k w f
  = Some (<[k := with_arg (with_arg inst 0 (VInst r)) 1 imm]> b, true).
Proof.
  intros Hk Hargs Himm Hr Hplain.
  assert (2 <= NumArgs inst)%nat as Hn.
  { destruct Hargs as [[_ H1]|[_ H1]]; apply GetArg_lt in H1; lia. }
  unfold FoldCommutative. rewrite Hk. obind.
  destruct Hargs as [[H0 H1]|[H0 H1]]; rewrite H0; obind; rewrite H1; obind;
    rewrite Himm; cbn [IsImmediate andb negb GetInstRecursive]; cbv zeta;
    obind; rewrite Hr; obind.
  - rewrite (both_args_same b k inst _ _ Hk H0 H1).
    destruct Hplain as [Hne|(c & Hc & Hi)].
    + rewrite (Opcode_eqb_false _ _ Hne). reflexivity.
    + destruct (Opcode_eqb (opcode inst_r) (opcode inst)); [|reflexivity].
      rewrite Hc. obind. rewrite Hi. reflexivity.
  - destruct Hplain as [Hne|(c & Hc & Hi)].
    + rewrite (Opcode_eqb_false _ _ Hne).
      rewrite (SetArg_both b k inst _ _ Hk Hn). reflexivity.
    + destruct (Opcode_eqb (opcode inst_r) (opcode inst)).
      * rewrite Hc. obind. rewrite Hi.
        rewrite (SetArg_both b k inst _ _ Hk Hn). reflexivity.
      * rewrite (SetArg_both b k inst _ _ Hk Hn). reflexivity.
Qed.

(** What the four folders do once [FoldCommutative] has returned true. *)
Lemma commutative_tail (b b1 : Block) (k : nat) (inst1 : Inst)
    (w : bool) (a0 a1 : Value) :
  b1 !! k = Some inst1 ->
  GetArg inst1 0 = Some a0 -> GetArg inst1 1 = Some a1 ->
  (FoldCommutative b k w imm_and = Some (b1, true) ->
   FoldAND b k w
   = if IsZero a1 then Some (ConstProp.ReplaceUsesWith b1 k w 0)
     else if HasAllBitsSet a1 then Some (IR.ReplaceUsesWith b1 k a0)
     else Some b1) /\
  (FoldCommutative b k w imm_mul = Some (b1, true) ->
   FoldMultiply b k w
   = if IsZero a1 then Some (ConstProp.ReplaceUsesWith b1 k w 0)
     else if IsUnsignedImmediate a1 1 then Some (IR.ReplaceUsesWith b1 k a0)
     else Some b1) /\
  (FoldCommutative b k w imm_eor = Some (b1, true) ->
   FoldEOR b k w
   = if IsZero a1 then Some (IR.ReplaceUsesWith b1 k a0) else Some b1) /\
  (FoldCommutative b k w imm_or = Some (b1, true) ->
   FoldOR b k w
   = if IsZero a1 then Some (IR.ReplaceUsesWith b1 k a0) else Some b1).
Proof.
  intros Hk H0 H1.
  repeat split; intros Hc;
    unfold FoldAND, FoldMultiply, FoldEOR, FoldOR; rewrite Hc; obind;
    rewrite Hk; obind; rewrite H1; obind;
    destruct (IsZero a1); try reflexivity;
    try (destruct (HasAllBitsSet a1)); try (destruct (IsUnsignedImmediate a1 1));
    rewrite ?H0; reflexivity.
Qed.

Lemma width_zero (w : bool) (b : Block) (k : nat) :
  ConstProp.ReplaceUsesWith b k w 0
  = IR.ReplaceUsesWith b k (VImm (if w then U32 else U64) 0).
Proof. unfold ConstProp.ReplaceUsesWith. destruct w; reflexivity. Qed.

Lemma arg_at_insert_ne (b : Block) (k j p : nat) (inst : Inst) :
  j <> k -> arg_at (<[k := inst]> b) j p = arg_at b j p.
Proof.
  intros Hne. unfold arg_at. rewrite list_lookup_insert_ne by congruence.
  reflexivity.
Qed.

(** Replacing the uses of [k] in a block that differs from [b] at [k] only
    folds [k] to the value. *)
Lemma folded_to_after_rewrite (b : Block) (k : nat) (inst2 : Inst)
    (v : Value) :
  v <> VInst k ->
  folded_to b (IR.ReplaceUsesWith (<[k := inst2]> b) k v) k v.
Proof.
  intros Hv. split; [|split; [|split]].
  - unfold IR.ReplaceUsesWith. rewrite length_fmap. apply length_insert.
  - intros j p Hj Ha. rewrite arg_at_ReplaceUsesWith.
    rewrite arg_at_insert_ne by exact Hj. rewrite Ha. simpl.
    rewrite Nat.eqb_refl. reflexivity.
  - intros j p a Hj Ha Hne. rewrite arg_at_ReplaceUsesWith.
    rewrite arg_at_insert_ne by exact Hj. rewrite Ha. simpl.
    rewrite subst_value_other by exact Hne. reflexivity.
  - apply use_count_ReplaceUsesWith. exact Hv.
Qed.

Lemma folded_to_plain (b : Block) (k : nat) (v : Value) :
  v <> VInst k -> folded_to b (IR.ReplaceUsesWith b k v) k v.
Proof.
  intros Hv. destruct (ReplaceUsesWith_replaced b k v) as (L & _ & R & O & U).
  split; [exact L|]. split; [|split].
  - intros j p _. apply R.
  - intros j p a _. apply O.
  - apply U, Hv.
Qed.

Lemma zero_value (a : Value) :
  IsZero a = true -> exists t x, a = VImm t x /\ x mod 2 ^ bit_width t = 0.
Proof.
  unfold IsZero, IsUnsignedImmediate. destruct a as [|t x|]; simpl;
    try discriminate.
  intros H. apply Z.eqb_eq in H. eauto.
Qed.

Lemma Value_zero (w : bool) : IsZero (Value_ w 0) = true.
Proof. destruct w; reflexivity. Qed.

Lemma commutative_two_args (b : Block) (k : nat) (inst : Inst) :
  WF b -> b !! k = Some inst -> is_Some (commutative_op (opcode inst)) ->
  (2 <= NumArgs inst)%nat.
Proof.
  intros W Hk Hc. pose proof (has_min_args b k inst W Hk) as H.
  destruct (opcode inst); simpl in *; try lia;
    destruct Hc as [? Hc]; discriminate.
Qed.

(** X29.  Zero absorbs: on a well-formed block, an AND or a multiplication
    one of whose operands is an immediate zero is folded, whichever side the
    zero is on and whatever the other operand is: every use of the
    instruction becomes the immediate 0 of the output width of the
    opcode. *)
Theorem zero_absorbs (b : Block) (k : InstId) (inst : Inst) (t : ImmType)
    (a0 a1 : Value) :
  well_formed b = true ->
  b !! k = Some inst ->
  absorbs_zero (opcode inst) = Some t ->
  GetArg inst 0 = Some a0 ->
  GetArg inst 1 = Some a1 ->
  IsZero a0 = true \/ IsZero a1 = true ->
  exists b',
    ConstantPropagation_inst b k = Some b' /\ folded_to b b' k (VImm t 0).
Proof.
  intros Hwf Hk Hop H0 H1 Hzero. apply well_formed_WF in Hwf.
  set (w := Opcode_eqb (opcode inst) And32
            || Opcode_eqb (opcode inst) Mul32).
  assert (t = if w then U32 else U64) as Ht.
  { subst w. destruct (opcode inst); try discriminate Hop;
      apply Some_eq in Hop; subst t; reflexivity. }
  assert (is_Some (commutative_op (opcode inst))) as Hcomm.
  { destruct (opcode inst); try discriminate Hop; eauto. }
  assert (min_args (opcode inst) <> 0%nat) as Hmin.
  { destruct (opcode inst); try discriminate Hop; discriminate. }
  (* the two folders at once *)
  assert (forall f,
            (forall X, f X 0 = 0) -> (forall Y, f 0 Y = 0) ->
            f = imm_and \/ f = imm_mul ->
            exists b1,
              (FoldCommutative b k w f
               = Some (IR.ReplaceUsesWith b k (VImm t 0), false)) \/
              (exists inst2 v1,
                  FoldCommutative b k w f = Some (<[k := inst2]> b, true) /\
                  (2 <= NumArgs inst2)%nat /\
                  GetArg inst2 1 = Some v1 /\ IsZero v1 = true /\
                  b1 = <[k := inst2]> b)) as Hcore.
  { intros f Hf0 H0f _.
    destruct (IsImmediate a0) eqn:I0; destruct (IsImmediate a1) eqn:I1.
    - (* both immediates *)
      destruct a0 as [|ta x|]; try discriminate.
      destruct a1 as [|tb y|]; try discriminate.
      exists b. left.
      rewrite (FoldCommutative_immediates b k inst w f ta x tb y Hk H0 H1).
      assert (f (x mod 2 ^ bit_width ta) (y mod 2 ^ bit_width tb) = 0) as ->.
      { destruct Hzero as [Hz|Hz]; apply zero_value in Hz;
          destruct Hz as (t' & x' & E & Hz); injection E as <- <-;
          rewrite Hz; auto. }
      rewrite width_zero, Ht. reflexivity.
    - (* the zero on the left *)
      assert (IsZero a0 = true) as Hz.
      { destruct Hzero as [Hz|Hz]; [exact Hz|].
        apply zero_value in Hz. destruct Hz as (? & ? & -> & _).
        discriminate. }
      destruct (operand_refers_to_earlier b k 1 inst a1 Hwf Hk Hmin H1 I1)
        as (r & inst_r & -> & Hlt & Hr).
      apply zero_value in Hz. destruct Hz as (ta & x & -> & Hx).
      pose proof (commutative_two_args b k inst Hwf Hk Hcomm) as Hn.
      destruct (decide (opcode inst_r = opcode inst)) as [Heq|Hne].
      + assert (2 <= NumArgs inst_r)%nat as Hnr.
        { apply (commutative_two_args b r inst_r Hwf Hr).
          rewrite Heq. exact Hcomm. }
        destruct (GetArg_exists inst_r 0) as [z Hz0]; [lia|].
        destruct (GetArg_exists inst_r 1) as [c Hc]; [lia|].
        destruct (IsImmediate c) eqn:Ic.
        * destruct c as [|tc cv|]; try discriminate.
          eexists. right. eexists _, _.
          split; [apply (FoldCommutative_fuses b k r inst inst_r w f ta tc
                           x cv z Hk (or_intror (conj H0 H1)) Hr Heq Hz0 Hc)|].
          rewrite Hx, H0f, !NumArgs_with_arg.
          split; [exact Hn|]. split.
          { apply GetArg_with_arg_eq. rewrite NumArgs_with_arg. lia. }
          split; [apply Value_zero|reflexivity].
        * eexists. right. eexists _, _.
          split; [apply (FoldCommutative_normalizes b k r inst inst_r w f
                           (VImm ta x) Hk (or_intror (conj H0 H1)) eq_refl Hr);
                  right; eauto|].
          rewrite !NumArgs_with_arg. split; [exact Hn|]. split.
          { apply GetArg_with_arg_eq. rewrite NumArgs_with_arg. lia. }
          split; [|reflexivity].
          unfold IsZero, IsUnsignedImmediate. simpl. rewrite Hx. reflexivity.
      + eexists. right. eexists _, _.
        split; [apply (FoldCommutative_normalizes b k r inst inst_r w f
                         (VImm ta x) Hk (or_intror (conj H0 H1)) eq_refl Hr);
                left; exact Hne|].
        rewrite !NumArgs_with_arg. split; [exact Hn|]. split.
        { apply GetArg_with_arg_eq. rewrite NumArgs_with_arg. lia. }
        split; [|reflexivity].
        unfold IsZero, IsUnsignedImmediate. simpl. rewrite Hx. reflexivity.
    - (* the zero on the right *)
      assert (IsZero a1 = true) as Hz.
      { destruct Hzero as [Hz|Hz]; [|exact Hz].
        apply zero_value in Hz. destruct Hz as (? & ? & -> & _).
        discriminate. }
      destruct (operand_refers_to_earlier b k 0 inst a0 Hwf Hk Hmin H0 I0)
        as (r & inst_r & -> & Hlt & Hr).
      apply zero_value in Hz. destruct Hz as (tb & y & -> & Hy).
      pose proof (commutative_two_args b k inst Hwf Hk Hcomm) as Hn.
      destruct (decide (opcode inst_r = opcode inst)) as [Heq|Hne].
      + assert (2 <= NumArgs inst_r)%nat as Hnr.
        { apply (commutative_two_args b r inst_r Hwf Hr).
          rewrite Heq. exact Hcomm. }
        destruct (GetArg_exists inst_r 0) as [z Hz0]; [lia|].
        destruct (GetArg_exists inst_r 1) as [c Hc]; [lia|].
        destruct (IsImmediate c) eqn:Ic.
        * destruct c as [|tc cv|]; try discriminate.
          eexists. right. eexists _, _.
          split; [apply (FoldCommutative_fuses b k r inst inst_r w f tb tc
                           y cv z Hk (or_introl (conj H0 H1)) Hr Heq Hz0 Hc)|].
          rewrite Hy, H0f, !NumArgs_with_arg.
          split; [exact Hn|]. split.
          { apply GetArg_with_arg_eq. rewrite NumArgs_with_arg. lia. }
          split; [apply Value_zero|reflexivity].
        * eexists. right. eexists _, _.
          split; [apply (FoldCommutative_normalizes b k r inst inst_r w f
                           (VImm tb y) Hk (or_introl (conj H0 H1)) eq_refl Hr);
                  right; eauto|].
          rewrite !NumArgs_with_arg. split; [exact Hn|]. split.
          { apply GetArg_with_arg_eq. rewrite NumArgs_with_arg. lia. }
          split; [|reflexivity].
          unfold IsZero, IsUnsignedImmediate. simpl. rewrite Hy. reflexivity.
      + eexists. right. eexists _, _.
        split; [apply (FoldCommutative_normalizes b k r inst inst_r w f
                         (VImm tb y) Hk (or_introl (conj H0 H1)) eq_refl Hr);
                left; exact Hne|].
        rewrite !NumArgs_with_arg. split; [exact Hn|]. split.
        { apply GetArg_with_arg_eq. rewrite NumArgs_with_arg. lia. }
        split; [|reflexivity].
        unfold IsZero, IsUnsignedImmediate. simpl. rewrite Hy. reflexivity.
    - (* no immediate: no zero *)
      exfalso. destruct Hzero as [Hz|Hz]; apply zero_value in Hz;
        destruct Hz as (? & ? & -> & _); discriminate. }
  assert (k < length b)%nat as Hlt by (eapply lookup_lt_Some; eauto).
  assert (forall f F,
            (forall X, f X 0 = 0) -> (forall Y, f 0 Y = 0) ->
            (f = imm_and /\ F = FoldAND) \/ (f = imm_mul /\ F = FoldMultiply) ->
            exists b', F b k w = Some b' /\ folded_to b b' k (VImm t 0))
    as Hfolder.
  { intros f F Hf0 H0f HF.
    destruct (Hcore f Hf0 H0f) as (b1 & [Hc|(inst2 & v1 & Hc & Hn2 & Hv1 & Hz1 & _)]).
    { destruct HF as [[-> ->]|[-> ->]]; auto. }
    - exists (IR.ReplaceUsesWith b k (VImm t 0)).
      split; [|apply folded_to_plain; discriminate].
      destruct HF as [[-> ->]|[-> ->]];
        unfold FoldAND, FoldMultiply; rewrite Hc; reflexivity.
    - destruct (GetArg_exists inst2 0) as [v0 Hv0]; [lia|].
      assert (<[k := inst2]> b !! k = Some inst2) as Hk2
        by (apply list_lookup_insert_eq, Hlt).
      destruct (commutative_tail b (<[k := inst2]> b) k inst2 w v0 v1
                  Hk2 Hv0 Hv1) as (TA & TM & _).
      exists (IR.ReplaceUsesWith (<[k := inst2]> b) k (VImm t 0)).
      split; [|apply folded_to_after_rewrite; discriminate].
      destruct HF as [[-> ->]|[-> ->]];
        [rewrite (TA Hc)|rewrite (TM Hc)];
        rewrite Hz1, width_zero, Ht; reflexivity. }
  unfold ConstantPropagation_inst. rewrite Hk. obind. cbv zeta.
  destruct (opcode inst) eqn:E; try discriminate Hop.
  - apply (Hfolder imm_mul FoldMultiply).
    + intros X. unfold imm_mul, cast_u64. rewrite Z.mul_0_r. reflexivity.
    + intros Y. reflexivity.
    + right. auto.
  - apply (Hfolder imm_mul FoldMultiply).
    + intros X. unfold imm_mul, cast_u64. rewrite Z.mul_0_r. reflexivity.
    + intros Y. reflexivity.
    + right. auto.
  - apply (Hfolder imm_and FoldAND).
    + intros X. apply Z.land_0_r.
    + intros Y. reflexivity.
    + left. auto.
  - apply (Hfolder imm_and FoldAND).
    + intros X. apply Z.land_0_r.
    + intros Y. reflexivity.
    + left. auto.
Qed.

Lemma zero_absorbs_witness :
  well_formed constants_block = true /\
  constants_block !! 9%nat = Some (mkInst Mul32 [VImm U32 0; VInst 7] []) /\
  absorbs_zero Mul32 = Some U32 /\
  IsZero (VImm U32 0) = true /\
  exists b',
    ConstantPropagation_inst constants_block 9 = Some b' /\
    folded_to constants_block b' 9 (VImm U32 0).
Proof.
  split; [reflexivity|]. split; [reflexivity|]. split; [reflexivity|].
  split; [reflexivity|].
  apply (zero_absorbs constants_block 9
           (mkInst Mul32 [VImm U32 0; VInst 7] []) U32
           (VImm U32 0) (VInst 7));
    try reflexivity.
  left. reflexivity.
Defined.

(** ** Re-association of constants *)

Lemma fused_value (op : BinOp) (t tb tc : ImmType) (w : bool) (y c : Z) :
  t = (if w then U32 else U64) ->
  Value_ w (match op with
            | OpAnd => imm_and | OpOr => imm_or
            | OpEor => imm_eor | OpMul => imm_mul
            end (y mod 2 ^ bit_width tb) (c mod 2 ^ bit_width tc))
  = VImm t (exact op (y mod 2 ^ bit_width tb) (c mod 2 ^ bit_width tc)
            mod 2 ^ bit_width t).
Proof.
  intros ->.
  pose proof (imm_fn_is_u64_evaluation op tb tc y c) as E. cbv zeta in E.
  assert (forall f, f = cast_u64 (exact op (y mod 2 ^ bit_width tb)
                                     (c mod 2 ^ bit_width tc)) ->
                    Value_ w f
                    = VImm (if w then U32 else U64)
                        (exact op (y mod 2 ^ bit_width tb)
                                  (c mod 2 ^ bit_width tc)
                         mod 2 ^ bit_width (if w then U32 else U64))) as G.
  { intros f ->. unfold Value_, cast_u64, cast_u32. destruct w.
    - f_equal. apply (truncate_u64_then_width U32).
    - reflexivity. }
  destruct op; apply G; exact E.
Qed.

(** Once [FoldCommutative] has rewritten the operands of [k], the rest of
    the folder leaves instruction [k] as it is. *)
Lemma rewritten_instruction_stays (b : Block) (k : nat) (inst2 : Inst)
    (w : bool) :
  (k < length b)%nat -> (2 <= NumArgs inst2)%nat ->
  inst_ordered k inst2 = true ->
  (FoldCommutative b k w imm_and = Some (<[k := inst2]> b, true) ->
   exists b', FoldAND b k w = Some b' /\ b' !! k = Some inst2) /\
  (FoldCommutative b k w imm_mul = Some (<[k := inst2]> b, true) ->
   exists b', FoldMultiply b k w = Some b' /\ b' !! k = Some inst2) /\
  (FoldCommutative b k w imm_eor = Some (<[k := inst2]> b, true) ->
   exists b', FoldEOR b k w = Some b' /\ b' !! k = Some inst2) /\
  (FoldCommutative b k w imm_or = Some (<[k := inst2]> b, true) ->
   exists b', FoldOR b k w = Some b' /\ b' !! k = Some inst2).
Proof.
  intros Hlt Hn Ho.
  destruct (GetArg_exists inst2 0) as [v0 Hv0]; [lia|].
  destruct (GetArg_exists inst2 1) as [v1 Hv1]; [lia|].
  assert (<[k := inst2]> b !! k = Some inst2) as Hk2
    by (apply list_lookup_insert_eq, Hlt).
  assert (forall v, IR.ReplaceUsesWith (<[k := inst2]> b) k v !! k
                    = Some inst2) as Hrep.
  { intros v. rewrite lookup_ReplaceUsesWith, Hk2. simpl.
    rewrite (subst_inst_below k k v inst2 Ho) by lia. reflexivity. }
  destruct (commutative_tail b (<[k := inst2]> b) k inst2 w v0 v1
              Hk2 Hv0 Hv1) as (TA & TM & TE & TO).
  repeat split; intros Hc.
  - rewrite (TA Hc). destruct (IsZero v1); [|destruct (HasAllBitsSet v1)];
      eexists; (split; [reflexivity|]); rewrite ?width_zero; auto.
  - rewrite (TM Hc).
    destruct (IsZero v1); [|destruct (IsUnsignedImmediate v1 1)];
      eexists; (split; [reflexivity|]); rewrite ?width_zero; auto.
  - rewrite (TE Hc). destruct (IsZero v1);
      eexists; (split; [reflexivity|]); auto.
  - rewrite (TO Hc). destruct (IsZero v1);
      eexists; (split; [reflexivity|]); auto.
Qed.

(** X30.  Re-association of constants: in a block in SSA order, when one
    operand of a commutative operation is an immediate [y] and the other is
    the result of the same operation applied to [z] and an immediate [c],
    the pass step rewrites the instruction in place to the operation on [z]
    and the single immediate [y op c] of the output width (whichever side
    the immediate [y] was on).  The rewriting keeps the value: for every
    value [n] of [z], the bits of [(n op c) op y] below the output width are
    the bits of [n op (y op c)]. *)
Theorem commutative_constants_fuse (b : Block) (k r : InstId)
    (inst inst_r : Inst) (op : BinOp) (t tb tc : ImmType) (y c : Z)
    (z : Value) :
  ssa_ordered b = true ->
  b !! k = Some inst ->
  commutative_op (opcode inst) = Some (op, t) ->
  (GetArg inst 0 = Some (VInst r) /\ GetArg inst 1 = Some (VImm tb y)) \/
  (GetArg inst 0 = Some (VImm tb y) /\ GetArg inst 1 = Some (VInst r)) ->
  b !! r = Some inst_r ->
  opcode inst_r = opcode inst ->
  GetArg inst_r 0 = Some z ->
  GetArg inst_r 1 = Some (VImm tc c) ->
  let Y := y mod 2 ^ bit_width tb in
  let C := c mod 2 ^ bit_width tc in
  let fused := exact op Y C mod 2 ^ bit_width t in
  (exists b' inst',
     ConstantPropagation_inst b k = Some b' /\
     b' !! k = Some inst' /\
     opcode inst' = opcode inst /\
     GetArg inst' 0 = Some z /\
     GetArg inst' 1 = Some (VImm t fused)) /\
  (forall n i, 0 <= i < bit_width t ->
               Z.testbit (exact op (exact op n C) Y) i
               = Z.testbit (exact op n fused) i).
Proof.
  intros Hssa Hk Hop Hargs Hr Heq Hz Hc Y C fused.
  assert (0 <= bit_width t) as Hw by (destruct t; simpl; lia).
  split.
  - set (w := Opcode_eqb (opcode inst) And32
              || Opcode_eqb (opcode inst) Mul32
              || Opcode_eqb (opcode inst) Eor32
              || Opcode_eqb (opcode inst) Or32).
    assert (t = if w then U32 else U64) as Ht.
    { subst w. destruct (opcode inst); try discriminate Hop;
        apply Some_eq in Hop; injection Hop as _ <-; reflexivity. }
    set (f := match op with
              | OpAnd => imm_and | OpOr => imm_or
              | OpEor => imm_eor | OpMul => imm_mul
              end).
    pose proof (FoldCommutative_fuses b k r inst inst_r w f tb tc y c z
                  Hk Hargs Hr Heq Hz Hc) as Hf.
    subst f. rewrite (fused_value op t tb tc w y c Ht) in Hf.
    fold Y C fused in Hf.
    set (inst2 := with_arg (with_arg inst 0 z) 1 (VImm t fused)) in *.
    assert (2 <= NumArgs inst)%nat as Hn.
    { destruct Hargs as [[_ H1]|[_ H1]]; apply GetArg_lt in H1; lia. }
    assert (k < length b)%nat as Hlt by (eapply lookup_lt_Some; eauto).
    assert (NumArgs inst2 = NumArgs inst) as Hn2
      by (subst inst2; rewrite !NumArgs_with_arg; reflexivity).
    pose proof (ssa_ordered_lookup b k inst Hssa Hk) as Ok.
    pose proof (ssa_ordered_lookup b r inst_r Hssa Hr) as Or.
    assert (r < k)%nat as Hrk.
    { assert (refs_below k (VInst r) = true) as H
        by (destruct Hargs as [[H _]|[_ H]];
            exact (ordered_arg_below k inst _ _ Ok H)).
      simpl in H. apply Nat.ltb_lt in H. exact H. }
    assert (refs_below k z = true) as Hzk.
    { apply (refs_below_mono k r); [|lia].
      exact (ordered_arg_below r inst_r 0 z Or Hz). }
    assert (inst_ordered k inst2 = true) as O2.
    { unfold inst_ordered in *. apply andb_true_iff in Ok.
      destruct Ok as [Oa Op]. apply andb_true_iff. split; [|exact Op].
      subst inst2. unfold with_arg. simpl.
      apply forallb_insert; [|reflexivity].
      apply forallb_insert; [exact Oa|exact Hzk]. }
    assert (opcode inst2 = opcode inst) as Ho2 by reflexivity.
    assert (GetArg inst2 0 = Some z) as G0.
    { subst inst2. rewrite (GetArg_with_arg_ne _ 1 0) by lia.
      apply GetArg_with_arg_eq. lia. }
    assert (GetArg inst2 1 = Some (VImm t fused)) as G1.
    { subst inst2. apply GetArg_with_arg_eq. rewrite NumArgs_with_arg. lia. }
    destruct (rewritten_instruction_stays b k inst2 w Hlt ltac:(lia) O2)
      as (SA & SM & SE & SO).
    assert (exists b', ConstantPropagation_inst b k = Some b' /\
                       b' !! k = Some inst2) as (b' & Hb' & Hk').
    { unfold ConstantPropagation_inst. rewrite Hk. obind. cbv zeta.
      destruct (opcode inst) eqn:E; try discriminate Hop;
        apply Some_eq in Hop; injection Hop as <- <-;
        subst w; cbn [Opcode_eqb orb] in *.
      - exact (SM Hf).
      - exact (SM Hf).
      - exact (SA Hf).
      - exact (SA Hf).
      - exact (SE Hf).
      - exact (SE Hf).
      - exact (SO Hf).
      - exact (SO Hf). }
    exists b', inst2. auto.
  - intros n i Hi. subst fused. destruct op; simpl.
    + rewrite !Z.land_spec, Z.mod_pow2_bits_low by lia.
      rewrite Z.land_spec.
      destruct (Z.testbit n i), (Z.testbit C i), (Z.testbit Y i); reflexivity.
    + rewrite !Z.lor_spec, Z.mod_pow2_bits_low by lia.
      rewrite Z.lor_spec.
      destruct (Z.testbit n i), (Z.testbit C i), (Z.testbit Y i); reflexivity.
    + rewrite !Z.lxor_spec, Z.mod_pow2_bits_low by lia.
      rewrite Z.lxor_spec.
      destruct (Z.testbit n i), (Z.testbit C i), (Z.testbit Y i); reflexivity.
    + rewrite <- (Z.mod_pow2_bits_low (n * C * Y) (bit_width t) i) by lia.
      rewrite <- (Z.mod_pow2_bits_low (n * _) (bit_width t) i) by lia.
      f_equal. rewrite Z.mul_mod_idemp_r by (apply Z.pow_nonzero; lia).
      f_equal. ring.
Qed.

Lemma commutative_constants_fuse_witness :
  ssa_ordered constants_block = true /\
  constants_block !! 12%nat
  = Some (mkInst And32 [VInst 11; VImm U32 4080] []) /\
  constants_block !! 11%nat
  = Some (mkInst And32 [VInst 7; VImm U32 65295] []) /\
  commutative_op And32 = Some (OpAnd, U32) /\
  (exists b' inst',
     ConstantPropagation_inst constants_block 12 = Some b' /\
     b' !! 12%nat = Some inst' /\
     opcode inst' = And32 /\
     GetArg inst' 0 = Some (VInst 7) /\
     GetArg inst' 1 = Some (VImm U32 3840)) /\
  (forall n i, 0 <= i < 32 ->
               Z.testbit (Z.land (Z.land n 65295) 4080) i
               = Z.testbit (Z.land n 3840) i).
Proof.
  split; [reflexivity|]. split; [reflexivity|]. split; [reflexivity|].
  split; [reflexivity|].
  apply (commutative_constants_fuse constants_block 12 11
           (mkInst And32 [VInst 11; VImm U32 4080] [])
           (mkInst And32 [VInst 7; VImm U32 65295] [])
           OpAnd U32 U32 U32 4080 65295 (VInst 7));
    try reflexivity.
  left. split; reflexivity.
Defined.

End ConstPropFacts.
